(* ===== verification/_CoqProject ===== *)
-Q . S2P
Prelude.v
DList.v
ListPrims.v
Interfaces.v
BaseCache.v
CacheSpec.v
CacheAPI.v
LRUCache.v
FIFOCache.v
StrictLRUCache.v
ScalableCache.v
FHCache.v
FHLinks.v
FastHash.v
FIFOFH.v
FHSlots.v
FIFOFHSpec.v
FIFOFHProps.v
LRUFH.v
Util.v
LogFormat.v
LogRoundtrip.v
LogServer.v
LogServerProps.v
Monitor.v
MonitorProps.v
Curve.v
CurveProps.v
FreqLists.v
LFU.v
LFUFH.v
LFUFHProps.v
LFUCurve.v
ShardCalls.v
RedisLRU.v
RedisLRUProps.v
Machine.v
PageBuffer.v
PageBufferProps.v
Recovery.v
RecoveryProps.v
RecoveryLive.v
RecoverySpec.v
SPDKPipeline.v
SPDKPipelineInv.v
SPDKPipelineSteps.v
SPDKPipelineSpec.v
LogWriter.v
GroupCommit.v
GroupCommitInv.v
GroupCommitSteps.v
GroupCommitSet.v
GroupCommitEvents.v
GroupCommitWrite.v
GroupCommitSpec.v
GroupCommitDevice.v
GroupCommitHeld.v
GroupCommitLive.v
TraceLoader.v
TraceLoaderProps.v
Workload.v
Client.v
ClientWitness.v
Stats.v
ShardStats.v
BaseMonitor.v
SPDKDevice.v
