(* ===== verification/Prelude.v ===== *)
(** * FrozenHot: a verification development

    FrozenHot is an in-memory cache whose most popular entries are frozen from
    time to time: they move to a hash table that is read without locks, while
    the rest stays in an ordinary cache.  This library models the C++ program
    under [src/] and proves what makes it correct.

    ** The program and the files

    - Lists and tables.  [DList] and [ListPrims] are the doubly-linked lists of
      all caches in a pointer heap in which a bad access is a crash;
      [Interfaces] the hash tables of other projects (TBB's
      [concurrent_hash_map], CLHT) as classes with laws.
    - Eviction policies ([src/cache/]).  [LRUCache] is [hhvm_lru_cache.h],
      [FIFOCache] [FIFO.h], [StrictLRUCache] [strict_lru.h], [RedisLRU]
      [redis_lru.h], [LFU] [lfu.h] over the [FreqLists] it shares with
      [LFUFH]; [BaseCache] has the counters of [baseCache.h].  [CacheSpec] is
      the list of entries they are proved to refine; [CacheAPI] ([cache.h])
      the interface they implement, with its laws.
    - FrozenHot policies.  [FIFOFH] is [FIFO_FH.h], [LRUFH]
      [hhvm_lru_cache_FH.h], [LFUFH] [lfu_FH.h]; [FHCache] the counters of
      [FHCache.h], [FastHash] the frozen table ([src/hash/]); [FHLinks] and
      [FHSlots] are the two lists of such a cache and what their nodes stand
      for.  [Curve] and [LFUCurve] are their [get_curve].
    - The sharded cache ([hhvm-scalable-cache.h]).  [ScalableCache] dispatches
      calls to shards behind [CacheAPI]; [ShardStats] is what it prints and
      measures, with [Stats] and [Util] ([ssdlogging/util.h]); [Monitor] and
      [BaseMonitor] are its two controllers, [ShardCalls] what the calls of the
      controller do to a shard.
    - The benchmark ([test_trace.cpp], [src/traceloader/]).  [TraceLoader] reads
      the traces, [Workload] has the properties and the synthetic keys,
      [Client] the command line and the threads that serve a trace through the
      sharded cache.
    - The log ([src/ssdlogging/]).  [LogFormat] is the page format, [LogServer]
      the log files and the metadata page, [SPDKPipeline] the writes in flight
      of [spdk_logging_server.cc]; [PageBuffer] and [Recovery] are
      [spdk_logging_recovery.cc]; [GroupCommit] is [ssdlogging_server.cc] with
      the writers of [LogWriter], whose device writer shares one namespace
      between the logs ([GroupCommitDevice]); [SPDKDevice] opens the device.

    Other files hold the theorems of the file whose name they extend.  A
    definition has the name of the function, field or constructor it models.

    ** How the code is modelled

    A method is a function on the whole state of its object which ends with a
    result or a crash ([SM], below): a failed assertion, a null or freed
    pointer, an index out of range, a signed overflow.  Machine integers are
    integers with their wrap-around written out, [double] values exact
    rationals, bytes integers from 0 to 255.  [Rep]-like relations tie an
    object to its abstract contents; [wp] rules and [run]-lemmas compose them.

    Threads.  The methods of a cache run to completion; [construct_ratio],
    [find] of [LFUFH] and [get_curve] run beside others, which are arguments
    ([others n] is what they do between two steps).  [Client] interleaves its
    threads call by call: others run between the lookup of a miss and its
    insertion.  The group commit, the recovery and the
    writes in flight are machines ([Machine]) with an action per access to an
    atomic: a run is any interleaving, and their theorems are about all runs.

    What is not under [src/] is a parameter: the hash tables, their hash
    function, the clock and the generator where they are drawn from outside,
    what the controller observes ([Observations]), the pages of the device
    ([disk]), the file system of the loader ([open]), what SPDK answers, the
    floating-point Zipf generator and [atof].  Of this code, laws
    are assumed only of the hash tables, and the instances in [Interfaces] show
    that they can hold.

    ** What is proved

    - The caches: every sequence of calls is answered as the specification of
      the policy answers it, without a crash, a leak or a cache over its bound
      ([LRUCache.lru_run_refines], [LFU.lfu_refines],
      [RedisLRUProps.redis_run_refines]), also sharded
      ([ScalableCache.sharded_run_refines], [sharded_find_union]).  The LFU
      classes keep frequencies in [int] nodes: the theorem of [LFU] is about
      fewer than 2^31 calls, that of [LFUFH] says where the overflow crashes.
    - Freezing: constructing a frozen cache, whole or in part, and thawing it
      change the answer of no lookup and lose no entry; lookups, insertions and
      deletions in between do what they should ([FIFOFHProps], [LFUFHProps]).
    - The controllers: all calls they make respect what the shards assert, if
      shard 0 is not empty when it is frozen and the LFU lists can be cut as
      asked (the conditions come from the shards, [ShardCalls]), their loops end, the decisions read the measurements they should
      ([MonitorProps], [BaseMonitor], [CurveProps], [LFUCurve], [ShardStats],
      [Stats]).
    - The benchmark: the loaders end on every file, read what was written and
      cut block accesses into all their blocks; the threads of the client serve
      every request of the trace as the reference does, in every interleaving of
      their calls, for shards with the laws of [CacheAPI] ([TraceLoaderProps],
      [Client]).
    - The log: what is encoded is decoded, what is logged is recovered in
      every interleaving; the metadata page always describes the log files;
      a write is acknowledged only after it is on the device; a call of
      [AddLog] returns once its data is durable, data is appended once, no
      schedule deadlocks ([LogRoundtrip], [LogServerProps], [SPDKPipelineSpec],
      [PageBufferProps], [RecoverySpec], [GroupCommitSpec], [GroupCommitLive]).
      That it stays there is proved for files, and for a device as long as no
      log outgrows its sectors ([GroupCommitDevice]).
    - Some theorems are about what goes wrong: [get_request_wraps],
      [second_log_blocks], [wrap_race_overwrites], and the lemmas that no
      group above names ([fh_empty_tier_stuck], [lfh_find_livelock],
      [shard_latency_overflow], [binary_single_file_tail], [lfu_hit_overflows],
      [controller_empty_shard], [log_overrun], [init_spdk_second_namespace],
      [ended_servers_acknowledge_nothing]).

    ** Bounds and fuel

    A loop that is not structural has fuel and crashes with [OutOfFuel] when it
    runs out, so a theorem that a function returns says that the fuel given is
    enough.  List traversals have one more than the nodes of the heap; loops of
    the loaders one more than the characters, digits or blocks left
    ([TraceLoaderProps.loaders_end]); an eviction of the Redis-style cache two
    fillings; [find] of [LFUFH] one round if no other thread interferes;
    [get_curve] one more than the points in time before [should_stop] is set,
    or than the buckets; the controllers one more than the observations before
    [should_stop] is set.  The group commit assumes that [T] threads log
    records of at most [B] bytes with [T * B] below the 1 MB of a log buffer,
    as the source asserts; counters of pages of the recovery do not wrap.  The
    writes in flight are durable as long as no batch is given pages beyond
    [MAX_LPN_FOR_LOGGING]; what happens then is [wrap_race_overwrites].

    ** Not modelled

    The write test of [SPDKDevice] ([spdk_device.cc]), which nothing calls; the
    floating-point part of the Zipf generator; printing of times, the memory
    report of [sysinfo], [debug()] of the caches; the helpers of [util.h] that
    only call the system (time of day, CPU affinity, pause); sleeping and
    yielding; the queues of other repositories behind [GetCompletedRequest] and
    [GetLogEntry]; [thread_init], which hands a number to the hash tables; the
    two files that only list includes.  The constructor of the logging server of
    [spdk_logging_server.h] has the start of its server threads commented out;
    [SPDKPipeline] starts them as those lines would.  System calls and SPDK
    commands that fail end the process there and are left out.  CLHT and SPDK are submodules. *)

From stdpp Require Export base gmap list option numbers list_numbers.
From Stdlib Require Export ZArith Lia.

(** ** Machine integers

    [size_t], [uint64_t] and [unsigned long] are 64 bits wide, [uint32_t] and
    [unsigned] 32 bits; arithmetic on them wraps around. *)
Definition u64 (z : Z) : Z := z mod 2 ^ 64.
Definition u32 (z : Z) : Z := z mod 2 ^ 32.
(** Conversion to a 32-bit [int]. *)
Definition i32 (z : Z) : Z := ((z + 2 ^ 31) mod 2 ^ 32 - 2 ^ 31)%Z.

Lemma i32_range z : (- 2 ^ 31 <= i32 z < 2 ^ 31)%Z.
Proof. unfold i32. assert (H := Z.mod_pos_bound (z + 2 ^ 31) (2 ^ 32) eq_refl). lia. Qed.

Lemma i32_small z : (- 2 ^ 31 <= z < 2 ^ 31)%Z -> i32 z = z.
Proof. intros. unfold i32. rewrite Z.mod_small; lia. Qed.

Lemma u64_small z : (0 <= z < 2 ^ 64)%Z -> u64 z = z.
Proof. apply Z.mod_small. Qed.

Lemma u32_small z : (0 <= z < 2 ^ 32)%Z -> u32 z = z.
Proof. apply Z.mod_small. Qed.

Lemma u64_range z : (0 <= u64 z < 2 ^ 64)%Z.
Proof. apply Z.mod_pos_bound. lia. Qed.

Lemma u32_range z : (0 <= u32 z < 2 ^ 32)%Z.
Proof. apply Z.mod_pos_bound. lia. Qed.

(** ** Crashes

    What ends the process, or is undefined behaviour: a failed [assert], a
    load or store through [nullptr], through the out-of-list marker [OutOfListMarker] (the address -1)
    or through a freed address, and [free] of an address that is not
    allocated, an index out of range ([at] throws), an integer division by
    zero and the overflow of a signed integer.  [OutOfFuel] marks a loop whose bound was too small; theorems
    that a function returns exclude it like every other crash. *)
Inductive crash :=
  | NullDeref | BadPointer | UseAfterFree | AssertFail | OutOfRange | DivideByZero | SignedOverflow | OutOfFuel.

Inductive res (A : Type) := Ok (a : A) | Crash (e : crash).
Arguments Ok {A} a.
Arguments Crash {A} e.

#[export] Instance crash_eq_dec : EqDecision crash.
Proof. solve_decision. Defined.

#[export] Instance res_ret : MRet res := fun _ a => Ok a.
#[export] Instance res_bind : MBind res := fun _ _ k m =>
  match m with Ok a => k a | Crash e => Crash e end.

(** [assert(b)] outside the state monad *)
Definition assertR (b : bool) : res unit := if b then Ok tt else Crash AssertFail.

(** ** The state monad with crashes *)
Definition SM (S A : Type) : Type := S -> res (A * S).

#[export] Instance SM_ret {S} : MRet (SM S) := fun _ a s => Ok (a, s).
#[export] Instance SM_bind {S} : MBind (SM S) := fun _ _ k m s =>
  match m s with Ok (a, s') => k a s' | Crash e => Crash e end.

Definition crashes {S A} (e : crash) : SM S A := fun _ => Crash e.
Definition gets {S A} (f : S -> A) : SM S A := fun s => Ok (f s, s).
Definition modify {S} (f : S -> S) : SM S unit := fun s => Ok (tt, f s).
(** [assert(b)] *)
Definition assertM {S} (b : bool) : SM S unit :=
  if b then mret tt else crashes AssertFail.
Definition whenM {S} (b : bool) (m : SM S unit) : SM S unit :=
  if b then m else mret tt.

(** A component that owns a part [T] of a larger state [S] runs its own
    operations on that part. *)
Definition zoom {S T A} (get : S -> T) (put : T -> S -> S) (m : SM T A) : SM S A :=
  fun s => match m (get s) with Ok (a, t) => Ok (a, put t s) | Crash e => Crash e end.

(** ** Weakest preconditions, total: a crash satisfies no postcondition *)
Definition wp {S A} (m : SM S A) (s : S) (Q : A -> S -> Prop) : Prop :=
  match m s with Ok (a, s') => Q a s' | Crash _ => False end.

Section wp_rules.
Context {S : Type}.
Implicit Types s : S.

Lemma wp_elim {A} (m : SM S A) s Q :
  wp m s Q -> exists a s', m s = Ok (a, s') /\ Q a s'.
Proof. unfold wp. destruct (m s) as [[a s']|]; [eauto | done]. Qed.

Lemma wp_intro {A} (m : SM S A) s (Q : A -> S -> Prop) a s' :
  m s = Ok (a, s') -> Q a s' -> wp m s Q.
Proof. unfold wp. by intros ->. Qed.

Lemma wp_mono {A} (m : SM S A) s (P Q : A -> S -> Prop) :
  wp m s P -> (forall a s', P a s' -> Q a s') -> wp m s Q.
Proof. unfold wp. destruct (m s) as [[a s']|]; auto. Qed.

Lemma wp_bind {A B} (m : SM S A) (k : A -> SM S B) s Q :
  wp m s (fun a s' => wp (k a) s' Q) -> wp (m ≫= k) s Q.
Proof. unfold wp, mbind, SM_bind. by destruct (m s) as [[a s']|]. Qed.

Lemma wp_ret {A} (a : A) s (Q : A -> S -> Prop) : Q a s -> wp (mret a) s Q.
Proof. done. Qed.

Lemma wp_gets {A} (f : S -> A) s (Q : A -> S -> Prop) : Q (f s) s -> wp (gets f) s Q.
Proof. done. Qed.

Lemma wp_modify (f : S -> S) s (Q : unit -> S -> Prop) : Q tt (f s) -> wp (modify f) s Q.
Proof. done. Qed.

Lemma wp_assert b s (Q : unit -> S -> Prop) : b = true -> Q tt s -> wp (assertM b) s Q.
Proof. by intros ->. Qed.

Lemma wp_when b (m : SM S unit) s (Q : unit -> S -> Prop) :
  (b = true -> wp m s Q) -> (b = false -> Q tt s) -> wp (whenM b m) s Q.
Proof. destruct b; intros H1 H2; [by apply H1 | by apply wp_ret, H2]. Qed.

Lemma whenM_false b (m : SM S unit) : b = false -> whenM b m = mret tt.
Proof. by intros ->. Qed.

Lemma wp_zoom {T A} (get : S -> T) (put : T -> S -> S) (m : SM T A) s Q :
  wp m (get s) (fun a t => Q a (put t s)) -> wp (zoom get put m) s Q.
Proof. unfold wp, zoom. by destruct (m (get s)) as [[a t]|]. Qed.
End wp_rules.

(** ** Lists *)
Section lists.
Context {A : Type} (P : A -> Prop) `{forall x, Decision (P x)}.

Lemma filter_all l : Forall P l -> filter P l = l.
Proof. induction 1 as [|x l Hx HF IH]; [done|]. rewrite filter_cons_True by done. by f_equal. Qed.

Lemma filter_none l : Forall (fun x => ~ P x) l -> filter P l = [].
Proof. induction 1 as [|x l Hx HF IH]; [done|]. by rewrite filter_cons_False. Qed.

Lemma removelast_elem (l : list A) x : x ∈ removelast l -> x ∈ l.
Proof. destruct l as [|y l _] using rev_ind; [done|]. rewrite removelast_last. intros Hx. apply elem_of_app. by left. Qed.
End lists.

Lemma fmap_concat {A B} (f : A -> B) (ll : list (list A)) : fmap (M := list) f (concat ll) = concat (fmap (M := list) (fmap (M := list) f) ll).
Proof. induction ll as [|l ll IH]; [done|]. cbn. by rewrite fmap_app, IH. Qed.

(** The sum of a list of integers. *)
Definition sumZ (xs : list Z) : Z := foldr Z.add 0%Z xs.

Lemma sumZ_snoc xs x : sumZ (xs ++ [x]) = (sumZ xs + x)%Z.
Proof. induction xs as [|y xs IH]; [cbn; lia|]. cbn [app]. unfold sumZ in *. cbn. rewrite IH. lia. Qed.

Lemma sumZ_cons x xs : sumZ (x :: xs) = (x + sumZ xs)%Z.
Proof. done. Qed.

Lemma sumZ_nonneg xs : Forall (fun x => (0 <= x)%Z) xs -> (0 <= sumZ xs)%Z.
Proof. induction 1 as [|x xs Hx Hxs IH]; [done|]. change (0 <= x + sumZ xs)%Z. lia. Qed.

Lemma sumZ_alter xs i n x : xs !! i = Some x -> sumZ (alter (fun y => y + n)%Z i xs) = (sumZ xs + n)%Z.
Proof.
  revert i. induction xs as [|y xs IH]; intros [|i] Hi; [done..| |]; cbn [alter list_alter lookup list_lookup] in *.
  - change (y + n + sumZ xs = y + sumZ xs + n)%Z. lia.
  - change (y + sumZ (alter (fun y => y + n) i xs) = y + sumZ xs + n)%Z. rewrite (IH i Hi). lia.
Qed.


(** ** Automation *)
Create HintDb frozen.

(** One step through the primitive operations of the monad. *)
Ltac wp_step :=
  lazymatch goal with
  | |- wp (mbind _ _) _ _ => apply wp_bind
  | |- wp (mret _) _ _ => apply wp_ret
  | |- wp (gets _) _ _ => apply wp_gets
  | |- wp (modify _) _ _ => apply wp_modify
  | |- wp (zoom _ _ _) _ _ => apply wp_zoom
  | |- wp (assertM _) _ _ => apply wp_assert
  end; cbn beta.
Ltac wp_steps := repeat (wp_step; try match goal with |- context [let '(_, _) := ?x in _] => is_var x; destruct x end).
