(* ===== verification/DList.v ===== *)
(** * Intrusive doubly-linked lists in a pointer heap

    Every cache of the repository keeps its eviction order in a doubly-linked
    list between two sentinel nodes ([m_head]/[m_tail]) whose nodes carry
    [m_prev] and [m_next] pointers.  This file has the memory those nodes live
    in ([arena]: the allocated nodes and the allocator's break), the loads,
    stores, [new] and [delete] of nodes as crashing operations, the predicate
    [dll] (the nodes of a list are linked both ways) and its split, frame and
    update lemmas, which every list operation of the caches is proved with. *)

From S2P Require Import Prelude.

(** ** Pointers, nodes, memory *)
Abbreviation loc := positive (only parsing).

Inductive ptr := nullptr | OutOfListMarker | addr (l : loc).

#[export] Instance ptr_eq_dec : EqDecision ptr.
Proof. solve_decision. Defined.

Definition ptr_eqb (p q : ptr) : bool := bool_decide (p = q).

Lemma ptr_eqb_refl p : ptr_eqb p p = true.
Proof. unfold ptr_eqb. by apply bool_decide_eq_true. Qed.

Lemma ptr_eqb_addr a b : ptr_eqb (addr a) (addr b) = bool_decide (a = b).
Proof. unfold ptr_eqb. apply bool_decide_ext. naive_solver. Qed.

Lemma ptr_eqb_marker a : ptr_eqb (addr a) OutOfListMarker = false.
Proof. done. Qed.

(** A list node: the data of the node type [P] and its two links. *)
Record node (P : Type) := Node { payload : P; m_prev : ptr; m_next : ptr }.
Arguments Node {P}.
Arguments payload {P}.
Arguments m_prev {P}.
Arguments m_next {P}.

Definition with_payload {P} (x : P) (n : node P) : node P := Node x (m_prev n) (m_next n).
Definition with_prev {P} (p : ptr) (n : node P) : node P := Node (payload n) p (m_next n).
Definition with_next {P} (p : ptr) (n : node P) : node P := Node (payload n) (m_prev n) p.

(** [cells] are the live nodes; [brk] is above every address ever handed out,
    so a freed address is never reused and a dangling pointer always faults. *)
Record arena (P : Type) := Arena { cells : gmap positive (node P); brk : positive }.
Arguments Arena {P}.
Arguments cells {P}.
Arguments brk {P}.

Definition on_cells {P} (f : gmap positive (node P) -> gmap positive (node P)) (h : arena P)
  : arena P := Arena (f (cells h)) (brk h).

(** ** Loads, stores, [new], [delete] *)
Section operations.
Context {P : Type}.

(** The node a pointer refers to, or the fault of dereferencing it. *)
Definition deref (p : ptr) : SM (arena P) (loc * node P) := fun h =>
  match p with
  | nullptr => Crash NullDeref
  | OutOfListMarker => Crash BadPointer
  | addr l => match cells h !! l with
              | Some n => Ok ((l, n), h)
              | None => Crash UseAfterFree
              end
  end.

Definition get_payload (p : ptr) : SM (arena P) P := ln ← deref p; mret (payload ln.2).
Definition get_prev (p : ptr) : SM (arena P) ptr := ln ← deref p; mret (m_prev ln.2).
Definition get_next (p : ptr) : SM (arena P) ptr := ln ← deref p; mret (m_next ln.2).

Definition store (p : ptr) (f : node P -> node P) : SM (arena P) unit :=
  ln ← deref p; modify (on_cells (alter f ln.1)).

Definition set_payload (p : ptr) (x : P) : SM (arena P) unit := store p (with_payload x).
Definition set_prev (p q : ptr) : SM (arena P) unit := store p (with_prev q).
Definition set_next (p q : ptr) : SM (arena P) unit := store p (with_next q).

(** [new ListNode(x)] with the constructor's [m_prev]/[m_next]. *)
Definition new_node (x : P) (prev next : ptr) : SM (arena P) ptr := fun h =>
  Ok (addr (brk h),
      Arena (<[brk h := Node x prev next]> (cells h)) (Pos.succ (brk h))).

Definition delete_node (p : ptr) : SM (arena P) unit :=
  ln ← deref p; modify (on_cells (delete ln.1)).
End operations.

(** ** Linked lists *)
Section dll.
Context {P : Type}.
Implicit Types (c : gmap positive (node P)) (L : list positive).

Definition nxt c (a : positive) : option ptr := m_next <$> c !! a.
Definition prv c (a : positive) : option ptr := m_prev <$> c !! a.
Definition pay c (a : positive) : option P := payload <$> c !! a.

Definition link c (a b : positive) : Prop := nxt c a = Some (addr b) /\ prv c b = Some (addr a).

(** The nodes of [L], sentinels included, are linked in this order both ways. *)
Fixpoint dll c L : Prop :=
  match L with
  | a :: (b :: _) as L' => link c a b /\ dll c L'
  | _ => True
  end.

Lemma dll_cons2 c a b L : dll c (a :: b :: L) <-> link c a b /\ dll c (b :: L).
Proof. done. Qed.

Lemma dll_app c L1 a L2 : dll c (L1 ++ a :: L2) <-> dll c (L1 ++ [a]) /\ dll c (a :: L2).
Proof.
  induction L1 as [|x [|y L1] IH]; simpl in *; [tauto | | ].
  - destruct L2; simpl; tauto.
  - rewrite IH. tauto.
Qed.

(** Where two adjacent nodes are, the list splits around their link. *)
Lemma dll_split c L1 a b L2 :
  dll c (L1 ++ a :: b :: L2) <-> dll c (L1 ++ [a]) /\ link c a b /\ dll c (b :: L2).
Proof. rewrite dll_app, dll_cons2. tauto. Qed.

(** A change of the heap that keeps [m_next] of all nodes but the last and
    [m_prev] of all nodes but the first keeps the list. *)
Lemma dll_ext c c' L :
  (forall x, x ∈ removelast L -> nxt c' x = nxt c x) ->
  (forall x, x ∈ tail L -> prv c' x = prv c x) -> dll c L -> dll c' L.
Proof.
  induction L as [|a [|b L] IH]; [done | done |].
  intros Hn Hp [[Hab Hba] Hd]. split.
  - split; [rewrite Hn | rewrite Hp]; [done | set_solver | done | set_solver].
  - apply IH; [ | | done]; intros x Hx; [apply Hn | apply Hp]; set_solver.
Qed.

Lemma removelast_sub x L : x ∈ removelast L -> x ∈ L.
Proof.
  induction L as [|a [|b L] IH]; simpl in *; [done | set_solver |].
  rewrite !elem_of_cons in *. naive_solver.
Qed.

Lemma tail_sub x L : x ∈ tail L -> x ∈ L.
Proof. destruct L; [done|]. by right. Qed.

Lemma removelast_snoc L a : removelast (L ++ [a]) = L.
Proof. apply removelast_last. Qed.

Lemma nxt_alter c x f y :
  nxt (alter f x c) y = if decide (x = y) then (m_next ∘ f) <$> c !! y else nxt c y.
Proof.
  unfold nxt. destruct (decide (x = y)) as [->|?].
  - rewrite lookup_alter_eq. by destruct (c !! y).
  - by rewrite lookup_alter_ne.
Qed.

Lemma prv_alter c x f y :
  prv (alter f x c) y = if decide (x = y) then (m_prev ∘ f) <$> c !! y else prv c y.
Proof.
  unfold prv. destruct (decide (x = y)) as [->|?].
  - rewrite lookup_alter_eq. by destruct (c !! y).
  - by rewrite lookup_alter_ne.
Qed.

Lemma pay_alter c x f y :
  pay (alter f x c) y = if decide (x = y) then (payload ∘ f) <$> c !! y else pay c y.
Proof.
  unfold pay. destruct (decide (x = y)) as [->|?].
  - rewrite lookup_alter_eq. by destruct (c !! y).
  - by rewrite lookup_alter_ne.
Qed.

Lemma nxt_set_prev c x p y : nxt (alter (with_prev p) x c) y = nxt c y.
Proof. rewrite nxt_alter. case_decide; [|done]. unfold nxt. by destruct (c !! y). Qed.

Lemma prv_set_next c x p y : prv (alter (with_next p) x c) y = prv c y.
Proof. rewrite prv_alter. case_decide; [|done]. unfold prv. by destruct (c !! y). Qed.

Lemma nxt_set_next_ne c x p y : x <> y -> nxt (alter (with_next p) x c) y = nxt c y.
Proof. intros. by rewrite nxt_alter, decide_False. Qed.

Lemma prv_set_prev_ne c x p y : x <> y -> prv (alter (with_prev p) x c) y = prv c y.
Proof. intros. by rewrite prv_alter, decide_False. Qed.

Lemma nxt_set_next_eq c x p : is_Some (c !! x) -> nxt (alter (with_next p) x c) x = Some p.
Proof. intros [m Hm]. by rewrite nxt_alter, decide_True, Hm. Qed.

Lemma prv_set_prev_eq c x p : is_Some (c !! x) -> prv (alter (with_prev p) x c) x = Some p.
Proof. intros [m Hm]. by rewrite prv_alter, decide_True, Hm. Qed.

(** A list between two ends: the links at its ends and the links inside. *)
Lemma dll_ends c a f L L' l b :
  f :: L = L' ++ [l] ->
  dll c (a :: (f :: L) ++ [b]) <-> link c a f /\ dll c (f :: L) /\ link c l b.
Proof.
  intros HL. cbn [app]. rewrite dll_cons2. rewrite (app_comm_cons L [b] f), HL, <- app_assoc. cbn [app].
  rewrite dll_app. cbn [dll]. tauto.
Qed.

Lemma dll_set_next c x p L :
  x ∉ removelast L -> dll c L -> dll (alter (with_next p) x c) L.
Proof.
  intros Hx. apply dll_ext; intros y Hy.
  - rewrite nxt_alter. case_decide; [subst; done | done].
  - rewrite prv_alter. case_decide; [subst; by destruct (c !! y) eqn:E; unfold prv; rewrite E | done].
Qed.

Lemma dll_set_prev c x p L :
  x ∉ tail L -> dll c L -> dll (alter (with_prev p) x c) L.
Proof.
  intros Hx. apply dll_ext; intros y Hy.
  - rewrite nxt_alter. case_decide; [subst; by destruct (c !! y) eqn:E; unfold nxt; rewrite E | done].
  - rewrite prv_alter. case_decide; [subst; done | done].
Qed.

Lemma dll_set_payload c x v L : dll c L -> dll (alter (with_payload v) x c) L.
Proof.
  apply dll_ext; intros y Hy;
    [rewrite nxt_alter | rewrite prv_alter]; case_decide; try done;
    subst; by destruct (c !! y) eqn:E; unfold nxt, prv; rewrite E.
Qed.

Lemma dll_insert c x n L : x ∉ L -> dll c L -> dll (<[x:=n]> c) L.
Proof.
  intros Hx. apply dll_ext; intros y Hy; unfold nxt, prv.
  - apply removelast_sub in Hy. rewrite lookup_insert_ne; [done | by intros ->].
  - rewrite lookup_insert_ne; [done|]. intros ->. destruct L; set_solver.
Qed.

Lemma dll_delete c x L : x ∉ L -> dll c L -> dll (delete x c) L.
Proof.
  intros Hx. apply dll_ext; intros y Hy; unfold nxt, prv.
  - apply removelast_sub in Hy. rewrite lookup_delete_ne; [done | by intros ->].
  - rewrite lookup_delete_ne; [done|]. intros ->. destruct L; set_solver.
Qed.

(** Every node of a list of at least two nodes is allocated. *)
Lemma link_alloc c a b : link c a b -> is_Some (c !! a) /\ is_Some (c !! b).
Proof.
  intros [H1 H2]. unfold nxt, prv in *.
  split; [by destruct (c !! a) | by destruct (c !! b)].
Qed.

Lemma dll_alloc c L x : 1 < length L -> dll c L -> x ∈ L -> is_Some (c !! x).
Proof.
  induction L as [|a [|b L] IH]; simpl; [lia | lia |].
  intros _ [Hl Hd] Hx. destruct (link_alloc _ _ _ Hl) as [Ha Hb].
  rewrite elem_of_cons in Hx. destruct Hx as [->|Hx]; [done|].
  destruct L as [|d L]; [apply list_elem_of_singleton in Hx; by subst |].
  apply IH; [simpl; lia | done | done].
Qed.
End dll.

(** ** Rules for the memory operations *)
Section memory_wp.
Context {P : Type}.
Implicit Types (h : arena P).

Lemma wp_deref l n h Q : cells h !! l = Some n -> Q (l, n) h -> wp (deref (addr l)) h Q.
Proof. intros H1 H2. unfold wp, deref. by rewrite H1. Qed.

Lemma wp_get_next l p h Q : nxt (cells h) l = Some p -> Q p h -> wp (get_next (addr l)) h Q.
Proof.
  unfold nxt. intros H1 H2. destruct (cells h !! l) as [n|] eqn:E; [|done].
  unfold get_next. wp_step. eapply wp_deref; [done|]. by simplify_eq/=.
Qed.

Lemma wp_get_prev l p h Q : prv (cells h) l = Some p -> Q p h -> wp (get_prev (addr l)) h Q.
Proof.
  unfold prv. intros H1 H2. destruct (cells h !! l) as [n|] eqn:E; [|done].
  unfold get_prev. wp_step. eapply wp_deref; [done|]. by simplify_eq/=.
Qed.

Lemma wp_get_payload l x h Q :
  pay (cells h) l = Some x -> Q x h -> wp (get_payload (addr l)) h Q.
Proof.
  unfold pay. intros H1 H2. destruct (cells h !! l) as [n|] eqn:E; [|done].
  unfold get_payload. wp_step. eapply wp_deref; [done|]. by simplify_eq/=.
Qed.

Lemma wp_store l f h Q :
  is_Some (cells h !! l) -> Q tt (on_cells (alter f l) h) -> wp (store (addr l) f) h Q.
Proof. intros [n Hn] HQ. unfold store. wp_step. by eapply wp_deref. Qed.

Lemma wp_set_next l p h Q :
  is_Some (cells h !! l) -> Q tt (on_cells (alter (with_next p) l) h) ->
  wp (set_next (addr l) p) h Q.
Proof. apply wp_store. Qed.

Lemma wp_set_prev l p h Q :
  is_Some (cells h !! l) -> Q tt (on_cells (alter (with_prev p) l) h) ->
  wp (set_prev (addr l) p) h Q.
Proof. apply wp_store. Qed.

Lemma wp_set_payload l x h Q :
  is_Some (cells h !! l) -> Q tt (on_cells (alter (with_payload x) l) h) ->
  wp (set_payload (addr l) x) h Q.
Proof. apply wp_store. Qed.

Lemma wp_new_node x p q h Q :
  Q (addr (brk h)) (Arena (<[brk h := Node x p q]> (cells h)) (Pos.succ (brk h))) ->
  wp (new_node x p q) h Q.
Proof. done. Qed.

Lemma wp_delete_node l h Q :
  is_Some (cells h !! l) -> Q tt (on_cells (delete l) h) -> wp (delete_node (addr l)) h Q.
Proof. intros [n Hn] HQ. unfold delete_node. wp_step. by eapply wp_deref. Qed.
End memory_wp.

(** ** Taking a node out, putting a node in

    The effect on the heap of the two list transactions all caches are made
    of: [delinked a n b] takes [n] out from between [a] and [b] and marks it
    out of list; [spliced a n b] puts [n] between [a] and [b]. *)
Section transactions.
Context {P : Type}.
Implicit Types (c : gmap positive (node P)) (L : list positive).

Definition delinked (a n b : positive) c : gmap positive (node P) :=
  alter (with_prev OutOfListMarker) n (alter (with_prev (addr a)) b (alter (with_next (addr b)) a c)).

Definition spliced (a n b : positive) c : gmap positive (node P) :=
  alter (with_next (addr n)) a (alter (with_prev (addr n)) b
    (alter (with_next (addr b)) n (alter (with_prev (addr a)) n c))).

Lemma dom_delinked a n b c : dom (delinked a n b c) = dom c.
Proof. unfold delinked. by rewrite !dom_alter_L. Qed.

Lemma dom_spliced a n b c : dom (spliced a n b c) = dom c.
Proof. unfold spliced. by rewrite !dom_alter_L. Qed.

Lemma pay_links c x f y : (forall m, payload (f m) = payload m) -> pay (alter f x c) y = pay c y.
Proof.
  intros Hf. rewrite pay_alter. case_decide; [|done]. unfold pay.
  destruct (c !! y); simpl; [by rewrite Hf | done].
Qed.

Lemma pay_delinked a n b c y : pay (delinked a n b c) y = pay c y.
Proof. unfold delinked. by rewrite !pay_links. Qed.

Lemma pay_spliced a n b c y : pay (spliced a n b c) y = pay c y.
Proof. unfold spliced. by rewrite !pay_links. Qed.

Lemma dll_delinked_frame a n b c L :
  a ∉ removelast L -> b ∉ tail L -> n ∉ tail L -> dll c L -> dll (delinked a n b c) L.
Proof. intros. unfold delinked. by apply dll_set_prev, dll_set_prev, dll_set_next. Qed.

Lemma dll_spliced_frame a n b c L :
  a ∉ removelast L -> b ∉ tail L -> n ∉ L -> dll c L -> dll (spliced a n b c) L.
Proof.
  intros ?? Hn ?. unfold spliced. apply dll_set_next; [done|]. apply dll_set_prev; [done|].
  apply dll_set_next; [intros ?%removelast_sub; done|].
  apply dll_set_prev; [|done]. destruct L; set_solver.
Qed.

Lemma prv_delinked_self a n b c : is_Some (c !! n) -> prv (delinked a n b c) n = Some OutOfListMarker.
Proof.
  intros [m Hm]. unfold delinked. rewrite prv_alter, decide_True by done.
  destruct (decide (b = n)) as [->|]; destruct (decide (a = n)) as [->|];
    rewrite ?lookup_alter_eq, ?lookup_alter_ne, ?lookup_alter_eq by done; rewrite ?Hm; try done.
  all: rewrite ?lookup_alter_ne by done; by rewrite ?lookup_alter_eq, ?Hm.
Qed.

Lemma prv_delinked_other a n b c x : x <> n -> x <> b -> prv (delinked a n b c) x = prv c x.
Proof.
  intros Hn Hb. unfold delinked.
  rewrite prv_alter, decide_False by done. rewrite prv_alter, decide_False by done.
  rewrite prv_alter. case_decide; [|done]. unfold prv. by destruct (c !! x).
Qed.

Lemma prv_spliced_other a n b c x : x <> n -> x <> b -> prv (spliced a n b c) x = prv c x.
Proof.
  intros Hn Hb. unfold spliced. rewrite prv_alter.
  case_decide as Hax.
  - subst a. unfold prv. rewrite !lookup_alter_ne by done. by destruct (c !! x).
  - rewrite !prv_alter, !decide_False by done. done.
Qed.

Lemma link_delinked a n b c :
  a <> n -> b <> n -> is_Some (c !! a) -> is_Some (c !! b) -> link (delinked a n b c) a b.
Proof.
  intros Ha Hb [ma Hma] [mb Hmb]. unfold delinked. split.
  - rewrite nxt_alter, decide_False by done. rewrite nxt_alter. case_decide; subst.
    + by rewrite lookup_alter_eq, Hma.
    + rewrite nxt_alter, decide_True by done. by rewrite Hma.
  - rewrite prv_alter, decide_False by done. rewrite prv_alter, decide_True by done.
    destruct (decide (a = b)) as [->|]; [rewrite lookup_alter_eq | rewrite lookup_alter_ne by done];
      by rewrite Hmb.
Qed.

(** Taking a node out of the middle of a list leaves the list of the others. *)
Lemma dll_delinked L1 a n b L2 c :
  NoDup (L1 ++ a :: n :: b :: L2) -> dll c (L1 ++ a :: n :: b :: L2) ->
  dll (delinked a n b c) (L1 ++ a :: b :: L2).
Proof.
  intros HN Hd. rewrite NoDup_app, !NoDup_cons in HN.
  destruct HN as (HN1 & Hdis & Ha & Hn & Hb & HN2).
  rewrite !dll_split in Hd. destruct Hd as (Hd1 & Hl1 & Hd2).
  rewrite dll_cons2 in Hd2. destruct Hd2 as [Hl2 Hd2].
  rewrite dll_split. split_and!.
  - apply dll_delinked_frame; [ | | | done].
    + rewrite removelast_snoc. set_solver.
    + destruct L1; set_solver.
    + destruct L1; set_solver.
  - apply link_alloc in Hl1, Hl2. apply link_delinked; set_solver.
  - apply dll_delinked_frame; [ | simpl; set_solver | simpl; set_solver | done].
    intros ?%removelast_sub. set_solver.
Qed.

Lemma link_spliced_l a n b c :
  a <> n -> b <> n -> a <> b -> is_Some (c !! a) -> is_Some (c !! n) -> link (spliced a n b c) a n.
Proof.
  intros ??? [ma Hma] [mn Hmn]. unfold spliced. split.
  - rewrite nxt_alter, decide_True by done.
    rewrite !lookup_alter_ne by done. by rewrite Hma.
  - rewrite prv_alter, decide_False by done. rewrite prv_alter, decide_False by done.
    rewrite prv_alter, decide_True by done. by rewrite lookup_alter_eq, Hmn.
Qed.

Lemma link_spliced_r a n b c :
  a <> n -> b <> n -> a <> b -> is_Some (c !! b) -> is_Some (c !! n) -> link (spliced a n b c) n b.
Proof.
  intros ??? [mb Hmb] [mn Hmn]. unfold spliced. split.
  - rewrite nxt_alter, decide_False by done. rewrite nxt_alter, decide_False by done.
    rewrite nxt_alter, decide_True by done. by rewrite lookup_alter_eq, Hmn.
  - rewrite prv_alter, decide_False by done. rewrite prv_alter, decide_True by done.
    rewrite !lookup_alter_ne by done. by rewrite Hmb.
Qed.

(** Putting a node that is not in the list between two neighbours. *)
Lemma dll_spliced L1 a n b L2 c :
  NoDup (L1 ++ a :: b :: L2) -> n ∉ L1 ++ a :: b :: L2 -> is_Some (c !! n) ->
  dll c (L1 ++ a :: b :: L2) -> dll (spliced a n b c) (L1 ++ a :: n :: b :: L2).
Proof.
  intros HN Hnin Hsome Hd. rewrite NoDup_app, !NoDup_cons in HN.
  destruct HN as (HN1 & Hdis & Ha & Hb & HN2).
  rewrite dll_split in Hd. destruct Hd as (Hd1 & Hl & Hd2).
  destruct (link_alloc _ _ _ Hl) as [Hsa Hsb].
  rewrite dll_split, dll_cons2. split_and!.
  - apply dll_spliced_frame; [ | | set_solver | done].
    + rewrite removelast_snoc. set_solver.
    + destruct L1; set_solver.
  - apply link_spliced_l; set_solver.
  - apply link_spliced_r; set_solver.
  - apply dll_spliced_frame; [ | simpl; set_solver | set_solver | done].
    intros ?%removelast_sub. set_solver.
Qed.
End transactions.
