(* ===== verification/ListPrims.v ===== *)
(** * List primitives of the HHVM-derived caches

    [ListNode::isInList], [delink], [pushFront] and the traversal loops of
    [clear] and [snapshotKeys], as [cache/hhvm_lru_cache.h] writes them
    ([cache/FIFO.h] and [cache/strict_lru.h] repeat the text), with the rule
    each is used by: what it needs of the heap and what it leaves. *)

From S2P Require Import Prelude DList.

(** The two sentinels are members of the object. *)
Definition m_head : loc := 1%positive.
Definition m_tail : loc := 2%positive.

(** ** List primitives *)
Section list_primitives.
Context {P : Type}.

Definition isInList (node : ptr) : SM (arena P) bool :=
  prev ← get_prev node; mret (negb (ptr_eqb prev OutOfListMarker)).

Definition delink (node : ptr) : SM (arena P) unit :=
  prev ← get_prev node;
  next ← get_next node;
  set_next prev next;;
  set_prev next prev;;
  set_prev node OutOfListMarker.

Definition pushFront (node : ptr) : SM (arena P) unit :=
  oldRealHead ← get_next (addr m_head);
  set_prev node (addr m_head);;
  set_next node oldRealHead;;
  set_prev oldRealHead node;;
  set_next (addr m_head) node.

(** The loops of [clear] (free every node up to [end_]) and [snapshotKeys]
    (collect every payload up to [end_]); [fuel] bounds the iterations. *)
Fixpoint free_until (end_ : ptr) (fuel : nat) (node : ptr) : SM (arena P) unit :=
  match fuel with
  | O => crashes OutOfFuel
  | S fuel =>
      if ptr_eqb node end_ then mret tt else
      next ← get_next node;
      delete_node node;;
      free_until end_ fuel next
  end.

Fixpoint collect_until (end_ : ptr) (fuel : nat) (node : ptr) : SM (arena P) (list P) :=
  match fuel with
  | O => crashes OutOfFuel
  | S fuel =>
      if ptr_eqb node end_ then mret [] else
      x ← get_payload node;
      next ← get_next node;
      xs ← collect_until end_ fuel next;
      mret (x :: xs)
  end.
End list_primitives.

(** ** Rules for the list primitives *)
Section list_rules.
Context {P : Type}.
Implicit Types h : arena P.

Lemma wp_isInList n p h Q :
  prv (cells h) n = Some p -> Q (negb (ptr_eqb p OutOfListMarker)) h -> wp (isInList (addr n)) h Q.
Proof. intros Hp HQ. unfold isInList. wp_step. by eapply wp_get_prev. Qed.

Lemma wp_delink a n b h Q :
  link (cells h) a n -> link (cells h) n b -> Q tt (on_cells (delinked a n b) h) ->
  wp (delink (addr n)) h Q.
Proof.
  intros Han Hnb HQ.
  destruct (link_alloc _ _ _ Han) as [Ha Hn], (link_alloc _ _ _ Hnb) as [_ Hb].
  destruct Han as [_ Hp], Hnb as [Hx _]. unfold delink.
  wp_step. eapply wp_get_prev; [done|]. wp_step. eapply wp_get_next; [done|].
  wp_step. apply wp_set_next; [done|].
  wp_step. apply wp_set_prev; [by simpl; rewrite lookup_alter_is_Some|].
  apply wp_set_prev; [by simpl; rewrite !lookup_alter_is_Some|]. done.
Qed.

Lemma wp_pushFront n x h Q :
  link (cells h) m_head x -> is_Some (cells h !! n) -> Q tt (on_cells (spliced m_head n x) h) ->
  wp (pushFront (addr n)) h Q.
Proof.
  intros Hl Hn HQ. destruct (link_alloc _ _ _ Hl) as [Hh Hx]. destruct Hl as [Hnx _].
  unfold pushFront. wp_step. eapply wp_get_next; [done|].
  wp_step. apply wp_set_prev; [done|].
  wp_step. apply wp_set_next; [by simpl; rewrite lookup_alter_is_Some|].
  wp_step. apply wp_set_prev; [by simpl; rewrite !lookup_alter_is_Some|].
  apply wp_set_next; [by simpl; rewrite !lookup_alter_is_Some|]. done.
Qed.

(** The links in forward direction only, which is all a traversal follows. *)
Definition forward (c : gmap positive (node P)) (L : list positive) : Prop :=
  forall a b L1 L2, L = L1 ++ a :: b :: L2 -> nxt c a = Some (addr b).

Lemma dll_forward c L : dll c L -> forward c L.
Proof. intros Hd a b L1 L2 ->. apply dll_split in Hd. by destruct Hd as (_ & [? _] & _). Qed.

Lemma forward_head c n ns e :
  forward c (n :: ns ++ [e]) -> nxt c n = Some (addr (default e (head ns))).
Proof.
  intros Hf. destruct ns as [|m ns]; [by apply (Hf n e [] []) | by apply (Hf n m [] (ns ++ [e]))].
Qed.

Lemma forward_tail c n L : forward c (n :: L) -> forward c L.
Proof. intros Hf a b L1 L2 ->. by apply (Hf a b (n :: L1) L2). Qed.

(** [clear]'s loop frees exactly the nodes between [node] and the end, and
    needs one iteration more than there are nodes. *)
Lemma wp_free_until e ns fuel h (Q : unit -> arena P -> Prop) :
  length ns < fuel -> NoDup (ns ++ [e]) ->
  forward (cells h) (ns ++ [e]) ->
  Q tt (on_cells (fun c => foldl (fun c n => delete n c) c ns) h) ->
  wp (free_until (addr e) fuel (addr (default e (head ns)))) h Q.
Proof.
  revert ns h. induction fuel as [|fuel IH]; intros ns h Hf HN Hnx HQ; [lia|].
  destruct ns as [|n ns]; cbn [head default from_option id free_until].
  - rewrite ptr_eqb_refl. apply wp_ret. destruct h. done.
  - simpl in HN. apply NoDup_cons in HN as [Hn HN].
    rewrite ptr_eqb_addr, bool_decide_eq_false_2 by set_solver.
    pose proof (forward_head _ _ _ _ Hnx) as Hd.
    wp_step. eapply wp_get_next; [exact Hd|]. wp_step. apply wp_delete_node.
    { unfold nxt in Hd. by destruct (cells h !! n). }
    apply IH; [simpl in Hf; lia | done | | done].
    intros a b L1 L2 HL. cbn [on_cells cells]. unfold nxt.
    rewrite lookup_delete_ne.
    + by apply (forward_tail _ _ _ Hnx a b L1 L2).
    + intros ->. apply Hn. rewrite HL. set_solver.
Qed.

Lemma wp_collect_until e ns xs fuel h (Q : list P -> arena P -> Prop) :
  length ns < fuel -> NoDup (ns ++ [e]) ->
  forward (cells h) (ns ++ [e]) ->
  Forall2 (fun n x => pay (cells h) n = Some x) ns xs -> Q xs h ->
  wp (collect_until (addr e) fuel (addr (default e (head ns)))) h Q.
Proof.
  revert ns xs Q. induction fuel as [|fuel IH]; intros ns xs Q Hf HN Hnx Hp HQ; [lia|].
  destruct Hp as [|n x ns xs Hx Hp]; cbn [head default from_option id collect_until].
  - by rewrite ptr_eqb_refl.
  - simpl in HN. apply NoDup_cons in HN as [Hn HN].
    rewrite ptr_eqb_addr, bool_decide_eq_false_2 by set_solver.
    wp_step. eapply wp_get_payload; [done|].
    wp_step. eapply wp_get_next; [by apply (forward_head _ _ _ _ Hnx)|].
    wp_step. eapply IH; [simpl in Hf; lia | done | by eapply forward_tail | done | done].
Qed.

Lemma lookup_free ns (c : gmap positive (node P)) x :
  foldl (fun c n => delete n c) c ns !! x = if decide (x ∈ ns) then None else c !! x.
Proof.
  revert c. induction ns as [|n ns IH]; intros c; [done|]. cbn [foldl]. rewrite IH.
  destruct (decide (x = n)) as [->|Hx].
  - rewrite lookup_delete_eq. rewrite (decide_True (P := n ∈ n :: ns)) by set_solver. by case_decide.
  - rewrite lookup_delete_ne by done. apply decide_ext. set_solver.
Qed.
End list_rules.

(** The neighbours of a node in the middle of a list between two sentinels. *)
Lemma list_around (hd : positive) ns1 n ns2 (tl : positive) :
  exists L1 a b L2,
    hd :: (ns1 ++ n :: ns2) ++ [tl] = L1 ++ a :: n :: b :: L2 /\
    hd :: (ns1 ++ ns2) ++ [tl] = L1 ++ a :: b :: L2.
Proof.
  destruct (exists_last (l := hd :: ns1)) as (L1 & a & Ha); [done|].
  assert (exists b L2, ns2 ++ [tl] = b :: L2) as (b & L2 & Hb) by (destruct ns2; eauto).
  assert (HLa : forall X, L1 ++ a :: X = hd :: ns1 ++ X).
  { intros X. rewrite (cons_middle a L1 X), app_assoc, <- Ha. done. }
  exists L1, a, b, L2. by rewrite !HLa, <- !Hb, <- !app_assoc.
Qed.
