(* ===== verification/Interfaces.v ===== *)
(** * Libraries the caches call

    The hash tables are third-party code: Intel TBB's [concurrent_hash_map]
    and the CLHT submodule.  Each is a class of operations, which the models of
    the caches take as a parameter, with a class of laws that states the
    documented behaviour the caches rely on.  The instances at the end show the
    laws can hold; the witnesses evaluate the models at them. *)

From S2P Require Import Prelude.

(** ** [tbb::concurrent_hash_map<size_t, V>]

    [chm_insert m k v] is [insert(accessor, pair(k, v))]: it reports whether
    the key was new and, if it was not, leaves the element alone.  An accessor
    pins one element, so assigning through it ([accessor->second = v]) and
    [erase(accessor)] are operations on the key it was obtained for. *)
Class CHM (M : Type -> Type) := {
  chm_empty : forall V, M V;
  chm_find : forall {V}, M V -> Z -> option V;
  chm_insert : forall {V}, M V -> Z -> V -> bool * M V;
  chm_assign : forall {V}, M V -> Z -> V -> M V;
  chm_erase : forall {V}, M V -> Z -> bool * M V;
  chm_clear : forall {V}, M V -> M V
}.

Class CHMLaws (M : Type -> Type) `{CHM M} : Prop := {
  chm_find_empty : forall V k, chm_find (chm_empty V) k = None;
  chm_insert_new : forall V (m : M V) k v, chm_find m k = None -> (chm_insert m k v).1 = true;
  chm_insert_dup : forall V (m : M V) k v w, chm_find m k = Some w -> chm_insert m k v = (false, m);
  chm_find_insert : forall V (m : M V) k v j, chm_find m k = None ->
    chm_find (chm_insert m k v).2 j = if decide (j = k) then Some v else chm_find m j;
  chm_find_assign : forall V (m : M V) k v w j, chm_find m k = Some w ->
    chm_find (chm_assign m k v) j = if decide (j = k) then Some v else chm_find m j;
  chm_erase_found : forall V (m : M V) k, (chm_erase m k).1 = bool_decide (is_Some (chm_find m k));
  chm_find_erase : forall V (m : M V) k j,
    chm_find (chm_erase m k).2 j = if decide (j = k) then None else chm_find m j;
  chm_find_clear : forall V (m : M V) k, chm_find (chm_clear m) k = None
}.

(** ** CLHT: [clht_put], [clht_get], [clht_clear]

    Keys and values are machine words; [clht_get] returns 0 for an absent
    key, so 0 is not a value; [clht_put] does not overwrite. *)
Class CLHTlib (T : Type) := {
  clht_create : Z -> T;
  clht_get : T -> Z -> Z;
  clht_put : T -> Z -> Z -> bool * T;
  clht_clear : T -> T
}.

Class CLHTLaws (T : Type) `{CLHTlib T} : Prop := {
  clht_get_create : forall n k, clht_get (clht_create n) k = 0%Z;
  clht_put_new : forall t k v, clht_get t k = 0%Z -> v <> 0%Z -> (clht_put t k v).1 = true;
  clht_put_dup : forall t k v, clht_get t k <> 0%Z -> clht_put t k v = (false, t);
  clht_get_put : forall t k v j, clht_get t k = 0%Z -> v <> 0%Z ->
    clht_get (clht_put t k v).2 j = if decide (j = k) then v else clht_get t j;
  clht_get_clear : forall t k, clht_get (clht_clear t) k = 0%Z
}.

(** ** Instances *)
#[export] Instance gmap_CHM : CHM (gmap Z) := {
  chm_empty V := ∅;
  chm_find V m k := m !! k;
  chm_insert V m k v := match m !! k with Some _ => (false, m) | None => (true, <[k:=v]> m) end;
  chm_assign V m k v := <[k:=v]> m;
  chm_erase V m k := (bool_decide (is_Some (m !! k)), delete k m);
  chm_clear V m := ∅
}.

#[export] Instance gmap_CHMLaws : CHMLaws (gmap Z).
Proof.
  split; cbn; intros; repeat match goal with H : _ !! _ = _ |- _ => rewrite H end;
    try done; cbn; case_decide; subst;
    by rewrite ?lookup_insert_eq, ?lookup_delete_eq, ?lookup_insert_ne, ?lookup_delete_ne.
Qed.

#[export] Instance gmap_CLHT : CLHTlib (gmap Z Z) := {
  clht_create _ := ∅;
  clht_get t k := default 0%Z (t !! k);
  clht_put t k v := if decide (default 0%Z (t !! k) = 0%Z) then (true, <[k:=v]> t) else (false, t);
  clht_clear _ := ∅
}.

#[export] Instance gmap_CLHTLaws : CLHTLaws (gmap Z Z).
Proof.
  split; simpl; intros; try done.
  - by rewrite decide_True.
  - by rewrite decide_False.
  - rewrite decide_True by done. simpl.
    case_decide; [subst; by rewrite lookup_insert_eq | by rewrite lookup_insert_ne].
Qed.
