(* ===== verification/BaseCache.v ===== *)
(** * Statistics of the baseline caches ([cache/baseCache.h], [cache/cache.h])

    [BaseCacheAPI] keeps two sampled counters.  [double] results are exact
    rationals here; the counters are [std::atomic<size_t>]. *)

From S2P Require Import Prelude.
From Stdlib Require Import QArith.

Record BaseStat := { hit_num : Z; miss_num : Z }.

Definition hit_incr (s : BaseStat) : BaseStat :=
  {| hit_num := u64 (hit_num s + 1); miss_num := miss_num s |}.
Definition miss_incr (s : BaseStat) : BaseStat :=
  {| hit_num := hit_num s; miss_num := u64 (miss_num s + 1) |}.

Definition reset_stat (s : BaseStat) : BaseStat := {| hit_num := 0; miss_num := 0 |}.

(** [PrintStat(hit, miss)]: hands the counters out and clears them (the
    printed line is output only). *)
Definition PrintStat (s : BaseStat) : (Z * Z) * BaseStat :=
  let hit := hit_num s in
  let miss := miss_num s in
  ((hit, miss), {| hit_num := 0; miss_num := 0 |}).

Definition GetStat (s : BaseStat) : (Z * Z) * BaseStat :=
  let hit := hit_num s in
  let miss := miss_num s in
  ((hit, miss), {| hit_num := 0; miss_num := 0 |}).

(** [_get_miss_ratio(total_access)]: the ratio and the total, with a reset. *)
Definition get_miss_ratio (s : BaseStat) : (Q * Z) * BaseStat :=
  let total_access := u64 (hit_num s + miss_num s) in
  let temp := if (total_access =? 0)%Z then 1%Q
              else (inject_Z (miss_num s) / inject_Z total_access)%Q in
  ((temp, total_access), {| hit_num := 0; miss_num := 0 |}).

(** The counters a lookup leaves: one counter goes up iff it is sampled. *)
Definition count_find (sample hit : bool) (s : BaseStat) : BaseStat :=
  if sample then (if hit then hit_incr s else miss_incr s) else s.
