(* ===== verification/CacheSpec.v ===== *)
(** * What a list cache promises

    The abstract state of a cache is its contents in eviction order, most
    recently inserted (or promoted) first: the entry at the end is the next to
    be evicted.  The operations here are the specification the pointer-level
    caches are proved to refine. *)

From S2P Require Import Prelude.

Section spec.
Context {V : Type}.
Implicit Types (l : list (Z * V)) (k : Z) (v : V).

Fixpoint assoc k l : option V :=
  match l with
  | [] => None
  | (j, v) :: l' => if decide (j = k) then Some v else assoc k l'
  end.

Definition without k l : list (Z * V) := filter (fun kv => kv.1 <> k) l.

(** Move the entry of [k] to the front. *)
Definition touch k l : list (Z * V) :=
  match assoc k l with
  | Some v => (k, v) :: without k l
  | None => l
  end.

(** Insert a new key at the front; a full cache drops its last entry. *)
Definition add (cap : Z) k v l : bool * list (Z * V) :=
  match assoc k l with
  | Some _ => (false, l)
  | None => (true, (k, v) :: (if (cap <=? Z.of_nat (length l))%Z then removelast l else l))
  end.

Lemma assoc_None k l : assoc k l = None <-> k ∉ l.*1.
Proof.
  induction l as [|[j v] l IH]; simpl; [set_solver|].
  case_decide; subst; [set_solver|]. rewrite IH. set_solver.
Qed.

Lemma assoc_app k l1 l2 :
  assoc k (l1 ++ l2) = match assoc k l1 with Some v => Some v | None => assoc k l2 end.
Proof. induction l1 as [|[j v] l1 IH]; simpl; [done|]. by case_decide. Qed.

Lemma assoc_split k v l :
  assoc k l = Some v -> exists l1 l2, l = l1 ++ (k, v) :: l2 /\ k ∉ l1.*1.
Proof.
  induction l as [|[j w] l IH]; simpl; [done|]. case_decide; intros; simplify_eq.
  - exists [], l. set_solver.
  - destruct IH as (l1 & l2 & -> & ?); [done|]. exists ((j, w) :: l1), l2. set_solver.
Qed.

Lemma without_id k l : k ∉ l.*1 -> without k l = l.
Proof.
  unfold without. induction l as [|[j v] l IH]; [done|].
  simpl. intros Hk. rewrite filter_cons_True; [f_equal; apply IH | simpl]; set_solver.
Qed.

Lemma without_split k v l1 l2 :
  k ∉ l1.*1 -> k ∉ l2.*1 -> without k (l1 ++ (k, v) :: l2) = l1 ++ l2.
Proof.
  intros. unfold without. rewrite filter_app, filter_cons_False by naive_solver.
  f_equal; by apply without_id.
Qed.

Lemma assoc_without k j l : assoc j (without k l) = if decide (j = k) then None else assoc j l.
Proof.
  unfold without. induction l as [|[i v] l IH]; simpl; [by case_decide|].
  destruct (decide (i = k)) as [->|Hik].
  - rewrite filter_cons_False by naive_solver. rewrite IH.
    by repeat case_decide; subst.
  - rewrite filter_cons_True by done. simpl. rewrite IH.
    destruct (decide (i = j)) as [->|]; [by rewrite decide_False|done].
Qed.

Lemma keys_without k l : (without k l).*1 = filter (fun j => j <> k) l.*1.
Proof.
  unfold without. induction l as [|[j v] l IH]; [done|]. cbn [fmap list_fmap fst].
  destruct (decide (j = k)).
  - by rewrite !filter_cons_False by naive_solver.
  - rewrite !filter_cons_True by done. cbn [fmap list_fmap fst]. by f_equal.
Qed.

(** Promotion changes no lookup. *)
Lemma assoc_touch k j l : assoc j (touch k l) = assoc j l.
Proof.
  unfold touch. destruct (assoc k l) as [v|] eqn:E; [|done]. simpl.
  rewrite assoc_without. destruct (decide (k = j)) as [->|Hkj]; [done|].
  by rewrite decide_False.
Qed.
(** Promotion only reorders. *)
Lemma touch_perm k l : NoDup l.*1 -> touch k l ≡ₚ l.
Proof.
  intros HN. unfold touch. destruct (assoc k l) as [v|] eqn:E; [|done].
  apply assoc_split in E as (l1 & l2 & -> & Hk). rewrite without_split; [|done|].
  - apply Permutation_middle.
  - rewrite fmap_app, fmap_cons, NoDup_app, NoDup_cons in HN. naive_solver.
Qed.

Lemma length_touch k l : NoDup l.*1 -> length (touch k l) = length l.
Proof. intros HN. by rewrite touch_perm. Qed.

(** The entry of a key is the only element with that key. *)
Lemma assoc_Some k v l : NoDup l.*1 -> assoc k l = Some v <-> (k, v) ∈ l.
Proof.
  induction l as [|[j w] l IH]; cbn; intros HN; [split; [done | by intros ?%elem_of_nil]|].
  apply NoDup_cons in HN as [Hj HN]. rewrite elem_of_cons. case_decide; subst.
  - split; [intros [= ->]; auto|]. intros [[= ->]|Hin]; [done|].
    destruct Hj. apply list_elem_of_fmap. by exists (k, v).
  - rewrite IH by done. naive_solver.
Qed.

Lemma length_without k v l : NoDup l.*1 -> assoc k l = Some v -> S (length (without k l)) = length l.
Proof.
  intros HN Ha. apply assoc_split in Ha as (l1 & l2 & -> & Hk). rewrite without_split; [|done|].
  - rewrite !length_app. cbn. lia.
  - rewrite fmap_app, fmap_cons, NoDup_app, NoDup_cons in HN. naive_solver.
Qed.

Lemma without_app k l1 l2 : without k (l1 ++ l2) = without k l1 ++ without k l2.
Proof. unfold without. apply filter_app. Qed.

Lemma elem_of_without k j v l : (j, v) ∈ without k l <-> j <> k /\ (j, v) ∈ l.
Proof. unfold without. rewrite list_elem_of_filter. done. Qed.
End spec.
