(* ===== verification/CacheAPI.v ===== *)
(** * The shard interface ([cache/cache.h], class [CacheAPI])

    The virtual class every eviction policy implements and the sharded cache
    calls.  [CacheAPI] has the methods that work on the contents; [CacheLaws]
    states what an implementation promises: a representation relation between
    objects and contents in eviction order which every method respects,
    without a crash.  A policy is what a hit does to the order.

    [run_refines]: an object that satisfies the laws answers every sequence of
    calls as the specification [spec_op] does. *)

From S2P Require Import Prelude CacheSpec.

(** The choices a [find] does not make itself: whether [try_lock] obtains the
    list mutex and whether the sampling generator samples the access. *)
Record choice := { try_lock : bool; sample : bool }.

Class CacheAPI (C V : Type) := {
  api_find : choice -> V -> Z -> SM C (bool * V);
  api_insert : Z -> V -> SM C bool;
  api_delete_key : Z -> SM C unit;
  api_clear : SM C unit;
  api_snapshotKeys : list Z -> SM C (list Z);
  api_size : SM C Z
}.

Inductive op (V : Type) :=
  | Find (e : choice) (ac : V) (key : Z)
  | Insert (key : Z) (value : V)
  | DeleteKey (key : Z)
  | Clear
  | SnapshotKeys (keys : list Z)
  | Size.
Arguments Find {V}. Arguments Insert {V}. Arguments DeleteKey {V}.
Arguments Clear {V}. Arguments SnapshotKeys {V}. Arguments Size {V}.

Inductive answer (V : Type) :=
  | Found (hit : bool) (ac : V) | Inserted (b : bool) | Done | Keys (ks : list Z) | Count (n : Z).
Arguments Found {V}. Arguments Inserted {V}. Arguments Done {V}. Arguments Keys {V}. Arguments Count {V}.

(** A call through the interface. *)
Definition call {C V} `{CacheAPI C V} (o : op V) : SM C (answer V) :=
  match o with
  | Find e ac key => r ← api_find e ac key; mret (Found r.1 r.2)
  | Insert key value => b ← api_insert key value; mret (Inserted b)
  | DeleteKey key => api_delete_key key;; mret Done
  | Clear => api_clear;; mret Done
  | SnapshotKeys keys => ks ← api_snapshotKeys keys; mret (Keys ks)
  | Size => n ← api_size; mret (Count n)
  end.

Fixpoint run {C V} `{CacheAPI C V} (ops : list (op V)) : SM C (list (answer V)) :=
  match ops with
  | [] => mret []
  | o :: ops => a ← call o; rest ← run ops; mret (a :: rest)
  end.

(** ** The specification *)
Definition policy (V : Type) : Type := choice -> Z -> list (Z * V) -> list (Z * V).

(** [LRUCache] promotes if it gets the mutex, [StrictLRUCache] always,
    [FIFOCache] never. *)
Definition lru_policy {V} : policy V := fun e k l => if try_lock e then touch k l else l.
Definition strict_policy {V} : policy V := fun _ k l => touch k l.
Definition fifo_policy {V} : policy V := fun _ _ l => l.

Definition spec_op {V} (p : policy V) (cap : Z) (o : op V) (l : list (Z * V))
  : answer V * list (Z * V) :=
  match o with
  | Find e ac k => (Found (bool_decide (is_Some (assoc k l))) (default ac (assoc k l)), p e k l)
  | Insert k v => let '(b, l') := add cap k v l in (Inserted b, l')
  | DeleteKey k => (Done, without k l)
  | Clear => (Done, [])
  | SnapshotKeys ks => (Keys (ks ++ l.*1), l)
  | Size => (Count (Z.of_nat (length l)), l)
  end.

Fixpoint spec_run {V} (p : policy V) (cap : Z) (ops : list (op V)) (l : list (Z * V))
  : list (answer V) * list (Z * V) :=
  match ops with
  | [] => ([], l)
  | o :: ops =>
      let '(a, l') := spec_op p cap o l in
      let '(rest, l'') := spec_run p cap ops l' in
      (a :: rest, l'')
  end.

(** ** The laws *)
Class CacheLaws (C V : Type) `{CacheAPI C V} (R : C -> list (Z * V) -> Prop)
    (capacity : C -> Z) (p : policy V) : Prop := {
  law_call : forall o c l, R c l ->
    wp (call o) c (fun a c' =>
      a = (spec_op p (capacity c) o l).1 /\ R c' (spec_op p (capacity c) o l).2 /\
      capacity c' = capacity c);
  law_nodup : forall c l, R c l -> NoDup l.*1;
  law_bound : forall c l, R c l -> (Z.of_nat (length l) <= capacity c)%Z;
  law_policy : forall e k l, NoDup l.*1 -> p e k l ≡ₚ l
}.

Section laws.
Context {C V : Type} `{CacheLaws C V R capacity p}.

Lemma run_refines ops c l :
  R c l -> wp (run ops) c (fun rs c' =>
    rs = (spec_run p (capacity c) ops l).1 /\ R c' (spec_run p (capacity c) ops l).2 /\
    capacity c' = capacity c).
Proof.
  revert c l. induction ops as [|o ops IH]; intros c l HR; cbn [run spec_run]; [done|].
  wp_step. eapply wp_mono; [by apply law_call|]. intros a c1 (-> & HR1 & Hc1). wp_step.
  destruct (spec_op p (capacity c) o l) as [a l1]. cbn in *.
  eapply wp_mono; [by apply IH|]. intros rs c2 (-> & HR2 & Hc2). rewrite Hc1 in *.
  by destruct (spec_run p (capacity c) ops l1).
Qed.
End laws.
