(* ===== verification/LRUCache.v ===== *)
(** * The LRU cache ([cache/hhvm_lru_cache.h])

    [LRUCache<size_t, V>]: a TBB hash table from keys to values and list nodes,
    and an intrusive list of the nodes in recency order.  Every method is a
    definition on the whole object state; the methods run to completion (one
    thread), with the choices the environment makes as arguments: whether
    [try_lock] in [find] gets the list mutex, and whether the sampling
    generator samples the access.

    [Rep] relates an object to its contents in recency order
    ([CacheSpec]); each method is proved to run without a crash (no bad
    dereference, no use after free, no double free) and to refine the
    specification. *)

From S2P Require Import Prelude DList ListPrims Interfaces BaseCache CacheSpec CacheAPI.

(** ** The object *)
Section LRUCache.
Context {M : Type -> Type} `{CHM M} {V : Type}.

Record HashMapValue := HMV { m_value : V; m_listNode : ptr }.

Record LRUCache := {
  m_maxSize : Z;
  m_size : Z;
  m_map : M HashMapValue;
  m_list : arena Z;       (* the list nodes, [m_head] and [m_tail] included *)
  m_stat : BaseStat
}.

Definition with_size (n : Z) (c : LRUCache) : LRUCache :=
  {| m_maxSize := m_maxSize c; m_size := n; m_map := m_map c; m_list := m_list c; m_stat := m_stat c |}.
Definition with_map (m : M HashMapValue) (c : LRUCache) : LRUCache :=
  {| m_maxSize := m_maxSize c; m_size := m_size c; m_map := m; m_list := m_list c; m_stat := m_stat c |}.
Definition with_list (h : arena Z) (c : LRUCache) : LRUCache :=
  {| m_maxSize := m_maxSize c; m_size := m_size c; m_map := m_map c; m_list := h; m_stat := m_stat c |}.
Definition with_stat (f : BaseStat -> BaseStat) (c : LRUCache) : LRUCache :=
  {| m_maxSize := m_maxSize c; m_size := m_size c; m_map := m_map c; m_list := m_list c; m_stat := f (m_stat c) |}.

(** A transaction on the linked list. *)
Definition on_list {A} (m : SM (arena Z) A) : SM LRUCache A := zoom m_list with_list m.

(** The constructor: an empty list between the sentinels.  The sentinels'
    keys are uninitialised in the source and never read. *)
Definition new_LRUCache (maxSize : Z) : LRUCache :=
  {| m_maxSize := maxSize;
     m_size := 0;
     m_map := chm_empty HashMapValue;
     m_list := Arena {[ m_head := Node 0%Z nullptr (addr m_tail);
                        m_tail := Node 0%Z (addr m_head) nullptr ]} 3%positive;
     m_stat := reset_stat {| hit_num := 0; miss_num := 0 |} |}.

Definition size : SM LRUCache Z := gets m_size.

(** ** Operations *)
Definition find (try_lock sample : bool) (ac : V) (key : Z) : SM LRUCache (bool * V) :=
  m ← gets m_map;
  match chm_find m key with
  | None =>
      whenM sample (modify (with_stat miss_incr));;
      mret (false, ac)
  | Some hashAccessor =>
      let ac := m_value hashAccessor in
      whenM try_lock (
        let node := m_listNode hashAccessor in
        b ← on_list (isInList node);
        whenM b (on_list (delink node);; on_list (pushFront node)));;
      whenM sample (modify (with_stat hit_incr));;
      mret (true, ac)
  end.

Definition evict : SM LRUCache unit :=
  moribund ← on_list (get_prev (addr m_tail));
  if ptr_eqb moribund (addr m_head) then mret tt else
  on_list (delink moribund);;
  key ← on_list (get_payload moribund);
  m ← gets m_map;
  match chm_find m key with
  | None => mret tt
  | Some _ =>
      modify (with_map (chm_erase m key).2);;
      on_list (delete_node moribund)
  end.

(** [m_size.compare_exchange_strong(s, d)] *)
Definition compare_exchange_size (s d : Z) : SM LRUCache bool :=
  n ← gets m_size;
  if (n =? s)%Z then modify (with_size d);; mret true else mret false.

Definition insert (key : Z) (value : V) : SM LRUCache bool :=
  node ← on_list (new_node key OutOfListMarker nullptr);
  m ← gets m_map;
  let r := chm_insert m key (HMV value node) in
  modify (with_map r.2);;
  if negb r.1 then on_list (delete_node node);; mret false else
  maxSize ← gets m_maxSize;
  s ← gets m_size;
  evictionDone ← (if (maxSize <=? s)%Z then evict;; mret true else mret false);
  on_list (pushFront node);;
  s ← (if negb evictionDone
       then s ← gets m_size; modify (with_size (u64 (s + 1)));; mret s
       else mret s);
  whenM (maxSize <? s)%Z
    (cas ← compare_exchange_size s (u64 (s - 1)); whenM cas evict);;
  mret true.

Definition delete_key (key : Z) : SM LRUCache unit :=
  m ← gets m_map;
  match chm_find m key with
  | None => mret tt
  | Some hashAccessor =>
      let node := m_listNode hashAccessor in
      b ← on_list (isInList node);
      if negb b then mret tt else
      on_list (delink node);;
      modify (with_map (chm_erase m key).2);;
      on_list (delete_node node);;
      s ← gets m_size;
      modify (with_size (u64 (s - 1)))
  end.

Definition clear : SM LRUCache unit :=
  m ← gets m_map;
  modify (with_map (chm_clear m));;
  node ← on_list (get_next (addr m_head));
  fuel ← gets (fun c => S (base.size (cells (m_list c))));
  on_list (free_until (addr m_tail) fuel node);;
  on_list (set_next (addr m_head) (addr m_tail));;
  on_list (set_prev (addr m_tail) (addr m_head));;
  modify (with_size 0).

(** [snapshotKeys(keys)] appends to the caller's vector. *)
Definition snapshotKeys (keys : list Z) : SM LRUCache (list Z) :=
  node ← on_list (get_next (addr m_head));
  fuel ← gets (fun c => S (base.size (cells (m_list c))));
  ks ← on_list (collect_until (addr m_tail) fuel node);
  mret (keys ++ ks).
End LRUCache.

Arguments HashMapValue : clear implicits.
Arguments LRUCache : clear implicits.
Arguments HMV {V}.

(** ** The shape of the object

    [Shape h m ns ps l pl]: the nodes [ns] are linked between the sentinels and
    carry the entries [l] in this order; the nodes [ps] are allocated, out of
    the list, and carry [pl] (a node being inserted, evicted or deleted);
    nothing else is allocated and the hash table holds exactly these entries,
    each with its node. *)
Section shape.
Context {M : Type -> Type} `{CHMLaws M} {V : Type}.
Implicit Types (h : arena Z) (m : M (HashMapValue V)) (ns ps : list positive) (l pl : list (Z * V)).

Definition entry (c : gmap positive (node Z)) m (n : positive) (kv : Z * V) : Prop :=
  pay c n = Some kv.1 /\ chm_find m kv.1 = Some (HMV kv.2 (addr n)).

Record Shape h m ns ps l pl : Prop := {
  sh_nodup : NoDup (m_head :: ns ++ m_tail :: ps);
  sh_dll : dll (cells h) (m_head :: ns ++ [m_tail]);
  sh_dom : dom (cells h) = list_to_set (m_head :: ns ++ m_tail :: ps);
  sh_brk : forall x, x ∈ dom (cells h) -> (x < brk h)%positive;
  sh_in : Forall2 (entry (cells h) m) ns l;
  sh_out : Forall2 (entry (cells h) m) ps pl;
  sh_mark : Forall (fun p => prv (cells h) p = Some OutOfListMarker) ps;
  sh_map : forall k, is_Some (chm_find m k) -> k ∈ l.*1 ++ pl.*1
}.

Lemma entry_ext c c' m m' ns l :
  (forall n, n ∈ ns -> pay c' n = pay c n) ->
  (forall k, k ∈ l.*1 -> chm_find m' k = chm_find m k) ->
  Forall2 (entry c m) ns l -> Forall2 (entry c' m') ns l.
Proof.
  intros Hc Hm HF. induction HF as [|n [k v] ns l [Hp Hf] HF IH]; [done|]. simpl in *.
  constructor; [split; simpl; [rewrite Hc | rewrite Hm]; set_solver | apply IH; set_solver].
Qed.

Lemma entry_key_node c m ns l n k v w :
  Forall2 (entry c m) ns l -> chm_find m k = Some (HMV v (addr n)) -> (k, w) ∈ l -> n ∈ ns.
Proof.
  intros HF Hk Hin. apply list_elem_of_lookup in Hin as [i Hi].
  destruct (Forall2_lookup_r _ _ _ _ _ HF Hi) as (n' & Hn' & _ & Hf). simpl in Hf.
  rewrite Hk in Hf. simplify_eq. by eapply list_elem_of_lookup_2.
Qed.

(** One node per key. *)
Lemma entry_keys_nodup c m ns l : NoDup ns -> Forall2 (entry c m) ns l -> NoDup l.*1.
Proof.
  intros HN HF. induction HF as [|n [k v] ns l [Hp Hf] HF IH]; [constructor|].
  apply NoDup_cons in HN as [Hn HN]. simpl. apply NoDup_cons. split; [|by apply IH].
  intros ([j w] & Hj & Hw)%list_elem_of_fmap. simpl in *. subst j. by eapply Hn, entry_key_node.
Qed.

Lemma shape_lookup h m ns ps l pl k v :
  Shape h m ns ps l pl -> assoc k (l ++ pl) = Some v ->
  exists n, n ∈ ns ++ ps /\ chm_find m k = Some (HMV v (addr n)).
Proof.
  intros Sh Ha. apply assoc_split in Ha as (l1 & l2 & Hl & _).
  assert (HF : Forall2 (entry (cells h) m) (ns ++ ps) (l ++ pl)) by (apply Forall2_app; apply Sh).
  rewrite Hl in HF. apply Forall2_app_inv_r in HF as (n1 & n2 & _ & HF & ->).
  apply Forall2_cons_inv_r in HF as (n & n3 & [_ Hf] & _ & ->). exists n. set_solver.
Qed.

Lemma shape_absent h m ns ps l pl k :
  Shape h m ns ps l pl -> assoc k (l ++ pl) = None -> chm_find m k = None.
Proof.
  intros Sh Ha. apply assoc_None in Ha. rewrite fmap_app in Ha.
  destruct (chm_find m k) eqn:E; [|done]. exfalso. apply Ha, (sh_map _ _ _ _ _ _ Sh). eauto.
Qed.

(** Where the node of a present key is. *)
Lemma shape_locate h m ns l k v n :
  Shape h m ns [] l [] -> assoc k l = Some v -> chm_find m k = Some (HMV v (addr n)) ->
  exists ns1 ns2 l1 l2 p, ns = ns1 ++ n :: ns2 /\ l = l1 ++ (k, v) :: l2 /\
    length ns1 = length l1 /\ prv (cells h) n = Some (addr p).
Proof.
  intros Sh Ha Hf. apply assoc_split in Ha as (l1 & l2 & -> & _).
  assert (Hin := sh_in _ _ _ _ _ _ Sh).
  apply Forall2_app_inv_r in Hin as (ns1 & ns2 & Hin1 & Hin2 & ->).
  apply Forall2_cons_inv_r in Hin2 as (n' & ns3 & [_ Hn'] & _ & ->).
  simpl in Hn'. rewrite Hf in Hn'. injection Hn' as <-.
  destruct (list_around m_head ns1 n ns3 m_tail) as (L1 & a & b & L2 & HL & _).
  assert (Hd := sh_dll _ _ _ _ _ _ Sh). rewrite HL in Hd.
  apply dll_split in Hd as (_ & [_ Hp] & _).
  exists ns1, ns3, l1, l2, a. split_and!; [done | done | by eapply Forall2_length | done].
Qed.

Lemma shape_out_alloc h m ns n ps l pl : Shape h m ns (n :: ps) l pl -> is_Some (cells h !! n).
Proof. intros Sh. apply elem_of_dom. rewrite (sh_dom _ _ _ _ _ _ Sh). set_solver. Qed.

(** *** The four moves every operation is made of *)

(** A node leaves the list. *)
Lemma wp_delink_shape h m ns1 n ns2 ps l1 kv l2 pl Q :
  length ns1 = length l1 -> Shape h m (ns1 ++ n :: ns2) ps (l1 ++ kv :: l2) pl ->
  (forall h', Shape h' m (ns1 ++ ns2) (n :: ps) (l1 ++ l2) (kv :: pl) -> Q tt h') ->
  wp (delink (addr n)) h Q.
Proof.
  intros Hlen [HN Hd Hdom Hbrk Hin Hout Hmark Hmap] HQ.
  destruct (list_around m_head ns1 n ns2 m_tail) as (L1 & a & b & L2 & HL & HL').
  assert (HN2 : NoDup ((L1 ++ a :: n :: b :: L2) ++ ps)).
  { rewrite <- HL. simpl. rewrite <- app_assoc. exact HN. }
  apply NoDup_app in HN2 as (HN' & Hdis & _).
  rewrite HL in Hd. assert (Hd' := Hd).
  rewrite dll_split, dll_cons2 in Hd. destruct Hd as (_ & Hl1 & Hl2 & _).
  eapply wp_delink; [exact Hl1 | exact Hl2 |]. apply HQ.
  apply Forall2_app_inv in Hin as [Hin1 Hin2]; [|done].
  apply Forall2_cons in Hin2 as [Hkv Hin2]. split; cbn [on_cells cells brk].
  - revert HN. apply NoDup_Permutation_proper. apply perm_skip.
    rewrite <- !app_assoc. apply Permutation_app_head. simpl.
    rewrite (cons_middle m_tail ns2 ps), (cons_middle m_tail ns2 (n :: ps)), !app_assoc.
    symmetry. apply Permutation_middle.
  - rewrite HL'. by apply dll_delinked.
  - rewrite dom_delinked, Hdom. set_solver.
  - rewrite dom_delinked. done.
  - apply Forall2_app; (eapply entry_ext; [| |done]; [intros; apply pay_delinked | done]).
  - constructor; [by destruct Hkv; split; [rewrite pay_delinked|] |].
    eapply entry_ext; [| |done]; [intros; apply pay_delinked | done].
  - constructor; [apply prv_delinked_self; by eapply link_alloc|].
    rewrite Forall_forall in Hmark |- *. intros p Hp.
    rewrite prv_delinked_other; [by apply Hmark | set_solver..].
  - intros k Hk. specialize (Hmap k Hk). set_solver.
Qed.

(** A node that is out of the list becomes its first node. *)
Lemma wp_pushFront_shape h m ns n ps l kv pl Q :
  Shape h m ns (n :: ps) l (kv :: pl) ->
  (forall h', Shape h' m (n :: ns) ps (kv :: l) pl -> Q tt h') ->
  wp (pushFront (addr n)) h Q.
Proof.
  intros [HN Hd Hdom Hbrk Hin Hout Hmark Hmap] HQ.
  assert (exists b L2, ns ++ [m_tail] = b :: L2) as (b & L2 & Hb) by (destruct ns; eauto).
  assert (HN2 : NoDup ((m_head :: ns ++ [m_tail]) ++ n :: ps)).
  { simpl. rewrite <- app_assoc. exact HN. }
  apply NoDup_app in HN2 as (HN' & Hdis & HNp). rewrite Hb in *.
  assert (Hn : is_Some (cells h !! n)) by (apply elem_of_dom; rewrite Hdom; set_solver).
  eapply wp_pushFront; [apply Hd | exact Hn |]. apply HQ.
  apply Forall2_cons in Hout as [Hkv Hout]. apply Forall_cons in Hmark as [_ Hmark].
  split; cbn [on_cells cells brk].
  - revert HN. apply NoDup_Permutation_proper, perm_skip. simpl.
    rewrite (cons_middle m_tail ns ps), (cons_middle m_tail ns (n :: ps)), !app_assoc.
    apply Permutation_middle.
  - cbn [app]. rewrite Hb. apply (dll_spliced [] m_head n b L2); [done | set_solver | done | done].
  - rewrite dom_spliced, Hdom. set_solver.
  - by rewrite dom_spliced.
  - constructor; [by destruct Hkv; split; [rewrite pay_spliced|] |].
    eapply entry_ext; [| |done]; [intros; apply pay_spliced | done].
  - eapply entry_ext; [| |done]; [intros; apply pay_spliced | done].
  - rewrite Forall_forall in Hmark |- *. intros p Hp. apply NoDup_cons in HNp as [Hnp _].
    rewrite prv_spliced_other; [by apply Hmark | set_solver..].
  - intros k Hk. specialize (Hmap k Hk). set_solver.
Qed.

(** A node out of the list is freed, its key erased. *)
Lemma shape_free h m ns n ps l kv pl :
  Shape h m ns (n :: ps) l (kv :: pl) ->
  Shape (on_cells (delete n) h) (chm_erase m kv.1).2 ns ps l pl.
Proof.
  intros [HN Hd Hdom Hbrk Hin Hout Hmark Hmap].
  assert (HN2 : NoDup (n :: (m_head :: ns ++ m_tail :: ps))).
  { revert HN. apply NoDup_Permutation_proper.
    rewrite (cons_middle m_tail ns ps), (cons_middle m_tail ns (n :: ps)), !app_assoc.
    apply (Permutation_middle (m_head :: ns ++ [m_tail])). }
  apply NoDup_cons in HN2 as [Hn HN2].
  assert (HFall : Forall2 (entry (cells h) m) (n :: ns ++ ps) (kv :: l ++ pl)).
  { apply Forall2_cons in Hout as [??]. constructor; [done|]. by apply Forall2_app. }
  assert (Hk : NoDup (kv :: l ++ pl).*1).
  { eapply entry_keys_nodup; [|exact HFall]. apply NoDup_cons. split; [set_solver|].
    apply NoDup_cons in HN2 as [_ HN2]. apply NoDup_app in HN2 as (? & ? & HNt).
    apply NoDup_cons in HNt as [??]. apply NoDup_app. set_solver. }
  simpl in Hk. rewrite fmap_app in Hk. apply NoDup_cons in Hk as [Hk _].
  assert (Hext : forall ns' l', n ∉ ns' -> kv.1 ∉ l'.*1 -> Forall2 (entry (cells h) m) ns' l' ->
     Forall2 (entry (delete n (cells h)) (chm_erase m kv.1).2) ns' l').
  { intros ns' l' Hn' Hl'. apply entry_ext.
    - intros x Hx. unfold pay. rewrite lookup_delete_ne; [done|]. by intros ->.
    - intros j Hj. rewrite chm_find_erase, decide_False; [done|]. by intros ->. }
  apply Forall2_cons in Hout as [_ Hout]. apply Forall_cons in Hmark as [_ Hmark].
  split; cbn [on_cells cells brk].
  - done.
  - apply dll_delete; [set_solver|done].
  - rewrite dom_delete_L, Hdom. set_solver.
  - intros x Hx. apply Hbrk. rewrite dom_delete_L in Hx. set_solver.
  - apply Hext; [set_solver.. | done].
  - apply Hext; [set_solver.. | done].
  - rewrite Forall_forall in Hmark |- *. intros p Hp. unfold prv.
    rewrite lookup_delete_ne; [by apply Hmark | set_solver].
  - intros k [w Hw]. rewrite chm_find_erase in Hw. case_decide; [done|].
    assert (Hk' := Hmap k (ex_intro _ w Hw)). set_solver.
Qed.

(** A node is allocated for a new key and entered in the hash table. *)
Lemma shape_alloc h m ns ps l pl k v :
  Shape h m ns ps l pl -> chm_find m k = None ->
  Shape (Arena (<[brk h := Node k OutOfListMarker nullptr]> (cells h)) (Pos.succ (brk h)))
        (chm_insert m k (HMV v (addr (brk h)))).2 ns (brk h :: ps) l ((k, v) :: pl).
Proof.
  intros [HN Hd Hdom Hbrk Hin Hout Hmark Hmap] Hk. set (n := brk h) in *.
  assert (Hn : n ∉ m_head :: ns ++ m_tail :: ps).
  { intros Hn. assert (n ∈ dom (cells h)) as Hx by (rewrite Hdom; by apply elem_of_list_to_set).
    apply Hbrk in Hx. subst n. lia. }
  assert (Hks : forall ns' l', Forall2 (entry (cells h) m) ns' l' -> k ∉ l'.*1).
  { intros ns' l' HF ([j w] & -> & Hw)%list_elem_of_fmap. apply list_elem_of_lookup in Hw as [i Hi].
    destruct (Forall2_lookup_r _ _ _ _ _ HF Hi) as (? & _ & _ & Hf). simpl in *. congruence. }
  assert (Hext : forall ns' l', n ∉ ns' -> Forall2 (entry (cells h) m) ns' l' ->
     Forall2 (entry (<[n := Node k OutOfListMarker nullptr]> (cells h))
                    (chm_insert m k (HMV v (addr n))).2) ns' l').
  { intros ns' l' Hn' HF. assert (Hl := Hks _ _ HF). revert HF. apply entry_ext.
    - intros x Hx. unfold pay. rewrite lookup_insert_ne; [done|]. by intros ->.
    - intros j Hj. rewrite chm_find_insert, decide_False; [done| |done]. by intros ->. }
  split; cbn [cells brk].
  - rewrite (cons_middle m_tail ns (n :: ps)), app_assoc.
    apply (NoDup_Permutation_proper _ _ (Permutation_middle (m_head :: ns ++ [m_tail]) ps n)).
    simpl. rewrite <- app_assoc. by constructor.
  - apply dll_insert; [set_solver | done].
  - rewrite dom_insert_L, Hdom. set_solver.
  - intros x. rewrite dom_insert_L. intros [->%elem_of_singleton|Hx]%elem_of_union; [lia|].
    apply Hbrk in Hx. lia.
  - apply Hext; [set_solver | done].
  - constructor; [|apply Hext; [set_solver | done]]. split; simpl.
    + unfold pay. by rewrite lookup_insert_eq.
    + by rewrite chm_find_insert, decide_True.
  - constructor; [unfold prv; by rewrite lookup_insert_eq|].
    rewrite Forall_forall in Hmark |- *. intros p Hp. unfold prv.
    rewrite lookup_insert_ne; [by apply Hmark | set_solver].
  - intros j [w Hw]. rewrite chm_find_insert in Hw by done. case_decide; [set_solver|].
    assert (Hj := Hmap j (ex_intro _ w Hw)). set_solver.
Qed.
End shape.

(** ** Refinement *)
Section refinement.
Context {M : Type -> Type} `{CHMLaws M} {V : Type}.
Implicit Types (c : LRUCache M V) (l : list (Z * V)).

(** The object [c] holds the entries [l], in recency order. *)
Record Rep c l : Prop := {
  rep_shape : exists ns, Shape (m_list c) (m_map c) ns [] l [];
  rep_size : m_size c = Z.of_nat (length l);
  rep_max : (0 < m_maxSize c < 2 ^ 64)%Z;
  rep_le : (Z.of_nat (length l) <= m_maxSize c)%Z
}.

Lemma wp_on_list {A} (m : SM (arena Z) A) c Q :
  wp m (m_list c) (fun a h => Q a (with_list h c)) -> wp (on_list m) c Q.
Proof. apply wp_zoom. Qed.

(** [evict] on a non-empty list drops its last entry and frees its node. *)
Lemma wp_evict c ns ps l kv pl (Q : unit -> LRUCache M V -> Prop) :
  Shape (m_list c) (m_map c) ns ps (l ++ [kv]) pl ->
  (forall h m ns', Shape h m ns' ps l pl -> Q tt (with_list h (with_map m c))) ->
  wp evict c Q.
Proof.
  intros Sh HQ.
  assert (Hin := sh_in _ _ _ _ _ _ Sh).
  apply Forall2_app_inv_r in Hin as (ns1 & ns2 & Hin1 & Hin2 & ->).
  apply Forall2_cons_inv_r in Hin2 as (n & ns3 & Hn & Hnil & ->). inversion Hnil; subst.
  assert (Hd := sh_dll _ _ _ _ _ _ Sh). rewrite <- app_assoc, app_comm_cons in Hd.
  apply dll_app in Hd as [_ Hd]. apply dll_cons2 in Hd as [[_ Hprev] _].
  assert (Hne : n <> m_head).
  { assert (HN := sh_nodup _ _ _ _ _ _ Sh). apply NoDup_cons in HN as [HN _]. set_solver. }
  unfold evict. wp_step. apply wp_on_list. eapply wp_get_prev; [exact Hprev|].
  rewrite ptr_eqb_addr, bool_decide_eq_false_2 by done.
  wp_step. apply wp_on_list. eapply (wp_delink_shape _ _ ns1 n [] ps l kv [] pl); [| exact Sh |].
  { by eapply Forall2_length. } rewrite !app_nil_r. intros h Sh'.
  assert (Ho := sh_out _ _ _ _ _ _ Sh'). apply Forall2_cons in Ho as [[Hpay Hfind] _].
  wp_step. apply wp_on_list. eapply wp_get_payload; [exact Hpay|]. wp_step. apply wp_gets. cbn [with_list m_map].
  rewrite Hfind. wp_step. apply wp_modify, wp_on_list, wp_delete_node.
  { unfold pay in Hpay. cbn. by destruct (cells h !! n). }
  cbn. by eapply (HQ _ _ ns1), shape_free.
Qed.

(** On an empty list [evict] does nothing. *)
Lemma wp_evict_nil c ps pl (Q : unit -> LRUCache M V -> Prop) :
  Shape (m_list c) (m_map c) [] ps [] pl -> Q tt c -> wp evict c Q.
Proof.
  intros Sh HQ. assert (Hd := sh_dll _ _ _ _ _ _ Sh). apply dll_cons2 in Hd as [[_ Hp] _].
  unfold evict. wp_step. apply wp_on_list. eapply wp_get_prev; [exact Hp|].
  rewrite ptr_eqb_refl. apply wp_ret. by destruct c.
Qed.

(** A hit moves the node of the key to the front. *)
Lemma wp_promote c ns l k v n (Q : unit -> LRUCache M V -> Prop) :
  Shape (m_list c) (m_map c) ns [] l [] -> assoc k l = Some v -> 
  chm_find (m_map c) k = Some (HMV v (addr n)) ->
  (forall h ns', Shape h (m_map c) ns' [] (touch k l) [] -> Q tt (with_list h c)) ->
  wp (b ← on_list (isInList (addr n)); whenM b (on_list (delink (addr n));; on_list (pushFront (addr n)))) c Q.
Proof.
  intros Sh Ha Hf HQ.
  assert (HN := sh_nodup _ _ _ _ _ _ Sh). rewrite NoDup_cons, NoDup_app in HN.
  assert (Hks := entry_keys_nodup _ _ _ _ (proj1 (proj2 HN)) (sh_in _ _ _ _ _ _ Sh)).
  destruct (shape_locate _ _ _ _ _ _ _ Sh Ha Hf) as (ns1 & ns2 & l1 & l2 & p & -> & -> & Hlen & Hp).
  wp_step. apply wp_on_list. eapply wp_isInList; [exact Hp|]. rewrite ptr_eqb_marker. cbn [whenM negb].
  wp_step. apply wp_on_list. eapply wp_delink_shape; [exact Hlen | exact Sh |].
  intros h Sh'. apply wp_on_list. eapply wp_pushFront_shape; [exact Sh'|].
  intros h' Sh''. cbn. apply (HQ _ (n :: ns1 ++ ns2)). unfold touch.
  rewrite fmap_app, fmap_cons, NoDup_app, NoDup_cons in Hks.
  rewrite Ha, without_split; [done | set_solver | naive_solver].
Qed.

(** The part of the state an operation on the list and the table leaves alone. *)
Definition same_params c' c : Prop := m_maxSize c' = m_maxSize c /\ m_stat c' = m_stat c.

Lemma shape_brk cs b b' m ns ps l pl :
  (b <= b')%positive -> Shape (Arena cs b) m ns ps l pl -> Shape (V:=V) (Arena cs b') m ns ps l pl.
Proof.
  intros Hb [HN Hd Hdom Hbrk Hin Hout Hmark Hmap]. split; try done.
  intros x Hx. apply Hbrk in Hx. simpl in *. lia.
Qed.

Lemma shape_fresh h m ns ps l pl : Shape (V:=V) h m ns ps l pl -> cells h !! brk h = None.
Proof.
  intros Sh. apply not_elem_of_dom. intros Hx. apply (sh_brk _ _ _ _ _ _ Sh) in Hx. lia.
Qed.

(** Keys occur once, so a cache holds at most one value per key. *)
Lemma rep_keys_nodup c l : Rep c l -> NoDup l.*1.
Proof.
  intros [[ns Sh] _ _ _]. destruct Sh as [HN _ _ _ Hin _ _ _].
  eapply entry_keys_nodup; [|exact Hin]. rewrite NoDup_cons, NoDup_app in HN. naive_solver.
Qed.

Lemma rep_find c l k :
  Rep c l -> match assoc k l with
             | Some v => exists n, chm_find (m_map c) k = Some (HMV v (addr n))
             | None => chm_find (m_map c) k = None
             end.
Proof.
  intros [[ns Sh] _ _ _]. destruct (assoc k l) as [v|] eqn:E.
  - destruct (shape_lookup _ _ _ _ _ _ k v Sh) as (n & _ & ?); [|eauto].
    by rewrite assoc_app, E.
  - eapply shape_absent; [exact Sh|]. by rewrite assoc_app, E.
Qed.

Lemma wp_size_rep c l : Rep c l -> wp size c (fun n c' => n = Z.of_nat (length l) /\ c' = c).
Proof. intros R. apply wp_gets. by rewrite (rep_size _ _ R). Qed.

Lemma wp_find c l tl sample ac k :
  Rep c l ->
  wp (find tl sample ac k) c (fun r c' =>
    r = (bool_decide (is_Some (assoc k l)), default ac (assoc k l)) /\
    Rep c' (if tl then touch k l else l) /\ m_maxSize c' = m_maxSize c /\
    m_stat c' = count_find sample (bool_decide (is_Some (assoc k l))) (m_stat c)).
Proof.
  intros R. assert (Hf := rep_find _ _ k R). assert (HN := rep_keys_nodup _ _ R).
  destruct R as [[ns Sh] Hs Hm Hle]. unfold find. wp_step. apply wp_gets.
  destruct (assoc k l) as [v|] eqn:E.
  - destruct Hf as [n Hf]. rewrite Hf. wp_step. cbn [m_listNode m_value].
    apply wp_mono with (P := fun _ c' => Rep c' (if tl then touch k l else l) /\ same_params c' c).
    { apply wp_when; intros ->.
      - eapply wp_promote; [exact Sh | exact E | exact Hf |]. intros h ns' Sh'.
        split; [|done]. split; cbn; rewrite ?length_touch by done; [by exists ns' | done..].
      - split; [|done]. split; eauto. }
    intros _ c' [[Sh' Hs' Hm' Hle'] [H1 H2]]. wp_step. apply wp_when; intros ->; repeat wp_step.
    + split_and!; [done | by split | done |]. cbn. by rewrite H2.
    + split_and!; [done | by split | done | done].
  - rewrite Hf. unfold touch. rewrite E. replace (if tl then l else l) with l by by destruct tl.
    wp_step. apply wp_when; intros ->; repeat wp_step; split_and!; try done; split; eauto.
Qed.

(** [new] followed by [delete]: the insertion of a key that is present. *)
Lemma wp_insert_dup c l k v w :
  Rep c l -> assoc k l = Some w ->
  wp (insert k v) c (fun b c' => b = false /\ Rep c' l /\ same_params c' c).
Proof.
  intros R E. assert (Hf := rep_find _ _ k R). rewrite E in Hf. destruct Hf as [n Hf].
  destruct R as [[ns Sh] Hs Hm Hle].
  unfold insert. wp_step. apply wp_on_list, wp_new_node. wp_step. apply wp_gets. cbn [with_list m_map].
  rewrite (chm_insert_dup _ _ _ _ _ Hf). wp_step. apply wp_modify. cbn [fst negb snd].
  wp_step. apply wp_on_list, wp_delete_node; [by cbn; rewrite lookup_insert_eq|].
  apply wp_ret. split_and!; [done | | done]. split; try done. exists ns. cbn.
  assert (Hn := shape_fresh _ _ _ _ _ _ Sh). unfold on_cells. cbn. rewrite delete_insert_id by done.
  destruct (m_list c) as [cs b]. cbn in *. eapply shape_brk; [|exact Sh]. lia.
Qed.

Lemma wp_insert_new c l k v :
  Rep c l -> assoc k l = None ->
  wp (insert k v) c (fun b c' => b = true /\ same_params c' c /\
     Rep c' ((k, v) :: (if (m_maxSize c <=? Z.of_nat (length l))%Z then removelast l else l))).
Proof.
  intros R E. assert (Hf := rep_find _ _ k R). rewrite E in Hf.
  destruct R as [[ns Sh] Hs Hm Hle].
  unfold insert. wp_step. apply wp_on_list, wp_new_node. wp_step. apply wp_gets. cbn [with_list m_map].
  wp_step. apply wp_modify. rewrite (chm_insert_new _ _ _ _ Hf). cbn [fst negb].
  assert (Sh1 := shape_alloc _ _ _ _ _ _ k v Sh Hf). do 2 (wp_step; apply wp_gets). cbn [m_maxSize m_size with_map with_list].
  rewrite Hs. remember (m_maxSize c <=? Z.of_nat (length l))%Z as full eqn:Hfull.
  wp_step. apply wp_mono with (P := fun e c' => e = full /\ same_params c' c /\ m_size c' = m_size c /\
     exists ns', Shape (m_list c') (m_map c') ns' [brk (m_list c)] (if full then removelast l else l) [(k, v)]).
  - destruct full; [|apply wp_ret; split_and!; [done..|]; by exists ns]. wp_step.
    destruct l as [|x l] using rev_ind. { symmetry in Hfull. apply Z.leb_le in Hfull. simpl in Hfull. lia. } rewrite removelast_last.
    eapply wp_evict; [exact Sh1|]. intros h m ns' Sh'. wp_step. split_and!; try done. by exists ns'.
  - intros ? c1 (-> & [Hc1 Hc2] & Hc3 & ns' & Sh2). wp_step. apply wp_on_list.
    eapply wp_pushFront_shape; [exact Sh2|]. intros h' Sh3. 
    assert (Hlen : length (removelast l) = length l - 1) by (rewrite removelast_firstn_len, length_take; lia).
    wp_step. destruct full; cbn [negb]; repeat wp_step.
    + rewrite whenM_false by lia. split_and!; [done | done |]. split; cbn; rewrite ?Hc1, ?Hc3; 
        [by eexists | | done |]; cbn; lia.
    + cbn. rewrite Hc3, Hs, whenM_false by lia. split_and!; [done | done |].
      split; cbn; rewrite ?Hc1; [by eexists | | done | cbn; lia]. 
      rewrite u64_small; cbn; lia.
Qed.

Lemma wp_delete_key c l k :
  Rep c l -> wp (delete_key k) c (fun _ c' => Rep c' (without k l) /\ same_params c' c).
Proof.
  intros R. assert (Hf := rep_find _ _ k R). assert (HN := rep_keys_nodup _ _ R).
  destruct R as [[ns Sh] Hs Hm Hle]. unfold delete_key. wp_step. apply wp_gets.
  destruct (assoc k l) as [v|] eqn:E.
  - destruct Hf as [n Hf]. rewrite Hf. cbn [m_listNode].
    destruct (shape_locate _ _ _ _ _ _ _ Sh E Hf) as (ns1 & ns2 & l1 & l2 & p & -> & -> & Hlen & Hp).
    wp_step. apply wp_on_list. eapply wp_isInList; [exact Hp|]. rewrite ptr_eqb_marker. cbn [negb].
    wp_step. apply wp_on_list. eapply wp_delink_shape; [exact Hlen | exact Sh |]. intros h Sh'.
    wp_step. apply wp_modify. wp_step. apply wp_on_list, wp_delete_node; [by eapply shape_out_alloc|].
    repeat wp_step. split; [|done]. apply shape_free in Sh'.
    assert (Hk : k ∉ l1.*1 /\ k ∉ l2.*1).
    { rewrite fmap_app, fmap_cons, NoDup_app, NoDup_cons in HN. set_solver. }
    rewrite length_app in Hs, Hle. simpl in Hs, Hle.
    rewrite without_split by naive_solver. split; cbn; rewrite ?length_app;
      [by eexists | rewrite Hs, u64_small; lia | done | lia].
  - rewrite Hf. apply wp_ret. apply assoc_None in E. rewrite without_id by done.
    split; [|done]. split; eauto.
Qed.

(** The nodes of the list fit in the fuel of the traversal loops. *)
Lemma shape_fuel h m ns l : Shape (V:=V) h m ns [] l [] -> length ns < S (base.size (cells h)).
Proof.
  intros [HN _ Hdom _ _ _ _ _]. rewrite <- size_dom, Hdom, size_list_to_set by done.
  simpl. rewrite length_app. simpl. lia.
Qed.

Lemma shape_first h m ns ps l pl :
  Shape (V:=V) h m ns ps l pl -> nxt (cells h) m_head = Some (addr (default m_tail (head ns))).
Proof. intros Sh. apply forward_head, dll_forward, Sh. Qed.

Lemma shape_path h m ns ps l pl :
  Shape (V:=V) h m ns ps l pl -> NoDup (ns ++ [m_tail]) /\ forward (cells h) (ns ++ [m_tail]).
Proof.
  intros Sh. split; [|eapply forward_tail, dll_forward, Sh].
  destruct Sh as [HN _ _ _ _ _ _ _]. apply NoDup_cons in HN as [_ HN].
  rewrite cons_middle, app_assoc, NoDup_app in HN. naive_solver.
Qed.

Lemma wp_clear c l :
  Rep c l -> wp clear c (fun _ c' => Rep c' [] /\ same_params c' c /\ dom (cells (m_list c')) = {[m_head; m_tail]}).
Proof.
  intros [[ns Sh] Hs Hm Hle]. destruct (shape_path _ _ _ _ _ _ Sh) as [HN Hp].
  unfold clear. do 2 wp_step. wp_step. apply wp_modify. wp_step. apply wp_on_list.
  eapply wp_get_next; [exact (shape_first _ _ _ _ _ _ Sh)|].
  do 2 wp_step. wp_step. apply wp_on_list. apply wp_free_until;
    [by eapply shape_fuel | done | done |]. cbn.
  unfold on_cells at 1. cbn beta. set (cs := foldl (fun cs n => delete n cs) (cells (m_list c)) ns).
  assert (Hcs : dom cs = {[m_head; m_tail]}).
  { apply set_eq. intros x. rewrite elem_of_dom. subst cs. rewrite lookup_free.
    destruct Sh as [HN' _ Hdom _ _ _ _ _]. rewrite NoDup_cons, NoDup_app in HN'.
    case_decide as Hx; [split; [by intros [? ?] | set_solver]|].
    rewrite <- elem_of_dom, Hdom. set_solver. }
  assert (is_Some (cs !! m_head) /\ is_Some (cs !! m_tail)) as [Hh Ht].
  { rewrite <- !elem_of_dom, Hcs. set_solver. }
  clearbody cs. wp_step. apply wp_on_list, wp_set_next; [done|].
  wp_step. apply wp_on_list, wp_set_prev; [by cbn; rewrite lookup_alter_is_Some|].
  apply wp_modify. cbn.
  assert (Hdom' : dom (alter (with_prev (addr m_head)) m_tail (alter (with_next (addr m_tail)) m_head cs)) = {[m_head; m_tail]})
    by by rewrite !dom_alter_L.
  split_and!; [|done|done]. split; cbn; [|done|done|lia]. exists []. split; cbn.
  - rewrite !NoDup_cons. split_and!; [set_solver.. | by apply NoDup_nil].
  - split; [|done]. destruct Hh as [mh Hh], Ht as [mt Ht]. split.
    + unfold m_head, m_tail in *. by rewrite !nxt_alter, decide_False, decide_True, Hh.
    + unfold m_head, m_tail in *. by rewrite prv_alter, decide_True, lookup_alter_ne, Ht.
  - rewrite Hdom'. set_solver.
  - intros x. rewrite Hdom'. intros Hx. apply (sh_brk _ _ _ _ _ _ Sh).
    rewrite (sh_dom _ _ _ _ _ _ Sh). set_solver.
  - constructor.
  - constructor.
  - constructor.
  - intros k [w Hw]. by rewrite chm_find_clear in Hw.
Qed.

Lemma wp_snapshotKeys c l keys :
  Rep c l -> wp (snapshotKeys keys) c (fun r c' => r = keys ++ l.*1 /\ c' = c).
Proof.
  intros [[ns Sh] Hs Hm Hle]. destruct (shape_path _ _ _ _ _ _ Sh) as [HN Hp].
  unfold snapshotKeys. wp_step. apply wp_on_list.
  eapply wp_get_next; [exact (shape_first _ _ _ _ _ _ Sh)|].
  do 2 wp_step. wp_step. apply wp_on_list. eapply (wp_collect_until _ _ l.*1);
    [by eapply shape_fuel | done | done | |].
  - apply Forall2_fmap_r. eapply Forall2_impl; [apply Sh|]. by intros n [k v] [? _].
  - apply wp_ret. split; [done|]. by destruct c.
Qed.

Lemma rep_new cap : (0 < cap < 2 ^ 64)%Z -> Rep (new_LRUCache cap) [].
Proof.
  intros Hc. split; [|done|done|cbn; lia]. exists []. split; cbn [new_LRUCache m_list m_map cells brk app].
  - rewrite !NoDup_cons. split_and!; [set_solver.. | by apply NoDup_nil].
  - done.
  - apply set_eq. intros x. rewrite dom_insert, dom_singleton, elem_of_list_to_set. set_solver.
  - intros x. rewrite dom_insert, dom_singleton, elem_of_union, !elem_of_singleton.
    unfold m_head, m_tail. lia.
  - constructor.
  - constructor.
  - constructor.
  - intros k [w Hw]. by rewrite chm_find_empty in Hw.
Qed.
End refinement.

(** ** The object behind the shard interface *)
#[export] Instance LRUCache_api {M V} `{CHM M} : CacheAPI (LRUCache M V) V := {
  api_find e := find (try_lock e) (sample e);
  api_insert := insert;
  api_delete_key := delete_key;
  api_clear := clear;
  api_snapshotKeys := snapshotKeys;
  api_size := size
}.

Section laws.
Context {M : Type -> Type} `{CHMLaws M} {V : Type}.
Implicit Types (c : LRUCache M V) (l : list (Z * V)).

(** The methods the three list caches share, through the interface. *)
Lemma wp_insert c l k v :
  Rep c l -> wp (insert k v) c (fun b c' =>
    b = (add (m_maxSize c) k v l).1 /\ Rep c' (add (m_maxSize c) k v l).2 /\ same_params c' c).
Proof.
  intros R. unfold add. destruct (assoc k l) as [w|] eqn:E; cbn.
  - eapply wp_mono; [by eapply wp_insert_dup|]. naive_solver.
  - eapply wp_mono; [by apply wp_insert_new|]. naive_solver.
Qed.

#[export] Instance LRUCache_laws : CacheLaws (LRUCache M V) V Rep m_maxSize lru_policy.
Proof.
  split; [|by apply rep_keys_nodup | by intros c l [] | intros e k l ?; unfold lru_policy; destruct (try_lock e); [by apply touch_perm | done]].
  intros o c l R.
  destruct o; cbn [call spec_op]; wp_step; eapply wp_mono.
  - by apply (wp_find c l).
  - intros r c' (-> & ? & ? & ?). by apply wp_ret.
  - by apply (wp_insert c l).
  - intros b c' (-> & ? & [? ?]). wp_step. by destruct (add _ _ _ _).
  - by apply (wp_delete_key c l).
  - intros _ c' (? & [? ?]). by wp_step.
  - by apply (wp_clear c l).
  - intros _ c' (? & [? ?] & ?). by wp_step.
  - by apply (wp_snapshotKeys c l).
  - intros r c' (-> & ->). by wp_step.
  - by apply (wp_size_rep c l).
  - intros r c' [-> ->]. by wp_step.
Qed.

Lemma rep_nodes c l : Rep c l -> base.size (cells (m_list c)) = length l + 2.
Proof.
  intros [[ns [HN _ Hdom _ Hin _ _ _]] _ _ _].
  rewrite <- size_dom, Hdom, size_list_to_set by done.
  simpl. rewrite length_app. simpl. rewrite (Forall2_length _ _ _ Hin). lia.
Qed.
End laws.

(** ** Properties *)
Section properties.
Context {M : Type -> Type} `{CHMLaws M} {V : Type}.
Implicit Types (c : LRUCache M V) (l : list (Z * V)).

(** C1: an [LRUCache] answers every sequence of calls (find, insert,
    delete_key, clear, snapshotKeys, size) exactly as a bounded list in recency
    order does: it never crashes (no bad dereference, no use after free, no
    double free), and at the end it holds the specified entries, at most
    [m_maxSize] of them, with [m_size] their number, and no list node is leaked
    (one per entry and the two sentinels). *)
Theorem lru_run_refines (cap : Z) (ops : list (op V)) :
  (0 < cap < 2 ^ 64)%Z ->
  exists c', run ops (new_LRUCache (M:=M) cap) = Ok ((spec_run lru_policy cap ops []).1, c') /\
    m_size c' = Z.of_nat (length (spec_run lru_policy cap ops []).2) /\ (m_size c' <= cap)%Z /\
    base.size (cells (m_list c')) = length (spec_run lru_policy cap ops []).2 + 2.
Proof.
  intros Hc. destruct (wp_elim _ _ _ (run_refines ops _ _ (rep_new (M:=M) cap Hc)))
    as (rs & c' & Hrun & -> & HR & Hcap). exists c'. split; [done|].
  assert (Hn := rep_nodes _ _ HR). destruct HR as [_ Hs _ Hle]. cbn in *. split_and!; [done | lia | done].
Qed.

(** [find] returns the value of the key iff it is cached and leaves the
    caller's accessor alone otherwise; with the list mutex a hit moves the entry
    to the front and without it the order stays; no entry is lost and one
    counter goes up iff the access is sampled. *)
Theorem lru_find_refines c l (tl sample : bool) ac k :
  Rep c l ->
  exists c', find tl sample ac k c = Ok ((bool_decide (is_Some (assoc k l)), default ac (assoc k l)), c') /\
    Rep c' (if tl then touch k l else l) /\
    m_stat c' = count_find sample (bool_decide (is_Some (assoc k l))) (m_stat c).
Proof.
  intros R. destruct (wp_elim _ _ _ (wp_find c l tl sample ac k R)) as (r & c' & Hf & -> & ? & ? & ?). eauto.
Qed.

(** [insert] of a new key puts it at the front, and in a full cache evicts
    the entry at the end of the list and no other; a key that is present is
    rejected and nothing changes. *)
Theorem lru_insert_refines c l k v :
  Rep c l ->
  exists c', insert k v c = Ok (bool_decide (assoc k l = None :> option V), c') /\
    Rep c' (match assoc k l with
            | Some _ => l
            | None => (k, v) :: (if (m_maxSize c <=? Z.of_nat (length l))%Z then removelast l else l)
            end).
Proof.
  intros R. destruct (wp_elim _ _ _ (wp_insert c l k v R)) as (b & c' & Hf & -> & HR & _).
  exists c'. rewrite Hf. unfold add in *. by destruct (assoc k l).
Qed.

(** [delete_key] removes the entry of the key and no other, frees its node,
    and the entry count stays exact; an absent key changes nothing. *)
Theorem lru_delete_key_refines c l k :
  Rep c l ->
  exists c', delete_key k c = Ok (tt, c') /\ Rep c' (without k l) /\
    m_size c' = Z.of_nat (length (without k l)) /\ chm_find (m_map c') k = None.
Proof.
  intros R. destruct (wp_elim _ _ _ (wp_delete_key c l k R)) as ([] & c' & Hf & HR & _).
  exists c'. split_and!; [done | done | apply HR |]. assert (Hk := rep_find _ _ k HR).
  by rewrite assoc_without, decide_True in Hk.
Qed.

(** [clear] frees every node but the sentinels and leaves an empty cache;
    [snapshotKeys] appends the keys in recency order and changes nothing. *)
Theorem lru_clear_snapshot c l keys :
  Rep c l ->
  snapshotKeys keys c = Ok (keys ++ l.*1, c) /\
  exists c', clear c = Ok (tt, c') /\ Rep c' [] /\ dom (cells (m_list c')) = {[m_head; m_tail]}.
Proof.
  intros R. destruct (wp_elim _ _ _ (wp_snapshotKeys c l keys R)) as (r & c1 & Hf & -> & ->).
  destruct (wp_elim _ _ _ (wp_clear c l R)) as ([] & c' & Hc & ? & _ & ?). eauto 10.
Qed.
End properties.

(** *** Witnesses: a cache of two entries *)
Definition demo_ops : list (op Z) :=
  [Insert 10 1%Z; Insert 11 2%Z; Find {| try_lock := true; sample := true |} 0%Z 10;
   Insert 12 3%Z; SnapshotKeys []; DeleteKey 10; Size; Clear; Size].

Lemma lru_run_refines_witness :
  exists c', run demo_ops (new_LRUCache (M:=gmap Z) 2) = Ok ((spec_run lru_policy 2 demo_ops []).1, c') /\
    (spec_run lru_policy 2 demo_ops []).1 =
      [Inserted true; Inserted true; Found true 1%Z; Inserted true; Keys [12; 10]%Z; Done; Count 1; Done; Count 0].
Proof.
  destruct (lru_run_refines (M:=gmap Z) 2 demo_ops) as (c' & H & _); [lia|].
  exists c'. split; [exact H | vm_compute; reflexivity].
Defined.

Definition demo_cache : LRUCache (gmap Z) Z :=
  match run [Insert 10 1%Z; Insert 11 2%Z] (new_LRUCache (M:=gmap Z) 2) with
  | Ok (_, c) => c
  | Crash _ => new_LRUCache 2
  end.

Lemma demo_rep : Rep demo_cache [(11, 2); (10, 1)]%Z.
Proof.
  destruct (wp_elim _ _ _ (run_refines [Insert 10 1%Z; Insert 11 2%Z] _ _
    (rep_new (M:=gmap Z) (V:=Z) 2 ltac:(lia)))) as (rs & c' & Hrun & _ & HR & _).
  unfold demo_cache. by rewrite Hrun.
Qed.

Lemma lru_find_refines_witness :
  exists c', find true false 0%Z 10 demo_cache = Ok ((true, 1%Z), c') /\ Rep c' [(10, 1); (11, 2)]%Z.
Proof.
  destruct (lru_find_refines demo_cache _ true false 0%Z 10 demo_rep) as (c' & H1 & H2 & _).
  exists c'. split; [exact H1 | exact H2].
Defined.

Lemma lru_insert_refines_witness :
  exists c', insert 12 3%Z demo_cache = Ok (true, c') /\ Rep c' [(12, 3); (11, 2)]%Z.
Proof.
  destruct (lru_insert_refines demo_cache _ 12 3%Z demo_rep) as (c' & H1 & H2).
  exists c'. split; [exact H1 | exact H2].
Defined.

Lemma lru_delete_key_refines_witness :
  exists c', delete_key 11 demo_cache = Ok (tt, c') /\ Rep c' [(10, 1)]%Z.
Proof.
  destruct (lru_delete_key_refines demo_cache _ 11 demo_rep) as (c' & H1 & H2 & _).
  exists c'. split; [exact H1 | exact H2].
Defined.

Lemma lru_clear_snapshot_witness :
  snapshotKeys [7%Z] demo_cache = Ok ([7; 11; 10]%Z, demo_cache) /\
  exists c', clear demo_cache = Ok (tt, c') /\ Rep c' [].
Proof.
  destruct (lru_clear_snapshot demo_cache _ [7%Z] demo_rep) as [H1 (c' & H2 & H3 & _)].
  split; [exact H1 | exists c'; split; [exact H2 | exact H3]].
Defined.
