(* ===== verification/FIFOCache.v ===== *)
(** * The FIFO cache ([cache/FIFO.h])

    [FIFOCache] is the text of [LRUCache] under another class name, except for
    [find], in which the promotion block is commented out.  The other methods
    are therefore the definitions of [LRUCache]; [find] is its own.  The object
    refines the bounded list whose order no hit changes. *)

From S2P Require Import Prelude DList ListPrims Interfaces BaseCache CacheSpec CacheAPI LRUCache.

Definition FIFOCache (M : Type -> Type) (V : Type) : Type := LRUCache M V.
#[global] Typeclasses Opaque FIFOCache.

Section FIFOCache.
Context {M : Type -> Type} `{CHM M} {V : Type}.

Definition new_FIFOCache (maxSize : Z) : FIFOCache M V := new_LRUCache maxSize.

Definition find (sample : bool) (ac : V) (key : Z) : SM (FIFOCache M V) (bool * V) :=
  m ← gets (LRUCache.m_map (M:=M) (V:=V));
  match chm_find m key with
  | None =>
      whenM sample (modify (with_stat miss_incr));;
      mret (false, ac)
  | Some hashAccessor =>
      let ac := m_value hashAccessor in
      whenM sample (modify (with_stat hit_incr));;
      mret (true, ac)
  end.

Definition insert : Z -> V -> SM (FIFOCache M V) bool := LRUCache.insert.
Definition evict : SM (FIFOCache M V) unit := LRUCache.evict.
Definition delete_key : Z -> SM (FIFOCache M V) unit := LRUCache.delete_key.
Definition clear : SM (FIFOCache M V) unit := LRUCache.clear.
Definition snapshotKeys : list Z -> SM (FIFOCache M V) (list Z) := LRUCache.snapshotKeys.
Definition size : SM (FIFOCache M V) Z := LRUCache.size.
End FIFOCache.

#[export] Instance FIFOCache_api {M V} `{CHM M} : CacheAPI (FIFOCache M V) V := {
  api_find e := find (sample e);
  api_insert := insert;
  api_delete_key := delete_key;
  api_clear := clear;
  api_snapshotKeys := snapshotKeys;
  api_size := size
}.

Section laws.
Context {M : Type -> Type} `{CHMLaws M} {V : Type}.

(** [find] is [LRUCache]'s [find] when the mutex is busy. *)
#[export] Instance FIFOCache_laws :
  CacheLaws (FIFOCache M V) V (Rep (V:=V)) (m_maxSize (V:=V)) fifo_policy.
Proof.
  split; [|by apply rep_keys_nodup | by intros c l [] | done].
  intros o c l R.
  assert (HL := law_call (R := Rep (M:=M) (V:=V)) (p := lru_policy)
    (match o with Find e ac k => Find {| try_lock := false; sample := sample e |} ac k | _ => o end) c l R).
  destruct o; exact HL.
Qed.

(** A [FIFOCache] answers every sequence of calls exactly as a bounded
    queue does: hits do not change the order, a full cache evicts the entry
    inserted first; it never crashes and leaks no node. *)
Theorem fifo_run_refines (cap : Z) (ops : list (op V)) :
  (0 < cap < 2 ^ 64)%Z ->
  exists c', run ops (new_FIFOCache (M:=M) cap) = Ok ((spec_run fifo_policy cap ops []).1, c') /\
    m_size c' = Z.of_nat (length (spec_run fifo_policy cap ops []).2) /\ (m_size c' <= cap)%Z /\
    base.size (cells (m_list c')) = length (spec_run fifo_policy cap ops []).2 + 2.
Proof.
  intros Hc. destruct (wp_elim _ _ _ (run_refines (C := FIFOCache M V) ops _ _ (rep_new (M:=M) cap Hc)))
    as (rs & c' & Hrun & -> & HR & Hcap). exists c'. split; [done|].
  assert (Hn := rep_nodes _ _ HR). destruct HR as [_ Hs _ Hle]. cbn in *. split_and!; [done | lia | done].
Qed.
End laws.

(** With the same calls the entry an [LRUCache] keeps, 10, is evicted. *)
Lemma fifo_run_refines_witness :
  exists c', run demo_ops (new_FIFOCache (M:=gmap Z) 2) = Ok ((spec_run fifo_policy 2 demo_ops []).1, c') /\
    (spec_run fifo_policy 2 demo_ops []).1 =
      [Inserted true; Inserted true; Found true 1%Z; Inserted true; Keys [12; 11]%Z; Done; Count 2; Done; Count 0].
Proof.
  destruct (fifo_run_refines (M:=gmap Z) 2 demo_ops) as (c' & H & _); [lia|].
  exists c'. split; [exact H | vm_compute; reflexivity].
Defined.
