(* ===== verification/StrictLRUCache.v ===== *)
(** * The strict LRU cache ([cache/strict_lru.h])

    [StrictLRUCache] is the text of [LRUCache] under another class name, except
    that [find] waits for the list mutex ([unique_lock lock(m_listMutex)]), so
    that every hit promotes.  The object refines true LRU. *)

From S2P Require Import Prelude DList ListPrims Interfaces BaseCache CacheSpec CacheAPI LRUCache.

Definition StrictLRUCache (M : Type -> Type) (V : Type) : Type := LRUCache M V.
#[global] Typeclasses Opaque StrictLRUCache.

Section StrictLRUCache.
Context {M : Type -> Type} `{CHM M} {V : Type}.

Definition new_StrictLRUCache (maxSize : Z) : StrictLRUCache M V := new_LRUCache maxSize.

Definition find (sample : bool) (ac : V) (key : Z) : SM (StrictLRUCache M V) (bool * V) :=
  m ← gets (LRUCache.m_map (M:=M) (V:=V));
  match chm_find m key with
  | None =>
      whenM sample (modify (with_stat miss_incr));;
      mret (false, ac)
  | Some hashAccessor =>
      let ac := m_value hashAccessor in
      let node := m_listNode hashAccessor in
      b ← on_list (isInList node);
      whenM b (on_list (delink node);; on_list (pushFront node));;
      whenM sample (modify (with_stat hit_incr));;
      mret (true, ac)
  end.

Definition insert : Z -> V -> SM (StrictLRUCache M V) bool := LRUCache.insert.
Definition evict : SM (StrictLRUCache M V) unit := LRUCache.evict.
Definition delete_key : Z -> SM (StrictLRUCache M V) unit := LRUCache.delete_key.
Definition clear : SM (StrictLRUCache M V) unit := LRUCache.clear.
Definition snapshotKeys : list Z -> SM (StrictLRUCache M V) (list Z) := LRUCache.snapshotKeys.
Definition size : SM (StrictLRUCache M V) Z := LRUCache.size.
End StrictLRUCache.

#[export] Instance StrictLRUCache_api {M V} `{CHM M} : CacheAPI (StrictLRUCache M V) V := {
  api_find e := find (sample e);
  api_insert := insert;
  api_delete_key := delete_key;
  api_clear := clear;
  api_snapshotKeys := snapshotKeys;
  api_size := size
}.

Section laws.
Context {M : Type -> Type} `{CHMLaws M} {V : Type}.

(** [find] is [LRUCache]'s [find] when the mutex is free. *)
Lemma find_with_lock sample (ac : V) key (c : StrictLRUCache M V) :
  find sample ac key c = LRUCache.find true sample ac key c.
Proof.
  unfold find, LRUCache.find, whenM, mbind, SM_bind. cbn.
  destruct (chm_find (LRUCache.m_map c) key); [|done]. cbn. by destruct (on_list _ _) as [[[] ?]|].
Qed.

#[export] Instance StrictLRUCache_laws :
  CacheLaws (StrictLRUCache M V) V (Rep (V:=V)) (m_maxSize (V:=V)) strict_policy.
Proof.
  split; [|by apply rep_keys_nodup | by intros c l [] | by intros; apply touch_perm].
  intros o c l R.
  assert (HL := law_call (R := Rep (M:=M) (V:=V)) (p := lru_policy)
    (match o with Find e ac k => Find {| try_lock := true; sample := sample e |} ac k | _ => o end) c l R).
  destruct o; try exact HL. revert HL. unfold wp, call, mbind, SM_bind. cbn. by rewrite find_with_lock.
Qed.

(** A [StrictLRUCache] answers every sequence of calls exactly as true LRU
    does: every hit promotes, whatever other threads do with the mutex, and a
    full cache evicts the least recently used entry; it never crashes and leaks
    no node. *)
Theorem strict_run_refines (cap : Z) (ops : list (op V)) :
  (0 < cap < 2 ^ 64)%Z ->
  exists c', run ops (new_StrictLRUCache (M:=M) cap) = Ok ((spec_run strict_policy cap ops []).1, c') /\
    m_size c' = Z.of_nat (length (spec_run strict_policy cap ops []).2) /\ (m_size c' <= cap)%Z /\
    base.size (cells (m_list c')) = length (spec_run strict_policy cap ops []).2 + 2.
Proof.
  intros Hc. destruct (wp_elim _ _ _ (run_refines (C := StrictLRUCache M V) ops _ _ (rep_new (M:=M) cap Hc)))
    as (rs & c' & Hrun & -> & HR & Hcap). exists c'. split; [done|].
  assert (Hn := rep_nodes _ _ HR). destruct HR as [_ Hs _ Hle]. cbn in *. split_and!; [done | lia | done].
Qed.
End laws.

Lemma strict_run_refines_witness :
  let ops := [Insert 10 1%Z; Insert 11 2%Z; Find {| try_lock := false; sample := false |} 0%Z 10;
              Insert 12 3%Z; SnapshotKeys []] in
  exists c', run ops (new_StrictLRUCache (M:=gmap Z) 2) = Ok ((spec_run strict_policy 2 ops []).1, c') /\
    (spec_run strict_policy 2 ops []).1 =
      [Inserted true; Inserted true; Found true 1%Z; Inserted true; Keys [12; 10]%Z].
Proof.
  intros ops. destruct (strict_run_refines (M:=gmap Z) 2 ops) as (c' & H & _); [lia|].
  exists c'. split; [exact H | vm_compute; reflexivity].
Defined.
