(* ===== verification/ScalableCache.v ===== *)
(** * The sharded cache ([cache/hhvm-scalable-cache.h])

    [ConcurrentScalableCache] splits the capacity over [m_numShards] caches and
    sends every call to the shard the key hashes to.  The shards are anything
    that implements the interface [CacheAPI]; what they promise is [CacheLaws],
    and the properties of the sharded cache are proved from it.  The hash
    function ([tbb_hash_compare]) is a parameter, as is the machine's
    [hardware_concurrency]. *)

From S2P Require Import Prelude Interfaces CacheSpec CacheAPI BaseCache LRUCache.
From Stdlib Require Import QArith.
Local Close Scope Q_scope.

Inductive Type_ := LRU | LFU | LRU_FH | LFU_FH | FIFO_FH | Redis_LRU | FIFO | StrictLRU.

Record ConcurrentScalableCache (C : Type) := {
  m_maxSize : Z;
  m_numShards : Z;
  m_shards : list C;
  algType : Type_;
  FROZEN_THRESHOLD : Z
}.
Arguments m_maxSize {C}. Arguments m_numShards {C}. Arguments m_shards {C}.
Arguments algType {C}. Arguments FROZEN_THRESHOLD {C}.

Definition with_shards {C} (l : list C) (s : ConcurrentScalableCache C) : ConcurrentScalableCache C :=
  {| m_maxSize := m_maxSize s; m_numShards := m_numShards s; m_shards := l;
     algType := algType s; FROZEN_THRESHOLD := FROZEN_THRESHOLD s |}.

(** The capacity of shard [i]. *)
Definition shard_size (maxSize numShards i : Z) : Z :=
  let s := (maxSize / numShards)%Z in
  let t := (maxSize mod numShards)%Z in
  if (i <? t)%Z then u64 (s + 1) else s.

(** The types whose constructor branch has [assert(FROZEN_THRESHOLD > 0)]. *)
Definition is_FH (t : Type_) : bool :=
  match t with LRU_FH | LFU_FH | FIFO_FH => true | _ => false end.

(** The constructor.  [make t s] is the constructor of the shard class of type
    [t], [hw] the value of [std::thread::hardware_concurrency()]. *)
Definition new_ConcurrentScalableCache {C} (make : Type_ -> Z -> C) (hw : Z)
    (maxSize numShards : Z) (type : Type_) (rebuild_freq : Z) : res (ConcurrentScalableCache C) :=
  let numShards := if (numShards =? 0)%Z then hw else numShards in
  if bool_decide (0 < numShards)%Z && is_FH type && negb (0 <? rebuild_freq)%Z then Crash AssertFail else
  Ok {| m_maxSize := maxSize; m_numShards := numShards;
        m_shards := (fun i => make type (shard_size maxSize numShards i)) <$> seqZ 0 numShards;
        algType := type; FROZEN_THRESHOLD := rebuild_freq |}.

Section operations.
Context {C V : Type} `{CacheAPI C V} (hash : Z -> Z).
Abbreviation CSC := (ConcurrentScalableCache C).

(** A call on the shard at an index: [m_shards.at(h)] throws out of range. *)
Definition at_shard {A} (h : Z) (m : SM C A) : SM CSC A := fun s =>
  match m_shards s !! Z.to_nat h with
  | None => Crash OutOfRange
  | Some c => match m c with
              | Ok (a, c') => Ok (a, with_shards (<[Z.to_nat h := c']> (m_shards s)) s)
              | Crash e => Crash e
              end
  end.

(** The top 16 bits of the 64-bit hash, modulo the number of shards. *)
Definition getShard (key : Z) : SM CSC Z :=
  n ← gets m_numShards;
  if (n =? 0)%Z then crashes DivideByZero else
  mret (Z.shiftr (hash key) (64 - 16) mod n)%Z.

Definition find (e : choice) (ac : V) (key : Z) : SM CSC (bool * V) :=
  h ← getShard key; at_shard h (api_find e ac key).
Definition insert (key : Z) (value : V) : SM CSC bool :=
  h ← getShard key; at_shard h (api_insert key value).
Definition delete_key (key : Z) : SM CSC unit :=
  h ← getShard key; at_shard h (api_delete_key key).

(** The body of [clear] is commented out in the source, against the comment at
    its declaration, which says that it clears the container. *)
Definition clear : SM CSC unit := mret tt.

Fixpoint snapshot_from (idx : list Z) (keys : list Z) : SM CSC (list Z) :=
  match idx with
  | [] => mret keys
  | i :: idx => keys ← at_shard i (api_snapshotKeys keys); snapshot_from idx keys
  end.
Definition snapshotKeys (keys : list Z) : SM CSC (list Z) :=
  n ← gets m_numShards; snapshot_from (seqZ 0 n) keys.

Fixpoint size_from (idx : list Z) (size : Z) : SM CSC Z :=
  match idx with
  | [] => mret size
  | i :: idx => n ← at_shard i api_size; size_from idx (u64 (size + n))
  end.
Definition Size : SM CSC Z :=
  n ← gets m_numShards; size_from (seqZ 0 n) 0.

(** The calls of the interface, on the sharded cache. *)
Definition call (o : op V) : SM CSC (answer V) :=
  match o with
  | CacheAPI.Find e ac key => r ← find e ac key; mret (Found r.1 r.2)
  | CacheAPI.Insert key value => b ← insert key value; mret (Inserted b)
  | CacheAPI.DeleteKey key => delete_key key;; mret Done
  | CacheAPI.Clear => clear;; mret Done
  | CacheAPI.SnapshotKeys keys => ks ← snapshotKeys keys; mret (Keys ks)
  | CacheAPI.Size => n ← Size; mret (Count n)
  end.

Fixpoint run (ops : list (op V)) : SM CSC (list (answer V)) :=
  match ops with
  | [] => mret []
  | o :: ops => a ← call o; rest ← run ops; mret (a :: rest)
  end.
End operations.

(** ** Shard sizes *)
Lemma shard_size_sum maxSize n m :
  (0 <= maxSize < 2 ^ 64)%Z -> (0 < n)%Z ->
  sumZ (shard_size maxSize n <$> seqZ 0 (Z.of_nat m)) =
    (Z.of_nat m * (maxSize / n) + Z.min (Z.of_nat m) (maxSize mod n))%Z.
Proof.
  intros Hm Hn. assert (Hr := Z.mod_pos_bound maxSize n Hn).
  assert (Hd := Z.div_mod maxSize n ltac:(lia)). assert (0 <= maxSize / n)%Z by (apply Z.div_pos; lia).
  induction m as [|m IH]; [rewrite seqZ_nil by lia; cbn [fmap list_fmap sumZ foldr]; lia|].
  rewrite seqZ_S, fmap_app, Nat2Z.inj_succ. cbn [fmap list_fmap].
  rewrite sumZ_snoc, IH. unfold shard_size. rewrite Z.add_0_l.
  destruct (Z.ltb_spec (Z.of_nat m) (maxSize mod n)); [|lia]. rewrite u64_small; nia.
Qed.

Lemma shard_size_total maxSize n :
  (0 <= maxSize < 2 ^ 64)%Z -> (0 < n)%Z -> sumZ (shard_size maxSize n <$> seqZ 0 n) = maxSize.
Proof.
  intros Hm Hn. assert (HS := shard_size_sum maxSize n (Z.to_nat n) Hm Hn).
  rewrite !Z2Nat.id in HS by lia. rewrite HS.
  assert (Hr := Z.mod_pos_bound maxSize n Hn). rewrite Z.min_r by lia. symmetry. apply Z.div_mod. lia.
Qed.

(** ** Refinement *)
Section refinement.
Context {C V : Type} `{CacheLaws C V R capacity p} (hash : Z -> Z).
Abbreviation CSC := (ConcurrentScalableCache C).
Implicit Types (s : CSC) (ls : list (list (Z * V))).

Definition shard_index (n : nat) (key : Z) : nat :=
  Z.to_nat (Z.shiftr (hash key) 48 mod Z.of_nat n).

(** The specification: every shard is a bounded list of its own. *)
Definition on_shard (caps : list Z) (key : Z) (o : op V) ls : answer V * list (list (Z * V)) :=
  let i := shard_index (length ls) key in
  let '(a, l) := spec_op p (caps !!! i) o (ls !!! i) in (a, <[i := l]> ls).

Definition spec_call (caps : list Z) (o : op V) ls : answer V * list (list (Z * V)) :=
  match o with
  | CacheAPI.Find _ _ key | CacheAPI.Insert key _ | CacheAPI.DeleteKey key => on_shard caps key o ls
  | CacheAPI.Clear => (Done, ls)
  | CacheAPI.SnapshotKeys ks => (Keys (ks ++ (concat ls).*1), ls)
  | CacheAPI.Size => (Count (Z.of_nat (length (concat ls))), ls)
  end.

Fixpoint spec_calls (caps : list Z) (ops : list (op V)) ls : list (answer V) * list (list (Z * V)) :=
  match ops with
  | [] => ([], ls)
  | o :: ops => let '(a, ls1) := spec_call caps o ls in
                let '(rest, ls2) := spec_calls caps ops ls1 in (a :: rest, ls2)
  end.

(** The shards of [s] hold [ls], their capacities are [caps], their sum fits
    [size_t]. *)
Record RepS s (caps : list Z) ls : Prop := {
  rs_shards : Forall2 R (m_shards s) ls;
  rs_caps : capacity <$> m_shards s = caps;
  rs_num : m_numShards s = Z.of_nat (length ls);
  rs_pos : 0 < length ls;
  rs_sum : (sumZ caps < 2 ^ 64)%Z
}.

Lemma shard_index_lt n key : 0 < n -> shard_index n key < n.
Proof.
  intros Hn. unfold shard_index.
  assert (Hm := Z.mod_pos_bound (Z.shiftr (hash key) 48) (Z.of_nat n) ltac:(lia)). lia.
Qed.

(** A call on shard [i]: the shard's answer, the other shards unchanged. *)
Lemma wp_at_shard {A} s caps ls i c l (m : SM C A) (P : A -> list (Z * V) -> Prop) :
  RepS s caps ls -> m_shards s !! i = Some c -> ls !! i = Some l ->
  wp m c (fun a c' => exists l', P a l' /\ R c' l' /\ capacity c' = capacity c) ->
  wp (at_shard (Z.of_nat i) m) s (fun a s' => exists l', P a l' /\ RepS s' caps (<[i := l']> ls)).
Proof.
  intros [Hs Hc Hn Hp Hsum] Hi Hl Hm. unfold wp, at_shard. rewrite Nat2Z.id, Hi.
  apply wp_elim in Hm as (a & c' & -> & l' & HP & HR & Hcap). exists l'. split; [done|].
  split; cbn; rewrite ?length_insert; try done; [by apply Forall2_insert|].
  subst caps. rewrite list_fmap_insert. apply list_insert_id.
  rewrite list_lookup_fmap, Hi. cbn. by rewrite Hcap.
Qed.

Lemma reps_lookup s caps ls i :
  RepS s caps ls -> i < length ls ->
  exists c l, m_shards s !! i = Some c /\ ls !! i = Some l /\ R c l /\ caps !! i = Some (capacity c).
Proof.
  intros [Hs Hc _ _ _] Hi. apply lookup_lt_is_Some_2 in Hi as [l Hl].
  destruct (Forall2_lookup_r _ _ _ _ _ Hs Hl) as (c & Hc' & HR). exists c, l.
  split_and!; [done.. |]. subst caps. by rewrite list_lookup_fmap, Hc'.
Qed.

(** A keyed call goes to the shard of the key and follows its specification. *)
Lemma wp_keyed s caps ls key (o : op V) :
  RepS s caps ls ->
  wp (h ← getShard (C:=C) hash key; at_shard h (CacheAPI.call o)) s
     (fun a s' => a = (on_shard caps key o ls).1 /\ RepS s' caps (on_shard caps key o ls).2).
Proof.
  intros HR. assert (Hlt := shard_index_lt (length ls) key (rs_pos _ _ _ HR)).
  destruct (reps_lookup _ _ _ _ HR Hlt) as (c & l & Hc & Hl & HRc & Hcap).
  unfold on_shard. rewrite (list_lookup_total_correct _ _ _ Hl), (list_lookup_total_correct _ _ _ Hcap).
  wp_step. unfold getShard. do 2 wp_step. assert (Hp := rs_pos _ _ _ HR). rewrite (rs_num _ _ _ HR).
  rewrite (proj2 (Z.eqb_neq _ _)) by lia. wp_step.
  replace (Z.shiftr (hash key) (64 - 16) mod Z.of_nat (length ls))%Z with (Z.of_nat (shard_index (length ls) key)).
  - eapply wp_mono; [eapply (wp_at_shard _ _ _ _ _ _ _
      (fun a l' => a = (spec_op p (capacity c) o l).1 /\ l' = (spec_op p (capacity c) o l).2)); [done..|]|].
    + eapply wp_mono; [by apply law_call|]. intros a c' (-> & ? & ?). eauto.
    + intros a s' (l' & [-> ->] & HR'). by destruct (spec_op _ _ _ _).
  - unfold shard_index. rewrite Z2Nat.id; [done|]. apply Z.mod_pos_bound. lia.
Qed.

(** A call on a shard that only reads: the shards stay as they are up to the
    representation. *)
Lemma wp_read_shard {A} s caps ls i l (m : SM C A) (a : A) :
  RepS s caps ls -> ls !! i = Some l ->
  (forall c, R c l -> wp m c (fun r c' => r = a /\ R c' l /\ capacity c' = capacity c)) ->
  wp (at_shard (Z.of_nat i) m) s (fun r s' => r = a /\ RepS s' caps ls).
Proof.
  intros HR Hl Hm. destruct (reps_lookup _ _ _ i HR) as (c & l' & Hc & Hl' & HRc & _).
  { by eapply lookup_lt_Some. }
  rewrite Hl in Hl'. injection Hl' as <-.
  eapply wp_mono; [eapply (wp_at_shard _ _ _ _ _ _ _ (fun r l' => r = a /\ l' = l)); [done..|]|].
  - eapply wp_mono; [by apply Hm|]. naive_solver.
  - intros r s' (l' & [-> ->] & HR'). by rewrite list_insert_id in HR'.
Qed.

Lemma law_snapshot c l ks :
  R c l -> wp (api_snapshotKeys ks) c (fun r c' => r = ks ++ l.*1 /\ R c' l /\ capacity c' = capacity c).
Proof.
  intros HR. assert (HL := law_call (SnapshotKeys ks) c l HR). revert HL.
  unfold wp, CacheAPI.call, mbind, SM_bind. destruct (api_snapshotKeys ks c) as [[r c']|]; [|done].
  cbn. naive_solver.
Qed.

Lemma law_size c l :
  R c l -> wp api_size c (fun r c' => r = Z.of_nat (length l) /\ R c' l /\ capacity c' = capacity c).
Proof.
  intros HR. assert (HL := law_call CacheAPI.Size c l HR). revert HL.
  unfold wp, CacheAPI.call, mbind, SM_bind. destruct (api_size c) as [[r c']|]; [|done].
  cbn. naive_solver.
Qed.

Lemma drop_concat ls i l : ls !! i = Some l -> concat (drop i ls) = l ++ concat (drop (S i) ls).
Proof. intros Hl. by rewrite (drop_S ls l i Hl). Qed.

Lemma seqZ_idx n i : (Z.of_nat i < n)%Z ->
  seqZ (Z.of_nat i) (n - Z.of_nat i) = Z.of_nat i :: seqZ (Z.of_nat (S i)) (n - Z.of_nat (S i)).
Proof. intros Hi. rewrite (seqZ_cons (Z.of_nat i)) by lia. f_equal. f_equal; lia. Qed.

Lemma wp_snapshot_from k s caps ls i ks :
  RepS s caps ls -> i + k = length ls ->
  wp (snapshot_from (V:=V) (seqZ (Z.of_nat i) (Z.of_nat (length ls) - Z.of_nat i)) ks) s
     (fun r s' => r = ks ++ (concat (drop i ls)).*1 /\ RepS s' caps ls).
Proof.
  revert s i ks. induction k as [|k IH]; intros s i ks HR Hi.
  - rewrite seqZ_nil, drop_ge by lia. cbn. rewrite app_nil_r. by apply wp_ret.
  - assert (i < length ls) as [l Hl]%lookup_lt_is_Some_2 by lia.
    rewrite seqZ_idx by lia. cbn [snapshot_from]. wp_step.
    eapply wp_mono; [eapply (wp_read_shard _ _ _ _ l); [done..|]; intros; by apply law_snapshot|].
    intros r s' [-> HR']. eapply wp_mono; [by apply IH; [|lia]|]. intros r s'' [-> HR''].
    by rewrite (drop_concat _ _ _ Hl), fmap_app, app_assoc.
Qed.

Lemma concat_bound cs ls caps :
  Forall2 R cs ls -> capacity <$> cs = caps -> (Z.of_nat (length (concat ls)) <= sumZ caps)%Z.
Proof.
  intros HF <-. induction HF as [|c l cs ls HR HF IH]; [done|].
  apply law_bound in HR. cbn. rewrite length_app. unfold sumZ in IH. lia.
Qed.

Lemma wp_size_from k s caps ls i acc :
  RepS s caps ls -> i + k = length ls -> acc = Z.of_nat (length (concat (take i ls))) ->
  wp (size_from (V:=V) (seqZ (Z.of_nat i) (Z.of_nat (length ls) - Z.of_nat i)) acc) s
     (fun r s' => r = Z.of_nat (length (concat ls)) /\ RepS s' caps ls).
Proof.
  revert s i acc. induction k as [|k IH]; intros s i acc HR Hi Hacc.
  - rewrite seqZ_nil by lia. rewrite take_ge in Hacc by lia. by apply wp_ret.
  - assert (i < length ls) as [l Hl]%lookup_lt_is_Some_2 by lia.
    rewrite seqZ_idx by lia. cbn [size_from]. wp_step.
    eapply wp_mono; [eapply (wp_read_shard _ _ _ _ l); [done..|]; intros; by apply law_size|].
    intros r s' [-> HR']. apply IH; [done | lia |]. rewrite (take_S_r _ _ _ Hl), concat_app, length_app.
    cbn. rewrite app_nil_r. assert (Hb := concat_bound _ _ _ (rs_shards _ _ _ HR) (rs_caps _ _ _ HR)).
    assert (Hs := rs_sum _ _ _ HR). rewrite <- (take_drop i ls), concat_app, length_app in Hb.
    rewrite (drop_concat _ _ _ Hl), length_app in Hb. rewrite u64_small; lia.
Qed.

(** The result of a call can be wrapped inside or outside of the shard. *)
Lemma wp_wrap {A B} s key (m : SM C A) (f : A -> B) Q :
  wp (h ← getShard (C:=C) hash key; at_shard h (r ← m; mret (f r))) s Q ->
  wp (r ← (h ← getShard (C:=C) hash key; at_shard h m); mret (f r)) s Q.
Proof.
  unfold wp, mbind, SM_bind, at_shard. destruct (getShard hash key s) as [[h s1]|]; [|done].
  destruct (m_shards s1 !! _) as [c|]; [|done]. by destruct (m c) as [[a c']|].
Qed.

Lemma wp_call s caps ls o :
  RepS s caps ls -> wp (call hash o) s (fun a s' => a = (spec_call caps o ls).1 /\ RepS s' caps (spec_call caps o ls).2).
Proof.
  intros HR. assert (Hn := rs_num _ _ _ HR). destruct o; cbn [call spec_call].
  - apply (wp_wrap _ _ _ (fun r => Found r.1 r.2)). by apply (wp_keyed _ _ _ key (CacheAPI.Find e ac key)).
  - apply (wp_wrap _ _ _ Inserted). by apply (wp_keyed _ _ _ key (CacheAPI.Insert key value)).
  - apply (wp_wrap _ _ _ (fun _ => Done)). by apply (wp_keyed _ _ _ key (CacheAPI.DeleteKey key)).
  - done.
  - wp_step. unfold snapshotKeys. do 2 wp_step. rewrite Hn, <- (Z.sub_0_r (Z.of_nat (length ls))).
    eapply wp_mono; [by apply (wp_snapshot_from (length ls) _ caps _ 0)|]. intros r s' [-> HR']. by wp_step.
  - wp_step. unfold Size. do 2 wp_step. rewrite Hn, <- (Z.sub_0_r (Z.of_nat (length ls))).
    eapply wp_mono; [by apply (wp_size_from (length ls) _ caps _ 0)|]. intros r s' [-> HR']. by wp_step.
Qed.

Lemma wp_run ops s caps ls :
  RepS s caps ls -> wp (run hash ops) s (fun rs s' => rs = (spec_calls caps ops ls).1 /\ RepS s' caps (spec_calls caps ops ls).2).
Proof.
  revert s ls. induction ops as [|o ops IH]; intros s ls HR; cbn [run spec_calls]; [done|].
  wp_step. eapply wp_mono; [by apply wp_call|]. intros a s1 [-> HR1]. wp_step.
  destruct (spec_call caps o ls) as [a ls1]. cbn in *. eapply wp_mono; [by apply IH|].
  intros rs s2 [-> HR2]. by destruct (spec_calls caps ops ls1).
Qed.

(** *** Keys are where their hash says *)
Definition placed ls : Prop := forall i l k, ls !! i = Some l -> k ∈ l.*1 -> shard_index (length ls) k = i.

(** A call brings no key into a list but its own. *)
Lemma spec_op_keys cap o key l :
  (match o with CacheAPI.Find _ _ k | CacheAPI.Insert k _ | CacheAPI.DeleteKey k => k = key | _ => False end) ->
  NoDup l.*1 -> forall k, k ∈ (spec_op p cap o l).2.*1 -> k = key \/ k ∈ l.*1.
Proof.
  intros Ho HN k. destruct o; cbn; try done; subst.
  - rewrite (law_policy _ _ _ HN). auto.
  - unfold add. destruct (assoc key l); cbn; [by auto|]. rewrite elem_of_cons.
    intros [->|Hk]; [by left|]. right. destruct (_ <=? _)%Z; [|done].
    apply list_elem_of_fmap in Hk as (x & -> & Hx). apply list_elem_of_fmap. exists x. split; [done|].
    destruct l as [|y l] using rev_ind; [done|]. rewrite removelast_last in Hx. set_solver.
  - rewrite keys_without, list_elem_of_filter. naive_solver.
Qed.

Lemma placed_call s caps ls o : RepS s caps ls -> placed ls -> placed (spec_call caps o ls).2.
Proof.
  intros HR HP.
  assert (Hkey : forall key, (match o with CacheAPI.Find _ _ k | CacheAPI.Insert k _ | CacheAPI.DeleteKey k => k = key | _ => False end) ->
    placed (on_shard caps key o ls).2).
  { intros key Ho. assert (Hlt := shard_index_lt (length ls) key (rs_pos _ _ _ HR)).
    destruct (reps_lookup _ _ _ _ HR Hlt) as (c & l & _ & Hl & HRc & _). unfold on_shard.
    rewrite (list_lookup_total_correct _ _ _ Hl).
    assert (Hkeys := spec_op_keys (caps !!! shard_index (length ls) key) o key l Ho (law_nodup _ _ HRc)).
    destruct (spec_op _ _ _ _) as [a l']. cbn in *. intros i l'' k Hi Hk. rewrite length_insert.
    destruct (decide (i = shard_index (length ls) key)) as [->|Hne].
    - rewrite list_lookup_insert_eq in Hi by done. injection Hi as <-.
      destruct (Hkeys k Hk) as [->|Hk']; [done | by eapply HP].
    - rewrite list_lookup_insert_ne in Hi by done. by eapply HP. }
  destruct o; cbn [spec_call snd]; by auto.
Qed.

Lemma placed_run ops s caps ls : RepS s caps ls -> placed ls -> placed (spec_calls caps ops ls).2.
Proof.
  revert s ls. induction ops as [|o ops IH]; intros s ls HR HP; cbn [spec_calls]; [done|].
  assert (HP1 := placed_call _ _ _ o HR HP).
  destruct (wp_elim _ _ _ (wp_call _ _ _ o HR)) as (a & s1 & _ & _ & HR1).
  destruct (spec_call caps o ls) as [a' ls1]. cbn in *. specialize (IH _ _ HR1 HP1).
  by destruct (spec_calls caps ops ls1).
Qed.

(** The union of placed shards: no key twice, and a lookup finds the entry in
    the shard of the key. *)
Lemma elem_of_concat_shard ls k v : (k, v) ∈ concat ls <-> exists i l, ls !! i = Some l /\ (k, v) ∈ l.
Proof.
  rewrite list_elem_of_In, in_concat. split.
  - intros (l & Hl & Hkv). apply list_elem_of_In in Hl, Hkv. apply list_elem_of_lookup in Hl as [i Hi]. eauto.
  - intros (i & l & Hi & Hkv). exists l. split; apply list_elem_of_In; [by eapply list_elem_of_lookup_2 | done].
Qed.

Lemma nodup_concat (ks : list (list Z)) (f : Z -> nat) :
  (forall i l, ks !! i = Some l -> NoDup l /\ forall k, k ∈ l -> f k = i) -> NoDup (concat ks).
Proof.
  revert f. induction ks as [|l ks IH] using rev_ind; intros f Hf; [constructor|].
  rewrite concat_app. cbn. rewrite app_nil_r. apply NoDup_app. split_and!.
  - apply (IH f). intros i l' Hi. apply Hf. by apply lookup_app_l_Some.
  - intros k Hk Hkl. destruct (Hf (length ks) l) as [_ Hl]; [by apply list_lookup_middle|].
    apply Hl in Hkl. rewrite list_elem_of_In, in_concat in Hk. destruct Hk as (l' & Hl' & Hk).
    apply list_elem_of_In in Hl', Hk. apply list_elem_of_lookup in Hl' as [i Hi].
    destruct (Hf i l') as [_ Hl'']; [by apply lookup_app_l_Some|]. apply Hl'' in Hk.
    apply lookup_lt_Some in Hi. lia.
  - apply (Hf (length ks) l). by apply list_lookup_middle.
Qed.

Lemma placed_union s caps ls k :
  RepS s caps ls -> placed ls ->
  NoDup (concat ls).*1 /\ assoc k (ls !!! shard_index (length ls) k) = assoc k (concat ls).
Proof.
  intros HR HP.
  assert (HN : NoDup (concat ls).*1).
  { replace ((concat ls).*1) with (concat ((fun l => l.*1) <$> ls)).
    - apply (nodup_concat _ (shard_index (length ls))). intros i ks Hi.
      rewrite list_lookup_fmap in Hi. destruct (ls !! i) as [l|] eqn:Hl; [|done]. injection Hi as <-.
      destruct (reps_lookup _ _ _ i HR) as (c & l' & _ & Hl' & HRc & _); [by eapply lookup_lt_Some|].
      rewrite Hl in Hl'. injection Hl' as <-. split; [by eapply law_nodup|]. intros j Hj. by eapply HP.
    - clear. induction ls as [|l ls IH]; [done|]. cbn. by rewrite IH, fmap_app. }
  split; [done|]. assert (Hlt := shard_index_lt (length ls) k (rs_pos _ _ _ HR)).
  destruct (reps_lookup _ _ _ _ HR Hlt) as (c & l & _ & Hl & HRc & _).
  rewrite (list_lookup_total_correct _ _ _ Hl). apply option_eq. intros v.
  rewrite !assoc_Some by eauto using law_nodup. rewrite elem_of_concat_shard. split; [eauto|].
  intros (i & l' & Hi & Hkv). assert (k ∈ l'.*1) by (apply list_elem_of_fmap; by exists (k, v)).
  assert (shard_index (length ls) k = i) by by eapply HP. subst i. congruence.
Qed.
End refinement.

(** ** Properties *)

(** The constructor distributes the whole capacity: the shard capacities add
    up to [maxSize] and differ by at most one. *)
Theorem shard_sizes_sum maxSize numShards :
  (0 <= maxSize < 2 ^ 64)%Z -> (0 < numShards)%Z ->
  sumZ (shard_size maxSize numShards <$> seqZ 0 numShards) = maxSize /\
  forall i, (0 <= i)%Z -> (maxSize / numShards <= shard_size maxSize numShards i <= maxSize / numShards + 1)%Z.
Proof.
  intros Hm Hn. assert (Hr := Z.mod_pos_bound maxSize numShards Hn).
  assert (Hd := Z.div_mod maxSize numShards ltac:(lia)).
  assert (0 <= maxSize / numShards)%Z by (apply Z.div_pos; lia). split.
  - by apply shard_size_total.
  - intros i Hi. unfold shard_size. destruct (Z.ltb_spec i (maxSize mod numShards)); [|lia].
    rewrite u64_small; nia.
Qed.

Section properties.
Context {C V : Type} `{CacheLaws C V R capacity p} (hash : Z -> Z) (make : Type_ -> Z -> C).
Context (hw maxSize numShards rebuild_freq : Z) (type : Type_).
Context (Hmax : (0 <= maxSize < 2 ^ 64)%Z) (Hnum : (0 < numShards)%Z).
Context (Hfreq : is_FH type = true -> (0 < rebuild_freq)%Z).
(** The shard class builds empty shards of the capacity it is given. *)
Context (Hmake : forall i, (0 <= i < numShards)%Z ->
  R (make type (shard_size maxSize numShards i)) [] /\
  capacity (make type (shard_size maxSize numShards i)) = shard_size maxSize numShards i).

Definition shard_caps : list Z := shard_size maxSize numShards <$> seqZ 0 numShards.

Lemma reps_new :
  exists s, new_ConcurrentScalableCache make hw maxSize numShards type rebuild_freq = Ok s /\
    RepS (R:=R) (capacity:=capacity) s shard_caps (replicate (Z.to_nat numShards) []).
Proof.
  unfold new_ConcurrentScalableCache. rewrite (proj2 (Z.eqb_neq _ _)) by lia.
  assert (Hg : bool_decide (0 < numShards)%Z && is_FH type && negb (0 <? rebuild_freq)%Z = false).
  { destruct (is_FH type); [|by rewrite andb_false_r]. rewrite (proj2 (Z.ltb_lt _ _)) by auto.
    by rewrite !andb_false_r. }
  rewrite Hg. eexists. split; [done|]. split; cbn.
  - apply Forall2_same_length_lookup. rewrite length_fmap, length_seqZ, length_replicate. split; [done|].
    intros i c l Hc [-> Hi]%lookup_replicate. apply list_lookup_fmap_Some in Hc as (j & -> & Hj).
    apply lookup_seqZ in Hj as [-> Hj]. apply Hmake. lia.
  - rewrite <- list_fmap_compose. apply list_fmap_ext. intros i j Hj. cbn.
    apply lookup_seqZ in Hj as [-> Hj]. apply Hmake. lia.
  - rewrite length_replicate. lia.
  - rewrite length_replicate. lia.
  - unfold shard_caps. rewrite shard_size_total; lia.
Qed.

(** C2: The sharded cache is its shards: after construction, every sequence of
    calls succeeds and is answered as independent bounded lists would, one per
    shard, a keyed call by the shard of the key's hash; [snapshotKeys] and
    [Size] range over all shards. The theorem is about what the code does where
    two comments at its declarations say otherwise: [clear] changes nothing (its
    body is commented out, the comment says that it clears the container), and
    what a lookup does to the order is up to the policy of the shard (a FIFO
    shard keeps the order, the comment says that every hit makes the element the
    most recently used). *)
Theorem sharded_run_refines ops :
  exists s s', new_ConcurrentScalableCache make hw maxSize numShards type rebuild_freq = Ok s /\
    run hash ops s = Ok ((spec_calls (p:=p) hash shard_caps ops (replicate (Z.to_nat numShards) [])).1, s').
Proof.
  destruct reps_new as (s & Hs & HR).
  destruct (wp_elim _ _ _ (wp_run hash ops _ _ _ HR)) as (rs & s' & Hrun & -> & _). eauto.
Qed.

(** After any sequence of calls, the sharded cache behaves as one map: a
    [find] hits iff the key is in the union of the shards' contents and returns
    its value there, no key is cached twice, and the cache holds at most
    [maxSize] entries. *)
Theorem sharded_find_union ops e ac key :
  let ls := (spec_calls (p:=p) hash shard_caps ops (replicate (Z.to_nat numShards) [])).2 in
  NoDup (concat ls).*1 /\ (Z.of_nat (length (concat ls)) <= maxSize)%Z /\
  exists s0 rs s s', new_ConcurrentScalableCache make hw maxSize numShards type rebuild_freq = Ok s0 /\
    run hash ops s0 = Ok (rs, s) /\
    find hash e ac key s =
      Ok ((bool_decide (is_Some (assoc key (concat ls))), default ac (assoc key (concat ls))), s').
Proof.
  intros ls. destruct reps_new as (s0 & Hs0 & HR0).
  assert (HP : placed hash ls).
  { eapply placed_run; [exact HR0|]. intros i l k [-> _]%lookup_replicate Hk. by apply elem_of_nil in Hk. }
  destruct (wp_elim _ _ _ (wp_run hash ops _ _ _ HR0)) as (rs & s & Hrun & _ & HR). fold ls in HR.
  destruct (placed_union hash _ _ _ key HR HP) as [HN Hassoc].
  split_and!; [done | | exists s0, rs, s].
  - assert (Hb := concat_bound _ _ _ (rs_shards _ _ _ HR) (rs_caps _ _ _ HR)).
    unfold shard_caps in Hb. by rewrite shard_size_total in Hb.
  - destruct (wp_elim _ _ _ (wp_call hash _ _ _ (CacheAPI.Find e ac key) HR)) as (a & s' & Hf & Ha & _).
    exists s'. split_and!; [done.. |]. revert Hf Ha. cbn. unfold on_shard. cbn. rewrite Hassoc.
    unfold mbind, SM_bind. destruct (find hash e ac key s) as [[[hit w] s1]|]; [|done]. cbn. by intros [= <- <-] [= -> ->].
Qed.
End properties.

(** *** Witnesses: three entries over two [LRUCache] shards *)
Lemma shard_sizes_sum_witness :
  sumZ (shard_size 10 4 <$> seqZ 0 4) = 10%Z /\ (shard_size 10 4 <$> seqZ 0 4) = [3; 3; 2; 2]%Z.
Proof. split; [apply shard_sizes_sum; lia | vm_compute; reflexivity]. Defined.

(** A hash whose top 16 bits are the low bits of the key. *)
Definition demo_hash (k : Z) : Z := u64 (Z.shiftl k 48).
Definition demo_make (_ : Type_) (s : Z) : LRUCache (gmap Z) Z := new_LRUCache s.

Lemma demo_make_rep i : (0 <= i < 2)%Z ->
  Rep (demo_make LRU (shard_size 3 2 i)) [] /\
  LRUCache.m_maxSize (demo_make LRU (shard_size 3 2 i)) = shard_size 3 2 i.
Proof.
  intros Hi. split; [|done]. apply rep_new.
  assert (i = 0 \/ i = 1)%Z as [-> | ->] by lia; vm_compute; split; congruence.
Qed.

Definition demo_calls : list (op Z) :=
  [CacheAPI.Insert 10 1%Z; CacheAPI.Insert 12 2%Z; CacheAPI.Insert 14 3%Z; CacheAPI.Insert 11 4%Z;
   CacheAPI.Clear; CacheAPI.SnapshotKeys []; CacheAPI.Size].

Lemma sharded_run_refines_witness :
  exists s s', new_ConcurrentScalableCache demo_make 8 3 2 LRU 0 = Ok s /\
    run demo_hash demo_calls s =
      Ok ([Inserted true; Inserted true; Inserted true; Inserted true; Done; Keys [14; 12; 11]%Z; Count 3], s').
Proof.
  destruct (sharded_run_refines (R := Rep) (capacity := LRUCache.m_maxSize) demo_hash demo_make 8 3 2 0 LRU
    ltac:(lia) ltac:(lia) ltac:(discriminate) demo_make_rep demo_calls) as (s & s' & H1 & H2).
  exists s, s'. split; [exact H1 |]. etransitivity; [exact H2|]. vm_compute. reflexivity.
Defined.

Lemma sharded_find_union_witness :
  exists s0 rs s s', new_ConcurrentScalableCache demo_make 8 3 2 LRU 0 = Ok s0 /\
    run demo_hash demo_calls s0 = Ok (rs, s) /\
    find demo_hash {| try_lock := true; sample := false |} 0%Z 12 s = Ok ((true, 2%Z), s').
Proof.
  destruct (sharded_find_union (R := Rep) (capacity := LRUCache.m_maxSize) demo_hash demo_make 8 3 2 0 LRU
    ltac:(lia) ltac:(lia) ltac:(discriminate) demo_make_rep demo_calls
    {| try_lock := true; sample := false |} 0%Z 12) as (_ & _ & s0 & rs & s & s' & H1 & H2 & H3).
  exists s0, rs, s, s'. split; [exact H1|]. split; [exact H2|]. etransitivity; [exact H3|]. vm_compute. reflexivity.
Defined.
