(* ===== verification/FHCache.v ===== *)
(** * Statistics of the FrozenHot caches ([cache/FHCache.h])

    [FHCacheAPI] counts four kinds of events and keeps a cursor per counter, so
    that the monitor can ask for the ratios of a step (since the cursors were
    set) as well as for totals.  Counters and cursors are [size_t]; [double]
    results are exact rationals. *)

From S2P Require Import Prelude.
From Stdlib Require Import QArith.
Local Close Scope Q_scope.

Record FHStat := {
  fast_find_hit : Z; tbb_find_miss : Z; end_to_end_find_succ : Z; insert_count : Z;
  fast_hit_cursor : Z; miss_cursor : Z; o_hit_cursor : Z; insert_cursor : Z
}.

Definition with_counters (f m o i : Z) (s : FHStat) : FHStat :=
  {| fast_find_hit := f; tbb_find_miss := m; end_to_end_find_succ := o; insert_count := i;
     fast_hit_cursor := fast_hit_cursor s; miss_cursor := miss_cursor s;
     o_hit_cursor := o_hit_cursor s; insert_cursor := insert_cursor s |}.

(** The increments of [find] and [insert]. *)
Definition fast_hit_incr (s : FHStat) : FHStat :=
  with_counters (u64 (fast_find_hit s + 1)) (tbb_find_miss s) (end_to_end_find_succ s) (insert_count s) s.
Definition fh_miss_incr (s : FHStat) : FHStat :=
  with_counters (fast_find_hit s) (u64 (tbb_find_miss s + 1)) (end_to_end_find_succ s) (insert_count s) s.
Definition o_hit_incr (s : FHStat) : FHStat :=
  with_counters (fast_find_hit s) (tbb_find_miss s) (u64 (end_to_end_find_succ s + 1)) (insert_count s) s.
Definition insert_incr (s : FHStat) : FHStat :=
  with_counters (fast_find_hit s) (tbb_find_miss s) (end_to_end_find_succ s) (u64 (insert_count s + 1)) s.

(** The three counters back to zero, [insert_count] kept. *)
Definition clear_counters (s : FHStat) : FHStat := with_counters 0 0 0 (insert_count s) s.

(** [hit *= sample_percentage]: the product is truncated to [size_t]. *)
Definition scale_sample (n : Z) : Z := (n / 100)%Z.

Definition GetStat (sample_flag : bool) (s : FHStat) : (Z * Z) * FHStat :=
  let hit := u64 (fast_find_hit s + end_to_end_find_succ s) in
  let miss := tbb_find_miss s in
  let r := if negb sample_flag then (scale_sample hit, scale_sample miss) else (hit, miss) in
  (r, clear_counters s).

(** The overload with three results. *)
Definition GetStat3 (s : FHStat) : (Z * Z * Z) * FHStat :=
  ((fast_find_hit s, end_to_end_find_succ s, tbb_find_miss s), clear_counters s).

(** A ratio of two counters. *)
Definition ratio (a b : Z) : Q := (inject_Z a / inject_Z b)%Q.

Definition total3 (s : FHStat) : Z :=
  u64 (u64 (fast_find_hit s + tbb_find_miss s) + end_to_end_find_succ s).

Definition get_miss_ratio (s : FHStat) : (Q * Z) * FHStat :=
  let total_access := total3 s in
  let temp := if (total_access =? 0)%Z then 1%Q else ratio (tbb_find_miss s) total_access in
  ((temp, total_access), clear_counters s).

Definition reset_stat (s : FHStat) : FHStat :=
  {| fast_find_hit := 0; tbb_find_miss := 0; end_to_end_find_succ := 0; insert_count := 0;
     fast_hit_cursor := 0; miss_cursor := 0; o_hit_cursor := 0; insert_cursor := 0 |}.

Definition with_cursors (f m o i : Z) (s : FHStat) : FHStat :=
  {| fast_find_hit := fast_find_hit s; tbb_find_miss := tbb_find_miss s;
     end_to_end_find_succ := end_to_end_find_succ s; insert_count := insert_count s;
     fast_hit_cursor := f; miss_cursor := m; o_hit_cursor := o; insert_cursor := i |}.

Definition reset_cursor (s : FHStat) : FHStat :=
  with_cursors (fast_find_hit s) (tbb_find_miss s) (end_to_end_find_succ s) (insert_count s) s.

(** What a step reports: the counters' distances from their cursors. *)
Record step := { fast_hit : Z; miss : Z; o_hit : Z; insert_num : Z }.

Definition step_of (s : FHStat) : step :=
  {| fast_hit := u64 (fast_find_hit s - fast_hit_cursor s);
     miss := u64 (tbb_find_miss s - miss_cursor s);
     o_hit := u64 (end_to_end_find_succ s - o_hit_cursor s);
     insert_num := u64 (insert_count s - insert_cursor s) |}.

Definition step_total (d : step) : Z := u64 (u64 (fast_hit d + insert_num d) + o_hit d).

(** The pair [(temp, global_miss)] of [print_step], which takes the inserts for
    the misses. *)
Definition step_ratios (d : step) : Q * Q :=
  if (step_total d =? 0)%Z then (1, 1)%Q
  else ((1 - ratio (fast_hit d) (step_total d))%Q, ratio (insert_num d) (step_total d)).

(** [print_step()]: prints the step and moves the cursors. *)
Definition print_step (s : FHStat) : (step * (Q * Q)) * FHStat :=
  let d := step_of s in
  ((d, step_ratios d), with_cursors (fast_hit d) (miss d) (o_hit d) (insert_num d) s).

(** [print_step(FC_hit, global_miss)]: the cursors stay. *)
Definition print_step2 (s : FHStat) : (Q * Q) * FHStat :=
  let '(temp, global_miss) := step_ratios (step_of s) in
  (((1 - temp)%Q, global_miss), s).

Definition get_step (s : FHStat) : (Q * Q) * FHStat :=
  let d := step_of s in
  let total := u64 (u64 (insert_num d + fast_hit d) + o_hit d) in
  let '(temp, global_miss) :=
    if (total =? 0)%Z then (1, 0)%Q
    else ((1 - ratio (fast_hit d) total)%Q, ratio (miss d) total) in
  (((1 - temp)%Q, global_miss), s).

Definition fast_ratios (s : FHStat) : Q * Q :=
  if (total3 s =? 0)%Z then (1, 1)%Q
  else ((1 - ratio (fast_find_hit s) (total3 s))%Q, ratio (tbb_find_miss s) (total3 s)).

Definition print_reset_fast_hash (s : FHStat) : Q * FHStat := ((fast_ratios s).1, clear_counters s).
Definition print_fast_hash (s : FHStat) : Q * FHStat := ((fast_ratios s).1, s).

(** [sample_generator()]: [next] is the value [Random::Next] returned. *)
Definition RAND_MAX : Z := 2147483647.
Definition sample_generator (sample_flag : bool) (next : Z) : bool :=
  if negb sample_flag then true else (100 * next <? RAND_MAX)%Z.

(** ** Counting

    Events of a step and what they do to the counters. *)
Inductive event := EFastHit | EMiss | EOtherHit | EInsert.

Definition count (e : event) : FHStat -> FHStat :=
  match e with EFastHit => fast_hit_incr | EMiss => fh_miss_incr | EOtherHit => o_hit_incr | EInsert => insert_incr end.

#[export] Instance event_eq_dec : EqDecision event.
Proof. solve_decision. Defined.

Definition occurrences (e : event) (es : list event) : Z := Z.of_nat (length (filter (eq e) es)).

Definition in_range (s : FHStat) : Prop :=
  (0 <= fast_find_hit s < 2 ^ 64)%Z /\ (0 <= tbb_find_miss s < 2 ^ 64)%Z /\
  (0 <= end_to_end_find_succ s < 2 ^ 64)%Z /\ (0 <= insert_count s < 2 ^ 64)%Z.

Lemma occurrences_cons e x es :
  occurrences e (x :: es) = ((if decide (e = x) then 1 else 0) + occurrences e es)%Z.
Proof.
  unfold occurrences. destruct (decide (e = x)).
  - rewrite filter_cons_True by done. cbn. lia.
  - by rewrite filter_cons_False.
Qed.

Lemma occurrences_bound e es : (0 <= occurrences e es <= Z.of_nat (length es))%Z.
Proof. unfold occurrences. assert (H := length_filter (eq e) es). lia. Qed.

(** The counters after a series of events, modulo the word size. *)
Lemma count_all es s :
  let s' := foldl (fun s e => count e s) s es in
  u64 (fast_find_hit s') = u64 (fast_find_hit s + occurrences EFastHit es) /\
  u64 (tbb_find_miss s') = u64 (tbb_find_miss s + occurrences EMiss es) /\
  u64 (end_to_end_find_succ s') = u64 (end_to_end_find_succ s + occurrences EOtherHit es) /\
  u64 (insert_count s') = u64 (insert_count s + occurrences EInsert es) /\
  fast_hit_cursor s' = fast_hit_cursor s /\ miss_cursor s' = miss_cursor s /\
  o_hit_cursor s' = o_hit_cursor s /\ insert_cursor s' = insert_cursor s.
Proof.
  revert s. induction es as [|x es IH]; intros s; cbn [foldl].
  - unfold occurrences. cbn. by rewrite !Z.add_0_r.
  - destruct (IH (count x s)) as (H1 & H2 & H3 & H4 & H5 & H6 & H7 & H8).
    rewrite H1, H2, H3, H4, H5, H6, H7, H8, !occurrences_cons.
    destruct x; cbn; unfold u64; rewrite ?Z.add_mod_idemp_l by lia; rewrite ?Z.add_assoc, ?Z.add_0_r; done.
Qed.

(** A difference modulo the word size. *)
Lemma u64_sub_of a b n : u64 a = u64 (b + n) -> u64 (a - b) = u64 n.
Proof.
  unfold u64. intros Hab. replace (a - b)%Z with (a + - b)%Z by lia.
  rewrite <- Z.add_mod_idemp_l, Hab, Z.add_mod_idemp_l by lia. f_equal. lia.
Qed.

Lemma step_of_reset es s :
  (Z.of_nat (length es) < 2 ^ 64)%Z ->
  step_of (foldl (fun s e => count e s) (reset_cursor s) es) =
    {| fast_hit := occurrences EFastHit es; miss := occurrences EMiss es;
       o_hit := occurrences EOtherHit es; insert_num := occurrences EInsert es |}.
Proof.
  intros Hlen. destruct (count_all es (reset_cursor s)) as (H1 & H2 & H3 & H4 & H5 & H6 & H7 & H8).
  unfold step_of. rewrite H5, H6, H7, H8. cbn in *.
  rewrite (u64_sub_of _ _ _ H1), (u64_sub_of _ _ _ H2), (u64_sub_of _ _ _ H3), (u64_sub_of _ _ _ H4).
  rewrite !u64_small; [done|..];
    match goal with |- (_ <= occurrences ?e _ < _)%Z => assert (Hb := occurrences_bound e es); lia end.
Qed.

(** ** Properties *)

(** After [reset_cursor], the monitor's step statistics are those of the
    step: whatever the counters held before, even if they wrap around in
    between, [print_step(FC_hit, global_miss)] reports fast hits and inserts as
    shares of the step's fast hits, other hits and inserts, and [get_step] the
    fast hits and misses; a step with no events reports no FC hit. *)
Theorem step_statistics s es :
  (Z.of_nat (length es) < 2 ^ 64)%Z ->
  let n e := occurrences e es in
  let total := u64 (n EFastHit + n EInsert + n EOtherHit) in
  let s' := foldl (fun s e => count e s) (reset_cursor s) es in
  (total <> 0%Z ->
    ((print_step2 s').1.1 == ratio (n EFastHit) total)%Q /\ (print_step2 s').1.2 = ratio (n EInsert) total /\
    ((get_step s').1.1 == ratio (n EFastHit) total)%Q /\ (get_step s').1.2 = ratio (n EMiss) total) /\
  (total = 0%Z -> ((print_step2 s').1.1 == 0)%Q /\ ((get_step s').1.1 == 0)%Q).
Proof.
  intros Hlen n total s'. unfold print_step2, get_step, step_ratios, step_total. subst s'.
  rewrite (step_of_reset es s Hlen). cbn [fast_hit insert_num o_hit miss].
  assert (Ht1 : u64 (u64 (n EFastHit + n EInsert) + n EOtherHit) = total).
  { subst total. unfold u64. by rewrite Z.add_mod_idemp_l by lia. }
  assert (Ht2 : u64 (u64 (n EInsert + n EFastHit) + n EOtherHit) = total).
  { rewrite <- Ht1. by rewrite (Z.add_comm (n EInsert)). }
  fold (n EFastHit) (n EInsert) (n EOtherHit) (n EMiss). rewrite Ht1, Ht2. split.
  - intros Hne. rewrite (proj2 (Z.eqb_neq _ _) Hne). cbn. split_and!; [ring | done | ring | done].
  - intros ->. cbn. split; reflexivity.
Qed.

(** [print_step()] does not set the cursors to the counters but to the
    distances it has just printed: the next call reports the events since the
    last one plus everything counted before the cursors of the last one.  Its
    report is that of the step only when those cursors were zero. *)
Theorem print_step_drift s es :
  in_range s -> (0 <= fast_hit_cursor s < 2 ^ 64)%Z -> (Z.of_nat (length es) < 2 ^ 64)%Z ->
  let s1 := (print_step s).2 in
  let s2 := foldl (fun s e => count e s) s1 es in
  fast_hit (print_step s2).1.1 = u64 (occurrences EFastHit es + fast_hit_cursor s) /\
  (fast_hit (print_step s2).1.1 = occurrences EFastHit es <-> fast_hit_cursor s = 0%Z).
Proof.
  intros Hr Hc Hlen s1 s2. destruct (count_all es s1) as (H1 & _ & _ & _ & H5 & _). fold s2 in H1, H5.
  assert (Heq : fast_hit (print_step s2).1.1 = u64 (occurrences EFastHit es + fast_hit_cursor s)).
  { cbn. rewrite H5. subst s1. cbn in *. apply u64_sub_of. rewrite H1. unfold u64.
    rewrite Z.add_mod_idemp_l by lia. f_equal. lia. }
  split; [done|]. rewrite Heq. assert (Hb := occurrences_bound EFastHit es). split.
  - unfold u64. intros He. destruct (Z.lt_ge_cases (occurrences EFastHit es + fast_hit_cursor s) (2 ^ 64)).
    + rewrite Z.mod_small in He; lia.
    + replace (occurrences EFastHit es + fast_hit_cursor s)%Z
        with ((occurrences EFastHit es + fast_hit_cursor s - 2 ^ 64) + 1 * 2 ^ 64)%Z in He by lia.
      rewrite Z.mod_add, Z.mod_small in He; lia.
  - intros ->. rewrite Z.add_0_r. apply u64_small. lia.
Qed.

Definition stat0 : FHStat := reset_stat
  {| fast_find_hit := 0; tbb_find_miss := 0; end_to_end_find_succ := 0; insert_count := 0;
     fast_hit_cursor := 0; miss_cursor := 0; o_hit_cursor := 0; insert_cursor := 0 |}.

Lemma step_statistics_witness :
  let s' := foldl (fun s e => count e s) (reset_cursor stat0) [EFastHit; EInsert; EFastHit; EMiss; EOtherHit] in
  ((print_step2 s').1.1 == 2 # 4)%Q /\ (print_step2 s').1.2 = ratio 1 4.
Proof.
  destruct (step_statistics stat0 [EFastHit; EInsert; EFastHit; EMiss; EOtherHit]) as [H _]; [cbn; lia|].
  destruct (H ltac:(vm_compute; discriminate)) as (H1 & H2 & _).
  split; [exact H1 | exact H2].
Defined.

Lemma print_step_drift_witness :
  let s := with_cursors 5 0 0 0 (with_counters 7 0 0 0 stat0) in
  fast_hit (print_step (foldl (fun s e => count e s) (print_step s).2 [EFastHit])).1.1 = 6%Z.
Proof.
  intros s. destruct (print_step_drift s [EFastHit]) as [H _].
  - unfold in_range. cbn. lia.
  - cbn. lia.
  - cbn. lia.
  - etransitivity; [exact H | vm_compute; reflexivity].
Defined.
