(* ===== verification/FHLinks.v ===== *)
(** * The two lists of a FrozenHot cache

    A FrozenHot cache ([cache/FIFO_FH.h], [cache/hhvm_lru_cache_FH.h]) has two
    lists in one heap: the dynamic list between [m_head] and [m_tail] and the
    frozen list between [m_fast_head] and [m_fast_tail].  [Links] says that both
    are well linked, disjoint, and with the nodes out of any list all that is
    allocated; the rules below are the list transactions of the two classes,
    which the text of both shares. *)

From S2P Require Import Prelude DList ListPrims.

Definition m_fast_head : loc := 3%positive.
Definition m_fast_tail : loc := 4%positive.

(** ** List transactions *)
Section transactions.
Context {P : Type}.

(** [delink] with its assertions. *)
Definition fh_delink (node : ptr) : SM (arena P) unit :=
  assertM (negb (ptr_eqb node nullptr));;
  prev ← get_prev node;
  next ← get_next node;
  assertM (negb (ptr_eqb prev nullptr));;
  set_next prev next;;
  assertM (negb (ptr_eqb next nullptr));;
  set_prev next prev;;
  set_prev node OutOfListMarker.

Definition pushAfter (nodeBefore nodeAfter : ptr) : SM (arena P) unit :=
  assertM (negb (ptr_eqb nodeAfter nullptr));;
  set_prev nodeAfter nodeBefore;;
  assertM (negb (ptr_eqb nodeBefore nullptr));;
  next ← get_next nodeBefore;
  set_next nodeAfter next;;
  next ← get_next nodeBefore;
  set_prev next nodeAfter;;
  set_next nodeBefore nodeAfter.

(** [construct_tier]: the whole dynamic list becomes the frozen list. *)
Definition freeze_all : SM (arena P) unit :=
  a ← get_next (addr m_fast_head);
  assertM (ptr_eqb a (addr m_fast_tail));;
  b ← get_prev (addr m_fast_tail);
  assertM (ptr_eqb b (addr m_fast_head));;
  first ← get_next (addr m_head);
  set_next (addr m_fast_head) first;;
  first ← get_next (addr m_head);
  set_prev first (addr m_fast_head);;
  last ← get_prev (addr m_tail);
  set_prev (addr m_fast_tail) last;;
  last ← get_prev (addr m_tail);
  set_next last (addr m_fast_tail);;
  set_next (addr m_head) (addr m_tail);;
  set_prev (addr m_tail) (addr m_head).

(** [deconstruct]: the frozen list goes back in front of the dynamic list. *)
Definition thaw : SM (arena P) unit :=
  node ← get_next (addr m_head);
  first ← get_next (addr m_fast_head);
  set_prev first (addr m_head);;
  last ← get_prev (addr m_fast_tail);
  set_next last node;;
  first ← get_next (addr m_fast_head);
  set_next (addr m_head) first;;
  last ← get_prev (addr m_fast_tail);
  set_prev node last;;
  set_next (addr m_fast_head) (addr m_fast_tail);;
  set_prev (addr m_fast_tail) (addr m_fast_head).

(** [construct_ratio], first case: cut the frozen list off before [temp_node]. *)
Definition cut_before (temp_node : ptr) : SM (arena P) unit :=
  first ← get_next (addr m_fast_head);
  nodeBefore ← get_prev first;
  let nodeAfter := temp_node in
  prev ← get_prev temp_node;
  set_prev (addr m_fast_tail) prev;;
  prev ← get_prev temp_node;
  set_next prev (addr m_fast_tail);;
  first ← get_next (addr m_fast_head);
  set_prev first (addr m_fast_head);;
  set_next nodeBefore nodeAfter;;
  set_prev nodeAfter nodeBefore.

(** [construct_ratio], second case: cut from the start of the frozen part to
    the end of the dynamic list. *)
Definition cut_to_tail : SM (arena P) unit :=
  node ← get_next (addr m_fast_head);
  last ← get_prev (addr m_tail);
  set_prev (addr m_fast_tail) last;;
  last ← get_prev (addr m_tail);
  set_next last (addr m_fast_tail);;
  prev ← get_prev node;
  set_prev (addr m_tail) prev;;
  prev ← get_prev (addr m_tail);
  set_next prev (addr m_tail);;
  set_prev node (addr m_fast_head).

(** [clear]: free the nodes between two sentinels and join these. *)
Definition free_list (hd tl : loc) : SM (arena P) unit :=
  node ← get_next (addr hd);
  fuel ← gets (fun h => S (base.size (cells h)));
  free_until (addr tl) fuel node;;
  set_next (addr hd) (addr tl);;
  set_prev (addr tl) (addr hd).
End transactions.

(** ** Permutations of concrete lists of nodes *)
Lemma count_occ_cons' (a : positive) L x :
  count_occ Pos.eq_dec (a :: L) x = (if Pos.eq_dec a x then 1 else 0) + count_occ Pos.eq_dec L x.
Proof. cbn. by destruct (Pos.eq_dec a x). Qed.

Ltac solve_perm :=
  apply (proj2 (Permutation_count_occ Pos.eq_dec _ _)); intros ?x;
  repeat first [rewrite count_occ_app | rewrite count_occ_cons'];
  repeat match goal with |- context [if Pos.eq_dec ?a ?b then 1 else 0] =>
    generalize (if Pos.eq_dec a b then 1 else 0); intros ? end;
  cbn [count_occ]; lia.

(** ** The heap *)
Section links.
Context {P : Type}.
Implicit Types (h : arena P) (ns fs ps : list positive).

Definition sentinels : list positive := [m_head; m_tail; m_fast_head; m_fast_tail].

Record Links h ns fs ps : Prop := {
  lk_nodup : NoDup (sentinels ++ ns ++ fs ++ ps);
  lk_main : dll (cells h) (m_head :: ns ++ [m_tail]);
  lk_fast : dll (cells h) (m_fast_head :: fs ++ [m_fast_tail]);
  lk_dom : dom (cells h) = list_to_set (sentinels ++ ns ++ fs ++ ps);
  lk_brk : forall x, x ∈ dom (cells h) -> (x < brk h)%positive;
  lk_mark : Forall (fun p => prv (cells h) p = Some OutOfListMarker) ps
}.

(** Transactions on links keep the payloads. *)
Definition same_pay h h' : Prop := forall x, pay (cells h') x = pay (cells h) x.

Lemma links_alloc h ns fs ps x : Links h ns fs ps -> x ∈ sentinels ++ ns ++ fs ++ ps -> is_Some (cells h !! x).
Proof. intros Lk Hx. apply elem_of_dom. rewrite (lk_dom _ _ _ _ Lk). by apply elem_of_list_to_set. Qed.

(** [fh_delink] is [delink] where it does not fail. *)
Lemma wp_fh_delink a n b h Q :
  link (cells h) a n -> link (cells h) n b -> Q tt (on_cells (delinked a n b) h) ->
  wp (fh_delink (addr n)) h Q.
Proof.
  intros Han Hnb HQ.
  destruct (link_alloc _ _ _ Han) as [Ha Hn], (link_alloc _ _ _ Hnb) as [_ Hb].
  destruct Han as [_ Hp], Hnb as [Hx _]. unfold fh_delink.
  wp_step. apply wp_assert; [done|]. wp_step. eapply wp_get_prev; [done|]. wp_step. eapply wp_get_next; [done|].
  wp_step. apply wp_assert; [done|]. wp_step. apply wp_set_next; [done|]. wp_step. apply wp_assert; [done|].
  wp_step. apply wp_set_prev; [by simpl; rewrite lookup_alter_is_Some|].
  apply wp_set_prev; [by simpl; rewrite !lookup_alter_is_Some|]. done.
Qed.

(** Taking a node out of one list leaves a disjoint list alone. *)
Lemma delink_chain c hd tl ns1 n ns2 O qs :
  NoDup ((hd :: (ns1 ++ n :: ns2) ++ [tl]) ++ O ++ qs) ->
  dll c (hd :: (ns1 ++ n :: ns2) ++ [tl]) -> dll c O ->
  exists a b, link c a n /\ link c n b /\ dll (delinked (P:=P) a n b c) (hd :: (ns1 ++ ns2) ++ [tl]) /\
    dll (delinked a n b c) O /\ (forall q, q ∈ qs -> prv (delinked a n b c) q = prv c q) /\
    forall q, q ∈ O ++ qs -> nxt (delinked a n b c) q = nxt c q.
Proof.
  intros HN Hd HO. destruct (list_around hd ns1 n ns2 tl) as (L1 & a & b & L2 & HL & HL').
  rewrite HL in HN, Hd. assert (Hd' := Hd). rewrite dll_split, dll_cons2 in Hd.
  destruct Hd as (_ & Hl1 & Hl2 & _). exists a, b.
  apply NoDup_app in HN as (HN & Hdis & HNO).
  split_and!; [done | done | rewrite HL'; by apply dll_delinked | | | ].
  - apply dll_delinked_frame; [| | | done].
    + intros Hx%removelast_sub. apply (Hdis a); set_solver.
    + intros Hx%tail_sub. apply (Hdis b); set_solver.
    + intros Hx%tail_sub. apply (Hdis n); set_solver.
  - intros q Hq. apply prv_delinked_other; intros ->; [apply (Hdis n) | apply (Hdis b)]; set_solver.
  - intros q Hq. unfold delinked. rewrite !nxt_set_prev. apply nxt_set_next_ne. intros ->. apply (Hdis q); set_solver.
Qed.

Ltac perm_from H := revert H; apply NoDup_Permutation_proper; unfold sentinels; solve_perm.

Lemma wp_delink_main h ns1 n ns2 fs ps Q :
  Links h (ns1 ++ n :: ns2) fs ps ->
  (forall h', Links h' (ns1 ++ ns2) fs (n :: ps) -> same_pay h h' -> Q tt h') ->
  wp (fh_delink (addr n)) h Q.
Proof.
  intros [HN Hm Hf Hdom Hbrk Hmark] HQ.
  destruct (delink_chain (cells h) m_head m_tail ns1 n ns2 (m_fast_head :: fs ++ [m_fast_tail]) ps)
    as (a & b & H1 & H2 & H3 & H4 & H5 & _); [perm_from HN | done | done |].
  eapply wp_fh_delink; [exact H1 | exact H2 |]. apply HQ; [|intros x; apply pay_delinked].
  split; cbn [on_cells cells brk]; [perm_from HN | done | done | | by rewrite dom_delinked |].
  - rewrite dom_delinked, Hdom. set_solver.
  - apply Forall_cons. split; [apply prv_delinked_self; by eapply link_alloc|].
    rewrite Forall_forall in Hmark |- *. intros p Hp. rewrite H5 by done. by apply Hmark.
Qed.

Lemma wp_delink_fast h ns fs1 n fs2 ps Q :
  Links h ns (fs1 ++ n :: fs2) ps ->
  (forall h', Links h' ns (fs1 ++ fs2) (n :: ps) -> same_pay h h' -> Q tt h') ->
  wp (fh_delink (addr n)) h Q.
Proof.
  intros [HN Hm Hf Hdom Hbrk Hmark] HQ.
  destruct (delink_chain (cells h) m_fast_head m_fast_tail fs1 n fs2 (m_head :: ns ++ [m_tail]) ps)
    as (a & b & H1 & H2 & H3 & H4 & H5 & _); [perm_from HN | done | done |].
  eapply wp_fh_delink; [exact H1 | exact H2 |]. apply HQ; [|intros x; apply pay_delinked].
  split; cbn [on_cells cells brk]; [perm_from HN | done | done | | by rewrite dom_delinked |].
  - rewrite dom_delinked, Hdom. set_solver.
  - apply Forall_cons. split; [apply prv_delinked_self; by eapply link_alloc|].
    rewrite Forall_forall in Hmark |- *. intros p Hp. rewrite H5 by done. by apply Hmark.
Qed.

(** A node out of the lists is spliced in between two neighbours. *)
Lemma links_splice h ns ns' fs n ps L1 a b L2 :
  Links h ns fs (n :: ps) ->
  m_head :: ns ++ [m_tail] = L1 ++ a :: b :: L2 -> m_head :: ns' ++ [m_tail] = L1 ++ a :: n :: b :: L2 ->
  link (cells h) a b /\ is_Some (cells h !! n) /\ a <> n /\ Links (on_cells (spliced a n b) h) ns' fs ps.
Proof.
  intros Lk HL HL'. assert (Hn : is_Some (cells h !! n)) by (eapply links_alloc; [exact Lk | set_solver]).
  destruct Lk as [HN Hm Hf Hdom Hbrk Hmark]. rewrite HL in Hm. assert (Hl := proj1 (proj2 (proj1 (dll_split _ _ _ _ _) Hm))).
  assert (HN2 : NoDup ((L1 ++ a :: b :: L2) ++ (m_fast_head :: fs ++ [m_fast_tail]) ++ n :: ps)).
  { rewrite <- HL. perm_from HN. }
  assert (HN2' := HN2). apply NoDup_app in HN2' as (HN1 & Hdis & HN3). apply NoDup_app in HN3 as (_ & Hdis2 & HN3).
  assert (Hn1 : n ∉ L1 ++ a :: b :: L2).
  { intros Hx. apply (Hdis n Hx). apply elem_of_app. right. left. }
  assert (Hn2 : n ∉ m_fast_head :: fs ++ [m_fast_tail]).
  { intros Hx. apply (Hdis2 n Hx). left. }
  assert (Ha : a ∈ L1 ++ a :: b :: L2 /\ b ∈ L1 ++ a :: b :: L2) by (clear; set_solver).
  assert (Hx1 : forall x, x ∈ L1 ++ a :: b :: L2 -> x ∉ m_fast_head :: fs ++ [m_fast_tail]).
  { intros x Hx Hx'. apply (Hdis x Hx). apply elem_of_app. by left. }
  assert (Hx2 : forall x, x ∈ ps -> x <> n /\ x <> b).
  { intros x Hx. apply NoDup_cons in HN3 as [Hnp _]. split; [by intros ->|]. intros ->.
    apply (Hdis b); [apply Ha|]. apply elem_of_app. right. by right. }
  split_and!; [done | done | intros ->; apply Hn1, Ha |].
  apply Forall_cons in Hmark as [_ Hmark]. split; cbn [on_cells cells brk].
  - assert (HN3' : NoDup ((L1 ++ a :: n :: b :: L2) ++ (m_fast_head :: fs ++ [m_fast_tail]) ++ ps)).
    { revert HN2. apply NoDup_Permutation_proper. solve_perm. }
    rewrite <- HL' in HN3'. perm_from HN3'.
  - rewrite HL'. by apply dll_spliced.
  - apply dll_spliced_frame; [| | done | done].
    + intros Hx%removelast_sub. exact (Hx1 a (proj1 Ha) Hx).
    + intros Hx%tail_sub. exact (Hx1 b (proj2 Ha) Hx).
  - rewrite dom_spliced, Hdom.
    assert (Hs : forall x, x ∈ m_head :: ns' ++ [m_tail] <-> x ∈ n :: m_head :: ns ++ [m_tail]).
    { intros x. rewrite HL, HL'. clear. set_solver. }
    clear -Hs. apply set_eq. intros x. specialize (Hs x). rewrite !elem_of_list_to_set. unfold sentinels. set_solver.
  - by rewrite dom_spliced.
  - rewrite Forall_forall in Hmark |- *. intros p Hp. destruct (Hx2 p Hp).
    rewrite prv_spliced_other; [by apply Hmark | done..].
Qed.

Lemma wp_pushFront_links h ns fs n ps Q :
  Links h ns fs (n :: ps) ->
  (forall h', Links h' (n :: ns) fs ps -> same_pay h h' -> Q tt h') ->
  wp (pushFront (addr n)) h Q.
Proof.
  intros Lk HQ. assert (exists b L2, ns ++ [m_tail] = b :: L2) as (b & L2 & Hb) by (destruct ns; eauto).
  destruct (links_splice h ns (n :: ns) fs n ps [] m_head b L2 Lk) as (Hl & Hn & _ & Lk'); [by rewrite Hb | cbn; by rewrite Hb |].
  eapply wp_pushFront; [exact Hl | exact Hn |]. apply HQ; [done | intros x; apply pay_spliced].
Qed.

Lemma wp_pushAfter_links h ns1 a ns2 fs n ps Q :
  Links h (ns1 ++ a :: ns2) fs (n :: ps) ->
  (forall h', Links h' (ns1 ++ a :: n :: ns2) fs ps -> same_pay h h' -> Q tt h') ->
  wp (pushAfter (addr a) (addr n)) h Q.
Proof.
  intros Lk HQ. assert (exists b L2, ns2 ++ [m_tail] = b :: L2) as (b & L2 & Hb) by (destruct ns2; eauto).
  destruct (links_splice h (ns1 ++ a :: ns2) (ns1 ++ a :: n :: ns2) fs n ps (m_head :: ns1) a b L2 Lk) as (Hl & Hn & Han & Lk').
  { cbn. by rewrite <- app_assoc, <- app_comm_cons, Hb. }
  { cbn. by rewrite <- app_assoc, <- !app_comm_cons, Hb. }
  destruct (link_alloc _ _ _ Hl) as [Ha Hbs]. destruct Hl as [Hnx _]. unfold pushAfter.
  wp_step. apply wp_assert; [done|]. wp_step. apply wp_set_prev; [done|]. wp_step. apply wp_assert; [done|].
  wp_step. eapply wp_get_next; [cbn; rewrite nxt_set_prev; exact Hnx|].
  wp_step. apply wp_set_next; [by cbn; rewrite lookup_alter_is_Some|].
  wp_step. eapply wp_get_next; [cbn; rewrite nxt_set_next_ne, nxt_set_prev by done; exact Hnx|].
  wp_step. apply wp_set_prev; [by cbn; rewrite !lookup_alter_is_Some|].
  apply wp_set_next; [by cbn; rewrite !lookup_alter_is_Some|].
  apply HQ; [exact Lk' | intros x; apply pay_spliced].
Qed.

(** A node out of the lists is freed; a node is allocated; a payload changes. *)
Lemma links_free h ns fs n ps : Links h ns fs (n :: ps) -> Links (on_cells (delete n) h) ns fs ps.
Proof.
  intros [HN Hm Hf Hdom Hbrk Hmark].
  assert (HN2 : NoDup (n :: (sentinels ++ ns ++ fs ++ ps))) by perm_from HN.
  apply NoDup_cons in HN2 as [Hn HN2]. apply Forall_cons in Hmark as [_ Hmark].
  split; cbn [on_cells cells brk].
  - done.
  - apply dll_delete; [|done]. clear -Hn. set_solver.
  - apply dll_delete; [|done]. clear -Hn. set_solver.
  - rewrite dom_delete_L, Hdom. clear -Hn. set_solver.
  - intros x Hx. apply Hbrk. rewrite dom_delete_L in Hx. clear -Hx. set_solver.
  - rewrite Forall_forall in Hmark |- *. intros p Hp. unfold prv. rewrite lookup_delete_ne; [by apply Hmark|].
    intros ->. apply Hn. rewrite !elem_of_app. auto.
Qed.

Lemma links_new h ns fs ps x :
  Links h ns fs ps ->
  Links (Arena (<[brk h := Node x OutOfListMarker nullptr]> (cells h)) (Pos.succ (brk h))) ns fs (brk h :: ps).
Proof.
  intros [HN Hm Hf Hdom Hbrk Hmark].
  assert (Hn : brk h ∉ sentinels ++ ns ++ fs ++ ps).
  { intros Hx. assert (brk h ∈ dom (cells h)) as Hd by (rewrite Hdom; by apply elem_of_list_to_set).
    apply Hbrk in Hd. lia. }
  split; cbn [cells brk].
  - assert (HN2 : NoDup (brk h :: (sentinels ++ ns ++ fs ++ ps))) by by constructor. perm_from HN2.
  - apply dll_insert; [|done]. clear -Hn. set_solver.
  - apply dll_insert; [|done]. clear -Hn. set_solver.
  - rewrite dom_insert_L, Hdom. clear. set_solver.
  - intros y. rewrite dom_insert_L. intros [->%elem_of_singleton|Hy]%elem_of_union; [lia|].
    apply Hbrk in Hy. lia.
  - apply Forall_cons. split; [unfold prv; by rewrite lookup_insert_eq|].
    rewrite Forall_forall in Hmark |- *. intros p Hp. unfold prv. rewrite lookup_insert_ne; [by apply Hmark|].
    intros <-. apply Hn. rewrite !elem_of_app. auto.
Qed.

Lemma links_set_payload h ns fs ps n x :
  Links h ns fs ps -> Links (on_cells (alter (with_payload x) n) h) ns fs ps.
Proof.
  intros [HN Hm Hf Hdom Hbrk Hmark]. split; cbn [on_cells cells brk]; rewrite ?dom_alter_L; try done;
    [by apply dll_set_payload.. |].
  eapply Forall_impl; [exact Hmark|]. cbn. intros p Hp. rewrite prv_alter. case_decide; [|done].
  unfold prv in Hp. by destruct (cells h !! p).
Qed.

Lemma links_empty_fast h ns ps : Links h ns [] ps ->
  nxt (cells h) m_fast_head = Some (addr m_fast_tail) /\ prv (cells h) m_fast_tail = Some (addr m_fast_head).
Proof. intros Lk. assert (Hf := lk_fast _ _ _ _ Lk). cbn in Hf. naive_solver. Qed.

Lemma links_head h ns fs ps : Links h ns fs ps ->
  nxt (cells h) m_head = Some (addr (default m_tail (head ns))) /\
  nxt (cells h) m_fast_head = Some (addr (default m_fast_tail (head fs))).
Proof. intros Lk. split; apply forward_head, dll_forward, Lk. Qed.

(** *** Moving whole segments *)
Ltac alloc := cbn [on_cells cells]; rewrite ?lookup_alter_is_Some; by eauto.
Ltac heap_read :=
  cbn [on_cells cells];
  repeat first [rewrite nxt_set_prev | rewrite prv_set_next
               | rewrite nxt_set_next_ne by done | rewrite prv_set_prev_ne by done
               | rewrite nxt_set_next_eq by alloc | rewrite prv_set_prev_eq by alloc];
  first [reflexivity | eassumption].
Ltac heap_step :=
  first [apply wp_assert; [by rewrite ?ptr_eqb_refl|] | wp_step
        | apply wp_set_next; [alloc|] | apply wp_set_prev; [alloc|]
        | eapply wp_get_next; [heap_read|] | eapply wp_get_prev; [heap_read|]]; cbn beta.

Lemma nodup_seg (f : positive) L L' l :
  f :: L = L' ++ [l] -> NoDup (f :: L) -> f ∉ tail (f :: L) /\ l ∉ removelast (f :: L).
Proof.
  intros HL HN. split; [by apply NoDup_cons in HN as [? _]|]. rewrite HL, removelast_snoc. rewrite HL in HN.
  apply NoDup_app in HN as (_ & HN & _). intros Hx. apply (HN l Hx). left.
Qed.

(** What four disjoint lists give. *)
Lemma nodup_apart (A B C D : list positive) :
  NoDup (A ++ B ++ C ++ D) ->
  (forall x, x ∈ A -> x ∉ B /\ x ∉ C /\ x ∉ D) /\ (forall x, x ∈ B -> x ∉ C /\ x ∉ D) /\
  (forall x, x ∈ C -> x ∉ D) /\ NoDup B /\ NoDup C.
Proof. rewrite !NoDup_app. set_solver. Qed.

Ltac in_list := solve [repeat first [left | right]].

Definition marks (c : gmap positive (node P)) ps : Prop := Forall (fun p => prv c p = Some OutOfListMarker) ps.

Lemma marks_set_next c x p ps : marks c ps -> marks (alter (with_next p) x c) ps.
Proof. intros Hm. eapply Forall_impl; [exact Hm|]. intros y. by rewrite prv_set_next. Qed.

Lemma marks_set_prev c x p ps : x ∉ ps -> marks c ps -> marks (alter (with_prev p) x c) ps.
Proof.
  unfold marks. rewrite !Forall_forall. intros Hx Hm y Hy. rewrite prv_set_prev_ne; [by apply Hm|]. by intros ->.
Qed.

(** What the nodes of a list are not. *)
Lemma links_apart h ns fs ps x : Links h ns fs ps -> x ∈ ns ++ fs ->
  x <> m_head /\ x <> m_tail /\ x <> m_fast_head /\ x <> m_fast_tail /\ x ∉ ps.
Proof.
  intros Lk Hx. assert (HN : NoDup (sentinels ++ (ns ++ fs) ++ ps)).
  { rewrite <- (app_assoc ns fs ps). apply Lk. }
  apply NoDup_app in HN as (_ & Hd & HN).
  split_and!; try (intros ->; eapply Hd; [|apply elem_of_app; left; exact Hx]; set_solver).
  apply NoDup_app in HN as (_ & Hd' & _). by apply Hd'.
Qed.

Lemma links_marks_apart h ns fs ps x : Links h ns fs ps -> x ∈ sentinels -> x ∉ ps.
Proof.
  intros Lk Hx Hp. assert (HN := lk_nodup _ _ _ _ Lk). apply NoDup_app in HN as (_ & Hd & _).
  apply (Hd x Hx). rewrite !elem_of_app. auto.
Qed.

Ltac in_sentinels := unfold sentinels; in_list.

Ltac sentinels_alloc Lk :=
  assert (Hh := links_alloc _ _ _ _ m_head Lk ltac:(apply elem_of_app; left; in_sentinels));
  assert (Ht := links_alloc _ _ _ _ m_tail Lk ltac:(apply elem_of_app; left; in_sentinels));
  assert (Hfh := links_alloc _ _ _ _ m_fast_head Lk ltac:(apply elem_of_app; left; in_sentinels));
  assert (Hft := links_alloc _ _ _ _ m_fast_tail Lk ltac:(apply elem_of_app; left; in_sentinels)).

Ltac links_frame Lk :=
  repeat first [apply marks_set_next | apply marks_set_prev;
    [first [eapply links_marks_apart; [exact Lk | in_sentinels] | done]|] | apply (lk_mark _ _ _ _ Lk)].

(** Links inside a segment, when only links at other nodes or at its ends
    change. *)
Ltac seg_frame :=
  repeat first
    [ apply dll_set_prev; [first [assumption | by intros ?%tail_sub]|]
    | apply dll_set_next; [first [assumption | by intros ?%removelast_sub]|]
    | assumption ].

Lemma wp_freeze_all h ns ps Q :
  Links h ns [] ps ->
  (forall h', Links h' [] ns ps -> same_pay h h' -> Q tt h') ->
  wp freeze_all h Q.
Proof.
  intros Lk HQ. destruct (links_empty_fast _ _ _ Lk) as [Hfn Hfp]. sentinels_alloc Lk.
  destruct ns as [|f L].
  - destruct (lk_main _ _ _ _ Lk) as [[Hn Hp] _]. unfold freeze_all. repeat heap_step.
    apply HQ; [|intros x; cbn; by rewrite !pay_links].
    split; cbn [on_cells cells brk]; rewrite ?dom_alter_L; try apply Lk;
      [split; [split; heap_read | done] | split; [split; heap_read | done] | links_frame Lk].
  - destruct (exists_last (l := f :: L)) as (L' & l & HL); [done|].
    destruct (proj1 (dll_ends _ _ _ _ _ _ _ HL) (lk_main _ _ _ _ Lk)) as ([Hn Hp] & Hseg & [Hn' Hp']).
    destruct (links_apart _ _ _ _ f Lk) as (? & ? & ? & ? & Hf); [set_solver|].
    destruct (links_apart _ _ _ _ l Lk) as (? & ? & ? & ? & Hl); [rewrite HL; set_solver|].
    assert (Haf := links_alloc _ _ _ _ f Lk ltac:(set_solver)).
    assert (Hal : is_Some (cells h !! l)) by (eapply links_alloc; [exact Lk | rewrite HL; set_solver]).
    assert (HN := lk_nodup _ _ _ _ Lk). rewrite app_nil_l in HN.
    destruct (nodup_seg _ _ _ _ HL) as [Hns1 Hns2]; [rewrite !NoDup_app in HN; naive_solver|].
    assert (Hs : forall x, x ∈ sentinels -> x ∉ f :: L).
    { intros x Hx Hx'. apply NoDup_app in HN as (_ & Hd & _). apply (Hd x Hx). apply elem_of_app. by left. }
    assert (Hs1 := Hs m_head ltac:(in_sentinels)). assert (Hs2 := Hs m_tail ltac:(in_sentinels)).
    assert (Hs3 := Hs m_fast_head ltac:(in_sentinels)). assert (Hs4 := Hs m_fast_tail ltac:(in_sentinels)).
    clear Hs. unfold freeze_all. repeat heap_step. apply HQ; [|intros x; cbn; by rewrite !pay_links].
    split; cbn [on_cells cells brk]; rewrite ?dom_alter_L; [perm_from HN | | | | apply Lk | links_frame Lk].
    + split; [split; heap_read | done].
    + eapply dll_ends; [exact HL|]. split_and!; [split; heap_read | | split; heap_read]. clear HN. seg_frame.
    + rewrite (lk_dom _ _ _ _ Lk). clear. set_solver.
Qed.

Lemma wp_thaw h ns f L ps Q :
  Links h ns (f :: L) ps ->
  (forall h', Links h' ((f :: L) ++ ns) [] ps -> same_pay h h' -> Q tt h') ->
  wp thaw h Q.
Proof.
  intros Lk HQ. sentinels_alloc Lk.
  destruct (exists_last (l := f :: L)) as (L' & l & HL); [done|].
  destruct (proj1 (dll_ends _ _ _ _ _ _ _ HL) (lk_fast _ _ _ _ Lk)) as ([Hn Hp] & Hseg & [Hn' Hp']).
  destruct (links_apart _ _ _ _ f Lk) as (? & ? & ? & ? & Hf); [set_solver|].
  destruct (links_apart _ _ _ _ l Lk) as (? & ? & ? & ? & Hl); [rewrite HL; set_solver|].
  assert (Haf := links_alloc _ _ _ _ f Lk ltac:(set_solver)).
  assert (Hal : is_Some (cells h !! l)) by (eapply links_alloc; [exact Lk | rewrite HL; set_solver]).
  assert (exists b L2, ns ++ [m_tail] = b :: L2) as (b & L2 & Hb) by (destruct ns; eauto).
  assert (Hmain := lk_main _ _ _ _ Lk). rewrite Hb in Hmain. destruct Hmain as [[Hbn Hbp] Hrest].
  assert (HN := lk_nodup _ _ _ _ Lk).
  assert (HN2 : NoDup ([m_head; m_fast_head; m_fast_tail] ++ (f :: L) ++ (b :: L2) ++ ps)).
  { rewrite <- Hb. perm_from HN. }
  assert (Hab : is_Some (cells h !! b)) by (apply link_alloc with (a := m_head) (b := b); split; done).
  destruct (nodup_apart _ _ _ _ HN2) as (Hd1 & Hd2 & Hd3 & HNf & HNb).
  destruct (nodup_seg _ _ _ _ HL HNf) as [Hns1 Hns2].
  assert (Hlf : l ∈ f :: L) by (rewrite HL; apply elem_of_app; right; left).
  destruct (Hd1 m_head) as (? & ? & _); [in_list|]. destruct (Hd1 m_fast_head) as (? & ? & _); [in_list|].
  destruct (Hd1 m_fast_tail) as (? & ? & _); [in_list|].
  destruct (Hd2 f) as [? _]; [in_list|]. destruct (Hd2 l) as [? _]; [done|].
  assert (b ∉ f :: L) by (intros Hb'; destruct (Hd2 b Hb') as [Hbb _]; by apply Hbb; left).
  assert (Hbps : b ∉ ps) by (apply Hd3; left).
  assert (b <> m_fast_head /\ b <> m_fast_tail /\ b <> m_head /\ b <> f /\ b <> l) as (? & ? & ? & ? & ?).
  { split_and!; intros ->; by match goal with Hx : ?y ∉ ?y :: _ |- _ => apply Hx; left | _ => idtac end. }
  assert (Hbt : b ∉ tail (b :: L2)) by (by apply NoDup_cons in HNb as [? _]).
  unfold thaw. repeat heap_step. apply HQ; [|intros x; cbn; by rewrite !pay_links].
  split; cbn [on_cells cells brk]; rewrite ?dom_alter_L; [perm_from HN | | | | apply Lk | links_frame Lk].
  - rewrite <- app_assoc, Hb, app_comm_cons. apply dll_app. split.
    + cbn [app]. eapply dll_ends; [exact HL|]. split_and!; [split; heap_read | | split; heap_read].
      clear HN Hbt. seg_frame.
    + clear HN Hns1 Hns2. seg_frame.
  - split; [split; heap_read | done].
  - rewrite (lk_dom _ _ _ _ Lk). clear. set_solver.
Qed.

(** *** While [construct_ratio] runs

    [m_fast_head.m_next] points at [f], the node that was first when the
    construction began; everything is still in the dynamic list. *)
Record Mid h (f : positive) ns ps : Prop := {
  md_nodup : NoDup (sentinels ++ ns ++ ps);
  md_main : dll (cells h) (m_head :: ns ++ [m_tail]);
  md_fast_next : nxt (cells h) m_fast_head = Some (addr f);
  md_fast_prev : prv (cells h) m_fast_tail = Some (addr m_fast_head);
  md_dom : dom (cells h) = list_to_set (sentinels ++ ns ++ ps);
  md_brk : forall x, x ∈ dom (cells h) -> (x < brk h)%positive;
  md_mark : marks (cells h) ps
}.

Lemma mid_start h f L ps :
  Links h (f :: L) [] ps -> Mid (on_cells (alter (with_next (addr f)) m_fast_head) h) f (f :: L) ps.
Proof.
  intros Lk. sentinels_alloc Lk. destruct (links_empty_fast _ _ _ Lk) as [_ Hp].
  assert (HN := lk_nodup _ _ _ _ Lk). rewrite app_nil_l in HN.
  destruct (nodup_apart _ _ _ [] ltac:(rewrite app_nil_r; exact HN)) as (Hd & _).
  destruct (Hd m_fast_head) as (Hx & _ & _); [in_sentinels|].
  split; cbn [on_cells cells brk]; rewrite ?dom_alter_L; try apply Lk; [|heap_read.. | links_frame Lk].
  apply dll_set_next; [|apply Lk]. intros Hy%removelast_sub. apply Hx. clear -Hy. set_solver.
Qed.

Lemma wp_delink_mid h f ns1 n ns2 ps Q :
  Mid h f (ns1 ++ n :: ns2) ps ->
  (forall h', Mid h' f (ns1 ++ ns2) (n :: ps) -> same_pay h h' -> Q tt h') ->
  wp (fh_delink (addr n)) h Q.
Proof.
  intros [HN Hm Hfn Hfp Hdom Hbrk Hmark] HQ.
  destruct (delink_chain (cells h) m_head m_tail ns1 n ns2 [m_fast_head] (m_fast_tail :: ps))
    as (a & b & H1 & H2 & H3 & _ & H5 & H6); [perm_from HN | done | done |].
  eapply wp_fh_delink; [exact H1 | exact H2 |]. apply HQ; [|intros x; apply pay_delinked].
  split; cbn [on_cells cells brk]; [perm_from HN | done | | | | by rewrite dom_delinked |].
  - rewrite H6; [done | in_list].
  - rewrite H5; [done | in_list].
  - rewrite dom_delinked, Hdom. clear. set_solver.
  - apply Forall_cons. split; [apply prv_delinked_self; by eapply link_alloc|].
    unfold marks in Hmark. rewrite Forall_forall in Hmark |- *. intros p Hp.
    rewrite H5; [by apply Hmark | by right].
Qed.

Lemma mid_free h f ns n ps : Mid h f ns (n :: ps) -> Mid (on_cells (delete n) h) f ns ps.
Proof.
  intros [HN Hm Hfn Hfp Hdom Hbrk Hmark].
  assert (HN2 : NoDup (n :: (sentinels ++ ns ++ ps))) by perm_from HN.
  apply NoDup_cons in HN2 as [Hn HN2]. apply Forall_cons in Hmark as [_ Hmark].
  split; cbn [on_cells cells brk].
  - done.
  - apply dll_delete; [|done]. clear -Hn. set_solver.
  - unfold nxt. rewrite lookup_delete_ne; [done|]. clear -Hn. set_solver.
  - unfold prv. rewrite lookup_delete_ne; [done|]. clear -Hn. set_solver.
  - rewrite dom_delete_L, Hdom. clear -Hn. set_solver.
  - intros x Hx. apply Hbrk. rewrite dom_delete_L in Hx. clear -Hx. set_solver.
  - unfold marks in *. rewrite Forall_forall in Hmark |- *. intros p Hp. unfold prv.
    rewrite lookup_delete_ne; [by apply Hmark|]. intros ->. apply Hn. rewrite !elem_of_app. auto.
Qed.

(** The cut: what was traversed becomes the frozen list. *)
Lemma wp_cut_before h f L ns2 ps Q :
  Mid h f ((f :: L) ++ ns2) ps ->
  (forall h', Links h' ns2 (f :: L) ps -> same_pay h h' -> Q tt h') ->
  wp (cut_before (addr (default m_tail (head ns2)))) h Q.
Proof.
  intros [HN Hm Hfn Hfp Hdom Hbrk Hmark] HQ.
  destruct (exists_last (l := f :: L)) as (L' & l & HL); [done|].
  assert (exists b L2, ns2 ++ [m_tail] = b :: L2 /\ default m_tail (head ns2) = b) as (b & L2 & Hb & ->)
    by (destruct ns2; eauto).
  rewrite <- app_assoc, Hb, app_comm_cons in Hm. apply dll_app in Hm as [Hm Hrest].
  apply (dll_ends _ _ _ _ _ _ _ HL) in Hm as ([Hhn Hp] & Hseg & [Hln Hbp]).
  assert (HN2 : NoDup ([m_head; m_fast_head; m_fast_tail] ++ (f :: L) ++ (b :: L2) ++ ps)).
  { rewrite <- Hb. perm_from HN. }
  assert (Hall : forall x, x ∈ [m_head; m_fast_head; m_fast_tail] ++ (f :: L) ++ (b :: L2) ++ ps -> is_Some (cells h !! x)).
  { intros x Hx. apply elem_of_dom. rewrite Hdom. apply elem_of_list_to_set. rewrite <- Hb in Hx.
    clear -Hx. set_solver. }
  destruct (nodup_apart _ _ _ _ HN2) as (Hd1 & Hd2 & Hd3 & HNf & HNb).
  destruct (nodup_seg _ _ _ _ HL HNf) as [Hns1 Hns2].
  assert (Hlf : l ∈ f :: L) by (rewrite HL; apply elem_of_app; right; left).
  destruct (Hd1 m_head) as (? & ? & ?); [in_list|]. destruct (Hd1 m_fast_head) as (? & ? & ?); [in_list|].
  destruct (Hd1 m_fast_tail) as (? & ? & ?); [in_list|].
  destruct (Hd2 f) as [? ?]; [in_list|]. destruct (Hd2 l) as [? ?]; [done|].
  assert (b ∉ f :: L) by (intros Hb'; destruct (Hd2 b Hb') as [Hbb _]; by apply Hbb; left).
  assert (Hbps : b ∉ ps) by (apply Hd3; left).
  assert (b <> m_fast_head /\ b <> m_fast_tail /\ b <> m_head /\ b <> f /\ b <> l) as (? & ? & ? & ? & ?).
  { split_and!; intros ->; by match goal with Hx : ?y ∉ ?y :: _ |- _ => apply Hx; left | _ => idtac end. }
  assert (f <> m_head /\ f <> m_fast_head /\ f <> m_fast_tail) as (? & ? & ?).
  { split_and!; intros ->; by match goal with Hx : ?y ∉ ?y :: _ |- _ => apply Hx; left end. }
  assert (l <> m_head /\ l <> m_fast_head /\ l <> m_fast_tail) as (? & ? & ?) by (split_and!; by intros ->).
  assert (Hbt : b ∉ tail (b :: L2)) by (by apply NoDup_cons in HNb as [? _]).
  assert (Hh := Hall m_head ltac:(in_list)). assert (Hfh := Hall m_fast_head ltac:(in_list)).
  assert (Hft := Hall m_fast_tail ltac:(in_list)). assert (Haf := Hall f ltac:(in_list)).
  assert (Hal : is_Some (cells h !! l)) by (apply Hall; rewrite !elem_of_app; auto).
  assert (Hab : is_Some (cells h !! b)) by (apply Hall; rewrite !elem_of_app, !elem_of_cons; auto).
  clear Hd1 Hd2 Hd3 Hall. unfold cut_before. repeat heap_step. apply HQ; [|intros x; cbn; by rewrite !pay_links].
  split; cbn [on_cells cells brk]; rewrite ?dom_alter_L; [perm_from HN | | | | done |].
  - rewrite Hb. apply dll_cons2. split; [split; heap_read|]. clear HN HN2 Hns1 Hns2. seg_frame.
  - eapply dll_ends; [exact HL|]. split_and!; [split; heap_read | | split; heap_read]. clear HN HN2 Hbt. seg_frame.
  - rewrite Hdom. clear. set_solver.
  - repeat first [apply marks_set_next | apply marks_set_prev; [done|] | assumption].
Qed.

(** *** [clear] *)
Definition freed (ns : list positive) (c : gmap positive (node P)) : gmap positive (node P) :=
  foldl (fun c n => delete n c) c ns.

Lemma nodup_drop2 (A B C : list positive) : NoDup (A ++ B ++ C) -> NoDup (A ++ C).
Proof. rewrite !NoDup_app. set_solver. Qed.

Lemma dll_freed ns c L : (forall x, x ∈ L -> x ∉ ns) -> dll c L -> dll (freed ns c) L.
Proof.
  intros HL. apply dll_ext; intros x Hx; unfold nxt, prv, freed; rewrite lookup_free, decide_False; try done.
  - apply HL. by apply removelast_sub.
  - apply HL. by apply tail_sub.
Qed.

Lemma links_size h ns fs ps : Links h ns fs ps -> length ns + length fs < S (base.size (cells h)).
Proof.
  intros [HN _ _ Hdom _ _]. rewrite <- size_dom, Hdom, size_list_to_set by done. rewrite !length_app. cbn. lia.
Qed.

(** Links and sentinels after a list is freed. *)
Lemma links_freed h hd tl ns fs' ps (c := freed ns (cells h)) :
  NoDup (sentinels ++ ns ++ fs' ++ ps) -> hd ∈ sentinels -> tl ∈ sentinels -> hd <> tl ->
  dom (cells h) = list_to_set (sentinels ++ ns ++ fs' ++ ps) -> marks (cells h) ps ->
  let c' := alter (with_prev (addr hd)) tl (alter (with_next (addr tl)) hd c) in
  dll c' [hd; tl] /\ dom c' = list_to_set (sentinels ++ fs' ++ ps) /\ marks c' ps /\
  is_Some (c !! hd) /\ is_Some (c !! tl).
Proof.
  intros HN Hhd Htl Hne Hdom Hmark c'.
  assert (Hc : forall x, x ∉ ns -> c !! x = cells h !! x).
  { intros x Hx. subst c. unfold freed. by rewrite lookup_free, decide_False. }
  assert (Hs : forall x, x ∈ sentinels -> x ∉ ns /\ x ∉ ps).
  { intros x Hx. apply NoDup_app in HN as (_ & HN & _). specialize (HN x Hx). rewrite !elem_of_app in HN. tauto. }
  assert (Halloc : forall x, x ∈ sentinels -> is_Some (c !! x)).
  { intros x Hx. rewrite Hc by by apply Hs. apply elem_of_dom. rewrite Hdom. apply elem_of_list_to_set, elem_of_app. by left. }
  assert (Hps : marks c ps).
  { unfold marks in *. rewrite Forall_forall in Hmark |- *. intros p Hp. unfold prv. rewrite Hc; [by apply Hmark|].
    rewrite !NoDup_app in HN. intros Hp'. destruct HN as (_ & _ & _ & HN & _). apply (HN p Hp'). apply elem_of_app. by right. }
  split_and!; [ | | | by apply Halloc..].
  - split; [|done]. subst c'. split.
    + rewrite nxt_set_prev, nxt_set_next_eq; [done | by apply Halloc].
    + rewrite prv_set_prev_eq; [done|]. rewrite lookup_alter_is_Some. by apply Halloc.
  - subst c'. rewrite !dom_alter_L. apply set_eq. intros x. rewrite elem_of_dom. subst c. unfold freed.
    rewrite lookup_free. rewrite !NoDup_app in HN. destruct HN as (_ & H1 & _ & H2 & _).
    case_decide as Hx.
    + split; [by intros [? ?]|]. rewrite elem_of_list_to_set, !elem_of_app. specialize (H2 x Hx).
      intros Hx'. exfalso. destruct Hx' as [Hx'|Hx'].
      * apply (H1 x Hx'). apply elem_of_app. by left.
      * apply H2, elem_of_app. tauto.
    + rewrite <- elem_of_dom, Hdom, !elem_of_list_to_set, !elem_of_app. tauto.
  - subst c'. apply marks_set_prev; [by apply Hs|]. by apply marks_set_next.
Qed.

Lemma wp_free_main h ns fs ps Q :
  Links h ns fs ps ->
  (forall h', Links h' [] fs ps -> (forall x, x ∉ ns -> pay (cells h') x = pay (cells h) x) -> Q tt h') ->
  wp (free_list m_head m_tail) h Q.
Proof.
  intros Lk HQ. destruct (links_head _ _ _ _ Lk) as [Hn _]. assert (Hsz := links_size _ _ _ _ Lk).
  destruct Lk as [HN Hm Hf Hdom Hbrk Hmark].
  assert (HN2 : NoDup ([m_head] ++ (ns ++ [m_tail]) ++ (m_fast_head :: fs ++ [m_fast_tail]) ++ ps)) by perm_from HN.
  destruct (nodup_apart _ _ _ _ HN2) as (_ & Hd & _ & HNs & _).
  destruct (links_freed h m_head m_tail ns fs ps) as (H1 & H2 & H3 & H4 & H5); [done | in_sentinels | in_sentinels | done.. |].
  unfold free_list. wp_step. eapply wp_get_next; [exact Hn|]. do 2 wp_step. wp_step.
  apply wp_free_until; [lia | done | by eapply forward_tail, dll_forward |]. fold (freed ns).
  wp_step. apply wp_set_next; [exact H4|]. apply wp_set_prev; [by cbn; rewrite lookup_alter_is_Some|].
  apply HQ.
  - split; cbn [on_cells cells brk]; [|exact H1 | | exact H2 | | exact H3].
    + rewrite app_nil_l. by eapply nodup_drop2.
    + apply dll_set_prev; [|apply dll_set_next; [|apply dll_freed; [|done]]].
      * intros Hx%tail_sub. destruct (Hd m_tail) as [Hd1 _]; [apply elem_of_app; right; left | by apply Hd1].
      * intros Hx%removelast_sub. apply NoDup_app in HN2 as (_ & HN2 & _). apply (HN2 m_head); [left|].
        apply elem_of_app. right. apply elem_of_app. by left.
      * intros x Hx Hx'. destruct (Hd x) as [Hd1 _]; [apply elem_of_app; by left | by apply Hd1].
    + intros x Hx. apply Hbrk. rewrite H2 in Hx. rewrite Hdom. revert Hx.
      rewrite !elem_of_list_to_set, !elem_of_app. tauto.
  - intros x Hx. cbn. rewrite !pay_links by done. unfold pay, freed. by rewrite lookup_free, decide_False.
Qed.

Lemma wp_free_fast h ns fs ps Q :
  Links h ns fs ps ->
  (forall h', Links h' ns [] ps -> (forall x, x ∉ fs -> pay (cells h') x = pay (cells h) x) -> Q tt h') ->
  wp (free_list m_fast_head m_fast_tail) h Q.
Proof.
  intros Lk HQ. destruct (links_head _ _ _ _ Lk) as [_ Hn]. assert (Hsz := links_size _ _ _ _ Lk).
  destruct Lk as [HN Hm Hf Hdom Hbrk Hmark].
  assert (HN2 : NoDup ([m_fast_head] ++ (fs ++ [m_fast_tail]) ++ (m_head :: ns ++ [m_tail]) ++ ps)) by perm_from HN.
  assert (HN3 : NoDup (sentinels ++ fs ++ ns ++ ps)) by perm_from HN.
  destruct (nodup_apart _ _ _ _ HN2) as (_ & Hd & _ & HNs & _).
  destruct (links_freed h m_fast_head m_fast_tail fs ns ps) as (H1 & H2 & H3 & H4 & H5);
    [done | in_sentinels | in_sentinels | done | | done |].
  { rewrite Hdom. apply set_eq. intros x. rewrite !elem_of_list_to_set, !elem_of_app. tauto. }
  unfold free_list. wp_step. eapply wp_get_next; [exact Hn|]. do 2 wp_step. wp_step.
  apply wp_free_until; [lia | done | by eapply forward_tail, dll_forward |]. fold (freed fs).
  wp_step. apply wp_set_next; [exact H4|]. apply wp_set_prev; [by cbn; rewrite lookup_alter_is_Some|].
  apply HQ.
  - split; cbn [on_cells cells brk]; [| | exact H1 | exact H2 | | exact H3].
    + rewrite app_nil_l. by eapply nodup_drop2.
    + apply dll_set_prev; [|apply dll_set_next; [|apply dll_freed; [|done]]].
      * intros Hx%tail_sub. destruct (Hd m_fast_tail) as [Hd1 _]; [apply elem_of_app; right; left | by apply Hd1].
      * intros Hx%removelast_sub. apply NoDup_app in HN2 as (_ & HN2 & _). apply (HN2 m_fast_head); [left|].
        apply elem_of_app. right. apply elem_of_app. by left.
      * intros x Hx Hx'. destruct (Hd x) as [Hd1 _]; [apply elem_of_app; by left | by apply Hd1].
    + intros x Hx. apply Hbrk. rewrite H2 in Hx. rewrite Hdom. revert Hx.
      rewrite !elem_of_list_to_set, !elem_of_app. tauto.
  - intros x Hx. cbn. rewrite !pay_links by done. unfold pay, freed. by rewrite lookup_free, decide_False.
Qed.
End links.
