(* ===== verification/FastHash.v ===== *)
(** * The frozen hash table ([hash/FastHashBase.h], [hash/CLHT.h], [hash/TBBCHT.h])

    [FashHashAPI<TValue>] has keys of type [unsigned] (32 bits): a [size_t] key
    of a cache is truncated when it is passed.  A value is a
    [std::shared_ptr<std::string>]; the table stores the raw pointer
    [value.get()], so a value is modelled by that pointer, 0 being the null
    pointer.  [clht_get] and [clht_put] belong to the CLHT submodule and are the
    parameters of [Interfaces]. *)

From S2P Require Import Prelude Interfaces.

(** [typedef unsigned TKey] *)
Definition TKey (key : Z) : Z := u32 key.

(** ** [CLHT] *)
Section CLHT.
Context {T : Type} `{CLHTlib T}.

(** The loop of the constructor: [while (size != 0) { ex++; size >>= 1; }]. *)
Fixpoint bit_length (fuel : nat) (size ex : Z) : Z :=
  match fuel with
  | O => ex
  | S fuel => if (size =? 0)%Z then ex else bit_length fuel (Z.shiftr size 1) (ex + 1)
  end.

(** [m_buckets = (uint32_t)(1 << (ex + exp))]; an [int] shift by 31 or more is
    undefined. *)
Definition CLHT_buckets (size exp : Z) : option Z :=
  let e := (bit_length 32 size 0 + exp)%Z in
  if (e <? 31)%Z && (0 <=? e)%Z then Some (Z.shiftl 1 e) else None.

Definition CLHT_new (size exp : Z) : option T := clht_create <$> CLHT_buckets size exp.

Definition CLHT_insert (t : T) (idx value : Z) : bool * T := clht_put t (TKey idx) value.

(** [find] returns whether the key is there and the caller's variable. *)
Definition CLHT_find (t : T) (idx value : Z) : bool * Z :=
  let v := clht_get t (TKey idx) in
  if (v =? 0)%Z then (false, value) else (true, v).

Definition CLHT_clear (t : T) : T := clht_clear t.
End CLHT.

(** ** [TbbCHT] *)
Section TbbCHT.
Context {M : Type -> Type} `{CHM M}.

Definition TbbCHT_insert (m : M Z) (idx value : Z) : bool * M Z := chm_insert m (TKey idx) value.

Definition TbbCHT_find (m : M Z) (idx value : Z) : bool * Z :=
  match chm_find m (TKey idx) with Some v => (true, v) | None => (false, value) end.

Definition TbbCHT_clear (m : M Z) : M Z := chm_clear m.
End TbbCHT.

(** ** The table as a finite map

    Entries are put once each; [frozen t F]: the table [t] holds the entries
    [F] (and nothing else), whose values are not null. *)
Section frozen.
Context {T : Type} `{CLHTLaws T}.

(** Keys that survive the truncation. *)
Definition key32 (k : Z) : Prop := (0 <= k < 2 ^ 32)%Z.

Lemma TKey_id k : key32 k -> TKey k = k.
Proof. apply u32_small. Qed.

Definition frozen (t : T) (F : gmap Z Z) : Prop :=
  (forall k, key32 k -> clht_get t k = default 0%Z (F !! k)) /\ (forall k v, F !! k = Some v -> v <> 0%Z).

Lemma frozen_create n : frozen (clht_create n) ∅.
Proof. split; [intros k _; by rewrite clht_get_create, lookup_empty | by intros k v Hv; rewrite lookup_empty in Hv]. Qed.

Lemma frozen_clear t : frozen (CLHT_clear t) ∅.
Proof.
  split; [intros k _; unfold CLHT_clear; by rewrite clht_get_clear, lookup_empty | by intros k v Hv; rewrite lookup_empty in Hv].
Qed.

Lemma frozen_insert t F k v :
  frozen t F -> key32 k -> F !! k = None -> v <> 0%Z -> frozen (CLHT_insert t k v).2 (<[k:=v]> F).
Proof.
  intros [Hg Hv] Hk HF Hne. unfold CLHT_insert. rewrite TKey_id by done. split.
  - intros j Hj. rewrite clht_get_put; [|by rewrite Hg, HF | done].
    case_decide; [subst; by rewrite lookup_insert_eq|]. rewrite lookup_insert_ne by done. by apply Hg.
  - intros j w. rewrite lookup_insert_Some. intros [[-> <-]|[_ HF']]; [done | by eapply Hv].
Qed.

(** A key that is already there keeps its value. *)
Lemma frozen_insert_dup t F k v w :
  frozen t F -> key32 k -> F !! k = Some w -> (CLHT_insert t k v).2 = t.
Proof.
  intros [Hg Hv] Hk HF. unfold CLHT_insert. rewrite TKey_id by done. rewrite clht_put_dup; [done|].
  rewrite Hg, HF by done. by eapply Hv.
Qed.

Lemma frozen_find t F k ac :
  frozen t F -> key32 k ->
  CLHT_find t k ac = match F !! k with Some v => (true, v) | None => (false, ac) end.
Proof.
  intros [Hg Hv] Hk. unfold CLHT_find. rewrite TKey_id, Hg by done.
  destruct (F !! k) as [v|] eqn:E; cbn; [|done]. apply Hv in E. by rewrite (proj2 (Z.eqb_neq _ _) E).
Qed.
End frozen.

(** ** Properties *)

Lemma bit_length_0 fuel ex : bit_length fuel 0 ex = ex.
Proof. by destruct fuel. Qed.

(** The table a FrozenHot cache builds ([CLHT(0, 1 + int(log2(m_maxSize)))])
    has more buckets than the cache has entries and at most twice as many. *)
Theorem clht_buckets_bound maxSize :
  (0 < maxSize < 2 ^ 30)%Z ->
  exists b, CLHT_buckets 0 (1 + Z.log2 maxSize) = Some b /\ (maxSize < b <= 2 * maxSize)%Z.
Proof.
  intros Hm. unfold CLHT_buckets. rewrite bit_length_0, Z.add_0_l.
  assert (Hlo := Z.log2_spec maxSize ltac:(lia)).
  assert (Hl : (Z.log2 maxSize < 30)%Z) by (apply Z.log2_lt_pow2; lia).
  assert (Hn := Z.log2_nonneg maxSize).
  rewrite (proj2 (Z.ltb_lt _ _)), (proj2 (Z.leb_le _ _)) by lia. cbn [andb].
  eexists. split; [done|]. rewrite Z.shiftl_1_l, Z.add_1_l. rewrite Z.pow_succ_r in * by lia. lia.
Qed.

(** The frozen table cannot tell keys apart that agree on their low 32
    bits: once one of them is frozen, a lookup of the other returns its value. *)
Theorem frozen_key_truncation {T} `{CLHTLaws T} (t : T) F k k' v ac :
  frozen t F -> key32 k -> F !! k = None -> v <> 0%Z -> u32 k' = k ->
  CLHT_find (CLHT_insert t k v).2 k' ac = (true, v).
Proof.
  intros Hf Hk HF Hv Hk'. assert (Hf' := frozen_insert t F k v Hf Hk HF Hv).
  assert (Hfind := frozen_find _ _ k ac Hf' Hk). rewrite lookup_insert_eq in Hfind.
  unfold CLHT_find in *. unfold TKey in *. rewrite Hk'. by rewrite (u32_small k Hk) in Hfind.
Qed.

Lemma clht_buckets_bound_witness : exists b, CLHT_buckets 0 (1 + Z.log2 1000) = Some b /\ (1000 < b <= 2000)%Z.
Proof. apply (clht_buckets_bound 1000). lia. Defined.

Lemma frozen_key_truncation_witness :
  CLHT_find (CLHT_insert (clht_create (T:=gmap Z Z) 4) 7 99).2 (7 + 2 ^ 32) 0 = (true, 99%Z).
Proof.
  apply (frozen_key_truncation _ ∅); [apply frozen_create | unfold key32; lia | apply lookup_empty | lia | vm_compute; reflexivity].
Defined.
