(* ===== verification/FIFOFH.v ===== *)
(** * The FrozenHot FIFO cache ([cache/FIFO_FH.h])

    [FIFO_FHCache<size_t, std::shared_ptr<std::string>>]: the dynamic cache (DC:
    a TBB hash table and a list) and, when constructed, a frozen cache (FC: a
    CLHT table that readers use without locks and a second list that keeps the
    frozen nodes).  The methods are whole-object transitions that run to
    completion; the clock ([SPDK_TIME]) and the sampling decision are arguments.
    [construct_ratio] runs beside other threads: [others n] is what they do
    between iteration [n] and the next.

    A value is the pointer its [shared_ptr] holds (see [FastHash]). *)

From S2P Require Import Prelude DList ListPrims Interfaces CacheSpec LRUCache FHCache FHLinks FastHash.
From Stdlib Require Import QArith Qround.
Local Close Scope Q_scope.

Definition SPECIAL_KEY : Z := 0.
Definition TOMB_KEY : Z := 1.
Definition MARKER_KEY : Z := 2.
Definition FC_RELAXATION : Z := 20.

(** The data of a [ListNode]: [m_key], [m_time]. *)
Abbreviation cell := (Z * Z)%type (only parsing).

Section object.
Context {M : Type -> Type} `{CHM M} {T : Type} `{CLHTlib T}.

Record flags := {
  fast_hash_ready : bool; fast_hash_construct : bool; tier_no_insert : bool;
  tier_ready : bool; curve_flag : bool; sample_flag : bool
}.

Record FIFO_FHCache := {
  m_maxSize : Z;
  m_size : Z;
  m_map : M (HashMapValue Z);
  m_fasthash : T;
  m_list : arena cell;       (* all list nodes, the four sentinels included *)
  m_flags : flags;
  movement_counter : Z;
  eviction_counter : Z;
  unreachable_counter : Z;
  m_marker : ptr;
  m_stat : FHStat
}.

Definition with_size (n : Z) (c : FIFO_FHCache) : FIFO_FHCache :=
  {| m_maxSize := m_maxSize c; m_size := n; m_map := m_map c; m_fasthash := m_fasthash c; m_list := m_list c;
     m_flags := m_flags c; movement_counter := movement_counter c; eviction_counter := eviction_counter c;
     unreachable_counter := unreachable_counter c; m_marker := m_marker c; m_stat := m_stat c |}.
Definition with_map (m : M (HashMapValue Z)) (c : FIFO_FHCache) : FIFO_FHCache :=
  {| m_maxSize := m_maxSize c; m_size := m_size c; m_map := m; m_fasthash := m_fasthash c; m_list := m_list c;
     m_flags := m_flags c; movement_counter := movement_counter c; eviction_counter := eviction_counter c;
     unreachable_counter := unreachable_counter c; m_marker := m_marker c; m_stat := m_stat c |}.
Definition with_fasthash (t : T) (c : FIFO_FHCache) : FIFO_FHCache :=
  {| m_maxSize := m_maxSize c; m_size := m_size c; m_map := m_map c; m_fasthash := t; m_list := m_list c;
     m_flags := m_flags c; movement_counter := movement_counter c; eviction_counter := eviction_counter c;
     unreachable_counter := unreachable_counter c; m_marker := m_marker c; m_stat := m_stat c |}.
Definition with_list (h : arena cell) (c : FIFO_FHCache) : FIFO_FHCache :=
  {| m_maxSize := m_maxSize c; m_size := m_size c; m_map := m_map c; m_fasthash := m_fasthash c; m_list := h;
     m_flags := m_flags c; movement_counter := movement_counter c; eviction_counter := eviction_counter c;
     unreachable_counter := unreachable_counter c; m_marker := m_marker c; m_stat := m_stat c |}.
Definition with_flags (f : flags -> flags) (c : FIFO_FHCache) : FIFO_FHCache :=
  {| m_maxSize := m_maxSize c; m_size := m_size c; m_map := m_map c; m_fasthash := m_fasthash c; m_list := m_list c;
     m_flags := f (m_flags c); movement_counter := movement_counter c; eviction_counter := eviction_counter c;
     unreachable_counter := unreachable_counter c; m_marker := m_marker c; m_stat := m_stat c |}.
Definition with_counters (mv ev un : Z) (c : FIFO_FHCache) : FIFO_FHCache :=
  {| m_maxSize := m_maxSize c; m_size := m_size c; m_map := m_map c; m_fasthash := m_fasthash c; m_list := m_list c;
     m_flags := m_flags c; movement_counter := mv; eviction_counter := ev;
     unreachable_counter := un; m_marker := m_marker c; m_stat := m_stat c |}.
Definition with_marker (p : ptr) (c : FIFO_FHCache) : FIFO_FHCache :=
  {| m_maxSize := m_maxSize c; m_size := m_size c; m_map := m_map c; m_fasthash := m_fasthash c; m_list := m_list c;
     m_flags := m_flags c; movement_counter := movement_counter c; eviction_counter := eviction_counter c;
     unreachable_counter := unreachable_counter c; m_marker := p; m_stat := m_stat c |}.
Definition with_stat (f : FHStat -> FHStat) (c : FIFO_FHCache) : FIFO_FHCache :=
  {| m_maxSize := m_maxSize c; m_size := m_size c; m_map := m_map c; m_fasthash := m_fasthash c; m_list := m_list c;
     m_flags := m_flags c; movement_counter := movement_counter c; eviction_counter := eviction_counter c;
     unreachable_counter := unreachable_counter c; m_marker := m_marker c; m_stat := f (m_stat c) |}.

Definition set_ready b (f : flags) : flags :=
  {| fast_hash_ready := b; fast_hash_construct := fast_hash_construct f; tier_no_insert := tier_no_insert f;
     tier_ready := tier_ready f; curve_flag := curve_flag f; sample_flag := sample_flag f |}.
Definition set_construct b (f : flags) : flags :=
  {| fast_hash_ready := fast_hash_ready f; fast_hash_construct := b; tier_no_insert := tier_no_insert f;
     tier_ready := tier_ready f; curve_flag := curve_flag f; sample_flag := sample_flag f |}.
Definition set_tier no_insert ready (f : flags) : flags :=
  {| fast_hash_ready := fast_hash_ready f; fast_hash_construct := fast_hash_construct f; tier_no_insert := no_insert;
     tier_ready := ready; curve_flag := curve_flag f; sample_flag := sample_flag f |}.
Definition set_curve curve sample (f : flags) : flags :=
  {| fast_hash_ready := fast_hash_ready f; fast_hash_construct := fast_hash_construct f; tier_no_insert := tier_no_insert f;
     tier_ready := tier_ready f; curve_flag := curve; sample_flag := sample |}.

Abbreviation FH A := (SM FIFO_FHCache A) (only parsing).

Definition on_list {A} (m : SM (arena cell) A) : FH A := zoom m_list with_list m.
Definition get_key (p : ptr) : FH Z := x ← on_list (get_payload p); mret x.1.
Definition get_time (p : ptr) : FH Z := x ← on_list (get_payload p); mret x.2.
Definition set_key (p : ptr) (k : Z) : FH unit := x ← on_list (get_payload p); on_list (set_payload p (k, x.2)).
Definition set_time (p : ptr) (t : Z) : FH unit := x ← on_list (get_payload p); on_list (set_payload p (x.1, t)).
Definition flag (f : flags -> bool) : FH bool := gets (fun c => f (m_flags c)).
Definition stat (yes : bool) (f : FHStat -> FHStat) : FH unit := whenM yes (modify (with_stat f)).

(** The constructor.  [None]: the table's bucket count is not an [int]. *)
Definition new_FIFO_FHCache (maxSize : Z) : option FIFO_FHCache :=
  t ← CLHT_new 0 (1 + Z.log2 maxSize);
  Some {|
    m_maxSize := maxSize; m_size := 0; m_map := chm_empty _; m_fasthash := t;
    m_list := Arena {[ m_head := Node (SPECIAL_KEY, 0%Z) nullptr (addr m_tail);
                       m_tail := Node (SPECIAL_KEY, 0%Z) (addr m_head) nullptr;
                       m_fast_head := Node (SPECIAL_KEY, 0%Z) nullptr (addr m_fast_tail);
                       m_fast_tail := Node (SPECIAL_KEY, 0%Z) (addr m_fast_head) nullptr ]} 5%positive;
    m_flags := {| fast_hash_ready := false; fast_hash_construct := false; tier_no_insert := false;
                  tier_ready := false; curve_flag := false; sample_flag := true |};
    movement_counter := 0; eviction_counter := 0; unreachable_counter := 0;
    m_marker := nullptr; m_stat := stat0 |}.

Definition size : FH Z := gets m_size.
Definition is_full : FH bool := gets (fun c => (m_maxSize c <=? m_size c)%Z).

(** ** [find] *)

(** The lookup in the dynamic cache. *)
Definition find_dynamic (stat_yes : bool) (now : Z) (ac key : Z) : FH (bool * Z) :=
  m ← gets m_map;
  match chm_find m key with
  | None => stat stat_yes fh_miss_incr;; mret (false, ac)
  | Some hashAccessor =>
      let ac := m_value hashAccessor in
      construct ← flag fast_hash_construct;
      curve ← flag curve_flag;
      if negb construct && curve then
        let node := m_listNode hashAccessor in
        last_update ← get_time node;
        marker ← gets m_marker;
        older ← (if ptr_eqb marker nullptr then mret false
                 else t ← get_time marker; mret (last_update <=? t)%Z);
        (if (older : bool) then
          stat stat_yes o_hit_incr;;
          modify (fun c => with_counters (u64 (movement_counter c + 1)) (eviction_counter c) (unreachable_counter c) c);;
          set_time node now;;
          b ← on_list (isInList node);
          whenM b (on_list (fh_delink node);; on_list (pushFront node))
         else stat stat_yes fast_hit_incr);;
        mret (true, ac)
      else
        stat stat_yes o_hit_incr;;
        mret (true, ac)
  end.

Definition find (stat_yes : bool) (now : Z) (ac key : Z) : FH (bool * Z) :=
  tier ← flag tier_ready;
  fast ← flag fast_hash_ready;
  curve ← flag curve_flag;
  assertM (negb (tier || fast) || negb curve);;
  if tier || fast then
    t ← gets m_fasthash;
    let '(hit, ac) := CLHT_find t key ac in
    if hit && negb (ac =? 0)%Z then
      stat stat_yes fast_hit_incr;; mret (true, ac)
    else if (tier : bool) then
      stat stat_yes fh_miss_incr;; mret (false, ac)
    else find_dynamic stat_yes now ac key
  else find_dynamic stat_yes now ac key.

(** ** [evict], [insert], [delete_key] *)

(** [while(moribund->m_key == TOMB_KEY)]: free the tombs at the end. *)
Fixpoint free_tombs (fuel : nat) (moribund : ptr) : FH ptr :=
  match fuel with
  | O => crashes OutOfFuel
  | S fuel =>
      k ← get_key moribund;
      if (k =? TOMB_KEY)%Z then
        on_list (fh_delink moribund);;
        on_list (delete_node moribund);;
        moribund ← on_list (get_prev (addr m_tail));
        free_tombs fuel moribund
      else mret moribund
  end.

Definition evict : FH bool :=
  moribund ← on_list (get_prev (addr m_tail));
  fuel ← gets (fun c => S (base.size (cells (m_list c))));
  moribund ← free_tombs fuel moribund;
  if ptr_eqb moribund (addr m_head) then mret false else
  on_list (fh_delink moribund);;
  key ← get_key moribund;
  m ← gets m_map;
  match chm_find m key with
  | None =>
      modify (fun c => with_counters (movement_counter c) (eviction_counter c) (u64 (unreachable_counter c + 1)) c);;
      mret false
  | Some _ =>
      modify (with_map (chm_erase m key).2);;
      on_list (delete_node moribund);;
      mret true
  end.

Definition insert (stat_yes : bool) (now : Z) (key value : Z) : FH bool :=
  stat stat_yes insert_incr;;
  no_insert ← flag tier_no_insert;
  if (no_insert : bool) then mret false else
  node ← on_list (new_node (key, now) OutOfListMarker nullptr);
  m ← gets m_map;
  let r := chm_insert m key (HMV value node) in
  modify (with_map r.2);;
  if negb r.1 then
    modify (fun c => with_map (chm_assign (m_map c) key (HMV value node)) c);;
    mret false
  else
  construct ← flag fast_hash_construct;
  whenM construct
    (modify (fun c => with_counters (movement_counter c) (u64 (eviction_counter c + 1)) (unreachable_counter c) c));;
  maxSize ← gets m_maxSize;
  s ← gets m_size;
  evictionDone ← (if (maxSize <=? s)%Z then evict else mret false);
  no_insert ← flag tier_no_insert;
  if (no_insert : bool) then
    modify (fun c => with_map (chm_erase (m_map c) key).2 c);;
    on_list (delete_node node);;
    mret false
  else
  curve ← flag curve_flag;
  (if negb curve then on_list (pushFront node)
   else marker ← gets m_marker;
        t ← get_time marker;
        set_time node t;;
        on_list (pushAfter marker node));;
  s ← (if negb evictionDone
       then s ← gets m_size; modify (with_size (u64 (s + 1)));; mret s
       else mret s);
  whenM (maxSize <? s)%Z
    (done ← evict; whenM done (modify (fun c => with_size (u64 (m_size c - 1)) c)));;
  mret true.

Definition delete_key (key : Z) : FH unit :=
  m ← gets m_map;
  match chm_find m key with
  | None => mret tt
  | Some hashAccessor =>
      let node := m_listNode hashAccessor in
      let erase :=
        m ← gets m_map;
        let r := chm_erase m key in
        modify (with_map r.2);;
        whenM r.1 (modify (fun c => with_size (u64 (m_size c - 1)) c)) in
      construct ← flag fast_hash_construct;
      tier ← flag tier_ready;
      fast ← flag fast_hash_ready;
      t ← gets m_fasthash;
      let '(hit, ac) := CLHT_find t key 0 in
      if (construct : bool) then set_key node TOMB_KEY;; erase
      else if (tier || fast) && hit && negb (ac =? 0)%Z then set_key node TOMB_KEY;; erase
      else
        b ← on_list (isInList node);
        if negb b then mret tt else
        on_list (fh_delink node);;
        on_list (delete_node node);;
        erase
  end.

(** ** Construction and deconstruction of the frozen cache *)

(** A node that is dead: step past it, take it out of its list, free it. *)
Definition drop_node (check : bool) (temp_node : ptr) : FH ptr :=
  next ← on_list (get_next temp_node);
  b ← (if check then on_list (isInList temp_node) else mret true);
  whenM b (on_list (fh_delink temp_node));;
  on_list (delete_node temp_node);;
  mret next.

(** [m_fasthash->insert(temp_node->m_key, value); temp_node = temp_node->m_next] *)
Definition freeze_node (temp_node : ptr) (value : Z) : FH ptr :=
  k ← get_key temp_node;
  modify (fun c => with_fasthash (CLHT_insert (m_fasthash c) k value).2 c);;
  on_list (get_next temp_node).

Fixpoint tier_loop (fuel : nat) (temp_node : ptr) : FH unit :=
  match fuel with
  | O => crashes OutOfFuel
  | S fuel =>
      if ptr_eqb temp_node (addr m_fast_tail) then mret tt else
      k ← get_key temp_node;
      if (k =? TOMB_KEY)%Z then next ← drop_node false temp_node; tier_loop fuel next else
      m ← gets m_map;
      match chm_find m k with
      | None => next ← drop_node true temp_node; tier_loop fuel next
      | Some hashAccessor =>
          k ← get_key temp_node;
          if (k =? TOMB_KEY)%Z then next ← drop_node false temp_node; tier_loop fuel next else
          next ← freeze_node temp_node (m_value hashAccessor);
          tier_loop fuel next
      end
  end.

Definition construct_tier : FH bool :=
  modify (with_flags (set_construct true));;
  modify (with_flags (fun f => set_tier true (tier_ready f) f));;
  on_list freeze_all;;
  temp_node ← on_list (get_next (addr m_fast_head));
  fuel ← gets (fun c => S (base.size (cells (m_list c))));
  tier_loop fuel temp_node;;
  modify (with_flags (fun f => set_tier (tier_no_insert f) true f));;
  modify (with_flags (set_construct false));;
  mret true.

(** The loop of [construct_ratio]. *)
Fixpoint ratio_loop (others : Z -> FH unit) (FC_size DC_size : Z) (fuel : nat)
    (count : Z) (first_pass_flag : bool) (temp_node : ptr) : FH unit :=
  match fuel with
  | O => crashes OutOfFuel
  | S fuel =>
      if ptr_eqb temp_node (addr m_fast_tail) then mret tt else
      let count := u64 (count + 1) in
      others count;;
      eviction_count ← gets eviction_counter;
      k ← get_key temp_node;
      m ← gets m_map;
      match chm_find m k with
      | None =>
          next ← drop_node true temp_node;
          ratio_loop others FC_size DC_size fuel count first_pass_flag next
      | Some hashAccessor =>
          temp_node ← freeze_node temp_node (m_value hashAccessor);
          if (u64 (FC_size - FC_RELAXATION) <? count)%Z && first_pass_flag then
            on_list (cut_before temp_node)
          else if (u64 (DC_size - FC_RELAXATION) <? eviction_count)%Z && first_pass_flag then
            on_list cut_to_tail;;
            ratio_loop others FC_size DC_size fuel count false temp_node
          else ratio_loop others FC_size DC_size fuel count first_pass_flag temp_node
      end
  end.

(** [FC_size = FC_ratio * m_maxSize] truncates the product. *)
Definition ratio_size (FC_ratio : Q) (maxSize : Z) : Z := Qfloor (FC_ratio * inject_Z maxSize).

Definition construct_ratio (others : Z -> FH unit) (fuel : nat) (FC_ratio : Q) : FH bool :=
  assertM (Qle_bool FC_ratio 1 && Qle_bool 0 FC_ratio);;
  a ← on_list (get_next (addr m_fast_head));
  assertM (ptr_eqb a (addr m_fast_tail));;
  b ← on_list (get_prev (addr m_fast_tail));
  assertM (ptr_eqb b (addr m_fast_head));;
  modify (fun c => if (0 <? eviction_counter c)%Z
                   then with_counters (movement_counter c) 0 (unreachable_counter c) c else c);;
  first ← on_list (get_next (addr m_head));
  on_list (set_next (addr m_fast_head) first);;
  modify (with_flags (set_construct true));;
  maxSize ← gets m_maxSize;
  let FC_size := ratio_size FC_ratio maxSize in
  let DC_size := u64 (maxSize - FC_size) in
  temp_node ← on_list (get_next (addr m_fast_head));
  ratio_loop others FC_size DC_size fuel 0 true temp_node;;
  modify (with_flags (set_ready true));;
  modify (with_flags (set_construct false));;
  modify (fun c => with_counters (movement_counter c) 0 (unreachable_counter c) c);;
  mret true.

Definition deconstruct : FH unit :=
  a ← on_list (get_next (addr m_fast_head));
  b ← on_list (get_prev (addr m_fast_tail));
  assertM (negb (xorb (ptr_eqb a (addr m_fast_tail)) (ptr_eqb b (addr m_fast_head))));;
  if ptr_eqb a (addr m_fast_tail) then mret tt else
  on_list thaw;;
  modify (with_flags (fun f => if tier_ready f then set_tier false false f else f));;
  modify (with_flags (fun f => if fast_hash_ready f then set_ready false f else f));;
  modify (fun c => with_fasthash (CLHT_clear (m_fasthash c)) c).

(** ** [clear], [snapshotKeys] *)
Definition clear : FH unit :=
  m ← gets m_map;
  modify (with_map (chm_clear m));;
  modify (fun c => with_fasthash (CLHT_clear (m_fasthash c)) c);;
  on_list (free_list m_head m_tail);;
  on_list (free_list m_fast_head m_fast_tail);;
  modify (with_size 0).

Definition snapshotKeys (keys : list Z) : FH (list Z) :=
  node ← on_list (get_next (addr m_head));
  fuel ← gets (fun c => S (base.size (cells (m_list c))));
  xs ← on_list (collect_until (addr m_tail) fuel node);
  mret (keys ++ xs.*1).
End object.

Arguments FIFO_FHCache : clear implicits.

(** ** Runs *)
Definition no_others {M T} : Z -> SM (FIFO_FHCache M T) unit := fun _ => mret tt.

Definition exec {M T A} (maxSize : Z) `{CHM M} `{CLHTlib T} (m : SM (FIFO_FHCache M T) A) : option (res A) :=
  match new_FIFO_FHCache maxSize with
  | None => None
  | Some c => Some (match m c with Ok (a, _) => Ok a | Crash e => Crash e end)
  end.
