(* ===== verification/FHSlots.v ===== *)
(** * Contents of a FrozenHot cache

    What the nodes of the two lists stand for.  A node is a [Live] entry (its
    key is in the hash table with this node) or a [Tomb] (its entry was deleted
    while it was frozen; the node stays in the list until it is cleaned up), or
    the [Mark] of a learning pass.
    [Nodes] relates the heap and the hash table to the slots of the dynamic
    list, of the frozen list and of the nodes out of both; the rules say how
    the transactions of the methods change it. *)

From S2P Require Import Prelude DList ListPrims Interfaces CacheSpec LRUCache FHLinks FastHash FIFOFH.

Inductive slot := Live (k v : Z) | Tomb | Mark.

#[export] Instance slot_eq_dec : EqDecision slot.
Proof. solve_decision. Defined.

Definition live1 (s : slot) : list (Z * Z) := match s with Live k v => [(k, v)] | Tomb | Mark => [] end.
Definition live (sl : list slot) : list (Z * Z) := concat (live1 <$> sl).

Lemma live_app s1 s2 : live (s1 ++ s2) = live s1 ++ live s2.
Proof. unfold live. by rewrite fmap_app, concat_app. Qed.

Lemma live_cons s sl : live (s :: sl) = live1 s ++ live sl.
Proof. done. Qed.

(** Keys 0, 1 and 2 are reserved by the cache; the frozen table has 32-bit keys. *)
Definition user_key (k : Z) : Prop := (3 <= k < 2 ^ 32)%Z.

Lemma user_key32 k : user_key k -> key32 k.
Proof. unfold user_key, key32. lia. Qed.

(** What [evict] does to the dynamic list: tombs at the end go, then the last
    entry.  It must not meet the marker ([evictable]). *)
Fixpoint evict_rev (r : list slot) : bool * list slot :=
  match r with
  | [] => (false, [])
  | Tomb :: r => evict_rev r
  | Mark :: r => (false, Mark :: r)
  | Live _ _ :: r => (true, r)
  end.
Definition evict_slots (sl : list slot) : bool * list slot :=
  let r := evict_rev (rev sl) in (r.1, rev r.2).

Fixpoint unmarked_rev (r : list slot) : bool :=
  match r with
  | Tomb :: r => unmarked_rev r
  | Mark :: _ => false
  | _ => true
  end.
Definition evictable (sl : list slot) : Prop := unmarked_rev (rev sl) = true.

Lemma evictable_tomb sl : evictable (sl ++ [Tomb]) <-> evictable sl.
Proof. unfold evictable. by rewrite rev_app_distr. Qed.

Lemma evictable_mark sl : ~ evictable (sl ++ [Mark]).
Proof. unfold evictable. by rewrite rev_app_distr. Qed.

Lemma evictable_unmarked sl : Mark ∉ sl -> evictable sl.
Proof.
  induction sl as [|[k v| |] sl IH] using rev_ind; intros Hm; [done | | | by destruct Hm; set_solver].
  - unfold evictable. by rewrite rev_app_distr.
  - apply evictable_tomb, IH. set_solver.
Qed.

Lemma evict_slots_nil : evict_slots [] = (false, []).
Proof. done. Qed.
Lemma evict_slots_tomb sl : evict_slots (sl ++ [Tomb]) = evict_slots sl.
Proof. unfold evict_slots. by rewrite rev_app_distr. Qed.
Lemma evict_slots_live sl k v : evict_slots (sl ++ [Live k v]) = (true, sl).
Proof. unfold evict_slots. rewrite rev_app_distr. cbn. by rewrite rev_involutive. Qed.

Lemma evict_slots_sub s sl : s ∈ (evict_slots sl).2 -> s ∈ sl.
Proof.
  induction sl as [|[k v| |] sl IH] using rev_ind; [done | | |].
  - rewrite evict_slots_live. set_solver.
  - rewrite evict_slots_tomb. set_solver.
  - unfold evict_slots. rewrite rev_app_distr. cbn. by rewrite rev_involutive.
Qed.

(** On the entries, [evict] drops the last one. *)
Lemma live_evict sl : evictable sl -> live (evict_slots sl).2 = removelast (live sl) /\
  (evict_slots sl).1 = negb (bool_decide (live sl = [])).
Proof.
  induction sl as [|[k v| |] sl IH] using rev_ind; intros He; [done | | | by apply evictable_mark in He].
  - rewrite evict_slots_live, live_app. cbn. rewrite removelast_last. split; [done|].
    rewrite bool_decide_eq_false_2; [done|]. by destruct (live sl).
  - rewrite evictable_tomb in He. specialize (IH He). rewrite evict_slots_tomb, live_app. cbn. by rewrite app_nil_r.
Qed.

(** Where [construct_ratio] cuts the dynamic list: after the first entry that is
    the [thr + 1]-st slot or a later one ([count] slots are behind); the tombs
    before the cut go. *)
Fixpoint cut_at (thr count : Z) (sl : list slot) : option (list (Z * Z) * list slot) :=
  match sl with
  | [] => None
  | Tomb :: r | Mark :: r => cut_at thr (count + 1) r
  | Live k v :: r =>
      if (thr <? count + 1)%Z then Some ([(k, v)], r)
      else match cut_at thr (count + 1) r with
           | Some (l, r') => Some ((k, v) :: l, r')
           | None => None
           end
  end.

(** Without tombs the first [thr + 1 - count] entries are frozen. *)
Lemma cut_at_entries thr count l :
  (count <= thr)%Z -> (thr - count < Z.of_nat (length l))%Z ->
  cut_at thr count ((fun kv => Live kv.1 kv.2) <$> l) =
    Some (take (Z.to_nat (thr - count + 1)) l, (fun kv => Live kv.1 kv.2) <$> drop (Z.to_nat (thr - count + 1)) l).
Proof.
  revert count. induction l as [|[k v] l IH]; intros count Hc Hl; [cbn in Hl; lia|]. cbn [fmap list_fmap cut_at fst snd].
  replace (Z.to_nat (thr - count + 1)) with (S (Z.to_nat (thr - (count + 1) + 1))) by lia. cbn [take drop].
  destruct (Z.ltb_spec thr (count + 1)).
  - replace (Z.to_nat (thr - (count + 1) + 1)) with 0 by lia. done.
  - cbn [length] in Hl. rewrite IH by lia. done.
Qed.

(** Nothing but the tombs before the cut is lost. *)
Lemma cut_at_live thr count sl l r : cut_at thr count sl = Some (l, r) -> live sl = l ++ live r.
Proof.
  revert count l r. induction sl as [|[k v| |] sl IH]; intros count l r; cbn [cut_at]; [done | | |].
  - rewrite live_cons. cbn [live1 app]. destruct (thr <? count + 1)%Z; [by intros [= <- <-]|].
    destruct (cut_at thr (count + 1) sl) as [[l' r']|] eqn:E; [|done]. intros [= <- <-].
    cbn. f_equal. by eapply IH.
  - rewrite live_cons. apply IH.
  - rewrite live_cons. apply IH.
Qed.

Lemma cut_at_sub thr count sl l r s : cut_at thr count sl = Some (l, r) -> s ∈ r -> s ∈ sl.
Proof.
  revert count l r. induction sl as [|[k v| |] sl IH]; intros count l r; cbn [cut_at]; [done | | |].
  - destruct (thr <? count + 1)%Z; [intros [= <- <-]; by right|].
    destruct (cut_at thr (count + 1) sl) as [[l' r']|] eqn:E; [|done]. intros [= <- <-] Hs. right. by eapply IH.
  - intros Hc Hs. right. by eapply IH.
  - intros Hc Hs. right. by eapply IH.
Qed.

(** A deletion: the slot becomes a tomb, or goes. *)
Definition bury1 (k : Z) (s : slot) : slot :=
  match s with Live j v => if (j =? k)%Z then Tomb else s | Tomb | Mark => s end.
Definition bury (k : Z) (sl : list slot) : list slot := bury1 k <$> sl.
Definition not_key (k : Z) (s : slot) : Prop := match s with Live j _ => j <> k | Tomb | Mark => True end.
#[export] Instance not_key_dec k s : Decision (not_key k s).
Proof. destruct s; unfold not_key; apply _. Defined.
Definition unlink (k : Z) (sl : list slot) : list slot := filter (not_key k) sl.

Lemma live_bury k sl : live (bury k sl) = without k (live sl).
Proof.
  induction sl as [|[j v| |] sl IH]; [done | |exact IH | exact IH]. cbn [bury fmap list_fmap bury1]. rewrite !live_cons.
  cbn [live1 app]. unfold without. destruct (Z.eqb_spec j k) as [->|Hjk].
  - rewrite filter_cons_False by (cbn; naive_solver). exact IH.
  - rewrite filter_cons_True by done. cbn [live1 app]. f_equal. exact IH.
Qed.

Lemma bury_id k sl : k ∉ (live sl).*1 -> bury k sl = sl.
Proof.
  induction sl as [|[j v| |] sl IH]; [done | | |].
  - rewrite live_cons. cbn. intros Hk. rewrite (proj2 (Z.eqb_neq _ _)) by set_solver. f_equal. apply IH. set_solver.
  - cbn. intros Hk. f_equal. by apply IH.
  - cbn. intros Hk. f_equal. by apply IH.
Qed.

Lemma bury_split k v s1 s2 : k ∉ (live s1).*1 -> k ∉ (live s2).*1 -> bury k (s1 ++ Live k v :: s2) = s1 ++ Tomb :: s2.
Proof.
  intros H1 H2. unfold bury. rewrite fmap_app, fmap_cons. cbn [bury1]. rewrite Z.eqb_refl.
  fold (bury k s1) (bury k s2). by rewrite !bury_id.
Qed.

Lemma unlink_id k sl : k ∉ (live sl).*1 -> unlink k sl = sl.
Proof.
  unfold unlink. induction sl as [|[j v| |] sl IH]; [done | | |].
  - rewrite live_cons. cbn [live1 app fmap list_fmap fst]. intros Hk. rewrite filter_cons_True by (cbn; set_solver). f_equal. apply IH. set_solver.
  - intros Hk. rewrite filter_cons_True by done. f_equal. by apply IH.
  - intros Hk. rewrite filter_cons_True by done. f_equal. by apply IH.
Qed.

Lemma unlink_split k v s1 s2 : k ∉ (live s1).*1 -> k ∉ (live s2).*1 -> unlink k (s1 ++ Live k v :: s2) = s1 ++ s2.
Proof.
  intros H1 H2. unfold unlink. rewrite filter_app, filter_cons_False by (cbn; naive_solver).
  fold (unlink k s1) (unlink k s2). by rewrite !unlink_id.
Qed.

Lemma live_unlink k sl : live (unlink k sl) = without k (live sl).
Proof.
  unfold unlink, without. induction sl as [|[j v| |] sl IH]; [done | | |].
  - rewrite live_cons. cbn [live1 app]. destruct (decide (j = k)) as [->|Hjk].
    + rewrite !filter_cons_False by (cbn; naive_solver). exact IH.
    + rewrite !filter_cons_True by done. rewrite live_cons. cbn [live1 app]. f_equal. exact IH.
  - rewrite filter_cons_True by done. rewrite !live_cons. exact IH.
  - rewrite filter_cons_True by done. rewrite !live_cons. exact IH.
Qed.

Lemma mark_bury k sl : Mark ∈ bury k sl -> Mark ∈ sl.
Proof. intros (s & Hs & Hin)%list_elem_of_fmap. destruct s; cbn in Hs; [by case_match | done..]. Qed.

Lemma mark_unlink k sl : Mark ∈ unlink k sl -> Mark ∈ sl.
Proof. unfold unlink. rewrite list_elem_of_filter. tauto. Qed.

Section nodes.
Context {M : Type -> Type} `{CHMLaws M}.
Implicit Types (h : arena (Z * Z)) (m : M (HashMapValue Z)) (ns fs ps : list positive) (dc fc pl sl : list slot).

Definition slot_ok (c : gmap positive (node (Z * Z))) m (n : positive) (s : slot) : Prop :=
  match s with
  | Live k v => (exists t, pay c n = Some (k, t)) /\ chm_find m k = Some (HMV v (addr n)) /\ user_key k
  | Tomb => exists t, pay c n = Some (TOMB_KEY, t)
  | Mark => exists t, pay c n = Some (MARKER_KEY, t)
  end.

(** The sentinel [m_head] carries the reserved key, which stops [evict]. *)
Definition special (c : gmap positive (node (Z * Z))) (n : positive) : Prop :=
  exists t, pay c n = Some (SPECIAL_KEY, t).

Record Nodes h m ns fs ps dc fc pl : Prop := {
  nd_links : Links h ns fs ps;
  nd_dc : Forall2 (slot_ok (cells h) m) ns dc;
  nd_fc : Forall2 (slot_ok (cells h) m) fs fc;
  nd_out : Forall2 (slot_ok (cells h) m) ps pl;
  nd_map : forall k, is_Some (chm_find m k) -> k ∈ (live (dc ++ fc ++ pl)).*1;
  nd_head : special (cells h) m_head
}.

Lemma slots_ext c c' m m' ns sl :
  (forall n, n ∈ ns -> pay c' n = pay c n) ->
  (forall k, k ∈ (live sl).*1 -> chm_find m' k = chm_find m k) ->
  Forall2 (slot_ok c m) ns sl -> Forall2 (slot_ok c' m') ns sl.
Proof.
  intros Hc Hm HF. induction HF as [|n s ns sl Hs HF IH]; [done|]. rewrite live_cons in Hm.
  constructor; [|apply IH; set_solver].
  destruct s as [k v| |]; cbn in *; [destruct Hs as (Ht & Hf & Hk); split_and!; [|rewrite Hm; [done | left] | done] | |];
    by rewrite Hc by left.
Qed.

(** The slot of a live key, by its position. *)
Lemma slots_lookup c m ns sl k v :
  Forall2 (slot_ok c m) ns sl -> (k, v) ∈ live sl ->
  exists ns1 n ns2 s1 s2, ns = ns1 ++ n :: ns2 /\ sl = s1 ++ Live k v :: s2 /\ length ns1 = length s1 /\
    chm_find m k = Some (HMV v (addr n)).
Proof.
  induction 1 as [|n s ns sl Hs HF IH]; [by intros ?%elem_of_nil|]. rewrite live_cons. intros [Hin|Hin]%elem_of_app.
  - destruct s as [k' v'| |]; cbn in Hin; [|by apply elem_of_nil in Hin..].
    apply list_elem_of_singleton in Hin. injection Hin as -> ->. destruct Hs as (_ & Hf & _).
    exists [], n, ns, [], sl. done.
  - destruct (IH Hin) as (ns1 & n' & ns2 & s1 & s2 & -> & -> & Hlen & Hf).
    exists (n :: ns1), n', ns2, (s :: s1), s2. cbn. naive_solver.
Qed.

(** One node per key. *)
Lemma slots_nodup c m ns sl : NoDup ns -> Forall2 (slot_ok c m) ns sl -> NoDup (live sl).*1.
Proof.
  intros HN HF. induction HF as [|n s ns sl Hs HF IH]; [constructor|].
  apply NoDup_cons in HN as [Hn HN]. rewrite live_cons, fmap_app.
  destruct s as [k v| |]; cbn; [|by apply IH..]. apply NoDup_cons. split; [|by apply IH].
  intros ([j w] & -> & Hw)%list_elem_of_fmap. destruct Hs as (_ & Hf & _). cbn in *.
  destruct (slots_lookup _ _ _ _ _ _ HF Hw) as (ns1 & n' & ns2 & ? & ? & -> & _ & _ & Hf').
  rewrite Hf in Hf'. simplify_eq. apply Hn. set_solver.
Qed.

Lemma nodes_all h m ns fs ps dc fc pl : Nodes h m ns fs ps dc fc pl ->
  Forall2 (slot_ok (cells h) m) (ns ++ fs ++ ps) (dc ++ fc ++ pl) /\ NoDup (ns ++ fs ++ ps).
Proof.
  intros Nd. split; [repeat apply Forall2_app; apply Nd|].
  assert (HN := lk_nodup _ _ _ _ (nd_links _ _ _ _ _ _ _ _ Nd)). by apply NoDup_app in HN as (_ & _ & ?).
Qed.

Lemma nodes_keys h m ns fs ps dc fc pl : Nodes h m ns fs ps dc fc pl -> NoDup (live (dc ++ fc ++ pl)).*1.
Proof. intros Nd. destruct (nodes_all _ _ _ _ _ _ _ _ Nd) as [HF HN]. by eapply slots_nodup. Qed.

(** The hash table is the map of the live entries. *)
Lemma nodes_find h m ns fs ps dc fc pl k :
  Nodes h m ns fs ps dc fc pl ->
  match assoc k (live (dc ++ fc ++ pl)) with
  | Some v => exists n, n ∈ ns ++ fs ++ ps /\ chm_find m k = Some (HMV v (addr n)) /\ user_key k
  | None => chm_find m k = None
  end.
Proof.
  intros Nd. destruct (nodes_all _ _ _ _ _ _ _ _ Nd) as [HF HN]. assert (Hks := nodes_keys _ _ _ _ _ _ _ _ Nd).
  destruct (assoc k _) as [v|] eqn:E.
  - apply assoc_Some in E; [|done].
    destruct (slots_lookup _ _ _ _ _ _ HF E) as (ns1 & n & ns2 & s1 & s2 & Hns & Hsl & Hlen & Hf).
    exists n. rewrite Hns in *. rewrite Hsl in HF. apply Forall2_app_inv in HF as [_ HF]; [|done].
    apply Forall2_cons in HF as [(_ & _ & Hk) _]. set_solver.
  - apply assoc_None in E. destruct (chm_find m k) eqn:Ef; [|done]. exfalso.
    apply E, (nd_map _ _ _ _ _ _ _ _ Nd). eauto.
Qed.

(** Transactions on links only. *)
Lemma nodes_relink h h' m ns fs ps dc fc pl ns' fs' ps' dc' fc' pl' :
  Nodes h m ns fs ps dc fc pl -> Links h' ns' fs' ps' -> same_pay h h' ->
  Forall2 (slot_ok (cells h) m) ns' dc' -> Forall2 (slot_ok (cells h) m) fs' fc' ->
  Forall2 (slot_ok (cells h) m) ps' pl' -> (forall x, x ∈ live (dc ++ fc ++ pl) -> x ∈ live (dc' ++ fc' ++ pl')) ->
  Nodes h' m ns' fs' ps' dc' fc' pl'.
Proof.
  intros Nd Lk Hp H1 H2 H3 Hlive. split; [done| | | | |].
  - eapply slots_ext; [| |exact H1]; [intros; apply Hp | done].
  - eapply slots_ext; [| |exact H2]; [intros; apply Hp | done].
  - eapply slots_ext; [| |exact H3]; [intros; apply Hp | done].
  - intros k Hk. apply (nd_map _ _ _ _ _ _ _ _ Nd) in Hk.
    apply list_elem_of_fmap in Hk as (x & -> & Hx). apply list_elem_of_fmap. eauto.
  - destruct (nd_head _ _ _ _ _ _ _ _ Nd) as [t Ht]. exists t. by rewrite Hp.
Qed.

Lemma links_out_head {P} (h : arena P) ns fs n ps : Links h ns fs (n :: ps) -> n <> m_head.
Proof. intros Lk ->. eapply (links_marks_apart _ _ _ _ m_head Lk); left. Qed.

Lemma links_in_head {P} (h : arena P) ns fs ps n : Links h ns fs ps -> n ∈ ns ++ fs -> n <> m_head.
Proof. intros Lk Hn. by apply (links_apart _ _ _ _ n Lk Hn). Qed.

Ltac live_perm := intros ?x; rewrite ?live_app, ?live_cons, ?live_app; set_solver.

Lemma wp_nodes_delink_main h m ns1 n ns2 fs ps d1 s d2 fc pl Q :
  length ns1 = length d1 -> Nodes h m (ns1 ++ n :: ns2) fs ps (d1 ++ s :: d2) fc pl ->
  (forall h', Nodes h' m (ns1 ++ ns2) fs (n :: ps) (d1 ++ d2) fc (s :: pl) -> same_pay h h' -> Q tt h') ->
  wp (fh_delink (addr n)) h Q.
Proof.
  intros Hlen Nd HQ. eapply wp_delink_main; [apply Nd|]. intros h' Lk Hp. apply HQ; [|done].
  assert (HF := nd_dc _ _ _ _ _ _ _ _ Nd). apply Forall2_app_inv in HF as [HF1 HF2]; [|done].
  apply Forall2_cons in HF2 as [Hs HF2].
  eapply nodes_relink; [exact Nd | done | done | by apply Forall2_app | apply Nd | constructor; [done | apply Nd] | live_perm].
Qed.

Lemma wp_nodes_delink_fast h m ns fs1 n fs2 ps dc f1 s f2 pl Q :
  length fs1 = length f1 -> Nodes h m ns (fs1 ++ n :: fs2) ps dc (f1 ++ s :: f2) pl ->
  (forall h', Nodes h' m ns (fs1 ++ fs2) (n :: ps) dc (f1 ++ f2) (s :: pl) -> Q tt h') ->
  wp (fh_delink (addr n)) h Q.
Proof.
  intros Hlen Nd HQ. eapply wp_delink_fast; [apply Nd|]. intros h' Lk Hp. apply HQ.
  assert (HF := nd_fc _ _ _ _ _ _ _ _ Nd). apply Forall2_app_inv in HF as [HF1 HF2]; [|done].
  apply Forall2_cons in HF2 as [Hs HF2].
  eapply nodes_relink; [exact Nd | done | done | apply Nd | by apply Forall2_app | constructor; [done | apply Nd] | live_perm].
Qed.

Lemma wp_nodes_pushFront h m ns fs n ps dc fc s pl Q :
  Nodes h m ns fs (n :: ps) dc fc (s :: pl) ->
  (forall h', Nodes h' m (n :: ns) fs ps (s :: dc) fc pl -> same_pay h h' -> Q tt h') ->
  wp (pushFront (addr n)) h Q.
Proof.
  intros Nd HQ. eapply wp_pushFront_links; [apply Nd|]. intros h' Lk Hp. apply HQ; [|done].
  assert (HF := nd_out _ _ _ _ _ _ _ _ Nd). apply Forall2_cons in HF as [Hs HF].
  eapply nodes_relink; [exact Nd | done | done | constructor; [done | apply Nd] | apply Nd | done | live_perm].
Qed.

Lemma wp_nodes_freeze_all h m ns ps dc pl Q :
  Nodes h m ns [] ps dc [] pl ->
  (forall h', Nodes h' m [] ns ps [] dc pl -> Q tt h') -> wp freeze_all h Q.
Proof.
  intros Nd HQ. eapply wp_freeze_all; [apply Nd|]. intros h' Lk Hp. apply HQ.
  eapply nodes_relink; [exact Nd | done | done | by apply Forall2_nil | apply Nd | apply Nd | done].
Qed.

Lemma wp_nodes_thaw h m ns fs ps dc fc pl Q :
  fs <> [] -> Nodes h m ns fs ps dc fc pl ->
  (forall h', Nodes h' m (fs ++ ns) [] ps (fc ++ dc) [] pl -> Q tt h') -> wp thaw h Q.
Proof.
  intros Hne Nd HQ. destruct fs as [|f L]; [done|]. eapply wp_thaw; [apply Nd|]. intros h' Lk Hp. apply HQ.
  eapply nodes_relink; [exact Nd | done | done | apply Forall2_app; apply Nd | by apply Forall2_nil | apply Nd | live_perm].
Qed.

(** Freeing a node. *)
Lemma nodes_free_dead h m ns fs n ps dc fc s pl :
  live1 s = [] -> Nodes h m ns fs (n :: ps) dc fc (s :: pl) -> Nodes (on_cells (delete n) h) m ns fs ps dc fc pl.
Proof.
  intros Hs Nd. destruct (nodes_all _ _ _ _ _ _ _ _ Nd) as [_ HN]. destruct Nd as [Lk H1 H2 H3 Hm [th Hth]].
  apply Forall2_cons in H3 as [_ H3].
  assert (Hext : forall ns' sl', n ∉ ns' -> Forall2 (slot_ok (cells h) m) ns' sl' ->
     Forall2 (slot_ok (delete n (cells h)) m) ns' sl').
  { intros ns' sl' Hn. apply slots_ext; [|done]. intros x Hx. unfold pay. rewrite lookup_delete_ne; [done|]. by intros ->. }
  assert (n ∉ ns /\ n ∉ fs /\ n ∉ ps) as (? & ? & ?) by (rewrite !NoDup_app, NoDup_cons in HN; clear -HN; set_solver).
  split; [by apply links_free | by apply Hext.. | |].
  - intros k Hk. specialize (Hm k Hk). revert Hm. by rewrite !live_app, live_cons, Hs.
  - exists th. cbn. unfold pay. rewrite lookup_delete_ne; [done|]. by eapply links_out_head.
Qed.

Lemma nodes_free_tomb h m ns fs n ps dc fc pl :
  Nodes h m ns fs (n :: ps) dc fc (Tomb :: pl) -> Nodes (on_cells (delete n) h) m ns fs ps dc fc pl.
Proof. by apply nodes_free_dead. Qed.

(** The node of a marker is allocated. *)
Lemma nodes_alloc_mark h m ns fs ps dc fc pl t :
  Nodes h m ns fs ps dc fc pl ->
  Nodes (Arena (<[brk h := Node (MARKER_KEY, t) OutOfListMarker nullptr]> (cells h)) (Pos.succ (brk h)))
        m ns fs (brk h :: ps) dc fc (Mark :: pl).
Proof.
  intros [Lk H1 H2 H3 Hm [th Hth]].
  assert (Hn : forall x, x ∈ sentinels ++ ns ++ fs ++ ps -> x <> brk h).
  { intros x Hx ->. assert (Hd : brk h ∈ dom (cells h)) by (apply elem_of_dom; by eapply links_alloc).
    apply (lk_brk _ _ _ _ Lk) in Hd. lia. }
  assert (Hext : forall ns' sl', (forall x, x ∈ ns' -> x ∈ ns ++ fs ++ ps) -> Forall2 (slot_ok (cells h) m) ns' sl' ->
     Forall2 (slot_ok (<[brk h := Node (MARKER_KEY, t) OutOfListMarker nullptr]> (cells h)) m) ns' sl').
  { intros ns' sl' Hs. apply slots_ext; [|done]. intros x Hx. unfold pay. rewrite lookup_insert_ne; [done|].
    intros <-. apply (Hn (brk h)); [|done]. apply elem_of_app. right. by apply Hs. }
  split; cbn [cells brk].
  - by apply links_new.
  - apply Hext; [clear; set_solver | done].
  - apply Hext; [clear; set_solver | done].
  - constructor; [|apply Hext; [clear; set_solver | done]]. exists t. unfold pay. by rewrite lookup_insert_eq.
  - intros k Hk. specialize (Hm k Hk). revert Hm. by rewrite !live_app, live_cons.
  - exists th. unfold pay. rewrite lookup_insert_ne; [done|]. intros He. apply (Hn m_head); [left | done].
Qed.

Lemma nodes_erase h m ns fs n ps dc fc k v pl :
  Nodes h m ns fs (n :: ps) dc fc (Live k v :: pl) ->
  Nodes (on_cells (delete n) h) (chm_erase m k).2 ns fs ps dc fc pl.
Proof.
  intros Nd. destruct (nodes_all _ _ _ _ _ _ _ _ Nd) as [_ HN]. assert (Hks := nodes_keys _ _ _ _ _ _ _ _ Nd).
  destruct Nd as [Lk H1 H2 H3 Hm [th Hth]]. apply Forall2_cons in H3 as [_ H3].
  assert (n ∉ ns /\ n ∉ fs /\ n ∉ ps) as (? & ? & ?) by (rewrite !NoDup_app, NoDup_cons in HN; clear -HN; set_solver).
  assert (k ∉ (live dc).*1 /\ k ∉ (live fc).*1 /\ k ∉ (live pl).*1) as (? & ? & ?).
  { rewrite !live_app, live_cons in Hks. cbn in Hks.
    rewrite !fmap_app, fmap_cons, !NoDup_app, NoDup_cons in Hks. clear -Hks. set_solver. }
  assert (Hext : forall ns' sl', n ∉ ns' -> k ∉ (live sl').*1 -> Forall2 (slot_ok (cells h) m) ns' sl' ->
     Forall2 (slot_ok (delete n (cells h)) (chm_erase m k).2) ns' sl').
  { intros ns' sl' Hn Hk. apply slots_ext.
    - intros x Hx. unfold pay. rewrite lookup_delete_ne; [done|]. by intros ->.
    - intros j Hj. rewrite chm_find_erase, decide_False; [done|]. by intros ->. }
  split; [by apply links_free | by apply Hext.. | |
    exists th; cbn; unfold pay; rewrite lookup_delete_ne; [done | by eapply links_out_head]].
  intros j [w Hw]. rewrite chm_find_erase in Hw. case_decide as Hjk; [done|].
  assert (Hj := Hm j (ex_intro _ w Hw)). revert Hj. rewrite !live_app, live_cons. cbn.
  rewrite !fmap_app, fmap_cons. cbn. clear -Hjk. set_solver.
Qed.

(** A node for a new key, entered in the hash table. *)
Lemma nodes_alloc h m ns fs ps dc fc pl k v t :
  Nodes h m ns fs ps dc fc pl -> chm_find m k = None -> user_key k ->
  Nodes (Arena (<[brk h := Node (k, t) OutOfListMarker nullptr]> (cells h)) (Pos.succ (brk h)))
        (chm_insert m k (HMV v (addr (brk h)))).2 ns fs (brk h :: ps) dc fc (Live k v :: pl).
Proof.
  intros Nd Hk Hu. destruct (nodes_all _ _ _ _ _ _ _ _ Nd) as [HFall HN]. destruct Nd as [Lk H1 H2 H3 Hm [th Hth]].
  assert (Hn : forall x, x ∈ ns ++ fs ++ ps -> x <> brk h).
  { intros x Hx ->. assert (Hd : brk h ∈ dom (cells h)).
    - apply elem_of_dom. eapply links_alloc; [exact Lk|]. apply elem_of_app. by right.
    - apply (lk_brk _ _ _ _ Lk) in Hd. lia. }
  assert (Hks : k ∉ (live (dc ++ fc ++ pl)).*1).
  { intros ([j w] & -> & Hw)%list_elem_of_fmap.
    destruct (slots_lookup _ _ _ _ _ _ HFall Hw) as (? & ? & ? & ? & ? & _ & _ & _ & Hf). cbn in *. congruence. }
  rewrite !live_app, !fmap_app in Hks.
  assert (Hext : forall ns' sl', (forall x, x ∈ ns' -> x <> brk h) -> k ∉ (live sl').*1 ->
     Forall2 (slot_ok (cells h) m) ns' sl' ->
     Forall2 (slot_ok (<[brk h := Node (k, t) OutOfListMarker nullptr]> (cells h))
                      (chm_insert m k (HMV v (addr (brk h)))).2) ns' sl').
  { intros ns' sl' Hn' Hk'. apply slots_ext.
    - intros x Hx. unfold pay. rewrite lookup_insert_ne; [done|]. intros <-. by apply (Hn' (brk h)).
    - intros j Hj. rewrite chm_find_insert, decide_False; [done| |done]. by intros ->. }
  split; cbn [cells brk].
  - by apply links_new.
  - apply Hext; [intros x Hx; apply Hn; set_solver | clear -Hks; set_solver | done].
  - apply Hext; [intros x Hx; apply Hn; set_solver | clear -Hks; set_solver | done].
  - constructor; [|apply Hext; [intros x Hx; apply Hn; set_solver | clear -Hks; set_solver | done]].
    cbn. split_and!; [exists t; unfold pay; by rewrite lookup_insert_eq | by rewrite chm_find_insert, decide_True | done].
  - intros j [w Hw]. rewrite chm_find_insert in Hw by done. rewrite !live_app, live_cons, !fmap_app. cbn.
    case_decide as Hj; [subst; clear; set_solver|].
    assert (Hj' := Hm j (ex_intro _ w Hw)). rewrite !live_app, !fmap_app in Hj'. clear -Hj'. set_solver.
  - exists th. unfold pay. rewrite lookup_insert_ne; [done|].
    assert (Hd : m_head ∈ dom (cells h)) by (rewrite (lk_dom _ _ _ _ Lk); clear; set_solver).
    apply (lk_brk _ _ _ _ Lk) in Hd. intros He. rewrite He in Hd. lia.
Qed.

(** Deletion of a frozen entry: the node becomes a tomb, the key leaves the
    hash table. *)
Lemma slots_bury c m ns1 n ns2 s1 k v s2 t :
  length ns1 = length s1 -> NoDup (ns1 ++ n :: ns2) -> is_Some (c !! n) ->
  Forall2 (slot_ok c m) (ns1 ++ n :: ns2) (s1 ++ Live k v :: s2) ->
  Forall2 (slot_ok (alter (with_payload (TOMB_KEY, t)) n c) (chm_erase m k).2) (ns1 ++ n :: ns2) (s1 ++ Tomb :: s2).
Proof.
  intros Hlen HN Hn HF. assert (Hks := slots_nodup _ _ _ _ HN HF).
  apply Forall2_app_inv in HF as [H1 H2]; [|done]. apply Forall2_cons in H2 as [_ H2].
  rewrite live_app, live_cons in Hks. cbn in Hks. rewrite fmap_app, fmap_cons, NoDup_app, NoDup_cons in Hks.
  rewrite NoDup_app, NoDup_cons in HN.
  assert (Hext : forall ns' sl', n ∉ ns' -> k ∉ (live sl').*1 -> Forall2 (slot_ok c m) ns' sl' ->
     Forall2 (slot_ok (alter (with_payload (TOMB_KEY, t)) n c) (chm_erase m k).2) ns' sl').
  { intros ns' sl' Hn' Hk'. apply slots_ext.
    - intros x Hx. rewrite pay_alter, decide_False; [done|]. by intros ->.
    - intros j Hj. rewrite chm_find_erase, decide_False; [done|]. by intros ->. }
  apply Forall2_app; [apply Hext; [clear -HN; set_solver | clear -Hks; set_solver | done]|].
  constructor; [|apply Hext; [clear -HN; set_solver | clear -Hks; set_solver | done]].
  exists t. rewrite pay_alter, decide_True by done. by destruct Hn as [? ->].
Qed.

Lemma nodes_bury_fast h m ns fs1 n fs2 ps dc f1 k v f2 pl t :
  length fs1 = length f1 -> Nodes h m ns (fs1 ++ n :: fs2) ps dc (f1 ++ Live k v :: f2) pl ->
  Nodes (on_cells (alter (with_payload (TOMB_KEY, t)) n) h) (chm_erase m k).2
        ns (fs1 ++ n :: fs2) ps dc (f1 ++ Tomb :: f2) pl.
Proof.
  intros Hlen Nd. destruct (nodes_all _ _ _ _ _ _ _ _ Nd) as [_ HN]. assert (Hks := nodes_keys _ _ _ _ _ _ _ _ Nd).
  assert (Hn : is_Some (cells h !! n)) by (eapply links_alloc; [apply Nd | clear; set_solver]).
  destruct Nd as [Lk H1 H2 H3 Hm [th Hth]].
  assert (n ∉ ns /\ n ∉ ps /\ NoDup (fs1 ++ n :: fs2)) as (? & ? & ?).
  { rewrite !NoDup_app, NoDup_cons in HN. rewrite NoDup_app, NoDup_cons. clear -HN. set_solver. }
  rewrite !live_app, live_cons, !fmap_app in Hks. cbn in Hks. rewrite !NoDup_app, NoDup_cons in Hks.
  assert (Hext : forall ns' sl', n ∉ ns' -> k ∉ (live sl').*1 -> Forall2 (slot_ok (cells h) m) ns' sl' ->
     Forall2 (slot_ok (alter (with_payload (TOMB_KEY, t)) n (cells h)) (chm_erase m k).2) ns' sl').
  { intros ns' sl' Hn' Hk'. apply slots_ext.
    - intros x Hx. rewrite pay_alter, decide_False; [done|]. by intros ->.
    - intros j Hj. rewrite chm_find_erase, decide_False; [done|]. by intros ->. }
  split; cbn [on_cells cells].
  - by apply links_set_payload.
  - apply Hext; [done | clear -Hks; set_solver | done].
  - by eapply slots_bury.
  - apply Hext; [done | clear -Hks; set_solver | done].
  - intros j [w Hw]. rewrite chm_find_erase in Hw. case_decide as Hjk; [done|].
    assert (Hj := Hm j (ex_intro _ w Hw)). revert Hj. rewrite !live_app, !live_cons, !fmap_app. cbn. clear -Hjk. set_solver.
  - exists th. rewrite pay_alter, decide_False; [done|]. eapply links_in_head; [exact Lk|]. clear. set_solver.
Qed.

Lemma nodes_bury_main h m ns1 n ns2 fs ps d1 k v d2 fc pl t :
  length ns1 = length d1 -> Nodes h m (ns1 ++ n :: ns2) fs ps (d1 ++ Live k v :: d2) fc pl ->
  Nodes (on_cells (alter (with_payload (TOMB_KEY, t)) n) h) (chm_erase m k).2
        (ns1 ++ n :: ns2) fs ps (d1 ++ Tomb :: d2) fc pl.
Proof.
  intros Hlen Nd. destruct (nodes_all _ _ _ _ _ _ _ _ Nd) as [_ HN]. assert (Hks := nodes_keys _ _ _ _ _ _ _ _ Nd).
  assert (Hn : is_Some (cells h !! n)) by (eapply links_alloc; [apply Nd | clear; set_solver]).
  destruct Nd as [Lk H1 H2 H3 Hm [th Hth]].
  assert (n ∉ fs /\ n ∉ ps /\ NoDup (ns1 ++ n :: ns2)) as (? & ? & ?).
  { rewrite !NoDup_app, NoDup_cons in HN. rewrite NoDup_app, NoDup_cons. clear -HN. set_solver. }
  rewrite !live_app, live_cons, !fmap_app in Hks. cbn in Hks. rewrite !NoDup_app, NoDup_cons in Hks.
  assert (Hext : forall ns' sl', n ∉ ns' -> k ∉ (live sl').*1 -> Forall2 (slot_ok (cells h) m) ns' sl' ->
     Forall2 (slot_ok (alter (with_payload (TOMB_KEY, t)) n (cells h)) (chm_erase m k).2) ns' sl').
  { intros ns' sl' Hn' Hk'. apply slots_ext.
    - intros x Hx. rewrite pay_alter, decide_False; [done|]. by intros ->.
    - intros j Hj. rewrite chm_find_erase, decide_False; [done|]. by intros ->. }
  split; cbn [on_cells cells].
  - by apply links_set_payload.
  - by eapply slots_bury.
  - apply Hext; [done | clear -Hks; set_solver | done].
  - apply Hext; [done | clear -Hks; set_solver | done].
  - intros j [w Hw]. rewrite chm_find_erase in Hw. case_decide as Hjk; [done|].
    assert (Hj := Hm j (ex_intro _ w Hw)). revert Hj. rewrite !live_app, !live_cons, !fmap_app. cbn. clear -Hjk. set_solver.
  - exists th. rewrite pay_alter, decide_False; [done|]. eapply links_in_head; [exact Lk|]. clear. set_solver.
Qed.

(** In whichever list the key is, its node becomes a tomb. *)
Lemma nodes_bury h m ns fs dc fc k v n t :
  Nodes h m ns fs [] dc fc [] -> assoc k (live (dc ++ fc)) = Some v -> chm_find m k = Some (HMV v (addr n)) ->
  Nodes (on_cells (alter (with_payload (TOMB_KEY, t)) n) h) (chm_erase m k).2 ns fs [] (bury k dc) (bury k fc) [] /\
  exists t', pay (cells h) n = Some (k, t').
Proof.
  intros Nd Ha Hf. assert (Hks := nodes_keys _ _ _ _ _ _ _ _ Nd). rewrite app_nil_r in Hks.
  apply assoc_Some in Ha; [|done]. rewrite live_app in Ha, Hks. rewrite fmap_app, NoDup_app in Hks.
  destruct Hks as (Hk1 & Hk2 & Hk3). apply elem_of_app in Ha as [Ha|Ha].
  - destruct (slots_lookup _ _ _ _ _ _ (nd_dc _ _ _ _ _ _ _ _ Nd) Ha) as (ns1 & n' & ns2 & s1 & s2 & -> & -> & Hlen & Hf').
    rewrite Hf in Hf'. injection Hf' as <-. rewrite live_app, live_cons, fmap_app in Hk1, Hk2. cbn in Hk1, Hk2.
    rewrite NoDup_app, NoDup_cons in Hk1. rewrite bury_split, (bury_id k fc); [|clear -Hk2; set_solver | clear -Hk1; set_solver..].
    split; [by eapply nodes_bury_main|]. assert (HF := nd_dc _ _ _ _ _ _ _ _ Nd).
    apply Forall2_app_inv in HF as [_ HF]; [|done]. by apply Forall2_cons in HF as [(? & _) _].
  - destruct (slots_lookup _ _ _ _ _ _ (nd_fc _ _ _ _ _ _ _ _ Nd) Ha) as (ns1 & n' & ns2 & s1 & s2 & -> & -> & Hlen & Hf').
    rewrite Hf in Hf'. injection Hf' as <-. rewrite live_app, live_cons, fmap_app in Hk2, Hk3. cbn in Hk2, Hk3.
    rewrite NoDup_app, NoDup_cons in Hk3. rewrite bury_split, (bury_id k dc); [|clear -Hk2; set_solver | clear -Hk3; set_solver..].
    split; [by eapply nodes_bury_fast|]. assert (HF := nd_fc _ _ _ _ _ _ _ _ Nd).
    apply Forall2_app_inv in HF as [_ HF]; [|done]. by apply Forall2_cons in HF as [(? & _) _].
Qed.

(** While the frozen part is being cut off. *)
Record MidNodes h m (f : positive) ns dc : Prop := {
  mn_mid : Mid h f ns [];
  mn_dc : Forall2 (slot_ok (cells h) m) ns dc;
  mn_map : forall k, is_Some (chm_find m k) -> k ∈ (live dc).*1;
  mn_head : special (cells h) m_head
}.

Lemma live_user c m ns sl k : Forall2 (slot_ok c m) ns sl -> k ∈ (live sl).*1 -> user_key k.
Proof.
  intros HF ([j w] & -> & Hw)%list_elem_of_fmap.
  destruct (slots_lookup _ _ _ _ _ _ HF Hw) as (ns1 & n & ns2 & s1 & s2 & -> & -> & Hlen & _).
  apply Forall2_app_inv in HF as [_ HF]; [|done]. by apply Forall2_cons in HF as [(_ & _ & ?) _].
Qed.
End nodes.

#[global] Arguments live : simpl never.
#[global] Arguments evict_slots : simpl never.
