(* ===== verification/FIFOFHSpec.v ===== *)
(** * Correctness of the FrozenHot FIFO cache

    [Rep c dc fc F]: the cache [c] holds the slots [dc] in its dynamic list and
    [fc] in its frozen list, and its frozen table holds the entries [F].  Every
    method is proved to preserve [Rep] with the specified change, without a
    crash. *)

From S2P Require Import Prelude DList ListPrims Interfaces CacheSpec LRUCache FHCache FHLinks FastHash FIFOFH FHSlots.
From Stdlib Require Import QArith Qround.
Local Close Scope Q_scope.

Section refinement.
Context {M : Type -> Type} `{CHMLaws M} {T : Type} `{CLHTLaws T}.
Implicit Types (c : FIFO_FHCache M T) (dc fc : list slot) (F : gmap Z Z).

Definition frozen_on c : bool := tier_ready (m_flags c) || fast_hash_ready (m_flags c).

Record Rep c dc fc F : Prop := {
  rp_nodes : exists ns fs, Nodes (m_list c) (m_map c) ns fs [] dc fc [];
  rp_size : m_size c = Z.of_nat (length (live (dc ++ fc)));
  rp_vals : forall k v, (k, v) ∈ live (dc ++ fc) -> v <> 0%Z;
  rp_hash : frozen (m_fasthash c) F;
  rp_fc : forall k v, (k, v) ∈ live fc -> F !! k = Some v;
  rp_idle : fast_hash_construct (m_flags c) = false /\ curve_flag (m_flags c) = false;
  rp_tier : tier_no_insert (m_flags c) = tier_ready (m_flags c) /\ (tier_ready (m_flags c) = true -> dc = []);
  rp_off : frozen_on c = false -> F = ∅ /\ fc = [];
  rp_max : (0 < m_maxSize c < 2 ^ 64)%Z;
  rp_le : (m_size c <= m_maxSize c)%Z;
  rp_ev : eviction_counter c = 0%Z;
  rp_unmarked : Mark ∉ dc ++ fc
}.

(** What no method on the contents changes. *)
Definition same_mode c' c : Prop := m_maxSize c' = m_maxSize c /\ m_flags c' = m_flags c /\ m_fasthash c' = m_fasthash c /\
  eviction_counter c' = eviction_counter c.

Lemma fh_wp_on_list {A} (m : SM (arena (Z * Z)) A) c Q :
  wp m (m_list c) (fun a h => Q a (with_list h c)) -> wp (on_list m) c Q.
Proof. apply wp_zoom. Qed.

Lemma wp_get_key c n k t Q :
  pay (cells (m_list c)) n = Some (k, t) -> Q k c -> wp (get_key (addr n)) c Q.
Proof.
  intros Hp HQ. unfold get_key. wp_step. apply fh_wp_on_list. eapply wp_get_payload; [exact Hp|].
  apply wp_ret. by destruct c.
Qed.

Lemma with_list_id c : with_list (m_list c) c = c.
Proof. by destruct c. Qed.

(** The last node of the dynamic list. *)
Lemma links_last {P} (h : arena P) ns fs ps :
  Links h ns fs ps -> prv (cells h) m_tail = Some (addr (default m_head (last ns))).
Proof.
  intros Lk. assert (Hd := lk_main _ _ _ _ Lk). destruct ns as [|n ns] using rev_ind; [apply Hd|].
  rewrite last_snoc. cbn. rewrite <- app_assoc, app_comm_cons in Hd. apply dll_app in Hd as [_ Hd].
  by destruct Hd as [[_ ?] _].
Qed.

Lemma slot_alloc h m n ns fs ps dc fc s pl :
  Nodes (M:=M) h m ns fs (n :: ps) dc fc (s :: pl) -> is_Some (cells h !! n).
Proof. intros Nd. eapply links_alloc; [apply Nd|]. clear. set_solver. Qed.

(** Only nodes at the end of the list go; the others are what they were. *)
Definition Kept (h h' : arena (Z * Z)) (ns ns' : list positive) : Prop :=
  (exists l, ns = ns' ++ l) /\ forall n, n ∈ ns' -> pay (cells h') n = pay (cells h) n.

Lemma kept_refl h ns : Kept h h ns ns.
Proof. split; [exists []; by rewrite app_nil_r | done]. Qed.

(** The last node is delinked ([h1]) and freed. *)
Lemma kept_snoc h h1 h' ns n ns' :
  n ∉ ns -> same_pay h h1 -> Kept (on_cells (delete n) h1) h' ns ns' -> Kept h h' (ns ++ [n]) ns'.
Proof.
  intros Hn Hp [[l ->] Hk]. split; [exists (l ++ [n]); by rewrite (assoc_L (++))|].
  intros x Hx. rewrite Hk by done. cbn. unfold pay. rewrite lookup_delete_ne; [apply Hp|]. intros ->. set_solver.
Qed.

Lemma nodes_snoc_nodup h m ns n fs ps dc fc pl : Nodes (M:=M) h m (ns ++ [n]) fs ps dc fc pl -> n ∉ ns.
Proof.
  intros Nd. destruct (nodes_all _ _ _ _ _ _ _ _ Nd) as [_ HN]. rewrite !NoDup_app in HN. set_solver.
Qed.

(** The tombs at the end of the dynamic list are freed. *)
Lemma wp_free_tombs fuel c ns fs ps dc fc pl Q :
  length ns < fuel -> evictable dc -> Nodes (m_list c) (m_map c) ns fs ps dc fc pl ->
  (forall h ns' dc', Nodes h (m_map c) ns' fs ps dc' fc pl -> Kept (m_list c) h ns ns' -> evict_slots dc' = evict_slots dc ->
     (dc' = [] \/ exists d k v, dc' = d ++ [Live k v]) ->
     Q (addr (default m_head (last ns'))) (with_list h c)) ->
  wp (free_tombs fuel (addr (default m_head (last ns)))) c Q.
Proof.
  revert c ns dc. induction fuel as [|fuel IH]; intros c ns dc Hf Hev Nd HQ; [lia|]. cbn [free_tombs]. wp_step.
  destruct ns as [|n ns _] using rev_ind.
  - cbn. destruct (nd_head _ _ _ _ _ _ _ _ Nd) as [t Ht]. eapply wp_get_key; [exact Ht|]. cbn.
    apply wp_ret. assert (HF := nd_dc _ _ _ _ _ _ _ _ Nd). inversion HF; subst.
    rewrite <- (with_list_id c). apply (HQ _ [] []); [done | apply kept_refl | done | by left].
  - rewrite last_snoc. cbn [default from_option id]. assert (HF := nd_dc _ _ _ _ _ _ _ _ Nd).
    apply Forall2_app_inv_l in HF as (d1 & d2 & HF1 & HF2 & ->).
    apply Forall2_cons_inv_l in HF2 as (s & d3 & Hs & Hnil & ->). inversion Hnil; subst. clear Hnil.
    destruct s as [k v| |]; [| |by apply evictable_mark in Hev].
    + destruct Hs as ([t Ht] & _ & Hu). eapply wp_get_key; [exact Ht|].
      rewrite (proj2 (Z.eqb_neq _ _)) by (unfold user_key, TOMB_KEY in *; lia). apply wp_ret.
      rewrite <- (with_list_id c). assert (HQ' := HQ _ _ _ Nd (kept_refl _ _) eq_refl). rewrite last_snoc in HQ'. apply HQ'. eauto.
    + destruct Hs as [t Ht]. eapply wp_get_key; [exact Ht|]. cbn. wp_step. apply fh_wp_on_list.
      eapply (wp_nodes_delink_main _ _ ns n []); [by eapply Forall2_length | exact Nd |].
      intros h Nd1 Hpay. wp_step. apply fh_wp_on_list, wp_delete_node; [by eapply slot_alloc|].
      apply nodes_free_tomb in Nd1. rewrite !app_nil_r in Nd1. cbn.
      wp_step. apply fh_wp_on_list. eapply wp_get_prev; [apply (links_last _ _ _ _ (nd_links _ _ _ _ _ _ _ _ Nd1))|].
      rewrite length_app in Hf. cbn in Hf. cbn.
      eapply IH; [lia | exact (proj1 (evictable_tomb _) Hev) | exact Nd1 |]. intros h' ns' dc' Nd2 Hk He Hd.
      apply (HQ h' ns' dc' Nd2); [|by rewrite evict_slots_tomb | exact Hd]. eapply kept_snoc; [|exact Hpay | exact Hk].
      by eapply nodes_snoc_nodup.
Qed.

Lemma nodes_fuel h m ns fs ps dc fc pl : Nodes (M:=M) h m ns fs ps dc fc pl -> length (ns ++ fs) < S (base.size (cells h)).
Proof.
  intros Nd. destruct (nd_links _ _ _ _ _ _ _ _ Nd) as [HN _ _ Hdom _ _].
  rewrite <- size_dom, Hdom, size_list_to_set by done. rewrite !length_app. cbn. lia.
Qed.

(** [evict]: the specified slots stay; it reports whether an entry was dropped. *)
Lemma fh_wp_evict c ns fs ps dc fc pl Q :
  evictable dc -> Nodes (m_list c) (m_map c) ns fs ps dc fc pl ->
  (forall h m ns', Nodes h m ns' fs ps (evict_slots dc).2 fc pl -> Kept (m_list c) h ns ns' ->
     Q (evict_slots dc).1 (with_list h (with_map m c))) ->
  wp evict c Q.
Proof.
  intros Hevict Nd HQ. unfold evict. wp_step. apply fh_wp_on_list.
  eapply wp_get_prev; [apply (links_last _ _ _ _ (nd_links _ _ _ _ _ _ _ _ Nd))|].
  rewrite with_list_id. do 2 wp_step. wp_step.
  eapply wp_free_tombs; [|exact Hevict|exact Nd|].
  { assert (Hf := nodes_fuel _ _ _ _ _ _ _ _ Nd). rewrite length_app in Hf. lia. }
  intros h ns' dc' Nd1 Hk He Hlast. rewrite <- He in HQ. assert (HF := nd_dc _ _ _ _ _ _ _ _ Nd1).
  destruct Hlast as [->|(d & k & v & ->)].
  - inversion HF; subst. cbn [last default from_option id]. rewrite ptr_eqb_refl. apply wp_ret.
    by apply (HQ h (m_map c) []).
  - rewrite evict_slots_live in *. apply Forall2_app_inv_r in HF as (ns1 & ns2 & HF1 & HF2 & ->).
    apply Forall2_cons_inv_r in HF2 as (n & ns3 & Hs & Hnil & ->). inversion Hnil; subst. clear Hnil.
    rewrite last_snoc. cbn [default from_option id]. rewrite ptr_eqb_addr, bool_decide_eq_false_2.
    2: { eapply links_in_head; [apply Nd1|]. clear. set_solver. }
    wp_step. apply fh_wp_on_list. eapply (wp_nodes_delink_main _ _ ns1 n []); [by eapply Forall2_length | exact Nd1 |].
    intros h' Nd2 Hpay. assert (Ho := nd_out _ _ _ _ _ _ _ _ Nd2). apply Forall2_cons in Ho as [([t Ht] & Hfind & _) _].
    wp_step. eapply wp_get_key; [exact Ht|]. do 2 wp_step. cbn [with_list m_map]. rewrite Hfind.
    wp_step. apply wp_modify. wp_step. apply fh_wp_on_list, wp_delete_node; [by eapply slot_alloc|].
    apply wp_ret. apply nodes_erase in Nd2. rewrite !app_nil_r in Nd2. apply (HQ _ _ _ Nd2).
    destruct Hk as [[l ->] Hk]. split; [exists ([n] ++ l); by rewrite (assoc_L (++))|].
    intros x Hx. rewrite <- Hk by set_solver. cbn. unfold pay. rewrite lookup_delete_ne; [apply Hpay|].
    intros ->. by apply (nodes_snoc_nodup _ _ _ _ _ _ _ _ _ Nd1).
Qed.

Lemma fh_rep_find c dc fc F k : Rep c dc fc F ->
  match assoc k (live (dc ++ fc)) with
  | Some v => exists n, chm_find (m_map c) k = Some (HMV v (addr n)) /\ user_key k
  | None => chm_find (m_map c) k = None
  end.
Proof.
  intros R. destruct (rp_nodes _ _ _ _ R) as (ns & fs & Nd). assert (Hf := nodes_find _ _ _ _ _ _ _ _ k Nd).
  rewrite app_nil_r in Hf. destruct (assoc _ _); naive_solver.
Qed.

Lemma rep_keys c dc fc F : Rep c dc fc F -> NoDup (live (dc ++ fc)).*1.
Proof.
  intros R. destruct (rp_nodes _ _ _ _ R) as (ns & fs & Nd). assert (HN := nodes_keys _ _ _ _ _ _ _ _ Nd).
  by rewrite app_nil_r in HN.
Qed.

(** The counters are not part of the representation. *)
Lemma rep_stat c dc fc F f : Rep c dc fc F -> Rep (with_stat f c) dc fc F.
Proof. intros []; by split. Qed.

Lemma wp_stat yes f c Q : (forall g, Q tt (with_stat g c)) -> wp (stat yes f) c Q.
Proof.
  intros HQ. apply wp_when; intros ->; [apply wp_modify, HQ|].
  specialize (HQ id). by destruct c.
Qed.

Lemma wp_flag f c Q : Q (f (m_flags c)) c -> wp (flag f) c Q.
Proof. done. Qed.

(** What a lookup answers. *)
Definition answer c dc fc F (ac k : Z) : bool * Z :=
  let dynamic := match assoc k (live (dc ++ fc)) with Some v => (true, v) | None => (false, ac) end in
  if frozen_on c then
    match F !! k with
    | Some v => (true, v)
    | None => if tier_ready (m_flags c) then (false, ac) else dynamic
    end
  else dynamic.

Lemma fh_wp_find c dc fc F stat_yes now ac k :
  Rep c dc fc F -> user_key k ->
  wp (find stat_yes now ac k) c (fun r c' => r = answer c dc fc F ac k /\ exists g, c' = with_stat g c).
Proof.
  intros R Hk.
  assert (Hdyn : wp (find_dynamic stat_yes now ac k) c (fun r c' =>
    r = match assoc k (live (dc ++ fc)) with Some v => (true, v) | None => (false, ac) end /\ exists g, c' = with_stat g c)).
  { unfold find_dynamic. do 2 wp_step. assert (Hf := fh_rep_find _ _ _ _ k R).
    destruct (assoc k (live (dc ++ fc))) as [v|].
    - destruct Hf as (n & -> & _). do 2 (wp_step; apply wp_flag). destruct (rp_idle _ _ _ _ R) as [-> ->]. cbn [negb andb].
      wp_step. apply wp_stat. intros g. apply wp_ret. eauto.
    - rewrite Hf. wp_step. apply wp_stat. intros g. apply wp_ret. eauto. }
  unfold find, answer, frozen_on. do 3 (wp_step; apply wp_flag). wp_step. apply wp_assert.
  { destruct (rp_idle _ _ _ _ R) as [_ ->]. by rewrite orb_true_r. }
  destruct (tier_ready (m_flags c) || fast_hash_ready (m_flags c)); [|exact Hdyn].
  do 2 wp_step. assert (Hh := rp_hash _ _ _ _ R). rewrite (frozen_find _ _ _ _ Hh (user_key32 _ Hk)).
  destruct (F !! k) as [v|] eqn:E.
  - cbn [andb]. rewrite (proj2 (Z.eqb_neq _ _)) by (by eapply Hh). cbn [negb].
    wp_step. apply wp_stat. intros g. apply wp_ret. eauto.
  - cbn [andb]. destruct (tier_ready (m_flags c)); [|exact Hdyn].
    wp_step. apply wp_stat. intros g. apply wp_ret. eauto.
Qed.

(** A cache frozen as a whole takes no insertions. *)
Lemma wp_insert_frozen c dc fc F yes now k v :
  Rep c dc fc F -> tier_ready (m_flags c) = true ->
  wp (insert yes now k v) c (fun b c' => b = false /\ exists g, c' = with_stat g c).
Proof.
  intros R Ht. unfold insert. wp_step. apply wp_stat. intros g. wp_step. apply wp_flag. cbn [with_stat m_flags].
  destruct (rp_tier _ _ _ _ R) as [-> _]. rewrite Ht. apply wp_ret. eauto.
Qed.

(** The dynamic list after an insertion. *)
Definition inserted c dc (k v : Z) : list slot :=
  Live k v :: (if (m_maxSize c <=? m_size c)%Z then (evict_slots dc).2 else dc).

Lemma length_live_evict dc : evictable dc -> length (live (evict_slots dc).2) = length (live dc) - 1.
Proof.
  intros He. destruct (live_evict dc He) as [-> _]. rewrite removelast_firstn_len, length_take. lia.
Qed.

Lemma fh_wp_insert_new c dc fc F yes now k v :
  Rep c dc fc F -> tier_ready (m_flags c) = false -> user_key k -> v <> 0%Z ->
  assoc k (live (dc ++ fc)) = None -> (m_size c < m_maxSize c)%Z \/ live dc <> [] ->
  wp (insert yes now k v) c (fun b c' => b = true /\ Rep c' (inserted c dc k v) fc F /\ same_mode c' c).
Proof.
  intros R Ht Hu Hv Ha Hroom. assert (Hf := fh_rep_find _ _ _ _ k R). rewrite Ha in Hf.
  destruct R as [(ns & fs & Nd) Hsz Hvals Hh Hfc [Hid1 Hid2] [Htn Htd] Hoff Hmax Hle Hev0 Hum].
  unfold insert. wp_step. apply wp_stat. intros g. wp_step. apply wp_flag. cbn [with_stat m_flags]. rewrite Htn, Ht.
  wp_step. apply fh_wp_on_list, wp_new_node. wp_step. apply wp_gets. cbn [with_list with_stat m_map m_list].
  wp_step. apply wp_modify. rewrite (chm_insert_new _ _ _ _ Hf). cbn [negb]. wp_step. apply wp_flag.
  cbn [with_map with_list with_stat m_flags]. rewrite Hid1. wp_step. apply wp_ret.
  assert (Nd1 := nodes_alloc _ _ _ _ _ _ _ _ k v now Nd Hf Hu).
  do 4 wp_step. cbn [m_maxSize m_size with_map with_list with_stat]. unfold inserted.
  remember (m_maxSize c <=? m_size c)%Z as full eqn:Hfull. symmetry in Hfull.
  assert (Hevict : evictable dc) by (apply evictable_unmarked; set_solver).
  assert (Hev : full = true -> (evict_slots dc).1 = true).
  { intros ->. destruct (live_evict dc Hevict) as [_ ->]. rewrite bool_decide_eq_false_2; [done|].
    destruct Hroom as [Hlt|]; [|done]. apply Z.leb_le in Hfull. lia. }
  wp_step. apply wp_mono with (P := fun e c' => e = full /\ same_mode c' c /\ m_size c' = m_size c /\
     exists ns', Nodes (m_list c') (m_map c') ns' fs [brk (m_list c)] (if full then (evict_slots dc).2 else dc) fc [Live k v]).
  - destruct full; [|apply wp_ret; split_and!; [done..|]; by exists ns].
    eapply fh_wp_evict; [exact Hevict | exact Nd1|]. intros h m ns' Nd2 _. split_and!; [by apply Hev | done.. |]. by exists ns'.
  - intros ? c1 (-> & (Hc1 & Hc2 & Hc3 & Hc5) & Hc4 & ns' & Nd2). wp_step. apply wp_flag. rewrite Hc2, Htn, Ht.
    wp_step. apply wp_flag. rewrite Hc2, Hid2. cbn [negb]. wp_step. apply fh_wp_on_list.
    eapply wp_nodes_pushFront; [exact Nd2|]. intros h' Nd3 _.
    assert (Hroom' : full = true -> live dc <> []).
    { intros Hf' He. destruct (live_evict dc Hevict) as [_ Hb]. rewrite Hev, bool_decide_eq_true_2 in Hb by done. done. }
    assert (Hlen : Z.of_nat (length (live (Live k v :: (if full then (evict_slots dc).2 else dc) ++ fc))) =
      if full then m_size c else (m_size c + 1)%Z).
    { rewrite Hsz, live_cons, !live_app, !length_app. cbn [live1 length]. destruct full; [|lia].
      rewrite length_live_evict by done. destruct (live dc) eqn:E; [by destruct (Hroom' eq_refl)|]. cbn [length]. lia. }
    assert (Hvals' : forall j w, (j, w) ∈ live (Live k v :: (if full then (evict_slots dc).2 else dc) ++ fc) -> w <> 0%Z).
    { intros j w. rewrite live_cons, live_app. intros [Hj|Hj]%elem_of_app; [by apply list_elem_of_singleton in Hj as [= -> ->]|].
      apply (Hvals j). rewrite live_app. apply elem_of_app in Hj as [Hj|Hj]; [|set_solver]. apply elem_of_app. left.
      destruct full; [|done]. destruct (live_evict dc Hevict) as [He _]. rewrite He in Hj.
      destruct (live dc) as [|x l] using rev_ind; [done|]. rewrite removelast_last in Hj. set_solver. }
    assert (Hrep : forall n, n = (if full then m_size c else m_size c + 1)%Z -> (n <= m_maxSize c)%Z ->
      Rep (with_size n (with_list h' c1)) (Live k v :: (if full then (evict_slots dc).2 else dc)) fc F).
    { intros n Hn Hnle. split; cbn; rewrite ?Hc1, ?Hc2, ?Hc3, ?Hc5; try done.
      - by exists (brk (m_list c) :: ns'), fs.
      - by rewrite Hn, <- Hlen.
      - by rewrite Htn, Ht.
      - unfold frozen_on in *. cbn. by rewrite Hc2.
      - intros [[=]|[Hx|Hx]%elem_of_app]%elem_of_cons; apply Hum, elem_of_app; [left | by right].
        destruct full; [by apply evict_slots_sub | done]. }
    wp_step. destruct full; cbn [negb]; repeat wp_step.
    + rewrite whenM_false by lia. apply wp_ret. split_and!; [done | | done].
      specialize (Hrep (m_size c) eq_refl Hle). rewrite <- Hc4 in Hrep. by destruct c1.
    + cbn. apply Z.leb_gt in Hfull. rewrite Hc4, whenM_false by lia. rewrite u64_small by lia.
      split_and!; [done | apply Hrep; lia | done].
Qed.

Lemma wp_set_key c n k k' t Q :
  pay (cells (m_list c)) n = Some (k, t) ->
  Q tt (with_list (on_cells (alter (with_payload (k', t)) n) (m_list c)) c) -> wp (set_key (addr n) k') c Q.
Proof.
  intros Hp HQ. unfold set_key. wp_step. apply fh_wp_on_list. eapply wp_get_payload; [exact Hp|].
  rewrite with_list_id. apply fh_wp_on_list, wp_set_payload; [|exact HQ].
  unfold pay in Hp. by destruct (cells (m_list c) !! n).
Qed.

(** Deleting an entry the frozen table knows: a tomb is left behind and the
    frozen table keeps the entry. *)
Lemma wp_delete_frozen c dc fc F k v w :
  Rep c dc fc F -> frozen_on c = true -> assoc k (live (dc ++ fc)) = Some v -> F !! k = Some w ->
  wp (delete_key k) c (fun _ c' => Rep c' (bury k dc) (bury k fc) F /\ same_mode c' c).
Proof.
  intros R Hon Ha HF. assert (Hf := fh_rep_find _ _ _ _ k R). rewrite Ha in Hf. destruct Hf as (n & Hf & Hu).
  assert (Hks := rep_keys _ _ _ _ R).
  destruct R as [(ns & fs & Nd) Hsz Hvals Hh Hfc [Hid1 Hid2] [Htn Htd] Hoff Hmax Hle Hev0 Hum].
  destruct (nodes_bury _ _ _ _ _ _ _ _ _ 0 Nd Ha Hf) as [_ [t Ht]].
  destruct (nodes_bury _ _ _ _ _ _ _ _ _ t Nd Ha Hf) as [Nd' _].
  unfold delete_key. do 2 wp_step. rewrite Hf. cbn [m_listNode].
  do 3 (wp_step; apply wp_flag). do 2 wp_step.
  rewrite (frozen_find _ _ _ _ Hh (user_key32 _ Hu)), HF, Hid1.
  unfold frozen_on in Hon. rewrite Hon. cbn [andb]. rewrite (proj2 (Z.eqb_neq _ _)) by (by eapply Hh). cbn [negb].
  wp_step. eapply wp_set_key; [exact Ht|]. do 2 wp_step. wp_step. apply wp_modify.
  cbn [with_list m_map]. rewrite chm_erase_found, bool_decide_eq_true_2 by eauto. cbn [whenM].
  apply wp_modify. split; [|done].
  assert (Hlive : live (bury k dc ++ bury k fc) = without k (live (dc ++ fc))).
  { by rewrite !live_app, !live_bury, without_app. }
  assert (Hlen := length_without _ _ _ Hks Ha).
  split; cbn; try done.
  - by exists ns, fs.
  - rewrite Hlive, Hsz, u64_small; lia.
  - intros j x. rewrite Hlive, elem_of_without. naive_solver.
  - intros j x. rewrite live_bury, elem_of_without. naive_solver.
  - split; [done|]. intros Ht'. by rewrite Htd.
  - intros Hoff'. unfold frozen_on in Hoff'. cbn in Hoff'. by rewrite Hon in Hoff'.
  - rewrite u64_small; lia.
  - intros [Hx%mark_bury|Hx%mark_bury]%elem_of_app; set_solver.
Qed.

(** Deleting an entry the frozen table does not know: it leaves the dynamic
    list. *)
Lemma wp_delete_dynamic c dc fc F k v :
  Rep c dc fc F -> assoc k (live (dc ++ fc)) = Some v -> F !! k = None ->
  wp (delete_key k) c (fun _ c' => Rep c' (unlink k dc) fc F /\ same_mode c' c).
Proof.
  intros R Ha HF. assert (Hf := fh_rep_find _ _ _ _ k R). rewrite Ha in Hf. destruct Hf as (n & Hf & Hu).
  assert (Hks := rep_keys _ _ _ _ R).
  destruct R as [(ns & fs & Nd) Hsz Hvals Hh Hfc [Hid1 Hid2] [Htn Htd] Hoff Hmax Hle Hev0 Hum].
  assert (Hlen := length_without _ _ _ Hks Ha).
  assert (Hin : (k, v) ∈ live dc).
  { apply assoc_Some in Ha; [|done]. rewrite live_app in Ha. apply elem_of_app in Ha as [?|Ha]; [done|].
    apply Hfc in Ha. congruence. }
  destruct (slots_lookup _ _ _ _ _ _ (nd_dc _ _ _ _ _ _ _ _ Nd) Hin) as (ns1 & n' & ns2 & s1 & s2 & -> & -> & Hl & Hf').
  rewrite Hf in Hf'. injection Hf' as <-.
  assert (k ∉ (live s1).*1 /\ k ∉ (live s2).*1 /\ k ∉ (live fc).*1) as (Hk1 & Hk2 & Hk3).
  { rewrite !live_app, live_cons, !fmap_app in Hks. cbn in Hks. rewrite !NoDup_app, NoDup_cons in Hks. clear -Hks. set_solver. }
  destruct (list_around m_head ns1 n ns2 m_tail) as (L1 & a & b & L2 & HL & _).
  assert (Hp : prv (cells (m_list c)) n = Some (addr a)).
  { assert (Hd := lk_main _ _ _ _ (nd_links _ _ _ _ _ _ _ _ Nd)). rewrite HL in Hd.
    apply dll_split in Hd as (_ & [_ ?] & _). done. }
  unfold delete_key. do 2 wp_step. rewrite Hf. cbn [m_listNode].
  do 3 (wp_step; apply wp_flag). do 2 wp_step.
  rewrite (frozen_find _ _ _ _ Hh (user_key32 _ Hu)), HF, Hid1, andb_false_r. cbn [andb].
  wp_step. apply fh_wp_on_list. eapply wp_isInList; [exact Hp|]. rewrite ptr_eqb_marker. cbn [negb].
  wp_step. apply fh_wp_on_list. eapply wp_nodes_delink_main; [exact Hl | exact Nd |]. intros h Nd1 _.
  wp_step. apply fh_wp_on_list, wp_delete_node; [by eapply slot_alloc|]. do 2 wp_step. wp_step. apply wp_modify.
  cbn [with_list m_map]. rewrite chm_erase_found, bool_decide_eq_true_2 by eauto. cbn [whenM].
  apply wp_modify. split; [|done]. apply nodes_erase in Nd1. rewrite unlink_split by done.
  assert (Hlive : live ((s1 ++ s2) ++ fc) = without k (live ((s1 ++ Live k v :: s2) ++ fc))).
  { rewrite !live_app, live_cons. cbn [live1 app]. rewrite without_app, without_split, (without_id k (live fc)) by done. done. }
  split; cbn; try done.
  - by exists (ns1 ++ ns2), fs.
  - rewrite Hlive, Hsz, u64_small; lia.
  - intros j x. rewrite Hlive, elem_of_without. naive_solver.
  - split; [done|]. intros Ht'. specialize (Htd Ht'). by destruct s1.
  - rewrite u64_small; lia.
  - set_solver.
Qed.

Lemma wp_delete_absent c dc fc F k :
  Rep c dc fc F -> assoc k (live (dc ++ fc)) = None -> wp (delete_key k) c (fun _ c' => c' = c).
Proof.
  intros R Ha. assert (Hf := fh_rep_find _ _ _ _ k R). rewrite Ha in Hf.
  unfold delete_key. do 2 wp_step. by rewrite Hf.
Qed.

(** *** Freezing the whole cache *)
Definition entries (l : list (Z * Z)) : list slot := (fun kv => Live kv.1 kv.2) <$> l.

Lemma live_entries l : live (entries l) = l.
Proof. induction l as [|[k v] l IH]; [done|]. unfold entries in *. rewrite fmap_cons, live_cons, IH. done. Qed.

Lemma mark_entries l : Mark ∉ entries l.
Proof. by intros (kv & [=] & _)%list_elem_of_fmap. Qed.

Lemma dll_next {P} (cs : gmap positive (node P)) a xs y ys b :
  dll cs (a :: (xs ++ y :: ys) ++ [b]) ->
  nxt cs y = Some (addr (default b (head ys))) /\ exists p, prv cs y = Some (addr p).
Proof.
  intros Hd. destruct (list_around a xs y ys b) as (L1 & p & q & L2 & HL & _). split.
  - apply dll_forward in Hd. rewrite <- app_assoc, app_comm_cons in Hd. cbn [app] in Hd.
    apply forward_head. intros u w L3 L4 He. apply (Hd u w ((a :: xs) ++ L3) L4). cbn. by rewrite He, <- app_assoc.
  - rewrite HL in Hd. apply dll_split in Hd as (_ & [_ Hp] & _). eauto.
Qed.

Lemma slots_nonzero_cons s sl :
  (forall k v, (k, v) ∈ live (s :: sl) -> v <> 0%Z) -> forall k v, (k, v) ∈ live sl -> v <> 0%Z.
Proof. intros Hv k v Hk. apply (Hv k). rewrite live_cons. set_solver. Qed.

Lemma wp_tier_loop fuel c xs ys l0 fr Q :
  length ys < fuel -> length xs = length l0 -> Nodes (m_list c) (m_map c) [] (xs ++ ys) [] [] (entries l0 ++ fr) [] ->
  frozen (m_fasthash c) (list_to_map l0) -> (forall k v, (k, v) ∈ live fr -> v <> 0%Z) -> Mark ∉ fr ->
  (forall h t fs, Nodes h (m_map c) [] fs [] [] (entries (l0 ++ live fr)) [] ->
     frozen t (list_to_map (l0 ++ live fr)) -> Q tt (with_fasthash t (with_list h c))) ->
  wp (tier_loop fuel (addr (default m_fast_tail (head ys)))) c Q.
Proof.
  revert c xs ys l0 fr. induction fuel as [|fuel IH]; intros c xs ys l0 fr Hf Hlen Nd Hfz Hv Hum HQ; [lia|].
  assert (Hd := lk_fast _ _ _ _ (nd_links _ _ _ _ _ _ _ _ Nd)).
  assert (HF := nd_fc _ _ _ _ _ _ _ _ Nd). apply Forall2_app_inv in HF as [_ HF]; [|by unfold entries; rewrite length_fmap].
  destruct HF as [|y s ys fr Hs HF]; cbn [tier_loop head default from_option id].
  - rewrite ptr_eqb_refl. apply wp_ret. change (live []) with (@nil (Z * Z)) in HQ.
    assert (HQ' := HQ (m_list c) (m_fasthash c) xs). rewrite !app_nil_r in HQ'.
    rewrite (app_nil_r xs), (app_nil_r (entries l0)) in Nd.
    replace c with (with_fasthash (m_fasthash c) (with_list (m_list c) c)) by by destruct c. by apply HQ'.
  - rewrite ptr_eqb_addr, bool_decide_eq_false_2.
    2: { apply (links_apart _ _ _ _ y (nd_links _ _ _ _ _ _ _ _ Nd)). clear. set_solver. }
    destruct (dll_next _ _ _ _ _ _ Hd) as [Hn [p Hp]]. wp_step. destruct s as [k v| |]; [| |by destruct Hum; left].
    + destruct Hs as ([t Ht] & Hfind & Hu). eapply wp_get_key; [exact Ht|].
      assert (Hne : (k =? TOMB_KEY)%Z = false) by (apply Z.eqb_neq; unfold user_key, TOMB_KEY in *; lia).
      rewrite Hne. do 2 wp_step. rewrite Hfind. wp_step. eapply wp_get_key; [exact Ht|]. rewrite Hne.
      wp_step. unfold freeze_node. wp_step. eapply wp_get_key; [exact Ht|]. do 2 wp_step. apply fh_wp_on_list.
      eapply wp_get_next; [exact Hn|]. cbn [m_value].
      assert (Hks := nodes_keys _ _ _ _ _ _ _ _ Nd).
      assert (Hk : k ∉ l0.*1).
      { rewrite app_nil_r, app_nil_l, live_app, live_entries, live_cons, !fmap_app, NoDup_app in Hks. clear -Hks. set_solver. }
      eapply (IH _ (xs ++ [y]) ys (l0 ++ [(k, v)]) fr); cbn.
      * cbn in Hf. lia.
      * rewrite !length_app. cbn. lia.
      * rewrite <- app_assoc. unfold entries. rewrite fmap_app, <- app_assoc. exact Nd.
      * rewrite list_to_map_snoc by done. apply frozen_insert; [done | by apply user_key32 | | ].
        -- by apply not_elem_of_list_to_map.
        -- apply (Hv k). rewrite live_cons. cbn. clear. set_solver.
      * by eapply slots_nonzero_cons.
      * set_solver.
      * intros h t' fs Nd' Hfz'. rewrite <- app_assoc in Nd', Hfz'. rewrite live_cons in HQ. by eapply HQ.
    + destruct Hs as [t Ht]. eapply wp_get_key; [exact Ht|]. cbn [Z.eqb TOMB_KEY Pos.eqb].
      wp_step. unfold drop_node. wp_step. apply fh_wp_on_list. eapply wp_get_next; [exact Hn|]. do 2 wp_step. wp_step.
      cbn [whenM]. apply fh_wp_on_list.
      eapply (wp_nodes_delink_fast _ _ _ xs y ys); [|exact Nd|]; [by unfold entries; rewrite length_fmap|].
      intros h Nd1. wp_step. apply fh_wp_on_list, wp_delete_node; [by eapply slot_alloc|]. wp_step.
      apply nodes_free_tomb in Nd1. cbn.
      eapply IH; [cbn in Hf; lia | exact Hlen | exact Nd1 | done | by eapply slots_nonzero_cons | set_solver |].
      intros h' t' fs Nd' Hfz'. rewrite live_cons in HQ. by eapply (HQ h' t').
Qed.

Lemma length_live_entries l : length (live (entries l)) = length l.
Proof. by rewrite live_entries. Qed.

Lemma wp_construct_tier c dc :
  Rep c dc [] ∅ -> frozen_on c = false ->
  wp construct_tier c (fun b c' => b = true /\ Rep c' [] (entries (live dc)) (list_to_map (live dc)) /\
    tier_ready (m_flags c') = true /\ m_maxSize c' = m_maxSize c /\ fast_hash_ready (m_flags c') = false).
Proof.
  intros R Hoff. assert (Hready : fast_hash_ready (m_flags c) = false) by (by apply orb_false_elim in Hoff as [_ ?]). assert (Hks := rep_keys _ _ _ _ R).
  destruct R as [(ns & fs & Nd) Hsz Hvals Hh Hfc [Hid1 Hid2] [Htn Htd] Hoff' Hmax Hle Hev0 Hum].
  assert (fs = []) as -> by (assert (HF := nd_fc _ _ _ _ _ _ _ _ Nd); by inversion HF).
  rewrite app_nil_r in *. unfold construct_tier. do 4 wp_step. wp_step. apply fh_wp_on_list.
  eapply wp_nodes_freeze_all; [exact Nd|]. intros h Nd1. cbn.
  wp_step. apply fh_wp_on_list. eapply wp_get_next; [apply (links_head _ _ _ _ (nd_links _ _ _ _ _ _ _ _ Nd1))|]. cbn.
  do 2 wp_step. wp_step. eapply (wp_tier_loop _ _ [] ns [] dc); cbn [with_list with_flags m_list m_map m_fasthash];
    [| done | exact Nd1 | exact Hh | done | done |].
  { assert (Hf := nodes_fuel _ _ _ _ _ _ _ _ Nd1). cbn in *. lia. }
  intros h' t fs Nd2 Hfz. do 5 wp_step. apply wp_ret. cbn. split_and!; [done | | done | done | done].
  split; cbn; try done; rewrite ?app_nil_l, ?live_entries, ?length_live_entries; try done.
  - by exists [], fs.
  - intros k v Hk. by apply elem_of_list_to_map_1.
  - apply mark_entries.
Qed.

(** *** Thawing *)
Lemma wp_deconstruct c dc fc F :
  Rep c dc fc F -> fc <> [] ->
  wp deconstruct c (fun _ c' => Rep c' (fc ++ dc) [] ∅ /\ frozen_on c' = false /\ m_maxSize c' = m_maxSize c).
Proof.
  intros R Hne. destruct R as [(ns & fs & Nd) Hsz Hvals Hh Hfc [Hid1 Hid2] [Htn Htd] Hoff' Hmax Hle Hev0 Hum].
  assert (Hfs : fs <> []).
  { intros ->. assert (HF := nd_fc _ _ _ _ _ _ _ _ Nd). by inversion HF. }
  assert (Hlk := nd_links _ _ _ _ _ _ _ _ Nd).
  assert (Hlast : exists l, prv (cells (m_list c)) m_fast_tail = Some (addr l) /\ l ∈ fs).
  { destruct (exists_last Hfs) as (L & l & ->). assert (Hd := lk_fast _ _ _ _ Hlk).
    rewrite <- app_assoc, app_comm_cons in Hd. apply dll_app in Hd as [_ [[_ Hp] _]]. exists l. split; [done|]. set_solver. }
  destruct Hlast as (l & Hl & Hlin). destruct (links_apart _ _ _ _ l Hlk) as (_ & _ & Hl1 & _); [set_solver|].
  destruct fs as [|f L]; [done|]. destruct (links_apart _ _ _ _ f Hlk) as (_ & _ & _ & Hf1 & _); [set_solver|].
  unfold deconstruct. wp_step. apply fh_wp_on_list. eapply wp_get_next; [apply (links_head _ _ _ _ Hlk)|]. rewrite with_list_id.
  wp_step. apply fh_wp_on_list. eapply wp_get_prev; [exact Hl|]. rewrite with_list_id.
  cbn [head default from_option id]. rewrite !ptr_eqb_addr, !bool_decide_eq_false_2 by done.
  wp_step. apply wp_assert; [done|]. wp_step. apply fh_wp_on_list.
  eapply wp_nodes_thaw; [done | exact Nd |]. intros h Nd1. do 4 wp_step. apply wp_modify. cbn.
  assert (Hlive : forall x, x ∈ live (fc ++ dc) <-> x ∈ live (dc ++ fc)) by (intros x; rewrite !live_app; set_solver).
  split_and!; [|by unfold frozen_on; cbn; destruct (m_flags c) as [[] ? ? [] ? ?]|done].
  split; cbn; rewrite ?app_nil_r; try done.
  - by exists ((f :: L) ++ ns), [].
  - rewrite Hsz, !live_app, !length_app. lia.
  - intros k v. rewrite Hlive. apply Hvals.
  - apply frozen_clear.
  - intros k v Hk. by apply elem_of_nil in Hk.
  - destruct (m_flags c) as [[] ? ? [] ? ?]; cbn in *; done.
  - destruct (m_flags c) as [[] ? ? [] ? ?]; cbn in *; subst; done.
  - set_solver.
Qed.

(** A cache frozen while it is empty is not thawed by [deconstruct]. *)
Lemma wp_deconstruct_empty c dc F :
  Rep c dc [] F -> wp deconstruct c (fun _ c' => c' = c).
Proof.
  intros R. destruct (rp_nodes _ _ _ _ R) as (ns & fs & Nd).
  assert (fs = []) as -> by (assert (HF := nd_fc _ _ _ _ _ _ _ _ Nd); by inversion HF).
  destruct (links_empty_fast _ _ _ (nd_links _ _ _ _ _ _ _ _ Nd)) as [Hn Hp].
  unfold deconstruct. wp_step. apply fh_wp_on_list. eapply wp_get_next; [exact Hn|]. rewrite with_list_id.
  wp_step. apply fh_wp_on_list. eapply wp_get_prev; [exact Hp|]. rewrite with_list_id, !ptr_eqb_refl.
  wp_step. by apply wp_assert.
Qed.

(** *** Freezing a part *)
Lemma mid_alloc {P} (h : arena P) f ns ps x : Mid h f ns ps -> x ∈ sentinels ++ ns ++ ps -> is_Some (cells h !! x).
Proof. intros Md Hx. apply elem_of_dom. rewrite (md_dom _ _ _ _ Md). by apply elem_of_list_to_set. Qed.

Lemma mid_slots_ext h h' m ns dc :
  same_pay h h' -> Forall2 (slot_ok (M:=M) (cells h) m) ns dc -> Forall2 (slot_ok (cells h') m) ns dc.
Proof. intros Hp. apply slots_ext; [|done]. intros n _. apply Hp. Qed.

(** A tomb in the way is freed. *)
Lemma wp_drop_mid c f xs y ys d1 d2 Q :
  length xs = length d1 -> MidNodes (m_list c) (m_map c) f (xs ++ y :: ys) (d1 ++ Tomb :: d2) ->
  (forall h, MidNodes h (m_map c) f (xs ++ ys) (d1 ++ d2) -> Q (addr (default m_tail (head ys))) (with_list h c)) ->
  wp (drop_node true (addr y)) c Q.
Proof.
  intros Hlen [Md HF Hm [th Hth]] HQ. destruct (dll_next _ _ _ _ _ _ (md_main _ _ _ _ Md)) as [Hn [p Hp]].
  unfold drop_node. wp_step. apply fh_wp_on_list. eapply wp_get_next; [exact Hn|]. rewrite with_list_id.
  wp_step. apply fh_wp_on_list. eapply wp_isInList; [exact Hp|]. rewrite with_list_id, ptr_eqb_marker. cbn [negb whenM].
  wp_step. apply fh_wp_on_list. eapply wp_delink_mid; [exact Md|]. intros h' Md1 Hpay.
  wp_step. apply fh_wp_on_list, wp_delete_node; [eapply mid_alloc; [exact Md1 | clear; set_solver]|].
  apply wp_ret. cbn. apply HQ.
  assert (HN := md_nodup _ _ _ _ Md). rewrite app_nil_r, !NoDup_app, NoDup_cons in HN.
  assert (y ∉ xs /\ y ∉ ys /\ y <> m_head) as (Hy1 & Hy2 & Hy3) by (clear -HN; set_solver).
  apply Forall2_app_inv in HF as [HF1 HF2]; [|done]. apply Forall2_cons in HF2 as [_ HF2].
  assert (Hext : forall ns' sl', y ∉ ns' -> Forall2 (slot_ok (cells (m_list c)) (m_map c)) ns' sl' ->
    Forall2 (slot_ok (delete y (cells h')) (m_map c)) ns' sl').
  { intros ns' sl' Hy. apply slots_ext; [|done]. intros n Hin. unfold pay. rewrite lookup_delete_ne; [apply Hpay|]. by intros ->. }
  split; cbn [on_cells cells]; [by apply mid_free | apply Forall2_app; by apply Hext | |].
  - intros k Hk. apply Hm in Hk. revert Hk. by rewrite !live_app, live_cons.
  - exists th. unfold pay. rewrite lookup_delete_ne by done. etransitivity; [apply Hpay | exact Hth].
Qed.

Lemma wp_ratio_loop fuel c f xs ys l0 fr FC DC count l r Q :
  length ys < fuel -> length xs = length l0 ->
  MidNodes (m_list c) (m_map c) f (xs ++ ys) (entries l0 ++ fr) ->
  (xs = [] -> exists k v fr', fr = Live k v :: fr' /\ head ys = Some f) -> (forall x, head xs = Some x -> x = f) ->
  frozen (m_fasthash c) (list_to_map l0) -> (forall k v, (k, v) ∈ live fr -> v <> 0%Z) -> Mark ∉ fr ->
  eviction_counter c = 0%Z -> (FC_RELAXATION <= FC < 2 ^ 64)%Z -> (0 <= count)%Z ->
  (count + Z.of_nat (length ys) < 2 ^ 64)%Z ->
  cut_at (FC - FC_RELAXATION) count fr = Some (l, r) ->
  (forall h t ns fs, Nodes h (m_map c) ns fs [] r (entries (l0 ++ l)) [] ->
     frozen t (list_to_map (l0 ++ l)) -> Q tt (with_fasthash t (with_list h c))) ->
  wp (ratio_loop no_others FC DC fuel count true (addr (default m_tail (head ys)))) c Q.
Proof.
  revert c xs ys l0 fr count l. induction fuel as [|fuel IH];
    intros c xs ys l0 fr count l Hf Hlen Mn Hx0 Hxf Hfz Hv Hum Hev HFC Hcount Hc64 Hcut HQ; [lia|].
  assert (Hl0 : length xs = length (entries l0)) by (unfold entries; by rewrite length_fmap).
  assert (HF := mn_dc _ _ _ _ _ Mn). apply Forall2_app_inv in HF as [_ HF]; [|done].
  destruct HF as [|y s ys fr Hs HF]; [done|]. cbn [ratio_loop head default from_option id].
  assert (Hd := md_main _ _ _ _ (mn_mid _ _ _ _ _ Mn)). destruct (dll_next _ _ _ _ _ _ Hd) as [Hn _].
  rewrite ptr_eqb_addr, bool_decide_eq_false_2.
  2: { assert (HN := md_nodup _ _ _ _ (mn_mid _ _ _ _ _ Mn)). intros ->. apply NoDup_app in HN as (_ & HN & _).
       apply (HN m_fast_tail); [do 3 right; left | clear; set_solver]. }
  cbn [length] in Hc64, Hf. rewrite Nat2Z.inj_succ in Hc64. rewrite (u64_small (count + 1)) by lia. wp_step. apply wp_ret. do 2 wp_step. rewrite Hev. wp_step.
  destruct s as [k v| |]; [| |by destruct Hum; left].
  - destruct Hs as ([t Ht] & Hfind & Hu). eapply wp_get_key; [exact Ht|]. do 2 wp_step. rewrite Hfind.
    wp_step. unfold freeze_node. wp_step. eapply wp_get_key; [exact Ht|]. do 2 wp_step. apply fh_wp_on_list.
    eapply wp_get_next; [exact Hn|]. cbn [m_value].
    assert (Hks : k ∉ l0.*1).
    { assert (HN := md_nodup _ _ _ _ (mn_mid _ _ _ _ _ Mn)). rewrite app_nil_r in HN. apply NoDup_app in HN as (_ & _ & HN).
      assert (Hks := slots_nodup _ _ _ _ HN (mn_dc _ _ _ _ _ Mn)).
      rewrite live_app, live_entries, live_cons, !fmap_app, NoDup_app in Hks. clear -Hks. set_solver. }
    assert (Hfz' : frozen (CLHT_insert (m_fasthash c) k v).2 (list_to_map (l0 ++ [(k, v)]))).
    { rewrite list_to_map_snoc by done. apply frozen_insert; [done | by apply user_key32 | |].
      - by apply not_elem_of_list_to_map.
      - apply (Hv k). rewrite live_cons. left. }
    rewrite (u64_small (FC - FC_RELAXATION)) by (unfold FC_RELAXATION in *; lia). cbn [cut_at] in Hcut.
    assert (Hxf' : forall x, head (xs ++ [y]) = Some x -> x = f).
    { destruct xs as [|x0 xs0]; [|done]. intros x [= <-]. destruct (Hx0 eq_refl) as (? & ? & ? & _ & Hy). by injection Hy. }
    assert (Mn' : MidNodes (m_list c) (m_map c) f ((xs ++ [y]) ++ ys) (entries (l0 ++ [(k, v)]) ++ fr)).
    { unfold entries. rewrite fmap_app, <- !app_assoc. exact Mn. }
    destruct (Z.ltb_spec (FC - FC_RELAXATION) (count + 1)) as [Hlt|Hge]; cbn [andb].
    + injection Hcut as <- <-. apply fh_wp_on_list. cbn [with_list with_fasthash m_list].
      assert (exists L, xs ++ [y] = f :: L) as [L HL].
      { destruct (xs ++ [y]) as [|x L] eqn:E; [by destruct xs|]. exists L. f_equal. by apply Hxf'. }
      destruct Mn' as [Md HFd Hm' Hhd]. rewrite HL in Md, HFd.
      eapply wp_cut_before; [exact Md|]. intros h' Lk Hpay.
      eapply HQ; [|exact Hfz']. apply (mid_slots_ext _ h') in HFd; [|done].
      apply Forall2_app_inv in HFd as [HF1 HF2].
      2: { rewrite <- HL. unfold entries. rewrite length_fmap, !length_app. cbn. lia. }
      split; cbn [with_list with_fasthash m_list]; [exact Lk | exact HF2 | exact HF1 | by apply Forall2_nil | |].
      * intros j Hj. apply Hm' in Hj. revert Hj. rewrite !app_nil_r, !live_app, !fmap_app. rewrite !elem_of_app. tauto.
      * destruct Hhd as [th Hth]. exists th. rewrite Hpay. exact Hth.
    + rewrite (proj2 (Z.ltb_ge _ 0)) by (assert (Hr := u64_range (DC - FC_RELAXATION)); lia). cbn [andb].
      destruct (cut_at _ (count + 1) fr) as [[l' r']|] eqn:Hc2; [|done]. injection Hcut as <- <-.
      eapply (IH _ (xs ++ [y]) ys (l0 ++ [(k, v)]) fr (count + 1)%Z l'); cbn [with_list with_fasthash m_list m_map m_fasthash eviction_counter];
        try done; [lia | rewrite !length_app; cbn; lia | by destruct xs | by eapply slots_nonzero_cons | set_solver | lia | lia |].
      intros h' t' ns fs Nd' Hfz''. rewrite <- app_assoc in Nd', Hfz''. by eapply HQ.
  - assert (Hne : xs <> []).
    { intros ->. destruct (Hx0 eq_refl) as (? & ? & ? & [=] & _). }
    destruct Hs as [t Ht]. eapply wp_get_key; [exact Ht|]. do 2 wp_step.
    assert (Hnone : chm_find (m_map c) TOMB_KEY = None).
    { destruct (chm_find (m_map c) TOMB_KEY) eqn:E; [|done].
      assert (Hu := live_user _ _ _ _ _ (mn_dc _ _ _ _ _ Mn) (mn_map _ _ _ _ _ Mn _ (mk_is_Some _ _ E))).
      unfold user_key, TOMB_KEY in Hu. lia. }
    rewrite Hnone. wp_step. eapply wp_drop_mid; [exact Hl0 | exact Mn |]. intros h Mn'. cbn [cut_at] in Hcut.
    eapply (IH _ xs ys l0 fr (count + 1)%Z l); cbn [with_list m_list m_map m_fasthash eviction_counter]; try done;
      [lia | set_solver | lia | lia].
Qed.

Lemma ratio_size_le q n : Qle_bool q 1 = true -> (0 <= n)%Z -> (ratio_size q n <= n)%Z.
Proof.
  intros Hq Hn. apply Qle_bool_iff in Hq. unfold ratio_size.
  rewrite <- (Qfloor_Z n) at 2. apply Qfloor_resp_le.
  rewrite <- (Qmult_1_l (inject_Z n)) at 2. apply Qmult_le_compat_r; [done|]. unfold Qle. cbn. lia.
Qed.

Lemma wp_construct_ratio c k v dc fuel q l r :
  Rep c (Live k v :: dc) [] ∅ -> frozen_on c = false ->
  Qle_bool q 1 = true -> Qle_bool 0 q = true ->
  (FC_RELAXATION <= ratio_size q (m_maxSize c))%Z ->
  cut_at (ratio_size q (m_maxSize c) - FC_RELAXATION) 0 (Live k v :: dc) = Some (l, r) ->
  S (length dc) < fuel -> (Z.of_nat (S (length dc)) < 2 ^ 64)%Z ->
  wp (construct_ratio no_others fuel q) c (fun b c' => b = true /\
    Rep c' r (entries l) (list_to_map l) /\ tier_ready (m_flags c') = false /\ frozen_on c' = true /\
    m_maxSize c' = m_maxSize c).
Proof.
  intros R Hoff Hq1 Hq0 HFC Hcut Hfuel Hlen. assert (Hks := rep_keys _ _ _ _ R).
  destruct R as [(ns & fs & Nd) Hsz Hvals Hh Hfc [Hid1 Hid2] [Htn Htd] Hoff' Hmax Hle Hev0 Hum].
  assert (fs = []) as -> by (assert (HF := nd_fc _ _ _ _ _ _ _ _ Nd); by inversion HF).
  assert (exists f L, ns = f :: L /\ length L = length dc) as (f & L & -> & HL).
  { assert (HF := nd_dc _ _ _ _ _ _ _ _ Nd). apply Forall2_cons_inv_r in HF as (f & L & _ & HF & ->).
    exists f, L. split; [done|]. by eapply Forall2_length. }
  destruct (links_empty_fast _ _ _ (nd_links _ _ _ _ _ _ _ _ Nd)) as [Hfn Hfp].
  assert (Hfh : is_Some (cells (m_list c) !! m_fast_head)).
  { eapply links_alloc; [apply Nd|]. right. right. left. }
  unfold construct_ratio. wp_step. apply wp_assert; [by rewrite Hq1, Hq0|].
  wp_step. apply fh_wp_on_list. eapply wp_get_next; [exact Hfn|]. rewrite with_list_id, ptr_eqb_refl.
  wp_step. apply wp_assert; [done|]. wp_step. apply fh_wp_on_list. eapply wp_get_prev; [exact Hfp|].
  rewrite with_list_id, ptr_eqb_refl. wp_step. apply wp_assert; [done|]. do 2 wp_step. rewrite Hev0. cbn [Z.ltb Z.compare].
  wp_step. apply fh_wp_on_list. eapply wp_get_next; [apply (links_head _ _ _ _ (nd_links _ _ _ _ _ _ _ _ Nd))|].
  rewrite with_list_id. cbn [head default from_option id]. wp_step. apply fh_wp_on_list, wp_set_next; [exact Hfh|].
  do 4 wp_step. cbn [with_list with_flags m_maxSize]. wp_step. apply fh_wp_on_list. cbn [with_list with_flags m_list].
  assert (Md := mid_start _ _ _ _ (nd_links _ _ _ _ _ _ _ _ Nd)).
  eapply wp_get_next; [apply Md|]. wp_step.
  assert (Hle' := ratio_size_le q (m_maxSize c) Hq1 ltac:(lia)).
  eapply (wp_ratio_loop _ _ f [] (f :: L) [] (Live k v :: dc)); try exact Hcut; try done; cbn [with_list with_flags m_list m_map m_fasthash eviction_counter length].
  - cbn. lia.
  - split; [exact Md | | |].
    + eapply slots_ext; [| |apply Nd]; [|done]. intros n _. cbn. by rewrite pay_links.
    + intros j Hj. apply (nd_map _ _ _ _ _ _ _ _ Nd) in Hj. by rewrite !app_nil_r in Hj.
    + destruct (nd_head _ _ _ _ _ _ _ _ Nd) as [th Hth]. exists th. cbn. by rewrite pay_links.
  - intros _. eauto.
  - by rewrite app_nil_r in Hvals.
  - by rewrite app_nil_r in Hum.
  - lia.
  - lia.
  - intros h t ns fs Nd' Hfz. do 7 wp_step. cbn.
    assert (Hlive := cut_at_live _ _ _ _ _ Hcut). rewrite app_nil_r in Hks, Hsz, Hvals. cbn [app] in Hfz, Nd'.
    assert (Hperm : live (r ++ entries l) ≡ₚ l ++ live r) by (rewrite live_app, live_entries; apply Permutation_app_comm).
    split_and!; [done | | | | done].
    2: { apply orb_false_elim in Hoff. naive_solver. }
    2: { unfold frozen_on. cbn. by rewrite orb_true_r. }
    split; cbn; try done.
    + by exists ns, fs.
    + by rewrite Hsz, Hlive, Hperm.
    + intros j w. rewrite Hperm, <- Hlive. apply Hvals.
    + intros j w. rewrite live_entries. apply elem_of_list_to_map_1.
      rewrite Hlive, fmap_app, NoDup_app in Hks. naive_solver.
    + split; [done|]. intros Ht. apply orb_false_elim in Hoff as [Hoff _]. congruence.
    + unfold frozen_on. cbn. by rewrite orb_true_r.
    + rewrite app_nil_r in Hum. intros [Hx|Hx]%elem_of_app; [|by apply mark_entries in Hx].
      apply Hum. by eapply cut_at_sub.
Qed.

Lemma fh_wp_clear c dc fc F :
  Rep c dc fc F ->
  wp clear c (fun _ c' => Rep c' [] [] ∅ /\ m_flags c' = m_flags c /\
    dom (cells (m_list c')) = list_to_set sentinels).
Proof.
  intros R. destruct R as [(ns & fs & Nd) Hsz Hvals Hh Hfc [Hid1 Hid2] [Htn Htd] Hoff' Hmax Hle Hev0 Hum].
  assert (Hout : forall x, x ∈ ns ++ fs -> x <> m_head) by (intros x Hx; by eapply links_in_head; [apply Nd|]).
  unfold clear. do 4 wp_step. wp_step. apply wp_modify. wp_step. apply fh_wp_on_list.
  eapply wp_free_main; [apply Nd|]. intros h1 Lk1 Hp1. wp_step. apply fh_wp_on_list.
  eapply wp_free_fast; [exact Lk1|]. intros h2 Lk2 Hp2. apply wp_modify. cbn.
  split_and!; [|done | exact (lk_dom _ _ _ _ Lk2)].
  split; cbn; try done; try lia.
  - exists [], []. split; [exact Lk2 | by apply Forall2_nil.. | |].
    + intros k [w Hw]. by rewrite chm_find_clear in Hw.
    + destruct (nd_head _ _ _ _ _ _ _ _ Nd) as [th Hth]. exists th.
      rewrite Hp2, Hp1; [exact Hth | |]; intros Hx; by apply (Hout m_head); [set_solver|].
  - intros k v Hk. by apply elem_of_nil in Hk.
  - apply frozen_clear.
  - intros k v Hk. by apply elem_of_nil in Hk.
  - by intros ?%elem_of_nil.
Qed.

Lemma fh_rep_new maxSize c :
  (0 < maxSize < 2 ^ 64)%Z -> new_FIFO_FHCache maxSize = Some c -> Rep c [] [] ∅ /\ frozen_on c = false /\ m_maxSize c = maxSize.
Proof.
  intros Hmax. unfold new_FIFO_FHCache, CLHT_new. destruct (CLHT_buckets _ _) as [b|]; [|done].
  cbn [fmap option_fmap option_map mbind option_bind]. intros [= <-]. split_and!; [|done..].
  split; cbn [m_size m_maxSize m_map m_fasthash m_list m_flags eviction_counter]; try done; try lia.
  - exists [], []. split; [|by apply Forall2_nil.. | |].
    + split; cbn [cells brk app sentinels].
      * rewrite !NoDup_cons. split_and!; [set_solver.. | by apply NoDup_nil].
      * done.
      * done.
      * apply set_eq. intros x. rewrite !dom_insert, dom_singleton, elem_of_list_to_set. set_solver.
      * intros x. rewrite !dom_insert, dom_singleton, !elem_of_union, !elem_of_singleton.
        unfold m_head, m_tail, m_fast_head, m_fast_tail. lia.
      * constructor.
    + intros k [w Hw]. by rewrite chm_find_empty in Hw.
    + exists 0%Z. done.
  - intros k v Hk. by apply elem_of_nil in Hk.
  - apply frozen_create.
  - intros k v Hk. by apply elem_of_nil in Hk.
  - by intros ?%elem_of_nil.
Qed.
End refinement.
