(* ===== verification/FIFOFHProps.v ===== *)
(** * Properties of the FrozenHot FIFO cache

    What [FIFOFHSpec] proves of the methods, put together: lookups across
    freezing and thawing, insertion, deletion, and the runs on which the code
    does not do what its comments promise. *)

From S2P Require Import Prelude DList ListPrims Interfaces CacheSpec LRUCache FHCache FHLinks FastHash FIFOFH FHSlots FIFOFHSpec.
From Stdlib Require Import QArith Qround.
Local Close Scope Q_scope.

Section properties.
Context {M : Type -> Type} `{CHMLaws M} {T : Type} `{CLHTLaws T}.
Implicit Types (c : FIFO_FHCache M T) (dc fc : list slot) (F : gmap Z Z).

(** While nothing frozen was deleted, every mode answers from all entries. *)
Lemma answer_all c dc fc ac k :
  Rep c dc fc (if frozen_on c then list_to_map (live fc) else ∅) ->
  answer c dc fc (if frozen_on c then list_to_map (live fc) else ∅) ac k =
    (bool_decide (is_Some (assoc k (live (dc ++ fc)))), default ac (assoc k (live (dc ++ fc)))).
Proof.
  intros R. assert (Hks := rep_keys _ _ _ _ R). unfold answer.
  destruct (frozen_on c); [|by destruct (assoc k _)].
  assert (Hfc : list_to_map (M:=gmap Z Z) (live fc) !! k = assoc k (live fc)).
  { apply option_eq. intros v. rewrite live_app, fmap_app, NoDup_app in Hks.
    rewrite <- elem_of_list_to_map by apply Hks. by rewrite assoc_Some by apply Hks. }
  rewrite Hfc, live_app, assoc_app. destruct (assoc k (live fc)) as [v|] eqn:E.
  - assert (Hdc : assoc k (live dc) = None).
    { apply assoc_None. intros Hk. rewrite live_app, fmap_app, NoDup_app in Hks. destruct Hks as (_ & Hks & _).
      apply (Hks k Hk). destruct (decide (k ∈ (live fc).*1)) as [?|Hn]; [done|]. apply assoc_None in Hn. congruence. }
    by rewrite Hdc.
  - destruct (tier_ready (m_flags c)) eqn:Ht.
    + destruct (rp_tier _ _ _ _ R) as [_ Hdc]. by rewrite (Hdc Ht).
    + by destruct (assoc k (live dc)).
Qed.

Lemma find_ok c dc fc F yes now ac k :
  Rep c dc fc F -> user_key k -> exists g, find yes now ac k c = Ok (answer c dc fc F ac k, with_stat g c).
Proof.
  intros R Hk. destruct (wp_elim _ _ _ (fh_wp_find c dc fc F yes now ac k R Hk)) as (r & c' & Hf & -> & g & ->). eauto.
Qed.

Lemma delete_ok c dc fc F k v :
  Rep c dc fc F -> assoc k (live (dc ++ fc)) = Some v ->
  exists c' dc' fc', match F !! k with Some _ => (bury k dc, bury k fc) | None => (unlink k dc, fc) end = (dc', fc') /\
    delete_key k c = Ok (tt, c') /\ Rep c' dc' fc' F /\ m_flags c' = m_flags c /\
    live (dc' ++ fc') = without k (live (dc ++ fc)).
Proof.
  intros R Ha. destruct (F !! k) as [w|] eqn:HF.
  - assert (Hon : frozen_on c = true).
    { destruct (frozen_on c) eqn:E; [done|]. destruct (rp_off _ _ _ _ R E) as [-> _]. by rewrite lookup_empty in HF. }
    destruct (wp_elim _ _ _ (wp_delete_frozen c dc fc F k v w R Hon Ha HF)) as ([] & c' & Hd & R' & _ & Hfl & _).
    exists c', (bury k dc), (bury k fc). split_and!; [done.. |]. by rewrite !live_app, !live_bury, without_app.
  - destruct (wp_elim _ _ _ (wp_delete_dynamic c dc fc F k v R Ha HF)) as ([] & c' & Hd & R' & _ & Hfl & _).
    exists c', (unlink k dc), fc. split_and!; [done.. |].
    rewrite !live_app, live_unlink, without_app. f_equal. symmetry. apply without_id.
    intros Hk. apply list_elem_of_fmap in Hk as ([j x] & -> & Hx). apply (rp_fc _ _ _ _ R) in Hx. cbn in *. congruence.
Qed.

(** C3: [find] on a FrozenHot FIFO cache outside the learning pass ([Rep] has
    [curve_flag] unset; what [find] moves while it is set is the subject of
    [CurveProps]): with nothing frozen it answers from the dynamic cache; with a
    frozen part it answers from the frozen table first and from the dynamic cache
    next; with the whole cache frozen from the frozen table alone.  It never
    crashes, and nothing but the statistics changes: contrary to the comment at
    its declaration ([FIFO_FH.h], 151 to 153) a found element is not made the
    most recently used one, since this class is a FIFO. *)
Theorem fh_find_refines c dc fc F yes now ac k :
  Rep c dc fc F -> user_key k ->
  exists g, find yes now ac k c = Ok (answer c dc fc F ac k, with_stat g c) /\ Rep (with_stat g c) dc fc F.
Proof.
  intros R Hk. destruct (find_ok c dc fc F yes now ac k R Hk) as [g Hg]. exists g. split; [done|]. by apply rep_stat.
Qed.

(** C5: freezing the whole cache ([construct_tier]) changes no lookup: every
    [find] answers after it as it did before; all entries are in the frozen
    table, tombs are gone, and no insertion is accepted from then on. *)
Theorem fh_construct_tier_preserves c dc yes now ac k :
  Rep c dc [] ∅ -> frozen_on c = false -> user_key k ->
  exists c1 r g g', construct_tier c = Ok (true, c1) /\ Rep c1 [] (entries (live dc)) (list_to_map (live dc)) /\
    find yes now ac k c = Ok (r, with_stat g c) /\ find yes now ac k c1 = Ok (r, with_stat g' c1) /\
    forall yes now j v, exists g'', insert yes now j v c1 = Ok (false, with_stat g'' c1).
Proof.
  intros R Hoff Hk.
  destruct (wp_elim _ _ _ (wp_construct_tier c dc R Hoff)) as (b & c1 & Hc & -> & R1 & Ht & _).
  destruct (find_ok _ _ _ _ yes now ac k R Hk) as [g Hg]. destruct (find_ok _ _ _ _ yes now ac k R1 Hk) as [g' Hg'].
  assert (Hon : frozen_on c1 = true) by (unfold frozen_on; by rewrite Ht).
  exists c1, (answer c dc [] ∅ ac k), g, g'. split_and!; [done | done | done | |].
  - rewrite Hg'. f_equal. f_equal. assert (H1' := answer_all c dc [] ac k). rewrite Hoff in H1'. rewrite (H1' R).
    assert (H2' := answer_all c1 [] (entries (live dc)) ac k). rewrite Hon, live_entries in H2'.
    rewrite (H2' R1). by rewrite app_nil_l, app_nil_r, live_entries.
  - intros yes' now' j v.
    destruct (wp_elim _ _ _ (wp_insert_frozen _ _ _ _ yes' now' j v R1 Ht)) as (b & c2 & Hi & -> & g'' & ->). eauto.
Qed.

(** C4: freezing a part ([construct_ratio(q)], no other thread running): the
    first [FC_size - FC_RELAXATION + 1] entries and no others are frozen, the
    rest stays in the dynamic list in order, and no lookup changes.  The list
    has to start with a live entry, be long enough, and [FC_size] must not be
    below [FC_RELAXATION]. *)
Theorem fh_construct_ratio_preserves c k0 v0 l fuel q yes now ac k :
  let FC_size := ratio_size q (m_maxSize c) in
  let n := Z.to_nat (FC_size - FC_RELAXATION + 1) in
  let all := (k0, v0) :: l in
  Rep c (entries all) [] ∅ -> frozen_on c = false -> user_key k ->
  Qle_bool q 1 = true -> Qle_bool 0 q = true -> (FC_RELAXATION <= FC_size)%Z ->
  (FC_size - FC_RELAXATION < Z.of_nat (length all))%Z ->
  length all < fuel -> (Z.of_nat (length all) < 2 ^ 64)%Z ->
  exists c1 r g g', construct_ratio no_others fuel q c = Ok (true, c1) /\
    Rep c1 (entries (drop n all)) (entries (take n all)) (list_to_map (take n all)) /\
    find yes now ac k c = Ok (r, with_stat g c) /\ find yes now ac k c1 = Ok (r, with_stat g' c1).
Proof.
  intros FC_size n all R Hoff Hk Hq1 Hq0 HFC Hlen Hfuel H64.
  assert (Hcut : cut_at (FC_size - FC_RELAXATION) 0 (entries all) = Some (take n all, entries (drop n all))).
  { unfold entries. rewrite cut_at_entries by lia. by rewrite Z.sub_0_r. }
  assert (Hfuel' : S (length (entries l)) < fuel /\ (Z.of_nat (S (length (entries l))) < 2 ^ 64)%Z).
  { unfold entries. by rewrite length_fmap. }
  destruct (wp_elim _ _ _ (wp_construct_ratio c k0 v0 (entries l) fuel q _ _ R Hoff Hq1 Hq0 HFC Hcut
    (proj1 Hfuel') (proj2 Hfuel'))) as (b & c1 & Hc & -> & R1 & Ht & Hon & _).
  destruct (find_ok _ _ _ _ yes now ac k R Hk) as [g Hg]. destruct (find_ok _ _ _ _ yes now ac k R1 Hk) as [g' Hg'].
  exists c1, (answer c (entries all) [] ∅ ac k), g, g'. split_and!; [done | done | done |].
  rewrite Hg'. f_equal. f_equal. assert (Ha1 := answer_all c (entries all) [] ac k). rewrite Hoff in Ha1. rewrite (Ha1 R).
  assert (Ha2 := answer_all c1 (entries (drop n all)) (entries (take n all)) ac k). rewrite Hon, live_entries in Ha2.
  rewrite (Ha2 R1). assert (Hks := rep_keys _ _ _ _ R). rewrite app_nil_r, live_entries in *.
  rewrite live_app, !live_entries.
  assert (He : assoc k (drop n all ++ take n all) = assoc k all); [|by rewrite He].
  apply option_eq. intros v. rewrite !assoc_Some; [|done|].
  - rewrite <- (take_drop n all) at 3. rewrite !elem_of_app. tauto.
  - rewrite Permutation_app_comm, take_drop. done.
Qed.

(** C6: thawing: [deconstruct] puts the frozen entries back in front of the
    dynamic list, in order and without losing one, empties the frozen table and
    ends the frozen mode. *)
Theorem fh_deconstruct_restores c dc fc F yes now ac k :
  Rep c dc fc F -> fc <> [] -> user_key k ->
  exists c1 g, deconstruct c = Ok (tt, c1) /\ Rep c1 (fc ++ dc) [] ∅ /\ frozen_on c1 = false /\
    find yes now ac k c1 =
      Ok ((bool_decide (is_Some (assoc k (live (fc ++ dc)))), default ac (assoc k (live (fc ++ dc)))), with_stat g c1).
Proof.
  intros R Hne Hk. destruct (wp_elim _ _ _ (wp_deconstruct c dc fc F R Hne)) as ([] & c1 & Hd & R1 & Hoff & _).
  destruct (find_ok _ _ _ _ yes now ac k R1 Hk) as [g Hg]. exists c1, g. split_and!; [done | done | done |].
  rewrite Hg. f_equal. f_equal. assert (Ha := answer_all c1 (fc ++ dc) [] ac k). rewrite Hoff in Ha.
  rewrite (Ha R1). by rewrite app_nil_r.
Qed.

(** C28: [insert] of a key that is not cached, unless the whole cache is frozen:
    the entry becomes the newest of the dynamic list; a full cache first drops
    the tombs at the end of the dynamic list and its oldest entry; frozen
    entries are never evicted and the size never exceeds the maximum. *)
Theorem fh_insert_refines c dc fc F yes now k v :
  Rep c dc fc F -> tier_ready (m_flags c) = false -> user_key k -> v <> 0%Z ->
  assoc k (live (dc ++ fc)) = None -> (m_size c < m_maxSize c)%Z \/ live dc <> [] ->
  exists c', insert yes now k v c = Ok (true, c') /\ Rep c' (inserted c dc k v) fc F /\
    (m_size c' <= m_maxSize c')%Z /\
    live (inserted c dc k v) = (k, v) :: (if (m_maxSize c <=? m_size c)%Z then removelast (live dc) else live dc).
Proof.
  intros R Ht Hu Hv Ha Hroom.
  destruct (wp_elim _ _ _ (fh_wp_insert_new c dc fc F yes now k v R Ht Hu Hv Ha Hroom)) as (b & c' & Hi & -> & R' & _).
  exists c'. split_and!; [done | done | apply R' |]. unfold inserted. rewrite live_cons. cbn [live1 app].
  f_equal. destruct (_ <=? _)%Z; [|done]. apply live_evict, evictable_unmarked.
  assert (Hm := rp_unmarked _ _ _ _ R). set_solver.
Qed.

(** What a deletion leaves of the two lists: of a key of the frozen table a tomb
    at its place, whichever list that is in; of another nothing, and the frozen
    list as it was. *)
Definition deleted (F : gmap Z Z) (k : Z) dc fc : list slot * list slot :=
  match F !! k with Some _ => (bury k dc, bury k fc) | None => (unlink k dc, fc) end.

(** C29: [delete_key] of a cached key takes it out of the hash table and out of
    the entries of the two lists: an entry of the frozen table leaves a tomb at
    its place, another one nothing.  The size counter stays exact and flags stay
    as they are.  The frozen table itself is not changed: if it has the key,
    every later [find] still answers with the deleted value, otherwise it
    misses. *)
Theorem fh_delete_refines c dc fc F k v :
  Rep c dc fc F -> assoc k (live (dc ++ fc)) = Some v ->
  exists c', let '(dc', fc') := deleted F k dc fc in
    delete_key k c = Ok (tt, c') /\ Rep c' dc' fc' F /\ m_flags c' = m_flags c /\
    chm_find (m_map c') k = None /\ live (dc' ++ fc') = without k (live (dc ++ fc)) /\
    m_size c' = Z.of_nat (length (without k (live (dc ++ fc)))) /\
    forall yes now ac, exists g, find yes now ac k c' =
      Ok (match F !! k with Some w => (true, w) | None => (false, ac) end, with_stat g c').
Proof.
  intros R Ha. destruct (delete_ok c dc fc F k v R Ha) as (c' & dc' & fc' & He & Hd & R' & Hfl & Hl).
  exists c'. unfold deleted. rewrite He. assert (Hu : user_key k).
  { assert (Hf := fh_rep_find _ _ _ _ k R). rewrite Ha in Hf. naive_solver. }
  assert (Hgone : assoc k (live (dc' ++ fc')) = None) by (by rewrite Hl, assoc_without, decide_True).
  split_and!; [done.. | | done | |].
  - assert (Hf := fh_rep_find _ _ _ _ k R'). by rewrite Hgone in Hf.
  - rewrite <- Hl. apply (rp_size _ _ _ _ R').
  - intros yes now ac. destruct (find_ok _ _ _ _ yes now ac k R' Hu) as [g Hg]. exists g. rewrite Hg.
    unfold answer. rewrite Hgone. destruct (F !! k) as [w|] eqn:HF; [|by destruct (frozen_on c'), (tier_ready (m_flags c'))].
    destruct (frozen_on c') eqn:Hon; [done|]. destruct (rp_off _ _ _ _ R' Hon) as [-> _]. by rewrite lookup_empty in HF.
Qed.

(** A deleted key stays readable while it is frozen: after [delete_key] the
    frozen table still has the entry, so [find] hits and hands out the pointer
    of the deleted value, in every frozen mode. *)
Theorem fh_delete_stale c dc fc F k v w yes now ac :
  Rep c dc fc F -> frozen_on c = true -> assoc k (live (dc ++ fc)) = Some v -> F !! k = Some w ->
  exists c' g, delete_key k c = Ok (tt, c') /\ chm_find (m_map c') k = None /\
    find yes now ac k c' = Ok ((true, w), with_stat g c').
Proof.
  intros R Hon Ha HF.
  assert (Hu : user_key k).
  { assert (Hf := fh_rep_find _ _ _ _ k R). rewrite Ha in Hf. naive_solver. }
  destruct (wp_elim _ _ _ (wp_delete_frozen c dc fc F k v w R Hon Ha HF)) as ([] & c' & Hd & R' & _ & Hfl & _).
  destruct (find_ok _ _ _ _ yes now ac k R' Hu) as [g Hg]. exists c', g. split_and!; [done | |].
  - assert (Hf := fh_rep_find _ _ _ _ k R').
    assert (assoc k (live (bury k dc ++ bury k fc)) = None) as Hn.
    { rewrite live_app, !live_bury, <- without_app, <- live_app. by rewrite assoc_without, decide_True. }
    by rewrite Hn in Hf.
  - rewrite Hg. unfold answer. unfold frozen_on in *. by rewrite Hfl, Hon, HF.
Qed.

(** [insert] of a key that is present reports failure but does change the
    cache: the value is replaced, and the key's node by a new one that is in no
    list, so that from then on [delete_key] of the key does nothing at all. *)
Theorem fh_insert_dup_orphans c dc k v w yes now :
  Rep c dc [] ∅ -> frozen_on c = false -> assoc k (live dc) = Some w ->
  exists c' n, insert yes now k v c = Ok (false, c') /\
    chm_find (m_map c') k = Some (HMV v (addr n)) /\ prv (cells (m_list c')) n = Some OutOfListMarker /\
    m_size c' = m_size c /\ delete_key k c' = Ok (tt, c').
Proof.
  intros R Hoff Ha. assert (Hf := fh_rep_find _ _ _ _ k R). rewrite app_nil_r, Ha in Hf. destruct Hf as (n0 & Hf & Hu).
  assert (Hh := rp_hash _ _ _ _ R). destruct (rp_idle _ _ _ _ R) as [Hid _].
  unfold frozen_on in Hoff. apply orb_false_elim in Hoff as Hoff'. destruct Hoff' as [Ht Hr].
  destruct (rp_tier _ _ _ _ R) as [Htn _].
  unfold insert, mbind, SM_bind, stat, flag, gets, on_list, zoom, new_node, modify.
  assert (Hstat : exists g, whenM yes (fun s : FIFO_FHCache M T => Ok (tt, with_stat insert_incr s)) c = Ok (tt, with_stat g c)).
  { destruct yes; [by exists insert_incr|]. exists id. by destruct c. }
  destruct Hstat as [g ->]. cbn. rewrite Htn, Ht, (chm_insert_dup _ _ _ _ _ Hf). cbn.
  eexists _, (brk (m_list c)). split; [done|]. cbn.
  assert (Hfind : chm_find (chm_assign (m_map c) k (HMV v (addr (brk (m_list c))))) k = Some (HMV v (addr (brk (m_list c))))).
  { erewrite chm_find_assign by exact Hf. by rewrite decide_True. }
  assert (Hp : prv (<[brk (m_list c):=Node (k, now) OutOfListMarker nullptr]> (cells (m_list c))) (brk (m_list c)) = Some OutOfListMarker).
  { unfold prv. by rewrite lookup_insert_eq. }
  split_and!; [done | done | done |].
  unfold delete_key, mbind, SM_bind, gets, flag, on_list, zoom. cbn. rewrite Hfind. cbn. rewrite Hid, Ht, Hr. cbn.
  rewrite (frozen_find _ _ _ _ Hh (user_key32 _ Hu)), lookup_empty. cbn.
  unfold isInList, get_prev, mbind, SM_bind, deref. cbn. rewrite lookup_insert_eq. cbn. by destruct c.
Qed.

(** [construct_tier] on an empty cache cannot be undone: [deconstruct] sees
    the empty frozen list, leaves the cache as it is, and every later [insert]
    is rejected. *)
Theorem fh_empty_tier_stuck c yes now k v :
  Rep c [] [] ∅ -> frozen_on c = false ->
  exists c1 g, construct_tier c = Ok (true, c1) /\ deconstruct c1 = Ok (tt, c1) /\
    insert yes now k v c1 = Ok (false, with_stat g c1).
Proof.
  intros R Hoff. destruct (wp_elim _ _ _ (wp_construct_tier c [] R Hoff)) as (b & c1 & Hc & -> & R1 & Ht & _).
  destruct (wp_elim _ _ _ (wp_deconstruct_empty c1 [] _ R1)) as ([] & c2 & Hd & ->).
  destruct (wp_elim _ _ _ (wp_insert_frozen _ _ _ _ yes now k v R1 Ht)) as (b & c3 & Hi & -> & g & ->). eauto 10.
Qed.
End properties.

(** ** Runs from an empty cache *)
Fixpoint insert_all {M T} `{CHM M} `{CLHTlib T} (l : list (Z * Z)) : SM (FIFO_FHCache M T) unit :=
  match l with
  | [] => mret tt
  | (k, v) :: l => insert_all l;; insert true 0 k v;; mret tt
  end.

Lemma rep_insert_all {M T} `{CHMLaws M} `{CLHTLaws T} (c : FIFO_FHCache M T) l :
  Rep c [] [] ∅ -> frozen_on c = false -> NoDup l.*1 ->
  Forall (fun kv => user_key kv.1 /\ kv.2 <> 0%Z) l -> (Z.of_nat (length l) <= m_maxSize c)%Z ->
  wp (insert_all l) c (fun _ c' => Rep c' (entries l) [] ∅ /\ frozen_on c' = false /\ m_maxSize c' = m_maxSize c).
Proof.
  intros R Hoff. induction l as [|[k v] l IH]; intros HN HF Hlen; [done|]. cbn [insert_all].
  apply NoDup_cons in HN as [Hk HN]. apply Forall_cons in HF as [[Hu Hv] HF]. cbn [length] in Hlen. rewrite Nat2Z.inj_succ in Hlen.
  wp_step. eapply wp_mono; [apply IH; [done | done | lia]|]. intros _ c1 (R1 & Hoff1 & Hm1).
  assert (Hs := rp_size _ _ _ _ R1). rewrite app_nil_r, live_entries in Hs.
  wp_step. eapply wp_mono; [eapply fh_wp_insert_new; try done|].
  - by apply orb_false_elim in Hoff1 as [? _].
  - rewrite app_nil_r, live_entries. by apply assoc_None.
  - left. lia.
  - intros b c2 (-> & R2 & Hm2 & Hfl & _). wp_step. split_and!; [|by unfold frozen_on in *; rewrite Hfl | lia].
    unfold inserted in R2. rewrite (proj2 (Z.leb_gt _ _)) in R2 by lia. exact R2.
Qed.

(** [n] entries with keys from 10 on, the newest first. *)
Definition demo_entries (n : nat) : list (Z * Z) := (fun i => (i + 10, i + 100)%Z) <$> seqZ 0 (Z.of_nat n).

Definition demo_fh (maxSize : Z) (n : nat) : res (unit * FIFO_FHCache (gmap Z) (gmap Z Z)) :=
  match new_FIFO_FHCache maxSize with
  | Some c => insert_all (demo_entries n) c
  | None => Crash AssertFail
  end.

(** [construct_ratio] of a full cache of 30 entries at ratio 1/2 crashes:
    [FC_size - FC_RELAXATION] is negative, wraps around, the cut never happens
    and the loop runs off the end of the list. *)
Theorem fh_ratio_underflow_crashes :
  match demo_fh 30 30 with
  | Ok (_, c) => ratio_size (1#2) (m_maxSize c) = 15%Z /\ construct_ratio no_others 100 (1#2) c = Crash AssertFail
  | Crash _ => False
  end.
Proof. vm_compute. split; reflexivity. Qed.

(** [construct_ratio] uses a freed node when the first node of the list is
    a tomb, which a deletion while frozen followed by [deconstruct] leaves
    there: [m_fast_head.m_next] still points at it when the list is cut. *)
Theorem fh_ratio_tomb_use_after_free :
  match demo_fh 30 30 with
  | Ok (_, c) =>
      (construct_ratio no_others 100 (4#5);; delete_key 10;; deconstruct;;
       construct_ratio no_others 100 (4#5)) c = Crash UseAfterFree
  | Crash _ => False
  end.
Proof. vm_compute. reflexivity. Qed.

(** *** Witnesses *)
Lemma demo_fh_rep maxSize n :
  (0 < maxSize < 2 ^ 30)%Z -> (Z.of_nat n <= maxSize)%Z ->
  exists c, demo_fh maxSize n = Ok (tt, c) /\ Rep c (entries (demo_entries n)) [] ∅ /\ frozen_on c = false /\ m_maxSize c = maxSize.
Proof.
  intros Hm Hn. unfold demo_fh.
  destruct (new_FIFO_FHCache (M:=gmap Z) (T:=gmap Z Z) maxSize) as [c|] eqn:E.
  - destruct (fh_rep_new maxSize c ltac:(lia) E) as (R & Hoff & Hmax).
    destruct (wp_elim _ _ _ (rep_insert_all c (demo_entries n) R Hoff
      ltac:(unfold demo_entries; rewrite <- list_fmap_compose; apply NoDup_fmap_2; [intros x y; cbn; lia | apply NoDup_seqZ])
      ltac:(unfold demo_entries; apply Forall_fmap, Forall_forall; intros i Hi; apply elem_of_seqZ in Hi;
            unfold user_key; cbn; lia)
      ltac:(unfold demo_entries; rewrite length_fmap, length_seqZ; lia))) as ([] & c' & Hi & R' & Hoff' & Hm').
    exists c'. split_and!; [done.. | lia].
  - exfalso. revert E. unfold new_FIFO_FHCache, CLHT_new, CLHT_buckets. rewrite bit_length_0, Z.add_0_l.
    assert (Hl : (Z.log2 maxSize < 30)%Z) by (apply Z.log2_lt_pow2; lia). assert (Hn0 := Z.log2_nonneg maxSize).
    rewrite (proj2 (Z.ltb_lt _ _)), (proj2 (Z.leb_le _ _)) by lia. done.
Qed.

Abbreviation demo := (FIFO_FHCache (gmap Z) (gmap Z Z)).

Lemma fh_find_refines_witness : exists (c : demo) g, find true 0 0 12 c = Ok ((true, 102%Z), with_stat g c).
Proof.
  destruct (demo_fh_rep 30 5 ltac:(lia) ltac:(lia)) as (c & _ & R & Hoff & _).
  destruct (fh_find_refines c _ _ _ true 0 0 12 R ltac:(unfold user_key; lia)) as (g & Hf & _).
  exists c, g. rewrite Hf. unfold answer. rewrite Hoff. reflexivity.
Defined.

Lemma fh_construct_tier_preserves_witness :
  exists (c c1 : demo) r g', construct_tier c = Ok (true, c1) /\ find true 0 0 12 c1 = Ok (r, with_stat g' c1) /\
    exists g, find true 0 0 12 c = Ok (r, with_stat g c).
Proof.
  destruct (demo_fh_rep 30 5 ltac:(lia) ltac:(lia)) as (c & _ & R & Hoff & _).
  destruct (fh_construct_tier_preserves c _ true 0 0 12 R Hoff ltac:(unfold user_key; lia))
    as (c1 & r & g & g' & H1 & _ & H2 & H3 & _).
  exists c, c1, r, g'. split; [exact H1 | split; [exact H3 | exists g; exact H2]].
Defined.

Lemma fh_construct_ratio_preserves_witness :
  exists (c c1 : demo), construct_ratio no_others 100 (4#5) c = Ok (true, c1) /\
    exists F, Rep c1 (entries (drop 5 (demo_entries 30))) (entries (take 5 (demo_entries 30))) F.
Proof.
  destruct (demo_fh_rep 30 30 ltac:(lia) ltac:(lia)) as (c & _ & R & Hoff & Hm).
  destruct (fh_construct_ratio_preserves c 10 100 (tail (demo_entries 30)) 100 (4#5) true 0 0 12 R Hoff
    ltac:(unfold user_key; lia) eq_refl eq_refl) as (c1 & r & g & g' & H1 & H2 & _);
    [rewrite Hm; vm_compute; congruence | rewrite Hm; vm_compute; congruence | vm_compute; lia | vm_compute; congruence |].
  exists c, c1. split; [exact H1|]. rewrite Hm in H2. eexists. exact H2.
Defined.

Lemma fh_deconstruct_restores_witness :
  exists (c c1 : demo) g, deconstruct c = Ok (tt, c1) /\ find true 0 0 12 c1 = Ok ((true, 102%Z), with_stat g c1).
Proof.
  destruct (demo_fh_rep 30 5 ltac:(lia) ltac:(lia)) as (c0 & _ & R0 & Hoff & _).
  destruct (wp_elim _ _ _ (wp_construct_tier c0 _ R0 Hoff)) as (b & c & _ & _ & R & _).
  destruct (fh_deconstruct_restores c _ _ _ true 0 0 12 R ltac:(discriminate) ltac:(unfold user_key; lia))
    as (c1 & g & H1 & _ & _ & H2).
  exists c, c1, g. split; [exact H1 | exact H2].
Defined.

Lemma fh_insert_refines_witness :
  exists (c c' : demo), insert true 0 50 7 c = Ok (true, c') /\ exists dc, Rep c' dc [] ∅ /\ live dc = (50, 7)%Z :: removelast (demo_entries 5).
Proof.
  destruct (demo_fh_rep 5 5 ltac:(lia) ltac:(lia)) as (c & _ & R & Hoff & Hm).
  assert (Hs := rp_size _ _ _ _ R).
  destruct (fh_insert_refines c _ _ _ true 0 50 7 R) as (c' & H1 & H2 & _ & H3).
  - apply orb_false_elim in Hoff. apply Hoff.
  - unfold user_key. lia.
  - lia.
  - vm_compute. reflexivity.
  - right. discriminate.
  - exists c, c'. split; [exact H1|]. eexists. split; [exact H2|]. rewrite H3, Hm, Hs. vm_compute. reflexivity.
Defined.

Lemma fh_delete_refines_witness :
  exists (c c' : demo), delete_key 12 c = Ok (tt, c') /\
    Rep c' [] (bury 12 (entries (demo_entries 5))) (list_to_map (demo_entries 5)) /\
    exists g, find true 0 0 12 c' = Ok ((true, 102%Z), with_stat g c').
Proof.
  destruct (demo_fh_rep 30 5 ltac:(lia) ltac:(lia)) as (c0 & _ & R0 & Hoff & _).
  destruct (wp_elim _ _ _ (wp_construct_tier c0 _ R0 Hoff)) as (b & c & _ & _ & R & _).
  destruct (fh_delete_refines c _ _ _ 12 102 R ltac:(vm_compute; reflexivity)) as (c' & H1).
  exists c, c'. unfold deleted in H1. rewrite !live_entries in H1.
  destruct H1 as (H1 & H2 & _ & _ & _ & _ & H3). split; [exact H1 | split; [exact H2 | exact (H3 true 0%Z 0%Z)]].
Defined.

Lemma fh_delete_stale_witness :
  exists (c c' : demo) g, delete_key 12 c = Ok (tt, c') /\ find true 0 0 12 c' = Ok ((true, 102%Z), with_stat g c').
Proof.
  destruct (demo_fh_rep 30 5 ltac:(lia) ltac:(lia)) as (c0 & _ & R0 & Hoff & _).
  destruct (wp_elim _ _ _ (wp_construct_tier c0 _ R0 Hoff)) as (b & c & _ & _ & R & Ht & _).
  destruct (fh_delete_stale c _ _ _ 12 102 102 true 0 0 R) as (c' & g & H1 & _ & H2).
  - unfold frozen_on. rewrite Ht. reflexivity.
  - vm_compute. reflexivity.
  - vm_compute. reflexivity.
  - exists c, c', g. split; [exact H1 | exact H2].
Defined.

Lemma fh_insert_dup_orphans_witness :
  exists (c c' : demo), insert true 0 12 7 c = Ok (false, c') /\ delete_key 12 c' = Ok (tt, c').
Proof.
  destruct (demo_fh_rep 30 5 ltac:(lia) ltac:(lia)) as (c & _ & R & Hoff & Hm).
  destruct (fh_insert_dup_orphans c _ 12 7 102 true 0 R Hoff ltac:(vm_compute; reflexivity)) as (c' & n & H1 & _ & _ & _ & H2).
  exists c, c'. split; [exact H1 | exact H2].
Defined.

Lemma fh_empty_tier_stuck_witness :
  exists (c c1 : demo) g, construct_tier c = Ok (true, c1) /\ deconstruct c1 = Ok (tt, c1) /\
    insert true 0 12 7 c1 = Ok (false, with_stat g c1).
Proof.
  destruct (demo_fh_rep 30 0 ltac:(lia) ltac:(lia)) as (c & _ & R & Hoff & Hm).
  destruct (fh_empty_tier_stuck c true 0 12 7 R Hoff) as (c1 & g & H1 & H2 & H3).
  exists c, c1, g. split; [exact H1 | split; [exact H2 | exact H3]].
Defined.
