(* ===== verification/LRUFH.v ===== *)
(** * The FrozenHot LRU cache ([cache/hhvm_lru_cache_FH.h])

    [LRU_FHCache] is the text of [FIFO_FHCache] under another class name, except
    in [find]: a hit in the dynamic cache, outside the learning phase, promotes
    the node if [try_lock] gets the list mutex.  The other methods are the
    definitions of [FIFOFH]. *)

From S2P Require Import Prelude DList ListPrims Interfaces CacheSpec LRUCache FHCache FHLinks FastHash FIFOFH FHSlots FIFOFHSpec FIFOFHProps.
From Stdlib Require Import QArith.
Local Close Scope Q_scope.

Definition LRU_FHCache (M : Type -> Type) (T : Type) : Type := FIFO_FHCache M T.

Section object.
Context {M : Type -> Type} `{CHM M} {T : Type} `{CLHTlib T}.
Abbreviation FH A := (SM (LRU_FHCache M T) A) (only parsing).

Definition new_LRU_FHCache (maxSize : Z) : option (LRU_FHCache M T) := new_FIFO_FHCache maxSize.

(** The promotion of a hit. *)
Definition promote (try_lock : bool) (node : ptr) : FH unit :=
  whenM try_lock
    (construct ← flag fast_hash_construct;
     if (construct : bool) then mret tt else
     b ← on_list (isInList node);
     whenM b (on_list (fh_delink node);; on_list (pushFront node))).

Definition find_dynamic (try_lock stat_yes : bool) (now : Z) (ac key : Z) : FH (bool * Z) :=
  m ← gets (FIFOFH.m_map (M:=M) (T:=T));
  match chm_find m key with
  | None => stat stat_yes fh_miss_incr;; mret (false, ac)
  | Some hashAccessor =>
      let ac := m_value hashAccessor in
      construct ← flag fast_hash_construct;
      curve ← flag curve_flag;
      let node := m_listNode hashAccessor in
      if negb construct && curve then
        last_update ← get_time node;
        marker ← gets (FIFOFH.m_marker (M:=M) (T:=T));
        older ← (if ptr_eqb marker nullptr then mret false
                 else t ← get_time marker; mret (last_update <=? t)%Z);
        (if (older : bool) then
          stat stat_yes o_hit_incr;;
          modify (fun c : FIFO_FHCache M T => with_counters (u64 (movement_counter c + 1)) (eviction_counter c) (unreachable_counter c) c);;
          set_time node now;;
          b ← on_list (isInList node);
          whenM b (on_list (fh_delink node);; on_list (pushFront node))
         else stat stat_yes fast_hit_incr);;
        mret (true, ac)
      else
        whenM (negb construct) (promote try_lock node);;
        stat stat_yes o_hit_incr;;
        mret (true, ac)
  end.

Definition find (try_lock stat_yes : bool) (now : Z) (ac key : Z) : FH (bool * Z) :=
  tier ← flag tier_ready;
  fast ← flag fast_hash_ready;
  curve ← flag curve_flag;
  assertM (negb (tier || fast) || negb curve);;
  if tier || fast then
    t ← gets (FIFOFH.m_fasthash (M:=M) (T:=T));
    let '(hit, ac) := CLHT_find t key ac in
    if hit && negb (ac =? 0)%Z then
      stat stat_yes fast_hit_incr;; mret (true, ac)
    else if (tier : bool) then
      stat stat_yes fh_miss_incr;; mret (false, ac)
    else find_dynamic try_lock stat_yes now ac key
  else find_dynamic try_lock stat_yes now ac key.

Definition construct_ratio : (Z -> FH unit) -> nat -> Q -> FH bool := FIFOFH.construct_ratio.
Definition construct_tier : FH bool := FIFOFH.construct_tier.
Definition deconstruct : FH unit := FIFOFH.deconstruct.
Definition insert : bool -> Z -> Z -> Z -> FH bool := FIFOFH.insert.
Definition evict : FH bool := FIFOFH.evict.
Definition delete_key : Z -> FH unit := FIFOFH.delete_key.
Definition clear : FH unit := FIFOFH.clear.
Definition snapshotKeys : list Z -> FH (list Z) := FIFOFH.snapshotKeys.
Definition size : FH Z := FIFOFH.size.
Definition is_full : FH bool := FIFOFH.is_full.
End object.

(** ** Promotion in the dynamic list *)
Definition touch_slots (k : Z) (sl : list slot) : list slot :=
  match assoc k (live sl) with
  | Some v => Live k v :: unlink k sl
  | None => sl
  end.

Lemma live_touch k sl : live (touch_slots k sl) = touch k (live sl).
Proof. unfold touch_slots, touch. destruct (assoc k (live sl)); [|done]. by rewrite live_cons, live_unlink. Qed.

Section refinement.
Context {M : Type -> Type} `{CHMLaws M} {T : Type} `{CLHTLaws T}.
Implicit Types (c : LRU_FHCache M T) (dc fc : list slot) (F : gmap Z Z).

(** The order of the dynamic list after a lookup: a hit there moves the entry
    to the front if the mutex was free. *)
Definition found (try_lock : bool) c dc F (k : Z) : list slot :=
  if try_lock && negb (frozen_on c && (bool_decide (is_Some (F !! k)) || tier_ready (m_flags c)))
  then touch_slots k dc else dc.

Lemma rep_touch c h dc fc F k ns' fs :
  Rep c dc fc F -> Nodes h (FIFOFH.m_map c) ns' fs [] (touch_slots k dc) fc [] ->
  Rep (with_list h c) (touch_slots k dc) fc F.
Proof.
  intros R Nd. assert (Hks := rep_keys _ _ _ _ R). rewrite live_app, fmap_app, NoDup_app in Hks.
  assert (Hp : live (touch_slots k dc ++ fc) ≡ₚ live (dc ++ fc)).
  { rewrite !live_app, live_touch. apply Permutation_app_tail, touch_perm, Hks. }
  destruct R as [_ Hsz Hvals Hh Hfc Hid [Htn Htd] Hoff Hmax Hle Hev0 Hum].
  split; cbn; try done.
  - by exists ns', fs.
  - by rewrite Hp.
  - intros j w. rewrite Hp. apply Hvals.
  - split; [done|]. intros Ht. by rewrite (Htd Ht).
  - unfold touch_slots. intros [Hx|Hx]%elem_of_app; [|set_solver]. destruct (assoc _ _); [|set_solver].
    apply elem_of_cons in Hx as [[=]|Hx%mark_unlink]. set_solver.
Qed.

Lemma lfh_wp_promote (tl : bool) c dc fc F k v n Q :
  Rep c dc fc F -> (k, v) ∈ live dc -> chm_find (FIFOFH.m_map c) k = Some (HMV v (addr n)) ->
  (forall c', Rep c' (if tl then touch_slots k dc else dc) fc F -> m_flags c' = m_flags c -> m_stat c' = m_stat c -> Q tt c') ->
  wp (promote tl (addr n)) c Q.
Proof.
  intros R Hin Hf HQ. unfold promote. apply wp_when; intros ->; [|by apply HQ].
  destruct (rp_nodes _ _ _ _ R) as (ns & fs & Nd). assert (Hks := rep_keys _ _ _ _ R).
  destruct (slots_lookup _ _ _ _ _ _ (nd_dc _ _ _ _ _ _ _ _ Nd) Hin) as (ns1 & n' & ns2 & s1 & s2 & -> & -> & Hl & Hf').
  rewrite Hf in Hf'. injection Hf' as <-.
  assert (k ∉ (live s1).*1 /\ k ∉ (live s2).*1) as (Hk1 & Hk2).
  { rewrite !live_app, live_cons, !fmap_app in Hks. cbn in Hks. rewrite !NoDup_app, NoDup_cons in Hks. clear -Hks. set_solver. }
  destruct (dll_next _ _ _ _ _ _ (lk_main _ _ _ _ (nd_links _ _ _ _ _ _ _ _ Nd))) as [_ [p Hp]].
  destruct (rp_idle _ _ _ _ R) as [Hid _]. wp_step. apply wp_flag. rewrite Hid.
  wp_step. apply fh_wp_on_list. eapply wp_isInList; [exact Hp|]. rewrite with_list_id, ptr_eqb_marker. cbn [negb whenM].
  wp_step. apply fh_wp_on_list. eapply wp_nodes_delink_main; [exact Hl | exact Nd |]. intros h Nd1 _.
  apply fh_wp_on_list. eapply wp_nodes_pushFront; [exact Nd1|]. intros h' Nd2 _. cbn.
  assert (Ht : touch_slots k (s1 ++ Live k v :: s2) = Live k v :: s1 ++ s2).
  { unfold touch_slots. assert (Ha : assoc k (live (s1 ++ Live k v :: s2)) = Some v).
    - apply assoc_Some; [|rewrite live_app, live_cons; cbn; set_solver].
      rewrite live_app, fmap_app, NoDup_app in Hks. apply Hks.
    - by rewrite Ha, unlink_split. }
  apply HQ; [|done..]. rewrite Ht. apply (rep_touch c h' (s1 ++ Live k v :: s2) fc F k (n :: ns1 ++ ns2) fs) in R.
  - by rewrite Ht in R.
  - by rewrite Ht.
Qed.

Lemma lfh_wp_find (tl : bool) c dc fc F yes now ac k :
  Rep c dc fc F -> user_key k ->
  wp (find tl yes now ac k) c (fun r c' =>
    r = answer c dc fc F ac k /\ Rep c' (found tl c dc F k) fc F /\ m_flags c' = m_flags c).
Proof.
  intros R Hk.
  assert (Hdyn : F !! k = None \/ frozen_on c = false ->
    wp (find_dynamic tl yes now ac k) c (fun r c' =>
      r = match assoc k (live (dc ++ fc)) with Some v => (true, v) | None => (false, ac) end /\
      Rep c' (if tl then touch_slots k dc else dc) fc F /\ m_flags c' = m_flags c)).
  { intros HF. unfold find_dynamic. do 2 wp_step. assert (Hf := fh_rep_find _ _ _ _ k R). assert (Hks := rep_keys _ _ _ _ R).
    destruct (assoc k (live (dc ++ fc))) as [v|] eqn:E.
    - destruct Hf as (n & Hf & _). rewrite Hf. do 2 (wp_step; apply wp_flag). destruct (rp_idle _ _ _ _ R) as [-> ->]. cbn [negb andb whenM m_listNode].
      assert (Hin : (k, v) ∈ live dc).
      { apply assoc_Some in E; [|done]. rewrite live_app in E. apply elem_of_app in E as [?|E]; [done|]. exfalso.
        destruct HF as [HF|Hoff].
        - apply (rp_fc _ _ _ _ R) in E. congruence.
        - destruct (rp_off _ _ _ _ R Hoff) as [_ ->]. by apply elem_of_nil in E. }
      wp_step. eapply lfh_wp_promote; [exact R | exact Hin | exact Hf |]. intros c' R' Hfl _.
      wp_step. apply wp_stat. intros g. apply wp_ret. split_and!; [done | by apply rep_stat | done].
    - rewrite Hf. wp_step. apply wp_stat. intros g. apply wp_ret. split_and!; [done | | done]. apply rep_stat.
      assert (Ht : touch_slots k dc = dc).
      { unfold touch_slots. rewrite live_app, assoc_app in E. by destruct (assoc k (live dc)). }
      by destruct tl; rewrite ?Ht. }
  assert (Hsame : forall g, Rep (with_stat g c) dc fc F) by (intros g; by apply rep_stat).
  unfold find, answer, found. unfold frozen_on in *. do 3 (wp_step; apply wp_flag). wp_step. apply wp_assert.
  { destruct (rp_idle _ _ _ _ R) as [_ ->]. by rewrite orb_true_r. }
  destruct (tier_ready (m_flags c) || fast_hash_ready (m_flags c)) eqn:Hon.
  - do 2 wp_step. assert (Hh := rp_hash _ _ _ _ R). rewrite (frozen_find _ _ _ _ Hh (user_key32 _ Hk)).
    destruct (F !! k) as [v|] eqn:E.
    + cbn [andb]. rewrite (proj2 (Z.eqb_neq _ _)) by (by eapply Hh). cbn [negb].
      wp_step. apply wp_stat. intros g. apply wp_ret. split_and!; [done | | done].
      rewrite bool_decide_eq_true_2 by eauto. cbn. by rewrite andb_false_r.
    + cbn [andb]. rewrite bool_decide_eq_false_2 by (by intros [? ?]). destruct (tier_ready (m_flags c)) eqn:Ht; cbn.
      * wp_step. apply wp_stat. intros g. apply wp_ret. rewrite andb_false_r. split_and!; [done | done | done].
      * rewrite andb_true_r. apply Hdyn. by left.
  - cbn. rewrite andb_true_r. apply Hdyn. by right.
Qed.

(** [find] of the FrozenHot LRU cache answers as the FIFO one does, in
    every mode; a hit in the dynamic cache moves the entry to the front if
    [try_lock] succeeds, and a hit in the frozen table moves nothing. *)
Theorem lru_fh_find_refines (tl : bool) c dc fc F yes now ac k :
  Rep c dc fc F -> user_key k ->
  exists c', find tl yes now ac k c = Ok (answer c dc fc F ac k, c') /\ Rep c' (found tl c dc F k) fc F.
Proof.
  intros R Hk. destruct (wp_elim _ _ _ (lfh_wp_find tl c dc fc F yes now ac k R Hk)) as (r & c' & Hf & -> & R' & _). eauto.
Qed.
End refinement.

Lemma lru_fh_find_refines_witness :
  exists (c c' : LRU_FHCache (gmap Z) (gmap Z Z)), find true true 0 0 12 c = Ok ((true, 102%Z), c') /\
    exists dc, Rep c' dc [] ∅ /\ live dc = [(12, 102); (10, 100); (11, 101); (13, 103)]%Z.
Proof.
  destruct (demo_fh_rep 30 4 ltac:(lia) ltac:(lia)) as (c & _ & R & Hoff & _).
  destruct (lru_fh_find_refines true c _ _ _ true 0 0 12 R ltac:(unfold user_key; lia)) as (c' & H1 & H2).
  exists c, c'. split.
  - rewrite H1. unfold answer. rewrite Hoff. reflexivity.
  - eexists. split; [exact H2|]. unfold found. rewrite Hoff. vm_compute. reflexivity.
Defined.
