(* ===== verification/Util.v ===== *)
(** * Utilities ([ssdlogging/util.h])

    Fixed-width little-endian encoding, the Lehmer random number generator that
    drives sampling and eviction, and the latency statistics ([MyStat], [MySet])
    the monitor decides with.  Bytes are integers below 256, [double] values
    rationals. *)

From S2P Require Import Prelude.
From Stdlib Require Import QArith Qround Znumtheory.
Local Close Scope Q_scope.
Local Open Scope Z_scope.

(** ** Encoding *)

(** The bytes of an integer in memory order on a little-endian machine, which is
    what [memcpy(buf, &value, n)] copies; and back. *)
Fixpoint le_bytes (n : nat) (value : Z) : list Z :=
  match n with
  | O => []
  | S n => (value mod 256) :: le_bytes n (value / 256)
  end.

Fixpoint of_le_bytes (bs : list Z) : Z :=
  match bs with
  | [] => 0
  | b :: bs => b + 256 * of_le_bytes bs
  end.

Definition kLittleEndian : bool := true.

(** [buf[0], buf[1], ...] after [EncodeFixed32(buf, value)]. *)
Definition EncodeFixed32 (kLittleEndian : bool) (value : Z) : list Z :=
  if kLittleEndian then le_bytes 4 value
  else [Z.land value 255; Z.land (Z.shiftr value 8) 255; Z.land (Z.shiftr value 16) 255; Z.land (Z.shiftr value 24) 255].

Definition EncodeFixed64 (kLittleEndian : bool) (value : Z) : list Z :=
  if kLittleEndian then le_bytes 8 value
  else [Z.land value 255; Z.land (Z.shiftr value 8) 255; Z.land (Z.shiftr value 16) 255; Z.land (Z.shiftr value 24) 255;
        Z.land (Z.shiftr value 32) 255; Z.land (Z.shiftr value 40) 255; Z.land (Z.shiftr value 48) 255; Z.land (Z.shiftr value 56) 255].

(** The bytes from [ptr] on; [None]: fewer than read. *)
Definition DecodeFixed32 (kLittleEndian : bool) (ptr : list Z) : option Z :=
  match ptr with
  | b0 :: b1 :: b2 :: b3 :: _ =>
      Some (if kLittleEndian then of_le_bytes [b0; b1; b2; b3]
            else Z.lor (Z.lor (Z.lor b0 (u32 (Z.shiftl b1 8))) (u32 (Z.shiftl b2 16))) (u32 (Z.shiftl b3 24)))
  | _ => None
  end.

Definition DecodeFixed64 (kLittleEndian : bool) (ptr : list Z) : option Z :=
  if kLittleEndian then
    match ptr with
    | b0 :: b1 :: b2 :: b3 :: b4 :: b5 :: b6 :: b7 :: _ => Some (of_le_bytes [b0; b1; b2; b3; b4; b5; b6; b7])
    | _ => None
    end
  else
    lo ← DecodeFixed32 false ptr;
    hi ← DecodeFixed32 false (drop 4 ptr);
    Some (Z.lor (u64 (Z.shiftl hi 32)) lo).

(** ** Random *)
Definition RM : Z := 2147483647.
Definition RA : Z := 16807.

Definition GoodSeed (s : Z) : Z := if negb (Z.land s RM =? 0) then Z.land s RM else 1.

(** The new seed, which is also the result. *)
Definition Next (seed_ : Z) : Z :=
  let product := u64 (seed_ * RA) in
  let seed_ := u32 (Z.shiftr product 31 + Z.land product RM) in
  if RM <? seed_ then u32 (seed_ - RM) else seed_.

(** [Uniform(n)], [OneIn(n)], [Skewed(max_log)]: the result and the new seed. *)
Definition Uniform (n seed_ : Z) : Z * Z := let s := Next seed_ in (s mod n, s).
Definition OneIn (n seed_ : Z) : bool * Z := let s := Next seed_ in (s mod n =? 0, s).
Definition Skewed (max_log seed_ : Z) : Z * Z :=
  let '(b, s) := Uniform (max_log + 1) seed_ in Uniform (Z.shiftl 1 b) s.

(** ** Statistics *)
Record MyStat := { sum_ : Z; size_ : Z }.
Definition SCALE : Z := 1000000.

Definition MyStat_add (value : Q) (s : MyStat) : MyStat :=
  {| sum_ := u64 (sum_ s + Qfloor (value * inject_Z SCALE)); size_ := u64 (size_ s + 1) |}.
Definition MyStat_sum (s : MyStat) : Q := (inject_Z (sum_ s) / inject_Z SCALE)%Q.
Definition MyStat_avg (s : MyStat) : Q := (inject_Z (sum_ s) / inject_Z (size_ s) / inject_Z SCALE)%Q.
Definition MyStat_reset (s : MyStat) : MyStat := {| sum_ := 0; size_ := 0 |}.

(** [MySet]: [data_] up to [size_]; the mapping is larger and zero beyond. *)
Record MySet := { data_ : list Q; cursor : Z; sorted : bool }.
(** The default constructor leaves [sorted] as it is. *)
Definition new_MySet (sorted : bool) : MySet := {| data_ := []; cursor := 0; sorted := sorted |}.
Definition max_size : Z := 2 ^ 30.

Definition set_size (s : MySet) : Z := Z.of_nat (length (data_ s)).
Definition set_insert (value : Q) (s : MySet) : res MySet :=
  if set_size s <? max_size then Ok {| data_ := data_ s ++ [value]; cursor := cursor s; sorted := false |} else Crash AssertFail.
Definition set_get (index : Z) (s : MySet) : res Q :=
  if index <? set_size s then
    match data_ s !! Z.to_nat index with Some x => Ok x | None => Crash OutOfRange end
  else Crash AssertFail.
Definition set_reset (s : MySet) : MySet := {| data_ := []; cursor := 0; sorted := false |}.
Definition sumQ (l : list Q) : Q := foldr Qplus 0%Q l.

(** [print_from_last_end(step)]: the average since the cursor, [None] for the
    early return (which answers 100 and leaves [step] alone). *)
Definition print_from_last_end (s : MySet) : option (Q * Z) * MySet :=
  let size := set_size s in
  if (size =? 0) || (size <=? cursor s) then (None, s)
  else
    let step := size - cursor s in
    (Some ((sumQ (drop (Z.to_nat (cursor s)) (data_ s)) / inject_Z step)%Q, step),
     {| data_ := data_ s; cursor := size + 1; sorted := sorted s |}).

Definition size_from_last_end (s : MySet) : Z :=
  let size := set_size s in
  if (size =? 0) || (size <=? cursor s) then 0 else size - cursor s.

(** ** Encoding lemmas *)
Definition bytes (bs : list Z) : Prop := Forall (fun b => 0 <= b < 256) bs.

Lemma le_bytes_ok n v : 0 <= v -> bytes (le_bytes n v).
Proof.
  revert v. induction n as [|n IH]; intros v Hv; constructor.
  - by apply Z.mod_pos_bound.
  - apply IH. by apply Z.div_pos.
Qed.

Lemma of_le_bytes_le n v : 0 <= v < 256 ^ Z.of_nat n -> of_le_bytes (le_bytes n v) = v.
Proof.
  revert v. induction n as [|n IH]; intros v Hv; [cbn in *; lia|]. cbn [le_bytes of_le_bytes].
  rewrite Nat2Z.inj_succ, Z.pow_succ_r in Hv by lia. rewrite IH.
  - rewrite Z.add_comm. symmetry. by apply Z.div_mod.
  - split; [by apply Z.div_pos; lia|]. apply Z.div_lt_upper_bound; lia.
Qed.

Lemma land_255 v : Z.land v 255 = v mod 256.
Proof. change 255 with (Z.ones 8). by rewrite Z.land_ones. Qed.

Lemma shiftr_div v k : 0 <= k -> Z.shiftr v k = v / 2 ^ k.
Proof. apply Z.shiftr_div_pow2. Qed.

(** The portable branch stores the bytes [memcpy] copies. *)
Lemma encode32_portable v : EncodeFixed32 false v = le_bytes 4 v.
Proof.
  unfold EncodeFixed32. cbn [le_bytes]. rewrite !land_255, !shiftr_div by lia.
  by rewrite !Z.div_div by lia.
Qed.

Lemma encode64_portable v : EncodeFixed64 false v = le_bytes 8 v.
Proof.
  unfold EncodeFixed64. cbn [le_bytes]. rewrite !land_255, !shiftr_div by lia.
  by rewrite !Z.div_div by lia.
Qed.

(** Disjoint bits: [or] is addition. *)
Lemma lor_add a b k : 0 <= k -> 0 <= a < 2 ^ k -> Z.lor a (Z.shiftl b k) = a + 2 ^ k * b.
Proof.
  intros Hk Ha. assert (Hl : Z.land a (Z.shiftl b k) = 0).
  { apply Z.bits_inj'. intros n Hn. rewrite Z.land_spec, Z.bits_0, Z.shiftl_spec by done.
    destruct (Z.lt_ge_cases n k).
    - rewrite (Z.testbit_neg_r b) by lia. apply andb_false_r.
    - destruct (decide (a = 0)) as [->|]; [by rewrite Z.bits_0|].
      rewrite (Z.bits_above_log2 a n); [done | lia |].
      apply Z.log2_lt_pow2; [lia|]. assert (2 ^ k <= 2 ^ n) by (apply Z.pow_le_mono_r; lia). lia. }
  assert (H := Z.add_lor_land a (Z.shiftl b k)). rewrite Hl, Z.add_0_r in H. rewrite H, Z.shiftl_mul_pow2 by done. lia.
Qed.

Lemma decode32_portable b0 b1 b2 b3 rest :
  bytes [b0; b1; b2; b3] ->
  DecodeFixed32 false (b0 :: b1 :: b2 :: b3 :: rest) = DecodeFixed32 true (b0 :: b1 :: b2 :: b3 :: rest).
Proof.
  unfold bytes. rewrite !Forall_cons. intros (H0 & H1 & H2 & H3 & _). unfold DecodeFixed32. f_equal.
  rewrite !u32_small by (rewrite Z.shiftl_mul_pow2; lia).
  rewrite (lor_add b0 b1 8), (lor_add _ b2 16), (lor_add _ b3 24) by lia. cbn [of_le_bytes]. lia.
Qed.

Lemma decode32_bound ptr v : bytes ptr -> DecodeFixed32 true ptr = Some v -> 0 <= v < 2 ^ 32.
Proof.
  unfold bytes. destruct ptr as [|b0 [|b1 [|b2 [|b3 rest]]]]; try done. rewrite !Forall_cons.
  intros (H0 & H1 & H2 & H3 & _) [= <-]. lia.
Qed.

Lemma decode64_portable ptr : bytes ptr -> DecodeFixed64 false ptr = DecodeFixed64 true ptr.
Proof.
  unfold bytes. destruct ptr as [|b0 [|b1 [|b2 [|b3 [|b4 [|b5 [|b6 [|b7 rest]]]]]]]]; try done.
  rewrite !Forall_cons. intros (H0 & H1 & H2 & H3 & H4 & H5 & H6 & H7 & _).
  unfold DecodeFixed64. cbn [drop]. rewrite !decode32_portable by (unfold bytes; rewrite !Forall_cons; auto).
  cbn [DecodeFixed32 mbind option_bind]. f_equal. cbn [of_le_bytes].
  rewrite u64_small by (rewrite Z.shiftl_mul_pow2; lia).
  rewrite Z.lor_comm, (lor_add _ _ 32) by lia. lia.
Qed.

Lemma decode_encode32 le1 le2 v rest :
  0 <= v < 2 ^ 32 -> DecodeFixed32 le2 (EncodeFixed32 le1 v ++ rest) = Some v.
Proof.
  intros Hv. assert (He : EncodeFixed32 le1 v = le_bytes 4 v) by (destruct le1; [done | apply encode32_portable]).
  assert (Hb := le_bytes_ok 4 v ltac:(lia)). rewrite He.
  transitivity (DecodeFixed32 true (le_bytes 4 v ++ rest)).
  - destruct le2; [done|]. cbn [le_bytes app] in *. by apply decode32_portable.
  - cbn [le_bytes app DecodeFixed32]. f_equal. apply (of_le_bytes_le 4). cbn. lia.
Qed.

Lemma decode_encode64 le1 le2 w rest :
  0 <= w < 2 ^ 64 -> DecodeFixed64 le2 (EncodeFixed64 le1 w ++ rest) = Some w.
Proof.
  intros Hw. assert (He : EncodeFixed64 le1 w = le_bytes 8 w) by (destruct le1; [done | apply encode64_portable]).
  assert (Hb := le_bytes_ok 8 w ltac:(lia)). rewrite He.
  transitivity (DecodeFixed64 true (le_bytes 8 w)).
  - destruct le2; [done|]. rewrite <- (decode64_portable _ Hb). done.
  - cbn [le_bytes DecodeFixed64]. f_equal. apply (of_le_bytes_le 8). cbn. lia.
Qed.

Lemma length_encode32 le v : length (EncodeFixed32 le v) = 4%nat.
Proof. by destruct le. Qed.

Lemma length_encode64 le v : length (EncodeFixed64 le v) = 8%nat.
Proof. by destruct le. Qed.

(** ** The generator *)
Lemma land_RM x : Z.land x RM = x mod 2 ^ 31.
Proof. change RM with (Z.ones 31). by rewrite Z.land_ones. Qed.

(** Two words are congruent modulo [2^31 - 1] when their digits in base [2^31]
    are added. *)
Lemma fold_mod p : (p / 2 ^ 31 + p mod 2 ^ 31) mod RM = p mod RM.
Proof.
  rewrite (Z.div_mod p (2 ^ 31)) at 3 by lia. unfold RM.
  replace (2 ^ 31 * (p / 2 ^ 31) + p mod 2 ^ 31) with (p / 2 ^ 31 + p mod 2 ^ 31 + (p / 2 ^ 31) * 2147483647) by lia.
  by rewrite Z.mod_add.
Qed.

Lemma Next_mod seed_ : 0 < seed_ < RM -> Next seed_ = (seed_ * RA) mod RM /\ 0 < Next seed_ < RM.
Proof.
  intros Hs. unfold Next. unfold RM, RA in *. rewrite u64_small by lia. set (p := seed_ * 16807).
  assert (Hp : 0 < p < 2147483647 * 16807) by lia.
  assert (Hf := fold_mod p). unfold RM in Hf. rewrite Z.shiftr_div_pow2 by lia.
  assert (Hl := land_RM p). unfold RM in Hl. rewrite Hl.
  assert (Hm := Z.mod_pos_bound p (2 ^ 31) ltac:(lia)).
  assert (Hd : 0 <= p / 2 ^ 31 < 16807) by (split; [apply Z.div_pos; lia | apply Z.div_lt_upper_bound; lia]).
  assert (Hne : p mod 2147483647 <> 0).
  { intros H0. apply Z.mod_divide in H0; [|lia]. unfold p in H0. rewrite Z.mul_comm in H0.
    apply Z.gauss in H0; [|vm_compute; reflexivity]. apply Z.divide_pos_le in H0; lia. }
  assert (Hr := Z.mod_pos_bound p 2147483647 ltac:(lia)).
  set (q := p / 2 ^ 31 + p mod 2 ^ 31) in *. rewrite (u32_small q) by lia.
  destruct (Z.ltb_spec 2147483647 q).
  - rewrite u32_small by lia. replace q with (q - 2147483647 + 1 * 2147483647) in Hf by lia.
    rewrite Z.mod_add, Z.mod_small in Hf by lia. lia.
  - destruct (decide (q = 2147483647)) as [Hq|].
    + rewrite Hq, Z.mod_same in Hf by lia. lia.
    + rewrite Z.mod_small in Hf by lia. lia.
Qed.

(** ** Properties *)

(** The fixed-width codecs are inverse to each other, whichever branch
    writes and whichever reads, with any bytes behind. *)
Theorem fixed_roundtrip le1 le2 v w rest :
  0 <= v < 2 ^ 32 -> 0 <= w < 2 ^ 64 ->
  DecodeFixed32 le2 (EncodeFixed32 le1 v ++ rest) = Some v /\ DecodeFixed64 le2 (EncodeFixed64 le1 w ++ rest) = Some w.
Proof. intros Hv Hw. split; [by apply decode_encode32 | by apply decode_encode64]. Qed.

(** From a good seed [Next] computes [seed * 16807 mod (2^31 - 1)] without
    overflow and stays strictly between 0 and [2^31 - 1]; so the draws of
    [Uniform] and [Skewed] are in their ranges. *)
Theorem random_next_lehmer seed_ n max_log :
  0 < seed_ < RM -> 0 < n -> 0 <= max_log < 31 ->
  Next seed_ = (seed_ * RA) mod RM /\ 0 < Next seed_ < RM /\
  0 <= (Uniform n seed_).1 < n /\ 0 <= (Skewed max_log seed_).1 < 2 ^ max_log.
Proof.
  intros Hs Hn Hm. destruct (Next_mod seed_ Hs) as [H1 H2]. split; [done|]. split; [done|]. split; [cbn; by apply Z.mod_pos_bound|].
  unfold Skewed; cbn; set (b := Next seed_ mod (max_log + 1));
    assert (Hb := Z.mod_pos_bound (Next seed_) (max_log + 1) ltac:(lia)); fold b in Hb;
    rewrite Z.shiftl_1_l; assert (0 < 2 ^ b) by (apply Z.pow_pos_nonneg; lia);
    assert (2 ^ b <= 2 ^ max_log) by (apply Z.pow_le_mono_r; lia);
    assert (Hr := Z.mod_pos_bound (Next (Next seed_)) (2 ^ b) ltac:(lia)); lia.
Qed.

(** [GoodSeed] lets through the one seed the generator must not have:
    every word whose low 31 bits are all ones gives the seed [M], and from then
    on [Next] returns [M] for ever. *)
Theorem random_stuck_seed s k :
  0 <= s < 2 ^ 32 -> s mod 2 ^ 31 = RM -> GoodSeed s = RM /\ Nat.iter k Next RM = RM.
Proof.
  intros Hs Hm. split.
  - unfold GoodSeed. by rewrite land_RM, Hm.
  - induction k as [|k IH]; [done|].
    change (Nat.iter (S k) Next RM) with (Next (Nat.iter k Next RM)). rewrite IH. vm_compute. reflexivity.
Qed.

(** [print_from_last_end] loses a sample per report: it leaves the cursor
    one past the end, so of the samples inserted until the next report the
    first is not counted, and a single one is reported as none. *)
Theorem set_step_drops_sample s r x xs s2 :
  print_from_last_end s = (Some r, s2) -> 
  let s3 := {| data_ := data_ s2 ++ x :: xs; cursor := cursor s2; sorted := false |} in
  size_from_last_end s3 = Z.of_nat (length xs) /\
  (print_from_last_end s3).1 =
    (if bool_decide (xs = []) then None else Some ((sumQ xs / inject_Z (Z.of_nat (length xs)))%Q, Z.of_nat (length xs))).
Proof.
  intros Hp s3. unfold print_from_last_end in Hp.
  destruct ((set_size s =? 0) || (set_size s <=? cursor s)); [done|]. injection Hp as _ <-. cbn in s3.
  unfold size_from_last_end, print_from_last_end, set_size. subst s3. cbn [data_ cursor].
  rewrite length_app. cbn [length]. fold (set_size s). unfold set_size.
  rewrite (proj2 (Z.eqb_neq _ 0)) by lia. cbn [orb].
  destruct (Z.leb_spec (Z.of_nat (length (data_ s) + S (length xs))) (Z.of_nat (length (data_ s)) + 1)).
  - assert (length xs = 0)%nat as Hl by lia. apply nil_length_inv in Hl. by subst.
  - rewrite bool_decide_eq_false_2 by (intros ->; cbn in *; lia). split; [lia|]. cbn. f_equal.
    replace (Z.to_nat (Z.of_nat (length (data_ s)) + 1)) with (length (data_ s) + 1)%nat by lia.
    rewrite drop_app_add'; [|done]. cbn. do 2 f_equal; [f_equal|]; lia.
Qed.

Lemma fixed_roundtrip_witness :
  DecodeFixed32 true (EncodeFixed32 false 305419896 ++ [7]) = Some 305419896 /\
  DecodeFixed64 true (EncodeFixed64 false 1311768467463790320 ++ [7]) = Some 1311768467463790320.
Proof. apply (fixed_roundtrip false true 305419896 1311768467463790320 [7]); lia. Defined.

Lemma random_next_lehmer_witness : Next 42 = 705894 /\ 0 <= (Uniform 10 42).1 < 10.
Proof.
  destruct (random_next_lehmer 42 10 5) as (H1 & _ & H2 & _); [unfold RM; lia | lia | lia |].
  split; [rewrite H1; vm_compute; reflexivity | exact H2].
Defined.

Lemma random_stuck_seed_witness : GoodSeed 4294967295 = RM /\ Nat.iter 10 Next RM = RM.
Proof. apply random_stuck_seed; [lia | vm_compute; reflexivity]. Defined.

Lemma set_step_drops_sample_witness :
  let s := {| data_ := [5%Q]; cursor := 0; sorted := false |} in
  size_from_last_end {| data_ := data_ s ++ [9%Q]; cursor := cursor (print_from_last_end s).2; sorted := false |} = 0.
Proof. exact (proj1 (set_step_drops_sample {| data_ := [5%Q]; cursor := 0; sorted := false |} _ 9%Q [] _ eq_refl)). Defined.
