(* ===== verification/LogFormat.v ===== *)
(** * The on-disk log ([ssdlogging/spdk_logging_server.cc], [spdk_logging_recovery.cc])

    [MemCopy] lays a batch of requests out in pages of 4096 bytes; each page
    starts with the log file's sequence number, an entry is its size and its
    bytes, a size never straddles two pages, zeros fill the rest of a page.
    [ProcessData] reads the pages back.  [Stream] is the format the two agree
    on.  A request is the list of its bytes ([data_], of length [size_], which
    is below [2^32]). *)

From S2P Require Import Prelude Util.
Local Open Scope Z_scope.

Definition PAGESIZE : Z := 4096.
Definition MAX_BUFFER_SIZE : Z := 1024 * 1024.

Definition len {A} (l : list A) : Z := Z.of_nat (length l).
#[global] Arguments len : simpl never.
Definition zeros (n : Z) : list Z := replicate (Z.to_nat n) 0.
Definition takeZ {A} (n : Z) (l : list A) : list A := take (Z.to_nat n) l.
Definition dropZ {A} (n : Z) (l : list A) : list A := drop (Z.to_nat n) l.

(** ** Writing: [SPDKLoggingServer::MemCopy] *)

(** [buffer[queue_id]] as far as it is written: [offset] is its length. *)
Record writer := { buf : list Z; left_in_page : Z }.
Definition offset (w : writer) : Z := len (buf w).

(** [if (left_in_page == PAGESIZE)]: the sequence number of the log file. *)
Definition begin_page (logfile_seq_ : Z) (w : writer) : writer :=
  if left_in_page w =? PAGESIZE
  then {| buf := buf w ++ EncodeFixed32 kLittleEndian logfile_seq_; left_in_page := left_in_page w - 4 |}
  else w.

(** [while (size > 0)] *)
Fixpoint copy_data (fuel : nat) (logfile_seq_ : Z) (data : list Z) (size : Z) (w : writer) : res writer :=
  match fuel with
  | O => Crash OutOfFuel
  | S fuel =>
      if 0 <? size then
        let w := begin_page logfile_seq_ w in
        let src := dropZ (len data - size) data in
        if size <=? left_in_page w then
          copy_data fuel logfile_seq_ data 0
            {| buf := buf w ++ takeZ size src; left_in_page := left_in_page w - size |}
        else
          copy_data fuel logfile_seq_ data (size - left_in_page w)
            {| buf := buf w ++ takeZ (left_in_page w) src; left_in_page := PAGESIZE |}
      else Ok w
  end.

(** One turn of [while (head != nullptr)]. *)
Definition copy_request (logfile_seq_ : Z) (data : list Z) (w : writer) : res writer :=
  let size := len data in
  assertR (offset w + size + 4 <? MAX_BUFFER_SIZE - 4 * (MAX_BUFFER_SIZE / PAGESIZE)) ≫= fun _ =>
  let w := if left_in_page w <? 4
           then {| buf := buf w ++ zeros (left_in_page w); left_in_page := PAGESIZE |} else w in
  let w := begin_page logfile_seq_ w in
  let w := {| buf := buf w ++ EncodeFixed32 kLittleEndian size; left_in_page := left_in_page w - 4 |} in
  copy_data (S (S (Z.to_nat size))) logfile_seq_ data size w.

(** The requests from [leader] on, linked by [prev]. *)
Fixpoint copy_requests (logfile_seq_ : Z) (head : list (list Z)) (w : writer) : res writer :=
  match head with
  | [] => Ok w
  | data :: prev => w ← copy_request logfile_seq_ data w; copy_requests logfile_seq_ prev w
  end.

(** The bytes of [buffer] up to the offset returned. *)
Definition MemCopy (logfile_seq_ : Z) (leader : list (list Z)) : res (list Z) :=
  w ← copy_requests logfile_seq_ leader {| buf := []; left_in_page := PAGESIZE |};
  let w := if (0 <? left_in_page w) && (left_in_page w <? PAGESIZE)
           then {| buf := buf w ++ zeros (left_in_page w); left_in_page := left_in_page w |} else w in
  assertR (offset w mod PAGESIZE =? 0) ≫= fun _ => Ok (buf w).

(** ** Reading: [SSDLoggingRecovery::ProcessData] *)

(** [LogEntry]: [data_] up to [curr_size]. *)
Record LogEntry := { data_ : list Z; size_ : Z; log_tag_seq : Z }.
Definition curr_size (e : LogEntry) : Z := len (data_ e).
Definition new_LogEntry (size seq : Z) : LogEntry := {| data_ := []; size_ := size; log_tag_seq := seq |}.

(** [n] bytes at [page + pos]. *)
Definition load (page : list Z) (pos n : Z) : res (list Z) :=
  if pos + n <=? len page then Ok (takeZ n (dropZ pos page)) else Crash OutOfRange.
Definition load32 (page : list Z) (pos : Z) : res Z :=
  match DecodeFixed32 kLittleEndian (dropZ pos page) with Some v => Ok v | None => Crash OutOfRange end.

(** [Append(page + pos, size)] *)
Definition Append (e : LogEntry) (page : list Z) (pos size : Z) : res LogEntry :=
  assertR (curr_size e + size <=? size_ e) ≫= fun _ =>
  bs ← load page pos size;
  Ok {| data_ := data_ e ++ bs; size_ := size_ e; log_tag_seq := log_tag_seq e |}.
Definition Check_ (e : LogEntry) : bool := curr_size e =? size_ e.

(** Where the reader is: the page, [pos] and [left]; and the pages to come. *)
Record place := { page : list Z; pos : Z; left : Z; pages : list (list Z) }.
Definition fresh_page (p : list Z) (q : list (list Z)) : place :=
  {| page := p; pos := 4; left := PAGESIZE - 4; pages := q |}.
(** [pos += n; left -= n] *)
Definition advance (n : Z) (p : place) : place :=
  {| page := page p; pos := pos p + n; left := left p - n; pages := pages p |}.

(** [while (r != 0)]: the rest of an entry, from the next pages. *)
Fixpoint read_rest (e : LogEntry) (r : Z) (queue : list (list Z)) : res (LogEntry * place) :=
  match queue with
  | [] => Crash AssertFail
  | p :: queue =>
      let p := fresh_page p queue in
      if r <=? left p then
        e ← Append e (page p) (pos p) r;
        assertR (Check_ e) ≫= fun _ => Ok (e, advance r p)
      else
        e ← Append e (page p) (pos p) (left p);
        assertR (pos p + left p =? PAGESIZE) ≫= fun _ => read_rest e (r - left p) queue
  end.

(** The body of the loop from [size = DecodeFixed32(page + pos)] on; [again]
    is the next turn. *)
Definition read_entry (again : Z -> place -> res (list LogEntry)) (tag : Z) (p : place) : res (list LogEntry) :=
  size ← load32 (page p) (pos p);
  if size =? 0 then
    match pages p with
    | [] => Ok []
    | p :: queue => again tag (fresh_page p queue)
    end
  else
    let p := advance 4 p in
    let e := new_LogEntry size tag in
    if size <=? left p then
      e ← Append e (page p) (pos p) size;
      let p := advance size p in
      assertR (Check_ e) ≫= fun _ =>
      es ← again tag p; Ok (e :: es)
    else
      e ← Append e (page p) (pos p) (left p);
      assertR (pos p + left p =? PAGESIZE) ≫= fun _ =>
      '(e, p) ← read_rest e (size - left p) (pages p);
      es ← again tag p; Ok (e :: es).

Fixpoint process (fuel : nat) (tag : Z) (p : place) : res (list LogEntry) :=
  match fuel with
  | O => Crash OutOfFuel
  | S fuel =>
      tag ← (if pos p =? 4 then load32 (page p) 0 else Ok tag);
      if left p <? 4 then
        match pages p with
        | [] => Ok []
        | p :: queue => read_entry (process fuel) tag (fresh_page p queue)
        end
      else read_entry (process fuel) tag p
  end.

(** The entries put in [entry_buffer_], from the pages in [page_buffer_]. *)
Definition ProcessData (ps : list (list Z)) : res (list LogEntry) :=
  match ps with
  | [] => Ok []
  | p :: queue => process (S (length (concat ps))) 0 (fresh_page p queue)
  end.

(** The pages of a region of the device. *)
Fixpoint read_pages (n : nat) (bs : list Z) : list (list Z) :=
  match n with
  | O => []
  | S n => takeZ PAGESIZE bs :: read_pages n (dropZ PAGESIZE bs)
  end.
Definition to_pages (bs : list Z) : list (list Z) := read_pages (Z.to_nat (len bs / PAGESIZE)) bs.

(** ** Lengths *)
Lemma len_app {A} (l k : list A) : len (l ++ k) = len l + len k.
Proof. unfold len. rewrite length_app. lia. Qed.

Lemma len_nonneg {A} (l : list A) : 0 <= len l.
Proof. unfold len. lia. Qed.

Lemma len_zeros n : 0 <= n -> len (zeros n) = n.
Proof. intros. unfold len, zeros. rewrite length_replicate. lia. Qed.

Lemma len_takeZ {A} n (l : list A) : 0 <= n <= len l -> len (takeZ n l) = n.
Proof. unfold len, takeZ. intros. rewrite length_take. lia. Qed.

Lemma len_dropZ {A} n (l : list A) : 0 <= n <= len l -> len (dropZ n l) = len l - n.
Proof. unfold len, dropZ. intros. rewrite length_drop. lia. Qed.

Lemma dropZ_dropZ {A} n m (l : list A) : 0 <= n -> 0 <= m -> dropZ n (dropZ m l) = dropZ (m + n) l.
Proof. intros. unfold dropZ. rewrite drop_drop. f_equal. lia. Qed.

Lemma dropZ_0 {A} (l : list A) : dropZ 0 l = l.
Proof. done. Qed.

Lemma takeZ_all {A} n (l : list A) : n = len l -> takeZ n l = l.
Proof. intros ->. unfold takeZ, len. by rewrite Nat2Z.id, firstn_all. Qed.

Lemma dropZ_all {A} n (l : list A) : len l <= n -> dropZ n l = [].
Proof. intros. unfold dropZ. apply drop_ge. unfold len in *. lia. Qed.

Lemma takeZ_dropZ {A} n (l : list A) : takeZ n l ++ dropZ n l = l.
Proof. apply take_drop. Qed.

Lemma dropZ_app {A} n (l k : list A) : n = len l -> dropZ n (l ++ k) = k.
Proof. intros ->. unfold dropZ, len. by rewrite Nat2Z.id, drop_app_length. Qed.

Lemma takeZ_app {A} n (l k : list A) : n = len l -> takeZ n (l ++ k) = l.
Proof. intros ->. unfold takeZ, len. by rewrite Nat2Z.id, take_app_length. Qed.

Lemma dropZ_app_le {A} n (l k : list A) : 0 <= n <= len l -> dropZ n (l ++ k) = dropZ n l ++ k.
Proof. intros. unfold dropZ. apply drop_app_le. unfold len in *. lia. Qed.

Lemma takeZ_app_le {A} n (l k : list A) : 0 <= n <= len l -> takeZ n (l ++ k) = takeZ n l.
Proof. intros. unfold takeZ. apply take_app_le. unfold len in *. lia. Qed.

Lemma len_nil_inv {A} (l : list A) : len l = 0 -> l = [].
Proof. unfold len. intros. apply nil_length_inv. lia. Qed.

Lemma len_nil {A} : len (@nil A) = 0.
Proof. done. Qed.

Ltac len_lia := unfold curr_size in *; cbn in *; rewrite ?len_nil in *; lia.

Lemma page_size : PAGESIZE = 4096.
Proof. done. Qed.

(** ** The format *)
Section format.
(** What every page header satisfies. *)
Context (T : Z -> Prop).

Definition header (h : list Z) : Prop := len h = 4 /\ exists t, DecodeFixed32 kLittleEndian h = Some t /\ T t.

(** [Data left d S left' S']: with [left] bytes left in the page the stream [S]
    starts with the data [d]; [S'] and [left'] are what follows. *)
Inductive Data : Z -> list Z -> list Z -> Z -> list Z -> Prop :=
  | Data_fit left d S : len d <= left -> Data left d (d ++ S) (left - len d) S
  | Data_split left d h S left' S' :
      0 <= left < len d -> header h -> Data (PAGESIZE - 4) (dropZ left d) S left' S' ->
      Data left d (takeZ left d ++ h ++ S) left' S'.

(** [Stream left S ds]: with [left] bytes left in the page the stream [S] holds
    the entries [ds] and ends at the end of a page. *)
Inductive Stream : Z -> list Z -> list (list Z) -> Prop :=
  | Stream_end left : 0 <= left -> Stream left (zeros left) []
  | Stream_skip left h S ds :
      0 <= left -> header h -> Stream (PAGESIZE - 4) S ds -> Stream left (zeros left ++ h ++ S) ds
  | Stream_entry left d S left' S' ds :
      4 <= left -> 0 < len d < 2 ^ 32 -> Data (left - 4) d S left' S' -> Stream left' S' ds ->
      Stream left (EncodeFixed32 kLittleEndian (len d) ++ S) (d :: ds).

(** [k] pages are begun on the way. *)
Lemma data_pages left d S left' S' :
  Data left d S left' S' -> 0 <= left -> exists k, 0 <= k /\
    len S - len S' = left - left' + k * PAGESIZE /\ len S - len S' = len d + 4 * k /\
    (len d <= left /\ k = 0 \/ (PAGESIZE - 4) * (k - 1) < len d - left).
Proof.
  induction 1 as [left d S Hl | left d h S left' S' Hl Hh HD IH]; intros H0.
  - exists 0. rewrite len_app. lia.
  - destruct IH as (k & Hk & H1 & H2 & H3); [rewrite page_size; lia|]. exists (k + 1).
    destruct Hh as [Hh _]. rewrite !len_app, len_takeZ by lia. rewrite len_dropZ in H2, H3 by lia. rewrite page_size in *. lia.
Qed.

Lemma data_len left d S left' S' :
  Data left d S left' S' -> 0 <= left -> 0 <= left' /\ len S' <= len S /\
  exists k, 0 <= k /\ len S - left = len S' - left' + k * PAGESIZE.
Proof.
  intros HD H0. destruct (data_pages _ _ _ _ _ HD H0) as (k & Hk & H1 & H2 & _). assert (H3 := len_nonneg d).
  split; [|split; [lia | exists k; lia]]. clear -HD H0.
  induction HD; [lia|]. apply IHHD. rewrite page_size. lia.
Qed.

Lemma stream_len left S ds :
  Stream left S ds -> 0 <= left /\ exists k, 0 <= k /\ len S = left + k * PAGESIZE.
Proof.
  induction 1 as [left Hl | left h S ds Hl Hh HS [_ (k & Hk & IH)] | left d S left' S' ds Hl Hd HD HS [Hl' (k & Hk & IH)]].
  - split; [done|]. exists 0. rewrite len_zeros by lia. lia.
  - split; [done|]. destruct Hh as [Hh _]. exists (k + 1). rewrite !len_app, len_zeros by lia. lia.
  - split; [lia|]. apply data_len in HD as (_ & _ & j & Hj & HD); [|lia]. exists (j + k).
    rewrite len_app. change (len (EncodeFixed32 kLittleEndian (len d))) with 4. lia.
Qed.

Lemma data_end left d S left' S' :
  Data left d S left' S' -> 0 <= left -> 0 < len d -> 0 <= left' < Z.max left (PAGESIZE - 4).
Proof.
  induction 1 as [left d S Hl | left d h S left' S' Hl Hh HD IH]; intros H0 Hd; [lia|].
  rewrite len_dropZ in IH by lia. rewrite page_size in *. lia.
Qed.
End format.

(** ** The reader reads the format *)
Lemma load_ok (l : list Z) p n : 0 <= n -> p + n <= len l -> load l p n = Ok (takeZ n (dropZ p l)).
Proof. intros. unfold load. by rewrite (proj2 (Z.leb_le _ _)) by lia. Qed.

Lemma decode_app h (S : list Z) :
  len h = 4 -> DecodeFixed32 kLittleEndian (h ++ S) = DecodeFixed32 kLittleEndian h.
Proof.
  intros Hh. assert (length h = 4%nat) as Hl by (unfold len in Hh; lia).
  by destruct h as [|b0 [|b1 [|b2 [|b3 [|]]]]].
Qed.

Lemma Append_ok e pg ps n :
  0 <= n -> curr_size e + n <= size_ e -> ps + n <= len pg ->
  Append e pg ps n = Ok {| data_ := data_ e ++ takeZ n (dropZ ps pg); size_ := size_ e; log_tag_seq := log_tag_seq e |}.
Proof.
  intros. unfold Append. rewrite (proj2 (Z.leb_le _ _)) by lia. cbn [assertR mbind res_bind].
  by rewrite load_ok by lia.
Qed.

(** The reader is at place [p], with [S] ahead. *)
Record At (p : place) (S : list Z) : Prop := {
  at_page : len (page p) = PAGESIZE;
  at_pages : Forall (fun q => len q = PAGESIZE) (pages p);
  at_pos : 4 <= pos p;
  at_left : left p = PAGESIZE - pos p;
  at_left0 : 0 <= left p;
  at_ahead : S = dropZ (pos p) (page p) ++ concat (pages p)
}.

Lemma at_here p S : At p S -> takeZ (left p) S = dropZ (pos p) (page p) /\ len (dropZ (pos p) (page p)) = left p.
Proof.
  intros [H1 _ H3 H4 H5 H6]. assert (len (dropZ (pos p) (page p)) = left p) as Hl by (rewrite len_dropZ; lia).
  split; [|done]. rewrite H6. by apply takeZ_app.
Qed.

Lemma at_advance p S1 S2 : At p (S1 ++ S2) -> len S1 <= left p -> At (advance (len S1) p) S2.
Proof.
  intros HA Hl. assert (Hh := at_here _ _ HA). destruct HA as [H1 H2 H3 H4 H5 H6]. assert (H0 := len_nonneg S1).
  split; cbn; try done; try lia.
  rewrite <- (dropZ_app (len S1) S1 S2 eq_refl), H6, dropZ_app_le by lia. f_equal. apply dropZ_dropZ; lia.
Qed.

(** Past the end of the page. *)
Lemma at_next p S1 h S2 T :
  At p (S1 ++ h ++ S2) -> len S1 = left p -> header T h ->
  exists pg q, pages p = pg :: q /\ At (fresh_page pg q) S2 /\ exists t, load32 pg 0 = Ok t /\ T t.
Proof.
  intros HA Hl [Hh (t & Ht & HT)]. assert (Hx := at_here _ _ HA). destruct HA as [H1 H2 H3 H4 H5 H6].
  assert (Hq : h ++ S2 = concat (pages p)).
  { apply (f_equal (dropZ (left p))) in H6. rewrite !dropZ_app in H6 by lia. done. }
  destruct (pages p) as [|pg q] eqn:Hp.
  { apply (f_equal len) in Hq. rewrite len_app in Hq. cbn in Hq. assert (Hs := len_nonneg S2). change (len (@nil Z)) with 0 in Hq. lia. }
  exists pg, q. split; [done|]. apply Forall_cons in H2 as [H2 H2']. cbn in Hq.
  assert (Hpg : pg = h ++ dropZ 4 pg).
  { rewrite <- (takeZ_dropZ 4 pg) at 1. f_equal. rewrite <- (takeZ_app_le 4 pg (concat q)), <- Hq by (rewrite H2, page_size; lia).
    by apply takeZ_app. }
  split.
  - split; cbn; try done; try (rewrite page_size; lia).
    apply (f_equal (dropZ 4)) in Hq. rewrite dropZ_app in Hq by lia. rewrite Hq. apply dropZ_app_le. rewrite H2, page_size. lia.
  - exists t. split; [|done]. unfold load32. rewrite dropZ_0, Hpg, decode_app, Ht by done. done.
Qed.

Lemma at_end p S : At p S -> len S = left p -> pages p = [].
Proof.
  intros HA Hl. assert (Hx := at_here _ _ HA). destruct HA as [_ H2 _ _ _ H6]. rewrite H6, len_app in Hl.
  destruct (pages p) as [|pg q]; [done|]. apply Forall_cons in H2 as [H2 _]. cbn in Hl. rewrite len_app in Hl.
  assert (H0 := len_nonneg (concat q)). rewrite page_size in H2. lia.
Qed.

Lemma at_decode p h S v :
  At p (h ++ S) -> len h = 4 -> 4 <= left p -> DecodeFixed32 kLittleEndian h = Some v -> load32 (page p) (pos p) = Ok v.
Proof.
  intros HA Hh Hl Hv. assert (Hx := at_here _ _ HA). destruct HA as [H1 _ H3 H4 _ H6]. unfold load32.
  assert (Ht : takeZ 4 (dropZ (pos p) (page p)) = h).
  { rewrite <- (takeZ_app_le 4 _ (concat (pages p))), <- H6 by lia. by apply takeZ_app. }
  by rewrite <- (takeZ_dropZ 4 (dropZ (pos p) (page p))), Ht, decode_app, Hv.
Qed.

(** Append what is ahead in this page. *)
Lemma at_append p S1 S2 e :
  At p (S1 ++ S2) -> len S1 <= left p -> curr_size e + len S1 <= size_ e ->
  Append e (page p) (pos p) (len S1) = Ok {| data_ := data_ e ++ S1; size_ := size_ e; log_tag_seq := log_tag_seq e |}.
Proof.
  intros HA Hl He. assert (Hx := at_here _ _ HA). destruct HA as [H1 _ H3 H4 _ H6]. assert (H0 := len_nonneg S1).
  rewrite Append_ok by lia. repeat f_equal.
  rewrite <- (takeZ_app_le _ _ (concat (pages p))), <- H6 by lia. by apply takeZ_app.
Qed.

Section reading.
Context (T : Z -> Prop).

Lemma read_rest_ok l d S left' S' :
  Data T l d S left' S' -> forall e pg q,
  l = PAGESIZE - 4 -> At (fresh_page pg q) S -> curr_size e + len d = size_ e -> 0 < len d ->
  exists p, read_rest e (len d) (pg :: q) = Ok ({| data_ := data_ e ++ d; size_ := size_ e; log_tag_seq := log_tag_seq e |}, p) /\
    At p S' /\ left p = left' /\ pos p <> 4.
Proof.
  induction 1 as [l d S Hl | l d h S left' S' Hl Hh HD IH]; intros e pg q -> HA He Hd; cbn [read_rest].
  - change (left (fresh_page pg q)) with (PAGESIZE - 4). rewrite (proj2 (Z.leb_le _ _)) by lia.
    rewrite (at_append _ _ _ _ HA) by (cbn; lia). cbn [mbind res_bind]. unfold Check_, curr_size. cbn [data_ size_].
    rewrite len_app, (proj2 (Z.eqb_eq _ _)) by (unfold curr_size in He; lia).
    eexists. split; [reflexivity|]. split; [by apply (at_advance _ d)|]. cbn. split; [done|]. lia.
  - change (left (fresh_page pg q)) with (PAGESIZE - 4). rewrite (proj2 (Z.leb_gt _ _)) by lia.
    assert (Ht : len (takeZ (PAGESIZE - 4) d) = PAGESIZE - 4) by (apply len_takeZ; lia).
    assert (Ha := at_append _ _ _ e HA). rewrite Ht in Ha. rewrite Ha by len_lia. cbn [mbind res_bind].
    destruct (at_next _ _ _ _ T HA) as (pg' & q' & Hq & HA' & _); [by rewrite Ht | done |]. cbn in Hq. subst q.
    rewrite (proj2 (Z.eqb_eq _ _)) by (cbn; lia). cbn [assertR mbind res_bind].
    assert (Hr : len d - (PAGESIZE - 4) = len (dropZ (PAGESIZE - 4) d)) by (rewrite len_dropZ; lia). rewrite Hr.
    destruct (IH {| data_ := data_ e ++ takeZ (PAGESIZE - 4) d; size_ := size_ e; log_tag_seq := log_tag_seq e |} pg' q')
      as (p & -> & H1); [done | done | | lia |].
    { unfold curr_size in *. cbn. rewrite len_app, Ht. lia. }
    exists p. split; [|done]. cbn. by rewrite <- (assoc_L (++)), takeZ_dropZ.
Qed.

Definition reads (r : res (list LogEntry)) (ds : list (list Z)) : Prop :=
  exists es, r = Ok es /\ data_ <$> es = ds /\ Forall (fun e => T (log_tag_seq e)) es.

Lemma reads_cons r e d ds :
  data_ e = d -> T (log_tag_seq e) -> reads r ds -> reads (es ← r; Ok (e :: es)) (d :: ds).
Proof. intros <- HT (es & -> & <- & Hes). exists (e :: es). cbn. split_and!; [done | done |]. by constructor. Qed.

(** An entry at the reader's place. *)
Lemma read_entry_data again tag p d S left' S' ds :
  At p (EncodeFixed32 kLittleEndian (len d) ++ S) -> 4 <= left p -> 0 < len d < 2 ^ 32 ->
  Data T (left p - 4) d S left' S' -> T tag ->
  (forall p', At p' S' -> left p' = left' -> pos p' <> 4 -> reads (again tag p') ds) ->
  reads (read_entry again tag p) (d :: ds).
Proof.
  intros HA Hl Hd HD HT Hk. unfold read_entry.
  assert (Hdec : DecodeFixed32 kLittleEndian (EncodeFixed32 kLittleEndian (len d)) = Some (len d)).
  { rewrite <- (app_nil_r (EncodeFixed32 _ _)). apply decode_encode32. lia. }
  rewrite (at_decode _ _ _ _ HA eq_refl Hl Hdec). cbn [mbind res_bind].
  rewrite (proj2 (Z.eqb_neq _ _)) by lia.
  assert (HA' := at_advance _ _ _ HA Hl : At (advance 4 p) S).
  assert (Hp := at_pos _ _ HA'). cbn in Hp. change (left (advance 4 p)) with (left p - 4). inversion HD; subst.
  - rewrite (proj2 (Z.leb_le _ _)) by lia.
    rewrite (at_append _ _ _ (new_LogEntry (len d) tag) HA') by len_lia. cbn [mbind res_bind].
    unfold Check_, curr_size. cbn [data_ size_ new_LogEntry app]. rewrite Z.eqb_refl. cbn [assertR].
    apply (reads_cons _ {| data_ := d; size_ := len d; log_tag_seq := tag |}); [done | done |].
    apply Hk; [by apply at_advance; [|cbn] | cbn; lia | cbn; lia].
  - rewrite (proj2 (Z.leb_gt _ _)) by lia.
    assert (Ht : len (takeZ (left p - 4) d) = left p - 4) by (apply len_takeZ; lia).
    assert (Ha := at_append _ _ _ (new_LogEntry (len d) tag) HA'). rewrite Ht in Ha. rewrite Ha by len_lia.
    cbn [mbind res_bind].
    rewrite (proj2 (Z.eqb_eq _ _)) by (assert (Hx := at_left _ _ HA'); cbn in Hx |- *; lia). cbn [assertR].
    destruct (at_next _ _ _ _ T HA') as (pg & q & Hq & HA2 & _); [by rewrite Ht | done |]. rewrite Hq.
    assert (Hr : len d - (left p - 4) = len (dropZ (left p - 4) d)) by (rewrite len_dropZ; lia). rewrite Hr.
    destruct (read_rest_ok _ _ _ _ _ ltac:(eassumption) {| data_ := [] ++ takeZ (left p - 4) d; size_ := len d; log_tag_seq := tag |} pg q)
      as (p' & Hrr & HA3 & Hl3 & Hp3); [done | done | cbn; unfold curr_size; cbn; lia | lia |].
    unfold new_LogEntry. cbn [data_ size_ log_tag_seq]. rewrite Hrr. cbn [mbind res_bind app data_ size_ log_tag_seq].
    rewrite takeZ_dropZ. apply reads_cons; [done | done |]. by apply Hk.
Qed.

Lemma read_stream l S ds :
  Stream T l S ds -> forall fuel tag p, At p S -> left p = l ->
  (4 <= l -> len S <= Z.of_nat fuel -> T tag -> reads (read_entry (process fuel) tag p) ds) /\
  (len S < Z.of_nat fuel -> (if pos p =? 4 then exists t, load32 (page p) 0 = Ok t /\ T t else T tag) ->
   reads (process fuel tag p) ds).
Proof.
  (* the second part follows from the first, except for a short rest of the page *)
  assert (Hsecond : forall l S ds fuel tag p, At p S -> left p = l -> Stream T l S ds ->
    (forall fuel tag, 4 <= l -> len S <= Z.of_nat fuel -> T tag -> reads (read_entry (process fuel) tag p) ds) ->
    (forall fuel tag, l < 4 -> T tag -> len S <= Z.of_nat fuel -> reads (match pages p with [] => Ok [] | pg :: q => read_entry (process fuel) tag (fresh_page pg q) end) ds) ->
    len S < Z.of_nat fuel -> (if pos p =? 4 then exists t, load32 (page p) 0 = Ok t /\ T t else T tag) ->
    reads (process fuel tag p) ds).
  { intros l' S' ds' fuel tag p HA Hl HS Hk1 Hk2 Hf Ht. destruct fuel as [|fuel]; [assert (H0 := len_nonneg S'); lia|].
    cbn [process]. set (tg := if pos p =? 4 then _ else _).
    assert (exists t, tg = Ok t /\ T t) as (t & -> & HT).
    { unfold tg. destruct (pos p =? 4); [done | by exists tag]. }
    cbn [mbind res_bind]. rewrite Hl. destruct (Z.ltb_spec l' 4); [apply Hk2 | apply Hk1]; try done; lia. }
  induction 1 as [l Hl | l h S ds Hl Hh HS IH | l d S left' S' ds Hl Hd HD HS IH]; intros fuel tag p HA Hp.
  - assert (Hq : pages p = []) by (apply (at_end _ _ HA); rewrite len_zeros; lia).
    assert (H1 : forall fuel tag, 4 <= l -> reads (read_entry (process fuel) tag p) []).
    { intros fuel' tag' H4. unfold read_entry.
      rewrite (at_decode _ (zeros 4) (zeros (l - 4)) 0); [| |done|lia|done].
      - cbn [mbind res_bind]. rewrite Z.eqb_refl, Hq. by exists [].
      - replace (zeros 4 ++ zeros (l - 4)) with (zeros l); [done|]. unfold zeros. rewrite <- replicate_add. f_equal. lia. }
    split; [eauto|]. eapply Hsecond; try done; eauto; [by apply Stream_end|]. intros. rewrite Hq. by exists [].
  - destruct (at_next _ _ _ _ T HA) as (pg & q & Hq & HA' & Ht); [by rewrite len_zeros | done |].
    assert (Hlen : len (zeros l ++ h ++ S) = l + 4 + len S) by (destruct Hh as [Hh _]; rewrite !len_app, len_zeros by lia; lia).
    assert (H1 : forall fuel tag, 4 <= l -> len (zeros l ++ h ++ S) <= Z.of_nat fuel -> T tag -> reads (read_entry (process fuel) tag p) ds).
    { intros fuel' tag' H4 Hf HT. unfold read_entry.
      rewrite (at_decode _ (zeros 4) (zeros (l - 4) ++ h ++ S) 0); [| |done|lia|done].
      - cbn [mbind res_bind]. rewrite Z.eqb_refl, Hq. apply (IH fuel' tag' _ HA' eq_refl); [lia | done].
      - rewrite (assoc_L (++)). replace (zeros 4 ++ zeros (l - 4)) with (zeros l); [done|].
        unfold zeros. rewrite <- replicate_add. f_equal. lia. }
    split; [eauto|]. eapply Hsecond; try done; eauto; [by apply Stream_skip|]. intros fuel' tag' H4 HT Hf. rewrite Hq.
    apply (IH fuel' tag' _ HA' eq_refl); [rewrite page_size; lia | lia | done].
  - assert (Hlen := data_len T _ _ _ _ _ HD ltac:(lia)).
    assert (H1 : forall fuel tag, 4 <= l -> len (EncodeFixed32 kLittleEndian (len d) ++ S) <= Z.of_nat fuel -> T tag ->
      reads (read_entry (process fuel) tag p) (d :: ds)).
    { intros fuel' tag' H4 Hf HT. rewrite len_app in Hf. change (len (EncodeFixed32 kLittleEndian (len d))) with 4 in Hf.
      eapply read_entry_data; rewrite ?Hp; try done. intros p' HA' Hl' Hp'.
      apply (IH fuel' tag' p' HA' Hl'); [lia|]. by rewrite (proj2 (Z.eqb_neq _ _)) by done. }
    split; [eauto|]. eapply Hsecond; try done; eauto; [by eapply Stream_entry|]. lia.
Qed.

(** What is read from the pages of a stream that starts a page. *)
Lemma process_data_ok h S ds ps :
  header T h -> Stream T (PAGESIZE - 4) S ds -> concat ps = h ++ S -> Forall (fun q => len q = PAGESIZE) ps ->
  reads (ProcessData ps) ds.
Proof.
  intros Hh HS Hc Hp. destruct ps as [|pg q].
  { apply (f_equal len) in Hc. destruct Hh as [Hh _]. rewrite len_app, Hh in Hc. assert (H0 := len_nonneg S). by change (len (concat [])) with 0 in Hc; lia. }
  apply Forall_cons in Hp as [Hpg Hq]. unfold ProcessData. cbn in Hc.
  destruct (at_next {| page := pg; pos := PAGESIZE; left := 0; pages := pg :: q |} [] h S T) as (pg' & q' & [= -> ->] & HA' & Ht);
    [| done | done |].
  { split; cbn; try done. - by constructor. - rewrite dropZ_all by lia. cbn. by rewrite Hc. }
  apply (read_stream _ _ _ HS); [done | done | | done].
  change (concat (pg' :: q')) with (pg' ++ concat q'). rewrite Hc, length_app. destruct Hh as [Hh _]. unfold len in *. lia.
Qed.
End reading.
