(* ===== verification/LogRoundtrip.v ===== *)
(** * What is logged is recovered

    [MemCopy] writes the format of [LogFormat] and stays within its buffer, so
    that [ProcessData] recovers the entries. *)

From S2P Require Import Prelude Util LogFormat.
Local Open Scope Z_scope.

(** ** The writer writes the format *)
#[local] Arguments EncodeFixed32 : simpl never.
Section writing.
Context (T : Z -> Prop) (seq : Z) (Hseq : 0 <= seq < 2 ^ 32) (HT : T seq).

Lemma header_seq : header T (EncodeFixed32 kLittleEndian seq).
Proof.
  split; [done|]. exists seq. split; [|done]. rewrite <- (app_nil_r (EncodeFixed32 _ _)). by apply decode_encode32.
Qed.

Lemma begin_page_no w : left_in_page w <> PAGESIZE -> begin_page seq w = w.
Proof. intros. unfold begin_page. by rewrite (proj2 (Z.eqb_neq _ _)). Qed.

Lemma begin_page_yes b :
  begin_page seq {| buf := b; left_in_page := PAGESIZE |} =
  {| buf := b ++ EncodeFixed32 kLittleEndian seq; left_in_page := PAGESIZE - 4 |}.
Proof. done. Qed.

(** As [Data], also from a page that is about to begin. *)
Definition Cont l d S l' S' : Prop :=
  if l =? PAGESIZE
  then exists S1, S = EncodeFixed32 kLittleEndian seq ++ S1 /\ Data T (PAGESIZE - 4) d S1 l' S'
  else Data T l d S l' S'.

Lemma copy_data_ok data fuel size b l :
  0 < size <= len data -> 0 <= l <= PAGESIZE -> size + (if l =? 0 then 2 else 1) <= Z.of_nat fuel ->
  exists bs l', copy_data fuel seq data size {| buf := b; left_in_page := l |} = Ok {| buf := b ++ bs; left_in_page := l' |} /\
    0 <= l' < PAGESIZE /\ forall S, Cont l (dropZ (len data - size) data) (bs ++ S) l' S.
Proof.
  revert size b l. induction fuel as [|fuel IH]; intros size b l Hs Hl Hf; [destruct (l =? 0); lia|]. cbn [copy_data].
  rewrite (proj2 (Z.ltb_lt _ _)) by lia.
  set (d := dropZ (len data - size) data). assert (Hd : len d = size) by (unfold d; rewrite len_dropZ; lia).
  (* the header, if a page begins *)
  set (h := if l =? PAGESIZE then EncodeFixed32 kLittleEndian seq else []).
  set (m := if l =? PAGESIZE then PAGESIZE - 4 else l).
  assert (Hb : begin_page seq {| buf := b; left_in_page := l |} = {| buf := b ++ h; left_in_page := m |}).
  { unfold begin_page, h, m. cbn. destruct (Z.eqb_spec l PAGESIZE) as [->|]; [done|]. by rewrite app_nil_r. }
  assert (Hm : 0 <= m < PAGESIZE) by (unfold m; destruct (Z.eqb_spec l PAGESIZE); rewrite page_size in *; lia).
  assert (HC : forall S l' S', Data T m d S l' S' -> Cont l d (h ++ S) l' S').
  { intros S l' S' HD. unfold Cont, h, m in *. destruct (l =? PAGESIZE); [by exists S | done]. }
  rewrite Hb. cbn [buf left_in_page]. destruct (Z.leb_spec size m).
  - exists (h ++ takeZ size d), (m - size). split; [|split; [lia|]].
    + destruct fuel; [destruct (l =? 0); lia|]. cbn. by rewrite (assoc_L (++)).
    + intros S. rewrite <- (assoc_L (++)), takeZ_all by done. apply HC. rewrite <- Hd. apply Data_fit. lia.
  - destruct (IH (size - m) ((b ++ h) ++ takeZ m d) PAGESIZE) as (bs & l' & Hc & Hl' & HD); [lia | lia | |].
    { change (PAGESIZE =? 0) with false. cbn iota. unfold m in *. clear -Hf Hs Hl Hm H. rewrite page_size in *. revert Hf Hm H.
      destruct (Z.eqb_spec l 0), (Z.eqb_spec l 4096); lia. }
    exists (h ++ takeZ m d ++ bs), l'. rewrite !(assoc_L (++)). split; [done|]. split; [done|].
    intros S. rewrite <- !(assoc_L (++)). apply HC. destruct (HD S) as (S1 & -> & HD1).
    apply Data_split; [lia | apply header_seq |].
    replace (dropZ m d) with (dropZ (len data - (size - m)) data); [done|]. unfold d. rewrite dropZ_dropZ by lia. f_equal. lia.
Qed.
Lemma copy_all data b l :
  0 <= l < PAGESIZE -> exists bs l',
  copy_data (S (S (Z.to_nat (len data)))) seq data (len data) {| buf := b; left_in_page := l |} = Ok {| buf := b ++ bs; left_in_page := l' |} /\
  0 <= l' < PAGESIZE /\ forall S, Data T l data (bs ++ S) l' S.
Proof.
  intros Hl. assert (Hd := len_nonneg data). destruct (decide (len data = 0)) as [H0|].
  - exists [], l. rewrite H0. cbn. rewrite app_nil_r. split_and!; [done | lia | lia |]. intros S.
    rewrite (len_nil_inv data H0). assert (HD := Data_fit T l [] S). rewrite len_nil, Z.sub_0_r in HD. apply HD. lia.
  - destruct (copy_data_ok data (S (S (Z.to_nat (len data)))) (len data) b l) as (bs & l' & Hc & Hl' & HD); [lia | lia | destruct (l =? 0); lia |].
    exists bs, l'. split; [done|]. split; [done|]. intros S. specialize (HD S). unfold Cont in HD.
    rewrite Z.sub_diag, dropZ_0, (proj2 (Z.eqb_neq _ _)) in HD by lia. done.
Qed.

Definition Open l S ds : Prop :=
  if l =? PAGESIZE
  then exists S1, S = EncodeFixed32 kLittleEndian seq ++ S1 /\ Stream T (PAGESIZE - 4) S1 ds
  else Stream T l S ds.

(** [k] pages are begun, for [s] bytes of sizes and data. *)
Record Filled (w : writer) (k s : Z) : Prop := {
  filled_pages : offset w + left_in_page w = k * PAGESIZE;
  filled_left : 0 <= left_in_page w <= PAGESIZE;
  filled_room : offset w <= s + 7 * (if left_in_page w =? PAGESIZE then k - 1 else k);
  filled_data : 0 <= s
}.

Definition room : Z := MAX_BUFFER_SIZE - 4 * (MAX_BUFFER_SIZE / PAGESIZE).

(** What [copy_request] writes before the data. *)
Definition prologue (w : writer) (size : Z) : list Z * Z :=
  let l := left_in_page w in
  if l =? PAGESIZE then (EncodeFixed32 kLittleEndian seq ++ EncodeFixed32 kLittleEndian size, PAGESIZE - 8)
  else if l <? 4 then (zeros l ++ EncodeFixed32 kLittleEndian seq ++ EncodeFixed32 kLittleEndian size, PAGESIZE - 8)
  else (EncodeFixed32 kLittleEndian size, l - 4).

Lemma copy_request_eq d w :
  offset w + len d + 4 < room ->
  copy_request seq d w = copy_data (S (S (Z.to_nat (len d)))) seq d (len d)
    {| buf := buf w ++ (prologue w (len d)).1; left_in_page := (prologue w (len d)).2 |}.
Proof.
  intros Hr. unfold copy_request. fold room. rewrite (proj2 (Z.ltb_lt _ _) Hr). cbn [assertR mbind res_bind].
  unfold prologue, begin_page. destruct w as [b l]. cbn [buf left_in_page].
  destruct (Z.eqb_spec l PAGESIZE) as [->|Hne].
  - cbn [Z.ltb]. change (PAGESIZE <? 4) with false. cbn [buf left_in_page]. rewrite Z.eqb_refl. cbn [buf left_in_page fst snd].
    rewrite <- (assoc_L (++)). f_equal.
  - destruct (Z.ltb_spec l 4); cbn [buf left_in_page fst snd].
    + rewrite Z.eqb_refl. cbn [buf left_in_page]. rewrite <- !(assoc_L (++)). f_equal.
    + rewrite (proj2 (Z.eqb_neq _ _)) by done. done.
Qed.

Lemma len_encode v : len (EncodeFixed32 kLittleEndian v) = 4.
Proof. done. Qed.

Ltac filled :=
  split; cbn; unfold offset; cbn; rewrite ?len_app, ?len_encode, ?len_zeros by lia;
  try match goal with |- context [?l =? PAGESIZE] => destruct (Z.eqb_spec l PAGESIZE) end;
  rewrite ?page_size in *; lia.

Lemma copy_request_ok d w k s :
  Filled w k s -> offset w + len d + 4 < room ->
  exists bs l' k', copy_request seq d w = Ok {| buf := buf w ++ bs; left_in_page := l' |} /\
    l' < PAGESIZE /\ k <= k' /\ k' * PAGESIZE <= MAX_BUFFER_SIZE /\
    Filled {| buf := buf w ++ bs; left_in_page := l' |} k' (s + len d + 4) /\
    (0 < len d < 2 ^ 32 -> forall S ds, Stream T l' S ds -> Open (left_in_page w) (bs ++ S) (d :: ds)).
Proof.
  intros [Hp Hl Hs Hs0] Hr. rewrite copy_request_eq by done. assert (Hd := len_nonneg d).
  assert (Hpl : 0 <= (prologue w (len d)).2 < PAGESIZE).
  { unfold prologue. destruct (Z.eqb_spec (left_in_page w) PAGESIZE), (Z.ltb_spec (left_in_page w) 4); cbn; rewrite ?page_size in *; lia. }
  destruct (copy_all d (buf w ++ (prologue w (len d)).1) _ Hpl) as (bs & l' & -> & Hl' & HD).
  destruct (data_pages T _ _ _ _ _ (HD []) ltac:(lia)) as (j & Hj & H1 & H2 & H3).
  rewrite app_nil_r, len_nil in *.
  exists ((prologue w (len d)).1 ++ bs), l'. unfold prologue, Open in *.
  unfold offset in *.
  assert (Hx : room = 1047552 /\ MAX_BUFFER_SIZE = 1048576) by done. destruct Hx as [Hroom Hmax]. rewrite Hroom in Hr. rewrite Hmax.
  assert (H0 := len_nonneg (buf w)).
  destruct (Z.eqb_spec (left_in_page w) PAGESIZE) as [Heq|Hne]; [|destruct (Z.ltb_spec (left_in_page w) 4)]; cbn [fst snd] in *.
  - exists (k + j). rewrite !(assoc_L (++)). split_and!; [done | lia | lia | rewrite page_size in *; lia | |].
    + filled.
    + intros Hd' S ds HS. rewrite <- !(assoc_L (++)). eexists. split; [done|].
      apply (Stream_entry T _ d _ l' S); [rewrite page_size; lia | done | | done]. apply HD.
  - exists (k + 1 + j). rewrite !(assoc_L (++)). split_and!; [done | lia | lia | rewrite page_size in *; lia | |].
    + filled.
    + intros Hd' S ds HS. rewrite <- !(assoc_L (++)). apply Stream_skip; [lia | apply header_seq |].
      apply (Stream_entry T _ d _ l' S); [rewrite page_size; lia | done | | done]. apply HD.
  - exists (k + j). rewrite !(assoc_L (++)). split_and!; [done | lia | lia | rewrite page_size in *; lia | |].
    + filled.
    + intros Hd' S ds HS. rewrite <- !(assoc_L (++)).
      apply (Stream_entry T _ d _ l' S); [lia | done | | done]. apply HD.
Qed.
(** What a batch takes without headers and padding. *)
Definition payload (reqs : list (list Z)) : Z := foldr (fun d n => len d + 4 + n) 0 reqs.
Definition entry_ok (d : list Z) : Prop := 0 < len d < 2 ^ 32.

Lemma payload_nonneg reqs : 0 <= payload reqs.
Proof.
  induction reqs as [|d reqs IH]; [done|]. change (payload (d :: reqs)) with (len d + 4 + payload reqs).
  assert (H0 := len_nonneg d). lia.
Qed.

Lemma filled_fits w k s n : Filled w k s -> 0 <= n -> s + n <= 1000000 -> offset w + n < room.
Proof.
  intros [Hp Hl Hs Hs0] Hn Hsn. change room with 1047552. rewrite page_size in *.
  revert Hs. destruct (left_in_page w =? 4096); lia.
Qed.

Lemma copy_requests_ok reqs : forall w k s,
  Filled w k s -> s + payload reqs <= 1000000 ->
  exists bs l' k', copy_requests seq reqs w = Ok {| buf := buf w ++ bs; left_in_page := l' |} /\
    (left_in_page w < PAGESIZE \/ reqs <> [] -> l' < PAGESIZE) /\ Filled {| buf := buf w ++ bs; left_in_page := l' |} k' (s + payload reqs) /\
    (Forall entry_ok reqs -> forall S ds, Open l' S ds -> Open (left_in_page w) (bs ++ S) (reqs ++ ds)).
Proof.
  induction reqs as [|d reqs IH]; intros w k s HF Hs; cbn [copy_requests payload foldr] in *.
  - exists [], (left_in_page w), k. rewrite app_nil_r, Z.add_0_r. destruct w. split_and!; [done | | done | done]. by intros [].
  - fold (payload reqs) in *. assert (H0 := payload_nonneg reqs). assert (Hd := len_nonneg d).
    destruct (copy_request_ok d w k s HF) as (b1 & l1 & k1 & -> & Hl1 & _ & _ & HF1 & HS1).
    { assert (Hx := filled_fits _ _ _ (len d + 4) HF ltac:(lia) ltac:(lia)). lia. }
    cbn [mbind res_bind]. destruct (IH _ _ _ HF1) as (b2 & l2 & k2 & -> & Hl2 & HF2 & HS2); [lia|].
    cbn [buf left_in_page] in *. exists (b1 ++ b2), l2, k2. rewrite (assoc_L (++)).
    replace (s + (len d + 4 + payload reqs)) with (s + len d + 4 + payload reqs) by lia.
    split_and!; [done | auto | done |].
    intros [H1 H2]%Forall_cons S ds HS. rewrite <- (assoc_L (++)). apply HS1; [done|].
    assert (Ho := HS2 H2 S ds HS). unfold Open in Ho. by rewrite (proj2 (Z.eqb_neq _ _)) in Ho by lia.
Qed.
(** What may follow a page: nothing, or the pages of more entries. *)
Definition Next_pages (S : list Z) (ds : list (list Z)) : Prop :=
  S = [] /\ ds = [] \/ exists h S1, S = h ++ S1 /\ header T h /\ Stream T (PAGESIZE - 4) S1 ds.

Lemma stream_pad l S ds : 0 <= l -> Next_pages S ds -> Stream T l (zeros l ++ S) ds.
Proof.
  intros Hl [[-> ->] | (h & S1 & -> & Hh & HS)]; [rewrite app_nil_r; by apply Stream_end | by apply Stream_skip].
Qed.

Lemma filled_start : Filled {| buf := []; left_in_page := PAGESIZE |} 1 0.
Proof. by split. Qed.

Lemma filled_pad w k s :
  Filled w k s -> (offset w + (if left_in_page w <? PAGESIZE then left_in_page w else 0)) mod PAGESIZE = 0.
Proof.
  intros [Hp Hl _ _]. destruct (Z.ltb_spec (left_in_page w) PAGESIZE).
  - rewrite Hp. by apply Z.mod_mul.
  - replace (offset w + 0) with ((k - 1) * PAGESIZE) by lia. by apply Z.mod_mul.
Qed.

(** The padding at the end of [MemCopy]. *)
Definition pad_page (w : writer) : writer :=
  if (0 <? left_in_page w) && (left_in_page w <? PAGESIZE)
  then {| buf := buf w ++ zeros (left_in_page w); left_in_page := left_in_page w |} else w.

Lemma pad_page_buf w k s :
  Filled w k s -> buf (pad_page w) = buf w ++ zeros (if left_in_page w <? PAGESIZE then left_in_page w else 0) /\
  offset (pad_page w) mod PAGESIZE = 0.
Proof.
  intros HF. assert (Hm := filled_pad _ _ _ HF). assert (Hl := filled_left _ _ _ HF).
  assert (Hb : buf (pad_page w) = buf w ++ zeros (if left_in_page w <? PAGESIZE then left_in_page w else 0)).
  { unfold pad_page. destruct (Z.ltb_spec 0 (left_in_page w)), (Z.ltb_spec (left_in_page w) PAGESIZE); cbn [buf andb];
      rewrite ?app_nil_r; try done. replace (left_in_page w) with 0 by lia. by rewrite app_nil_r. }
  split; [done|]. unfold offset in *. rewrite Hb, len_app, len_zeros; [done|]. destruct (_ <? _); lia.
Qed.

Lemma mem_copy_pad reqs : MemCopy seq reqs =
  w ← copy_requests seq reqs {| buf := []; left_in_page := PAGESIZE |};
  assertR (offset (pad_page w) mod PAGESIZE =? 0) ≫= fun _ => Ok (buf (pad_page w)).
Proof. done. Qed.

Lemma mem_copy_ok reqs :
  reqs <> [] -> Forall entry_ok reqs -> payload reqs <= 1000000 ->
  exists S0, MemCopy seq reqs = Ok (EncodeFixed32 kLittleEndian seq ++ S0) /\
    len (EncodeFixed32 kLittleEndian seq ++ S0) mod PAGESIZE = 0 /\
    forall S ds, Next_pages S ds -> Stream T (PAGESIZE - 4) (S0 ++ S) (reqs ++ ds).
Proof.
  intros Hne Hok Hp. destruct (copy_requests_ok reqs _ _ _ filled_start Hp) as (bs & l & k & Hc & Hl & HF & HS).
  specialize (Hl (or_intror Hne)). destruct (pad_page_buf _ _ _ HF) as [Hb Hm]. cbn [buf left_in_page app] in *.
  rewrite (proj2 (Z.ltb_lt _ _) Hl) in Hb. assert (Hl0 := proj1 (filled_left _ _ _ HF)). cbn in Hl0.
  assert (Hs : forall S ds, Next_pages S ds -> exists S1, bs ++ zeros l ++ S = EncodeFixed32 kLittleEndian seq ++ S1 /\ Stream T (PAGESIZE - 4) S1 (reqs ++ ds)).
  { intros S ds HN. apply (HS Hok (zeros l ++ S) ds). unfold Open. rewrite (proj2 (Z.eqb_neq _ _)) by lia. by apply stream_pad. }
  destruct (Hs [] []) as (S0 & He & _); [by left|]. rewrite app_nil_r in He.
  exists S0. split_and!.
  - rewrite mem_copy_pad, Hc. cbn [mbind res_bind app]. rewrite Hm, Hb, He. done.
  - rewrite <- He, <- Hb. done.
  - intros S ds HN. destruct (Hs S ds HN) as (S1 & He1 & HS1). rewrite (assoc_L (++)), He, <- (assoc_L (++)) in He1.
    by apply app_inv_head in He1 as ->.
Qed.

Lemma copy_requests_bound reqs : forall w w' k s,
  copy_requests seq reqs w = Ok w' -> Filled w k s -> k * PAGESIZE <= MAX_BUFFER_SIZE ->
  exists k' s', Filled w' k' s' /\ k' * PAGESIZE <= MAX_BUFFER_SIZE.
Proof.
  induction reqs as [|d reqs IH]; intros w w' k s Hc HF Hk; cbn [copy_requests] in Hc; [injection Hc as <-; eauto|].
  destruct (Z.ltb_spec (offset w + len d + 4) room) as [Hr|Hr].
  - destruct (copy_request_ok d w k s HF Hr) as (b1 & l1 & k1 & Hc1 & _ & _ & Hk1 & HF1 & _).
    rewrite Hc1 in Hc. cbn [mbind res_bind] in Hc. eauto.
  - assert (Hf : copy_request seq d w = Crash AssertFail).
    { unfold copy_request. fold room. by rewrite (proj2 (Z.ltb_ge _ _) Hr). }
    by rewrite Hf in Hc.
Qed.
End writing.

(** ** Batches *)

(** [Server]: the batches one after the other, each in pages of its own. *)
Fixpoint write_batches (batches : list (Z * list (list Z))) : res (list Z) :=
  match batches with
  | [] => Ok []
  | (logfile_seq_, leader) :: batches =>
      out ← MemCopy logfile_seq_ leader;
      outs ← write_batches batches;
      Ok (out ++ outs)
  end.

Definition batch_ok (b : Z * list (list Z)) : Prop :=
  0 <= b.1 < 2 ^ 32 /\ b.2 <> [] /\ Forall entry_ok b.2 /\ payload b.2 <= 1000000.

Lemma write_batches_ok (T : Z -> Prop) batches :
  Forall batch_ok batches -> Forall (fun b => T b.1) batches ->
  exists log, write_batches batches = Ok log /\ len log mod PAGESIZE = 0 /\
    Next_pages T log (concat (snd <$> batches)).
Proof.
  induction batches as [|[seq reqs] batches IH]; intros Hb HT.
  - exists []. split_and!; [done | done |]. by left.
  - apply Forall_cons in Hb as [(Hseq & Hne & Hok & Hp) Hb]. apply Forall_cons in HT as [HT1 HT]. cbn [fst snd] in *.
    destruct (IH Hb HT) as (log & Hw & Hm & HN).
    destruct (mem_copy_ok T seq Hseq HT1 reqs Hne Hok Hp) as (S0 & Hc & Hm0 & HS).
    cbn [write_batches]. rewrite Hc, Hw. cbn [mbind res_bind]. eexists. split; [done|]. split.
    + rewrite len_app, Z.add_mod, Hm0, Hm by done. done.
    + right. exists (EncodeFixed32 kLittleEndian seq), (S0 ++ log). rewrite <- (assoc_L (++)).
      split; [done|]. split; [by apply header_seq|]. by apply HS.
Qed.

Lemma to_pages_ok bs :
  len bs mod PAGESIZE = 0 -> concat (to_pages bs) = bs /\ Forall (fun q => len q = PAGESIZE) (to_pages bs).
Proof.
  intros Hm. unfold to_pages. remember (Z.to_nat (len bs / PAGESIZE)) as n eqn:Hn.
  assert (Hl : len bs = Z.of_nat n * PAGESIZE).
  { assert (H0 := len_nonneg bs). assert (H1 := Z.div_mod (len bs) PAGESIZE ltac:(done)).
    assert (0 <= len bs / PAGESIZE) by (apply Z.div_pos; done). rewrite page_size in *. lia. }
  clear Hn Hm. revert bs Hl. induction n as [|n IH]; intros bs Hl.
  - by rewrite (len_nil_inv bs) by lia.
  - cbn [read_pages concat]. destruct (IH (dropZ PAGESIZE bs)) as [H1 H2].
    { rewrite len_dropZ; rewrite page_size in *; lia. }
    rewrite H1. split; [apply takeZ_dropZ|]. constructor; [|done]. apply len_takeZ. rewrite page_size in *. lia.
Qed.

Lemma next_pages_read (T : Z -> Prop) log ds :
  len log mod PAGESIZE = 0 -> Next_pages T log ds -> reads T (ProcessData (to_pages log)) ds.
Proof.
  intros Hm HN. destruct (to_pages_ok log Hm) as [Hc Hp]. destruct HN as [[-> ->] | (h & S & -> & Hh & HS)].
  - exists []. by split_and!.
  - by apply (process_data_ok T h S).
Qed.

Lemma mem_copy_fits seq reqs out :
  0 <= seq < 2 ^ 32 -> MemCopy seq reqs = Ok out -> len out <= MAX_BUFFER_SIZE /\ len out mod PAGESIZE = 0.
Proof.
  intros Hs Hm. rewrite mem_copy_pad in Hm. destruct (copy_requests _ _ _) as [w|] eqn:Hc; [|done].
  destruct (copy_requests_bound (fun _ => True) seq Hs I reqs _ _ _ _ Hc filled_start) as (k & s & HF & Hk); [done|].
  destruct (pad_page_buf _ _ _ HF) as [Hb Hp]. cbn [mbind res_bind] in Hm. rewrite Hp in Hm. injection Hm as <-.
  split; [|done]. rewrite Hb, len_app. destruct HF as [H1 H2 _ _]. unfold offset in H1.
  destruct (Z.ltb_spec (left_in_page w) PAGESIZE); rewrite len_zeros by lia; lia.
Qed.

(** ** Properties *)

(** C9: what is logged is recovered: batches written one after the other are
    read back by [ProcessData] as the same entries, in order and byte for byte,
    wherever the page boundaries fall; no assertion fails on either side.  Every
    entry gets the tag of one of the log files written, so the right one when
    there is only one. *)
Theorem log_roundtrip batches :
  Forall batch_ok batches ->
  exists log es, write_batches batches = Ok log /\ ProcessData (to_pages log) = Ok es /\
    data_ <$> es = concat (snd <$> batches) /\ Forall (fun e => log_tag_seq e ∈ batches.*1) es.
Proof.
  intros Hb. destruct (write_batches_ok (fun t => t ∈ batches.*1) batches Hb) as (log & Hw & Hm & HN).
  { apply Forall_forall. intros b Hin. by apply list_elem_of_fmap_2. }
  destruct (next_pages_read _ _ _ Hm HN) as (es & He & Hd & HT). by exists log, es.
Qed.

(** When its assertions pass, [MemCopy] has filled whole pages and stayed
    within [MAX_BUFFER_SIZE], whatever the requests. *)
Theorem mem_copy_bounds seq reqs out :
  0 <= seq < 2 ^ 32 -> MemCopy seq reqs = Ok out -> len out <= MAX_BUFFER_SIZE /\ len out mod PAGESIZE = 0.
Proof. apply mem_copy_fits. Qed.

(** An entry can be recovered under the wrong log file: when a batch of one
    file ends within three bytes of its page, the tag is not read from the next
    page, and the entries there, of the next file, get the old tag. *)
Theorem process_stale_tag :
  match write_batches [(7, [replicate 4088 1]); (8, [[2]; [3]])] with
  | Ok log => match ProcessData (to_pages log) with
              | Ok es => (drop 1 es) = [{| data_ := [2]; size_ := 1; log_tag_seq := 7 |}; {| data_ := [3]; size_ := 1; log_tag_seq := 7 |}]
              | Crash _ => False
              end
  | Crash _ => False
  end.
Proof. vm_compute. reflexivity. Qed.

(** An empty entry hides the rest of its page: [ProcessData] takes its size
    for the end of the page and loses the entries behind it. *)
Theorem process_empty_entry_hides :
  match write_batches [(7, [[1]; []; [2]; [3]])] with
  | Ok log => ProcessData (to_pages log) = Ok [{| data_ := [1]; size_ := 1; log_tag_seq := 7 |}]
  | Crash _ => False
  end.
Proof. vm_compute. reflexivity. Qed.

Lemma log_roundtrip_witness :
  exists log es, write_batches [(7, [[1; 2; 3]; [4]]); (8, [[5]])] = Ok log /\ ProcessData (to_pages log) = Ok es /\
    data_ <$> es = [[1; 2; 3]; [4]; [5]] /\ Forall (fun e => log_tag_seq e ∈ [7; 8]) es.
Proof.
  apply (log_roundtrip [(7, [[1; 2; 3]; [4]]); (8, [[5]])]).
  repeat constructor; cbn; try done; unfold len; cbn; lia.
Defined.

Lemma mem_copy_bounds_witness :
  match MemCopy 7 [[1; 2]] with Ok out => len out <= MAX_BUFFER_SIZE | Crash _ => False end.
Proof.
  destruct (MemCopy 7 [[1; 2]]) as [out|] eqn:H; [|vm_compute in H; discriminate].
  apply (proj1 (mem_copy_bounds 7 [[1; 2]] out ltac:(lia) H)).
Defined.
