(* ===== verification/LogServer.v ===== *)
(** * The logging server ([ssdlogging/spdk_logging_server.cc])

    The log files that are alive, where the next page goes on the device, the
    queue of requests, and the metadata page (page 0) with which
    [spdk_logging_recovery.cc] starts a recovery.  A request is the list of its
    bytes; [submission_queue] is the linked stack of [LoggingRequest]s, newest
    first.  [disk0] is page 0 of the device; the device itself ([spdk]) is not
    modelled, a write command completes. *)

From S2P Require Import Prelude Util LogFormat.
Local Open Scope Z_scope.

Definition MAX_LPN_FOR_LOGGING : Z := 2097152.
Definition LOGGING_START_LPN : Z := 1.

Record Log := { seq : Z; start_lpn : Z; end_lpn : Z; log_bytes : Z }.
(** [Log(_seq, _start_lpn)] *)
Definition new_Log (s start : Z) : Log := {| seq := s; start_lpn := start; end_lpn := 0; log_bytes := 0 |}.
(** [Add(size)] *)
Definition Log_Add (size : Z) (l : Log) : Log :=
  {| seq := seq l; start_lpn := start_lpn l; end_lpn := end_lpn l; log_bytes := u64 (log_bytes l + size) |}.
Definition close_Log (e : Z) (l : Log) : Log :=
  {| seq := seq l; start_lpn := start_lpn l; end_lpn := e; log_bytes := log_bytes l |}.

Record SPDKLoggingServer := {
  alive_log_files_ : list Log;
  current_offset : Z;
  submission_queue : list (list Z);
  completion_queue : list (list Z);
  logfile_seq_ : Z;
  log_size_ : Z;
  base_log_tag_seq_ : Z;
  metadata : list Z;
  total_log_written : Z;
  disk0 : list Z
}.

Definition new_SPDKLoggingServer (disk : list Z) : SPDKLoggingServer := {|
  alive_log_files_ := []; current_offset := LOGGING_START_LPN; submission_queue := []; completion_queue := [];
  logfile_seq_ := 0; log_size_ := 0; base_log_tag_seq_ := 110000; metadata := zeros PAGESIZE;
  total_log_written := 0; disk0 := disk |}.

Definition with_files (fs : list Log) (size : Z) (s : SPDKLoggingServer) : SPDKLoggingServer := {|
  alive_log_files_ := fs; current_offset := current_offset s; submission_queue := submission_queue s;
  completion_queue := completion_queue s; logfile_seq_ := logfile_seq_ s; log_size_ := size;
  base_log_tag_seq_ := base_log_tag_seq_ s; metadata := metadata s; total_log_written := total_log_written s; disk0 := disk0 s |}.
Definition with_queues (sub com : list (list Z)) (written : Z) (s : SPDKLoggingServer) : SPDKLoggingServer := {|
  alive_log_files_ := alive_log_files_ s; current_offset := current_offset s; submission_queue := sub;
  completion_queue := com; logfile_seq_ := logfile_seq_ s; log_size_ := log_size_ s;
  base_log_tag_seq_ := base_log_tag_seq_ s; metadata := metadata s; total_log_written := written; disk0 := disk0 s |}.
Definition with_offset (o : Z) (s : SPDKLoggingServer) : SPDKLoggingServer := {|
  alive_log_files_ := alive_log_files_ s; current_offset := o; submission_queue := submission_queue s;
  completion_queue := completion_queue s; logfile_seq_ := logfile_seq_ s; log_size_ := log_size_ s;
  base_log_tag_seq_ := base_log_tag_seq_ s; metadata := metadata s; total_log_written := total_log_written s; disk0 := disk0 s |}.
Definition with_seq (n : Z) (s : SPDKLoggingServer) : SPDKLoggingServer := {|
  alive_log_files_ := alive_log_files_ s; current_offset := current_offset s; submission_queue := submission_queue s;
  completion_queue := completion_queue s; logfile_seq_ := n; log_size_ := log_size_ s;
  base_log_tag_seq_ := base_log_tag_seq_ s; metadata := metadata s; total_log_written := total_log_written s; disk0 := disk0 s |}.
Definition with_base (n : Z) (page : list Z) (s : SPDKLoggingServer) : SPDKLoggingServer := {|
  alive_log_files_ := alive_log_files_ s; current_offset := current_offset s; submission_queue := submission_queue s;
  completion_queue := completion_queue s; logfile_seq_ := logfile_seq_ s; log_size_ := log_size_ s;
  base_log_tag_seq_ := n; metadata := page; total_log_written := total_log_written s; disk0 := disk0 s |}.
Definition with_metadata (page : list Z) (s : SPDKLoggingServer) : SPDKLoggingServer := {|
  alive_log_files_ := alive_log_files_ s; current_offset := current_offset s; submission_queue := submission_queue s;
  completion_queue := completion_queue s; logfile_seq_ := logfile_seq_ s; log_size_ := log_size_ s;
  base_log_tag_seq_ := base_log_tag_seq_ s; metadata := page; total_log_written := total_log_written s; disk0 := page |}.

(** [alive_log_files_.back()]: undefined when there is none. *)
Fixpoint at_back (f : Log -> Log) (l : list Log) : res (list Log) :=
  match l with
  | [] => Crash OutOfRange
  | [x] => Ok [f x]
  | x :: l => l ← at_back f l; Ok (x :: l)
  end.

Definition AddSize (size : Z) (s : SPDKLoggingServer) : res SPDKLoggingServer :=
  fs ← at_back (Log_Add size) (alive_log_files_ s);
  Ok (with_files fs (u64 (log_size_ s + size)) s).

Definition AddLog (data : list Z) (s : SPDKLoggingServer) : res SPDKLoggingServer :=
  s ← AddSize (len data) s;
  Ok (with_queues (data :: submission_queue s) (completion_queue s) (u64 (total_log_written s + len data)) s).

(** [SPDKWrite]: the page the batch goes to. *)
Definition SPDKWrite (size : Z) (s : SPDKLoggingServer) : res (Z * SPDKLoggingServer) :=
  assertR (size mod PAGESIZE =? 0) ≫= fun _ =>
  let page_num := size / PAGESIZE in
  let lpn := current_offset s in
  let o := u64 (current_offset s + page_num) in
  let o := if MAX_LPN_FOR_LOGGING <? o then LOGGING_START_LPN else o in
  assertR (0 <? page_num) ≫= fun _ =>
  Ok (lpn, with_offset o s).

(** [Server]: pick the queue up, lay it out, write it; and, the write done, put
    its requests in the completion queue.  [None]: nothing to do. *)
Definition Server_step (s : SPDKLoggingServer) : res (option (Z * list Z) * SPDKLoggingServer) :=
  let leader := submission_queue s in
  let s := with_queues [] (completion_queue s) (total_log_written s) s in
  match leader with
  | [] => Ok (None, s)
  | _ =>
      out ← MemCopy (logfile_seq_ s) leader;
      '(lpn, s) ← SPDKWrite (len out) s;
      Ok (Some (lpn, out), with_queues (submission_queue s) (completion_queue s ++ leader) (total_log_written s) s)
  end.

Definition encode_Log (l : Log) : list Z :=
  EncodeFixed32 kLittleEndian (seq l) ++ EncodeFixed64 kLittleEndian (start_lpn l) ++ EncodeFixed64 kLittleEndian (end_lpn l).
Definition encode_metadata (base : Z) (fs : list Log) : list Z :=
  EncodeFixed32 kLittleEndian base ++ EncodeFixed32 kLittleEndian (len fs) ++ concat (encode_Log <$> fs).

(** The page keeps what it held behind the last entry. *)
Definition WriteMetadata (s : SPDKLoggingServer) : res SPDKLoggingServer :=
  let bs := encode_metadata (base_log_tag_seq_ s) (alive_log_files_ s) in
  if len bs <=? len (metadata s) then Ok (with_metadata (bs ++ dropZ (len bs) (metadata s)) s)
  else Crash OutOfRange.

Definition CreateWAL (log_file_num : Z) (s : SPDKLoggingServer) : res SPDKLoggingServer :=
  fs ← (match last (alive_log_files_ s) with
        | Some l =>
            assertR (seq l =? logfile_seq_ s) ≫= fun _ =>
            assertR (1 <? current_offset s) ≫= fun _ =>
            at_back (close_Log (current_offset s - 1)) (alive_log_files_ s)
        | None => Ok []
        end);
  let s := with_seq (u32 (log_file_num + base_log_tag_seq_ s)) s in
  WriteMetadata (with_files (fs ++ [new_Log (logfile_seq_ s) (current_offset s)]) (log_size_ s) s).

(** [while(alive_log_files_.begin()->seq < limit)] *)
Fixpoint drop_logs (limit : Z) (fs : list Log) (size : Z) : res (list Log * Z) :=
  match fs with
  | [] => Crash OutOfRange
  | l :: rest =>
      if seq l <? limit then
        assertR (0 <? len rest) ≫= fun _ => drop_logs limit rest (u64 (size - log_bytes l))
      else Ok (fs, size)
  end.

Definition DeleteLog (min_log_number size : Z) (s : SPDKLoggingServer) : res SPDKLoggingServer :=
  '(fs, n) ← (match alive_log_files_ s with
              | [] => Ok ([], log_size_ s)
              | fs => drop_logs (u32 (min_log_number + base_log_tag_seq_ s)) fs (log_size_ s)
              end);
  assertR (size =? len fs) ≫= fun _ =>
  WriteMetadata (with_files fs n s).

Definition GetCurrentLogSeq (s : SPDKLoggingServer) : Z := u32 (logfile_seq_ s - base_log_tag_seq_ s).
Definition GetLogSize (s : SPDKLoggingServer) : Z := log_size_ s.

(** *** Reading page 0 *)
Definition load64 (page : list Z) (pos : Z) : res Z :=
  match DecodeFixed64 kLittleEndian (dropZ pos page) with Some v => Ok v | None => Crash OutOfRange end.

(** [SSDLoggingRecovery::ReadMetadata], the loop: [offset], [last_lpn] (32 bits). *)
Fixpoint read_logs (num : nat) (page : list Z) (offset last_lpn : Z) : res (list (Z * Z * Z)) :=
  match num with
  | O => Ok []
  | S num =>
      s ← load32 page offset;
      start ← load64 page (offset + 4);
      e ← load64 page (offset + 12);
      (if negb (last_lpn =? 0) then assertR (u32 (last_lpn + 1) =? start) else Ok tt) ≫= fun _ =>
      rest ← read_logs num page (offset + 20) (u32 e);
      Ok ((s, start, e) :: rest)
  end.

Definition ReadMetadata (page : list Z) : res (Z * list (Z * Z * Z)) :=
  base ← load32 page 0;
  num ← load32 page 4;
  logs ← read_logs (Z.to_nat num) page 8 0;
  Ok (base, logs).

(** [SetLastLogfileSeq]: the base of the next run, one past the last file's
    sequence number. *)
Fixpoint last_seq (num : nat) (page : list Z) (offset base : Z) : res Z :=
  match num with
  | O => Ok base
  | S num => s ← load32 page offset; last_seq num page (offset + 20) s
  end.

Definition SetLastLogfileSeq (s : SPDKLoggingServer) : res SPDKLoggingServer :=
  num ← load32 (disk0 s) 4;
  base ← last_seq (Z.to_nat num) (disk0 s) 8 0;
  Ok (with_base (u32 (base + 1)) (disk0 s) s).
