(* ===== verification/LogServerProps.v ===== *)
(** * The metadata page always describes the log files

    Whatever the server has done, page 0 read back gives the log files that are
    alive, and [log_size_] is the sum of their sizes. *)

From S2P Require Import Prelude Util LogFormat LogRoundtrip LogServer.
Local Open Scope Z_scope.
#[local] Arguments EncodeFixed32 : simpl never.
#[local] Arguments EncodeFixed64 : simpl never.
#[local] Arguments DecodeFixed32 : simpl never.
#[local] Arguments DecodeFixed64 : simpl never.

(** ** The page *)
Definition view (l : Log) : Z * Z * Z := (seq l, start_lpn l, end_lpn l).

(** Each file starts where the one before ends; the last one is open. *)
Fixpoint links (fs : list Log) : Prop :=
  match fs with
  | [] => True
  | [l] => end_lpn l = 0
  | l :: ((l2 :: _) as fs) => start_lpn l2 = end_lpn l + 1 /\ links fs
  end.

Definition in_range (cur : Z) (l : Log) : Prop :=
  0 <= seq l < 2 ^ 32 /\ 1 <= start_lpn l <= cur /\ 0 <= end_lpn l < cur.

Record files_ok (cur : Z) (fs : list Log) : Prop := {
  files_links : links fs;
  files_range : Forall (in_range cur) fs;
  files_cur : 1 <= cur < 2 ^ 32
}.

Lemma load32_app page pre v rest offset :
  page = pre ++ EncodeFixed32 kLittleEndian v ++ rest -> offset = len pre -> 0 <= v < 2 ^ 32 -> load32 page offset = Ok v.
Proof. intros -> -> Hv. unfold load32. by rewrite dropZ_app, decode_encode32. Qed.

Lemma load64_app page pre v rest offset :
  page = pre ++ EncodeFixed64 kLittleEndian v ++ rest -> offset = len pre -> 0 <= v < 2 ^ 64 -> load64 page offset = Ok v.
Proof. intros -> -> Hv. unfold load64. by rewrite dropZ_app, decode_encode64. Qed.

Lemma len_encode_Log l : len (encode_Log l) = 20.
Proof. done. Qed.

Lemma len_encode_logs fs : len (concat (encode_Log <$> fs)) = 20 * len fs.
Proof.
  induction fs as [|l fs IH]; [done|]. cbn [fmap list_fmap concat]. rewrite len_app, len_encode_Log, IH.
  change (l :: fs) with ([l] ++ fs). rewrite len_app. change (len [l]) with 1. lia.
Qed.

Lemma read_logs_ok cur fs : forall pre rest last_lpn page offset,
  files_ok cur fs -> (match fs with l :: _ => last_lpn = 0 \/ start_lpn l = last_lpn + 1 | [] => True end) ->
  page = pre ++ concat (encode_Log <$> fs) ++ rest -> offset = len pre -> 0 <= last_lpn < 2 ^ 32 ->
  read_logs (length fs) page offset last_lpn = Ok (view <$> fs).
Proof.
  induction fs as [|l fs IH]; intros pre rest last_lpn page offset [HL HR HC] Hlast Hp Ho Hb; [done|]. cbn [length read_logs].
  apply Forall_cons in HR as [(H1 & H2 & H3) HR]. cbn [fmap list_fmap concat] in Hp. change (encode_Log l) with (EncodeFixed32 kLittleEndian (seq l) ++ EncodeFixed64 kLittleEndian (start_lpn l) ++ EncodeFixed64 kLittleEndian (end_lpn l)) in Hp.
  rewrite <- !(assoc_L (++)) in Hp.
  rewrite (load32_app page pre (seq l) _ offset Hp Ho H1). cbn [mbind res_bind].
  rewrite (load64_app page (pre ++ EncodeFixed32 kLittleEndian (seq l)) (start_lpn l)
    (EncodeFixed64 kLittleEndian (end_lpn l) ++ concat (encode_Log <$> fs) ++ rest) (offset + 4)); [| | |lia].
  2: by rewrite <- !(assoc_L (++)).
  2: rewrite len_app; change (len (EncodeFixed32 kLittleEndian (seq l))) with 4; lia.
  cbn [mbind res_bind].
  rewrite (load64_app page (pre ++ EncodeFixed32 kLittleEndian (seq l) ++ EncodeFixed64 kLittleEndian (start_lpn l)) (end_lpn l)
    (concat (encode_Log <$> fs) ++ rest) (offset + 12)); [| | |lia].
  2: by rewrite <- !(assoc_L (++)).
  2: rewrite !len_app; change (len (EncodeFixed32 kLittleEndian (seq l))) with 4; change (len (EncodeFixed64 kLittleEndian (start_lpn l))) with 8; lia.
  cbn [mbind res_bind].
  assert (Ha : (if negb (last_lpn =? 0) then assertR (u32 (last_lpn + 1) =? start_lpn l) else Ok tt) = Ok tt).
  { destruct (Z.eqb_spec last_lpn 0); [done|]. destruct Hlast as [|Hlast]; [done|]. cbn [negb].
    rewrite u32_small by lia. rewrite Hlast, Z.eqb_refl. done. }
  rewrite Ha. cbn [mbind res_bind]. rewrite (u32_small (end_lpn l)) by lia.
  rewrite (IH (pre ++ encode_Log l) rest); [done | | | | | lia].
  - split; [|done|done]. destruct fs; [done|]. apply HL.
  - destruct fs; [done|]. destruct HL as [HL _]. by right.
  - unfold encode_Log. by rewrite <- !(assoc_L (++)).
  - rewrite len_app, len_encode_Log. lia.
Qed.

(** Page 0 as [WriteMetadata] leaves it. *)
Definition describes (page : list Z) (base : Z) (fs : list Log) : Prop :=
  exists rest, page = encode_metadata base fs ++ rest.

Lemma read_metadata_ok cur page base fs :
  describes page base fs -> files_ok cur fs -> 0 <= base < 2 ^ 32 -> len fs < 2 ^ 32 ->
  ReadMetadata page = Ok (base, view <$> fs).
Proof.
  intros [rest Hp] Hf Hb Hn. unfold encode_metadata in Hp. rewrite <- !(assoc_L (++)) in Hp. unfold ReadMetadata.
  rewrite (load32_app page [] base _ 0 Hp eq_refl Hb). cbn [mbind res_bind].
  rewrite (load32_app page (EncodeFixed32 kLittleEndian base) (len fs) _ 4 Hp eq_refl); [|assert (H0 := len_nonneg fs); lia].
  cbn [mbind res_bind]. replace (Z.to_nat (len fs)) with (length fs) by (unfold len; lia).
  rewrite (read_logs_ok cur fs (EncodeFixed32 kLittleEndian base ++ EncodeFixed32 kLittleEndian (len fs)) rest); [done | done | | | done | lia].
  - destruct fs; [done|]. by left.
  - by rewrite <- !(assoc_L (++)).
Qed.

(** ** The invariant *)
Definition sizes (fs : list Log) : Z := foldr (fun l n => log_bytes l + n) 0 fs.

Record Inv (s : SPDKLoggingServer) : Prop := {
  inv_files : files_ok (current_offset s) (alive_log_files_ s);
  inv_offset : current_offset s <= MAX_LPN_FOR_LOGGING;
  inv_seq : forall l, last (alive_log_files_ s) = Some l -> seq l = logfile_seq_ s;
  inv_tag : 0 <= logfile_seq_ s < 2 ^ 32;
  inv_base : 0 <= base_log_tag_seq_ s < 2 ^ 32;
  inv_size : log_size_ s = u64 (sizes (alive_log_files_ s));
  inv_page : len (metadata s) = PAGESIZE;
  inv_count : len (alive_log_files_ s) <= 204;
  inv_disk : alive_log_files_ s <> [] -> describes (disk0 s) (base_log_tag_seq_ s) (alive_log_files_ s)
}.

Lemma inv_new disk : Inv (new_SPDKLoggingServer disk).
Proof. by split. Qed.

Lemma inv_read s : Inv s -> alive_log_files_ s <> [] -> ReadMetadata (disk0 s) = Ok (base_log_tag_seq_ s, view <$> alive_log_files_ s).
Proof.
  intros HI Hne. apply (read_metadata_ok (current_offset s)); [by apply HI | apply HI | apply HI |].
  assert (H := inv_count _ HI). lia.
Qed.

(** What the operations do to the list of files. *)
Lemma at_back_snoc f fs l : at_back f (fs ++ [l]) = Ok (fs ++ [f l]).
Proof. induction fs as [|x fs IH]; [done|]. cbn. rewrite IH. by destruct fs. Qed.

Lemma last_split {A} (fs : list A) : fs <> [] -> exists fs' l, fs = fs' ++ [l] /\ last fs = Some l.
Proof. intros Hne. destruct (exists_last Hne) as (fs' & l & ->). exists fs', l. by rewrite last_snoc. Qed.

Lemma links_tail l fs : links (l :: fs) -> links fs.
Proof. destruct fs; [done|]. by intros [_ H]. Qed.

Lemma links_app fs1 fs2 : links (fs1 ++ fs2) -> links fs2.
Proof. induction fs1 as [|l fs1 IH]; [done|]. intros H. by apply IH, (links_tail l). Qed.

(** Closing the last file and opening the next. *)
Lemma links_close fs l n e :
  links (fs ++ [l]) -> links (fs ++ [close_Log e l; new_Log n (e + 1)]).
Proof.
  induction fs as [|x fs IH]; [done|]. intros H. assert (Ht := links_tail _ _ H). destruct fs; cbn in *; [|split]; tauto.
Qed.

(** A change of what is not on page 0. *)
Lemma links_back f fs l :
  start_lpn (f l) = start_lpn l -> end_lpn (f l) = end_lpn l -> links (fs ++ [l]) -> links (fs ++ [f l]).
Proof.
  intros H1 H2. induction fs as [|x fs IH]; cbn; [by rewrite H2|]. intros H. assert (Ht := links_tail _ _ H).
  destruct fs; cbn in *; [rewrite H1; intuition congruence | tauto].
Qed.

Lemma encode_back f fs l base :
  seq (f l) = seq l -> start_lpn (f l) = start_lpn l -> end_lpn (f l) = end_lpn l ->
  encode_metadata base (fs ++ [f l]) = encode_metadata base (fs ++ [l]).
Proof.
  intros H1 H2 H3. unfold encode_metadata. rewrite !fmap_app, !concat_app, !len_app. cbn [fmap list_fmap].
  replace (encode_Log (f l)) with (encode_Log l); [done|]. unfold encode_Log. by rewrite H1, H2, H3.
Qed.

Lemma sizes_snoc fs l : sizes (fs ++ [l]) = sizes fs + log_bytes l.
Proof. unfold sizes. induction fs as [|x fs IH]; cbn in *; lia. Qed.

Lemma u64_add_l a b : u64 (u64 a + b) = u64 (a + b).
Proof. apply Zplus_mod_idemp_l. Qed.

Lemma u64_add_r a b : u64 (a + u64 b) = u64 (a + b).
Proof. apply Zplus_mod_idemp_r. Qed.

Lemma write_metadata_ok s :
  len (metadata s) = PAGESIZE -> len (alive_log_files_ s) <= 204 ->
  exists page, WriteMetadata s = Ok (with_metadata page s) /\ len page = PAGESIZE /\
    describes page (base_log_tag_seq_ s) (alive_log_files_ s).
Proof.
  intros Hp Hn. unfold WriteMetadata. set (bs := encode_metadata _ _).
  assert (Hb : len bs = 8 + 20 * len (alive_log_files_ s)).
  { unfold bs, encode_metadata. rewrite !len_app, len_encode_logs.
    change (len (EncodeFixed32 kLittleEndian (base_log_tag_seq_ s))) with 4.
    change (len (EncodeFixed32 kLittleEndian (len (alive_log_files_ s)))) with 4. lia. }
  assert (H0 := len_nonneg (alive_log_files_ s)). rewrite page_size in *.
  rewrite (proj2 (Z.leb_le _ _)) by lia. eexists. split; [reflexivity|]. split.
  - rewrite len_app, len_dropZ; lia.
  - by eexists.
Qed.

(** ** Every operation keeps the invariant *)
Lemma inv_add n s :
  Inv s -> alive_log_files_ s <> [] -> exists s', AddSize n s = Ok s' /\ Inv s' /\
    submission_queue s' = submission_queue s /\ current_offset s' = current_offset s /\
    view <$> alive_log_files_ s' = view <$> alive_log_files_ s.
Proof.
  intros [[HL HR HC] HO HS HT HB HZ HP HN HD] Hne. specialize (HD Hne).
  destruct (last_split _ Hne) as (fs & l & Hfs & Hl). unfold AddSize. rewrite Hfs in *. rewrite at_back_snoc.
  cbn [mbind res_bind]. eexists. split; [reflexivity|]. split; [|split_and!; try done].
  - apply Forall_app in HR as [HR HR1]. apply Forall_cons in HR1 as [HR1 _].
    split; cbn [with_files alive_log_files_ current_offset logfile_seq_ base_log_tag_seq_ log_size_ metadata disk0]; try done.
    + split; [by apply (links_back (Log_Add n)) | | done]. apply Forall_app. split; [done|]. apply Forall_singleton. exact HR1.
    + intros x. rewrite last_snoc. intros [= <-]. apply (HS l). by rewrite last_snoc.
    + rewrite HZ, !sizes_snoc, u64_add_l. cbn [Log_Add log_bytes]. rewrite u64_add_r. f_equal. lia.
    + rewrite len_app in *. done.
    + intros _. destruct HD as [rest HD]. exists rest. by rewrite (encode_back (Log_Add n)).
  - cbn. by rewrite !fmap_app.
Qed.

Lemma inv_queues sub com n s : Inv s -> Inv (with_queues sub com n s).
Proof. by intros []. Qed.

Lemma inv_offset_up o s : Inv s -> current_offset s <= o <= MAX_LPN_FOR_LOGGING -> Inv (with_offset o s).
Proof.
  intros [[HL HR HC] HO HS HT HB HZ HP HN HD] Ho. split; cbn; try done; [|lia]. change MAX_LPN_FOR_LOGGING with 2097152 in *.
  split; [done | | lia]. eapply Forall_impl; [exact HR|]. intros l (H1 & H2 & H3). split_and!; lia.
Qed.

Lemma inv_create n s :
  Inv s -> alive_log_files_ s = [] \/ 1 < current_offset s -> len (alive_log_files_ s) < 204 ->
  exists s', CreateWAL n s = Ok s' /\ Inv s' /\ logfile_seq_ s' = u32 (n + base_log_tag_seq_ s).
Proof.
  intros [[HL HR HC] HO HS HT HB HZ HP HN HD] Hg Hn. unfold CreateWAL.
  assert (Hnext : exists fs, (match last (alive_log_files_ s) with
      | Some l => assertR (seq l =? logfile_seq_ s) ≫= fun _ => assertR (1 <? current_offset s) ≫= fun _ =>
                  at_back (close_Log (current_offset s - 1)) (alive_log_files_ s)
      | None => Ok [] end) = Ok fs /\ len fs = len (alive_log_files_ s) /\ sizes fs = sizes (alive_log_files_ s) /\
      files_ok (current_offset s) (fs ++ [new_Log (u32 (n + base_log_tag_seq_ s)) (current_offset s)])).
  { assert (Hnew : in_range (current_offset s) (new_Log (u32 (n + base_log_tag_seq_ s)) (current_offset s))).
    { split_and!; cbn; try lia; apply u32_range. }
    destruct (alive_log_files_ s) as [|l0 fs0] eqn:Hfs.
    - exists []. split_and!; try done. split; [done | by apply Forall_singleton | lia].
    - rewrite <- Hfs in *. destruct (last_split (alive_log_files_ s)) as (fs & l & Hfl & Hl); [by rewrite Hfs|].
      assert (1 < current_offset s) as Hc by (destruct Hg; [congruence | done]).
      rewrite Hl, (HS l Hl), Z.eqb_refl, (proj2 (Z.ltb_lt _ _) Hc). cbn [assertR mbind res_bind]. clear Hfs l0 fs0.
      rewrite Hfl in *. rewrite at_back_snoc. eexists. split; [reflexivity|]. rewrite !len_app, !sizes_snoc, <- (assoc_L (++)).
      split; [done|]. split; [done|]. apply Forall_app in HR as [HR HR1]. apply Forall_cons in HR1 as [(H1 & H2 & H3) _]. split; [| |lia].
      + replace (current_offset s) with (current_offset s - 1 + 1) at 2 by lia. by apply links_close.
      + apply Forall_app. split; [done|]. constructor; [|by apply Forall_singleton]. split_and!; cbn; lia. }
  destruct Hnext as (fs & -> & Hlen & Hsz & Hok). cbn [mbind res_bind].
  set (s1 := with_files _ _ _). destruct (write_metadata_ok s1) as (page & -> & Hpg & Hd); [done | |].
  { cbn. rewrite len_app, Hlen. change (len [_]) with 1. lia. }
  eexists. split; [reflexivity|]. split; [|done]. split; cbn; try done.
  - intros l. rewrite last_snoc. by intros [= <-].
  - apply u32_range.
  - by rewrite sizes_snoc, Hsz, Z.add_0_r.
  - rewrite len_app, Hlen. change (len [_]) with 1. lia.
Qed.

Lemma drop_logs_ok limit pre l post n :
  Forall (fun x => seq x < limit) pre -> limit <= seq l -> n = u64 (sizes (pre ++ l :: post)) ->
  drop_logs limit (pre ++ l :: post) n = Ok (l :: post, u64 (sizes (l :: post))).
Proof.
  revert n. induction pre as [|x pre IH]; intros n Hp Hl Hn; cbn [app drop_logs].
  - rewrite (proj2 (Z.ltb_ge _ _)) by done. by rewrite Hn.
  - apply Forall_cons in Hp as [Hx Hp]. rewrite (proj2 (Z.ltb_lt _ _)) by done.
    rewrite (proj2 (Z.ltb_lt _ _)); [|rewrite len_app; change (l :: post) with ([l] ++ post); rewrite len_app;
      assert (H1 := len_nonneg pre); assert (H2 := len_nonneg post); change (len [l]) with 1; lia].
    cbn [assertR mbind res_bind]. apply IH; [done | done |]. subst n. cbn [app sizes foldr].
    fold (sizes (pre ++ l :: post)). unfold Z.sub. rewrite u64_add_l. f_equal. lia.
Qed.

Lemma inv_delete min size pre l post s :
  Inv s -> alive_log_files_ s = pre ++ l :: post ->
  Forall (fun x => seq x < u32 (min + base_log_tag_seq_ s)) pre -> u32 (min + base_log_tag_seq_ s) <= seq l ->
  size = len (l :: post) ->
  exists s', DeleteLog min size s = Ok s' /\ Inv s' /\ alive_log_files_ s' = l :: post /\ current_offset s' = current_offset s.
Proof.
  intros [[HL HR HC] HO HS HT HB HZ HP HN HD] Hfs Hpre Hl Hsz. unfold DeleteLog. rewrite Hfs in *.
  assert (Hm : (match pre ++ l :: post with [] => Ok ([], log_size_ s)
                | x :: y => drop_logs (u32 (min + base_log_tag_seq_ s)) (x :: y) (log_size_ s) end) =
               Ok (l :: post, u64 (sizes (l :: post)))).
  { assert (Hd := drop_logs_ok _ pre l post _ Hpre Hl HZ). by destruct pre. }
  rewrite Hm. cbn [mbind res_bind]. rewrite Hsz, Z.eqb_refl. cbn [assertR mbind res_bind].
  rewrite len_app in HN. assert (H0 := len_nonneg pre).
  set (s1 := with_files _ _ _). destruct (write_metadata_ok s1) as (page & -> & Hpg & Hd); [done | cbn; lia |].
  eexists. split; [reflexivity|]. split; [|done]. split; cbn; try done; try lia.
  - split; [by apply links_app in HL | by apply Forall_app in HR as [_ HR] | done].
  - intros x Hx. apply HS. destruct post; by rewrite last_app, Hx.
Qed.

Lemma inv_serve s :
  Inv s -> submission_queue s <> [] -> Forall entry_ok (submission_queue s) -> payload (submission_queue s) <= 1000000 ->
  current_offset s + 256 <= MAX_LPN_FOR_LOGGING ->
  exists out s', Server_step s = Ok (Some (current_offset s, out), s') /\ MemCopy (logfile_seq_ s) (submission_queue s) = Ok out /\
    Inv s' /\ submission_queue s' = [] /\ completion_queue s' = completion_queue s ++ submission_queue s /\
    alive_log_files_ s' = alive_log_files_ s.
Proof.
  intros HI Hne Hok Hp Ho.
  destruct (mem_copy_ok (fun _ => True) (logfile_seq_ s) (inv_tag _ HI) I _ Hne Hok Hp) as (S0 & Hc & Hm & _).
  destruct (mem_copy_fits _ _ _ (inv_tag _ HI) Hc) as [Hle _]. set (out := EncodeFixed32 kLittleEndian (logfile_seq_ s) ++ S0) in *.
  assert (H4 : 4 <= len out).
  { unfold out. rewrite len_app. change (len (EncodeFixed32 kLittleEndian (logfile_seq_ s))) with 4. assert (H := len_nonneg S0). lia. }
  assert (Hq : 1 <= len out / PAGESIZE <= 256).
  { change MAX_BUFFER_SIZE with 1048576 in Hle. rewrite page_size in *. assert (H := Z.div_mod (len out) 4096 ltac:(done)). lia. }
  assert (HC := files_cur _ _ (inv_files _ HI)). change MAX_LPN_FOR_LOGGING with 2097152 in Ho.
  exists out, (with_queues [] (completion_queue s ++ submission_queue s) (total_log_written s) (with_offset (current_offset s + len out / PAGESIZE) s)).
  split_and!; try done.
  - unfold Server_step. destruct (submission_queue s) as [|d q] eqn:Hsq; [done|]. cbn [with_queues logfile_seq_]. rewrite Hc.
    cbn [mbind res_bind]. unfold SPDKWrite. rewrite Hm. cbn [Z.eqb assertR mbind res_bind with_queues current_offset].
    rewrite u64_small by lia. change MAX_LPN_FOR_LOGGING with 2097152. rewrite (proj2 (Z.ltb_ge _ _)) by lia.
    rewrite (proj2 (Z.ltb_lt _ _)) by lia. done.
  - apply inv_queues, inv_offset_up; [done|]. change MAX_LPN_FOR_LOGGING with 2097152. lia.
Qed.

(** ** Runs *)
Inductive log_op :=
  | OAddLog (data : list Z)
  | OAddSize (size : Z)
  | OServe
  | OCreateWAL (log_file_num : Z)
  | ODeleteLog (min_log_number size : Z).

Definition exec_op (o : log_op) (s : SPDKLoggingServer) : res SPDKLoggingServer :=
  match o with
  | OAddLog data => AddLog data s
  | OAddSize size => AddSize size s
  | OServe => '(_, s) ← Server_step s; Ok s
  | OCreateWAL n => CreateWAL n s
  | ODeleteLog min size => DeleteLog min size s
  end.

Fixpoint run_ops (ops : list log_op) (s : SPDKLoggingServer) : res SPDKLoggingServer :=
  match ops with
  | [] => Ok s
  | o :: ops => s ← exec_op o s; run_ops ops s
  end.

(** What the caller owes: a log file before the first entry, a batch that fits,
    room on the device, at most 204 files, some page written before the second
    file, and of the files the last is kept. *)
Definition allowed (o : log_op) (s : SPDKLoggingServer) : Prop :=
  match o with
  | OAddLog _ | OAddSize _ => alive_log_files_ s <> []
  | OServe => submission_queue s <> [] -> Forall entry_ok (submission_queue s) /\ payload (submission_queue s) <= 1000000 /\
      current_offset s + 256 <= MAX_LPN_FOR_LOGGING
  | OCreateWAL _ => (alive_log_files_ s = [] \/ 1 < current_offset s) /\ len (alive_log_files_ s) < 204
  | ODeleteLog min size => exists pre l post, alive_log_files_ s = pre ++ l :: post /\
      Forall (fun x => seq x < u32 (min + base_log_tag_seq_ s)) pre /\ u32 (min + base_log_tag_seq_ s) <= seq l /\ size = len (l :: post)
  end.

Fixpoint allowed_run (ops : list log_op) (s : SPDKLoggingServer) : Prop :=
  match ops with
  | [] => True
  | o :: ops => allowed o s /\ forall s', exec_op o s = Ok s' -> allowed_run ops s'
  end.

Lemma inv_op o s : Inv s -> allowed o s -> exists s', exec_op o s = Ok s' /\ Inv s'.
Proof.
  intros HI Ha. destruct o as [data | size | | n | min size]; cbn [exec_op allowed] in *.
  - destruct (inv_add (len data) s HI Ha) as (s' & Hs & HI' & _). unfold AddLog. rewrite Hs. eexists. split; [done|]. by apply inv_queues.
  - destruct (inv_add size s HI Ha) as (s' & Hs & HI' & _). eauto.
  - destruct (decide (submission_queue s = [])) as [Hq|Hq].
    + unfold Server_step. rewrite Hq. eexists. split; [done|]. by apply inv_queues.
    + destruct (Ha Hq) as (H1 & H2 & H3). destruct (inv_serve s HI Hq H1 H2 H3) as (out & s' & -> & _ & HI' & _). by exists s'.
  - destruct Ha as [H1 H2]. destruct (inv_create n s HI H1 H2) as (s' & Hs & HI' & _). eauto.
  - destruct Ha as (pre & l & post & H1 & H2 & H3 & H4).
    destruct (inv_delete min size pre l post s HI H1 H2 H3 H4) as (s' & Hs & HI' & _). eauto.
Qed.

Lemma inv_run ops : forall s, Inv s -> allowed_run ops s -> exists s', run_ops ops s = Ok s' /\ Inv s'.
Proof.
  induction ops as [|o ops IH]; intros s HI Ha; cbn [run_ops allowed_run] in *; [eauto|].
  destruct Ha as [Ha Hr]. destruct (inv_op o s HI Ha) as (s1 & Hs1 & HI1). rewrite Hs1. cbn [mbind res_bind]. auto.
Qed.

Lemma payload_perm l k : l ≡ₚ k -> payload l = payload k.
Proof. unfold payload. induction 1; cbn; lia. Qed.

Lemma add_logs ds : forall s,
  Inv s -> alive_log_files_ s <> [] -> exists s', run_ops (OAddLog <$> ds) s = Ok s' /\ Inv s' /\
    submission_queue s' = reverse ds ++ submission_queue s /\ completion_queue s' = completion_queue s /\
    current_offset s' = current_offset s.
Proof.
  induction ds as [|d ds IH]; intros s HI Hne; [by exists s|]. cbn [fmap list_fmap run_ops exec_op].
  destruct (inv_add (len d) s HI Hne) as (s1 & Hs & HI1 & Hq & Ho & Hv). unfold AddLog at 1. rewrite Hs. cbn [mbind res_bind].
  edestruct IH as (s2 & Hs2 & HI2 & Hq2 & Hc2 & Ho2); [by apply (inv_queues (d :: submission_queue s1) (completion_queue s1) (u64 (total_log_written s1 + len d))) | |].
  { cbn. intros H0. rewrite H0 in Hv. by destruct (alive_log_files_ s). }
  exists s2. split; [exact Hs2|]. split; [done|]. rewrite Hq2, Hc2, Ho2. cbn [with_queues submission_queue completion_queue current_offset]. rewrite Hq, reverse_cons, <- (assoc_L (++)).
  unfold AddSize in Hs. destruct (at_back _ _); [|done]. injection Hs as <-. done.
Qed.

(** ** Properties *)

(** C23: in every run of the server the operations succeed, [GetLogSize] is the
    sum of the sizes of the log files that are alive, and whenever the process
    dies, page 0 read by [ReadMetadata] gives exactly those files, each starting
    where the one before ends. *)
Theorem server_run disk ops :
  allowed_run ops (new_SPDKLoggingServer disk) ->
  exists s, run_ops ops (new_SPDKLoggingServer disk) = Ok s /\
    GetLogSize s = u64 (sizes (alive_log_files_ s)) /\ links (alive_log_files_ s) /\
    (alive_log_files_ s <> [] -> ReadMetadata (disk0 s) = Ok (base_log_tag_seq_ s, view <$> alive_log_files_ s)).
Proof.
  intros Ha. destruct (inv_run ops _ (inv_new disk) Ha) as (s & Hs & HI). exists s.
  split; [done|]. split; [apply HI|]. split; [apply HI | by apply inv_read].
Qed.

(** A batch is logged newest first: the entries added since the last
    pick-up are written, acknowledged and recovered in the reverse of the order
    in which they were added. *)
Theorem server_batch_lifo s ds :
  Inv s -> alive_log_files_ s <> [] -> submission_queue s = [] -> ds <> [] -> Forall entry_ok ds -> payload ds <= 1000000 ->
  current_offset s + 256 <= MAX_LPN_FOR_LOGGING ->
  exists s1 s2 out es, run_ops (OAddLog <$> ds) s = Ok s1 /\ Server_step s1 = Ok (Some (current_offset s, out), s2) /\
    ProcessData (to_pages out) = Ok es /\ data_ <$> es = reverse ds /\
    completion_queue s2 = completion_queue s ++ reverse ds.
Proof.
  intros HI Hne Hq Hds Hok Hp Ho. destruct (add_logs ds s HI Hne) as (s1 & Hs1 & HI1 & Hq1 & Hc1 & Ho1).
  rewrite Hq, app_nil_r in Hq1. rewrite <- (payload_perm _ _ (reverse_Permutation ds)), <- Hq1 in Hp.
  assert (Hr : Forall entry_ok (submission_queue s1)) by (rewrite Hq1; by apply Forall_reverse).
  assert (Hn : submission_queue s1 <> []) by (rewrite Hq1; by destruct ds as [|? ? _] using rev_ind; [|rewrite reverse_snoc]).
  destruct (inv_serve s1 HI1 Hn Hr Hp) as (out & s2 & Hs2 & Hc & _ & _ & Hc2 & _); [by rewrite Ho1|].
  rewrite Ho1 in Hs2. rewrite Hc1, Hq1 in Hc2.
  destruct (write_batches_ok (fun _ => True) [(logfile_seq_ s1, submission_queue s1)]) as (log & Hw & Hm & HN).
  { apply Forall_singleton. split_and!; cbn; try done; apply (inv_tag _ HI1). } { by apply Forall_singleton. }
  cbn in Hw. rewrite Hc in Hw. cbn in Hw. rewrite app_nil_r in Hw. injection Hw as <-.
  cbn [fmap list_fmap concat snd] in HN. rewrite app_nil_r, Hq1 in HN.
  destruct (next_pages_read _ _ _ Hm HN) as (es & He & Hd & _). by exists s1, s2, out, es.
Qed.

(** The file is started, two entries logged, the next file created, the first deleted. *)
Definition demo_ops : list log_op :=
  [OCreateWAL 1; OAddLog [1; 2; 3]; OAddLog [4]; OServe; OCreateWAL 2; OAddSize 10; ODeleteLog 2 1].

(** The next operation of a run of closed terms. *)
Ltac next_op := split; [|let s := fresh "s" in let H := fresh "H" in intros s H; vm_compute in H; injection H as <-].

Lemma demo_allowed : allowed_run demo_ops (new_SPDKLoggingServer []).
Proof.
  next_op; [split; [by left | vm_compute; done]|].
  next_op; [vm_compute; discriminate|].
  next_op; [vm_compute; discriminate|].
  next_op; [cbn [allowed submission_queue current_offset]; intros _; split; [repeat constructor | split; vm_compute; discriminate]|].
  next_op; [split; [right; vm_compute; done | vm_compute; done]|].
  next_op; [vm_compute; discriminate|].
  next_op; [|done]. eexists [_], _, []. split_and!; [reflexivity | | | reflexivity]; [repeat constructor; vm_compute; done|vm_compute; discriminate].
Qed.

Lemma server_run_witness :
  match run_ops demo_ops (new_SPDKLoggingServer []) with
  | Ok s => ReadMetadata (disk0 s) = Ok (110000, [(110002, 2, 0)]) /\ GetLogSize s = 10
  | Crash _ => False
  end.
Proof.
  destruct (server_run [] demo_ops demo_allowed) as (s & Hs & Hz & _ & Hr). rewrite Hs.
  assert (Hf : base_log_tag_seq_ s = 110000 /\ alive_log_files_ s = [{| seq := 110002; start_lpn := 2; end_lpn := 0; log_bytes := 10 |}]).
  { vm_compute in Hs. injection Hs as <-. done. }
  destruct Hf as [Hb Hf]. rewrite Hf in Hr, Hz. rewrite Hb in Hr. split; [exact (Hr ltac:(done)) | exact Hz].
Defined.

Lemma server_batch_lifo_witness :
  match CreateWAL 1 (new_SPDKLoggingServer []) with
  | Ok s => exists s1 s2 out es, run_ops (OAddLog <$> [[1]; [2; 3]]) s = Ok s1 /\ Server_step s1 = Ok (Some (1, out), s2) /\
      ProcessData (to_pages out) = Ok es /\ data_ <$> es = [[2; 3]; [1]] /\ completion_queue s2 = [[2; 3]; [1]]
  | Crash _ => False
  end.
Proof.
  destruct (inv_create 1 _ (inv_new [])) as (s & Hs & HI & _); [by left | done |]. rewrite Hs.
  assert (Hf : alive_log_files_ s <> [] /\ submission_queue s = [] /\ current_offset s = 1 /\ completion_queue s = []).
  { vm_compute in Hs. injection Hs as <-. done. }
  destruct Hf as (H1 & H2 & H3 & H4).
  assert (Hok : Forall entry_ok [[1]; [2; 3]]) by (repeat constructor).
  destruct (server_batch_lifo s [[1]; [2; 3]] HI H1 H2 ltac:(done) Hok) as (s1 & s2 & out & es & Hx); [done | by rewrite H3 |].
  rewrite H3, H4 in Hx. by exists s1, s2, out, es.
Defined.
