(* ===== verification/Monitor.v ===== *)
(** * The FrozenHot controller ([cache/hhvm-scalable-cache.h], [FastHashMonitor])

    The thread that decides when the shards are frozen: it waits until the miss
    ratio is stable, learns the hit curve of shard 0, picks the frozen ratio with
    the lowest expected latency, freezes the shards that get faster by it, and
    watches the frozen cache until its gain is used up.  What it measures (miss
    ratios, latencies, sizes, [should_stop]) is an input: an observation is a
    function of the number of observations made before it.  What it does to the
    shards is the trace of its calls.  [double] values are rationals; a mean of
    no samples (not a number in the source) is excluded by what the loops wait
    for.  [fuel] bounds the iterations of every loop: a run that uses it up stops
    in the middle ([NoFuel]). *)

From S2P Require Import Prelude.
From Stdlib Require Import QArith Qround Qabs.
Local Close Scope Q_scope.

(** ** What is measured, what is called *)
Record curve_data_node := { size_ : Q; FC_hit_ : Q; miss_ : Q }.

Class Observations := {
  should_stop : nat -> bool;
  PrintMissRatio : nat -> Q;
  (** [PrintStepLat]: the mean, the number of samples, the means of hits and others. *)
  step_mean : nat -> Q;
  step_num : nat -> Z;
  step_hit : nat -> Q;
  step_other : nat -> Q;
  GetStepSize : nat -> Z;
  other_size_from_last_end : nat -> Z;
  Size : nat -> Z;
  (** [req_latency_[i].print_tail()] *)
  req_tail : nat -> nat -> Q;
  (** [m_shards[0]->curve_container] after [get_curve] *)
  learned : nat -> list curve_data_node
}.

Inductive cmd :=
  | GetCurve
  | ConstructTier (shard : nat)
  | ConstructRatio (shard : nat) (FC_ratio : Q)
  | ResetCursor (shard : nat)
  | PrintStep (shard : nat)
  | Deconstruct (shard : nat).

Record monitor := {
  now : nat;                       (* observations made *)
  trace : list cmd;                (* calls made, the last one first *)
  SLEEP_THRESHOLD : Z;
  beginning_flag : bool;
  stop_sample_stat : bool;
  performance_depletion : Q;
  construct_container : list nat
}.

(** The object's fields at the start. *)
Definition new_monitor : monitor := {|
  now := 0; trace := []; SLEEP_THRESHOLD := 2; beginning_flag := true; stop_sample_stat := true;
  performance_depletion := 2; construct_container := [] |}.

Definition WAIT_STABLE_THRESHOLD : Z := 2.
Definition PASS_THRESHOLD : Z := 3.
Definition COUNT_THRESHOLD : Q := 2.
Definition FH_PERFORMANCE_THRESHOLD : Q := 1 # 5.

(** ** Runs: a value, out of fuel, or a crash *)
Inductive outcome (A : Type) := Done (a : A) | NoFuel | Failed (e : crash).
Arguments Done {A} a.
Arguments NoFuel {A}.
Arguments Failed {A} e.

Definition MM (A : Type) : Type := monitor -> monitor * outcome A.
#[export] Instance MM_ret : MRet MM := fun _ a s => (s, Done a).
#[export] Instance MM_bind : MBind MM := fun _ _ k m s =>
  match m s with
  | (s', Done a) => k a s'
  | (s', NoFuel) => (s', NoFuel)
  | (s', Failed e) => (s', Failed e)
  end.

Definition no_fuel {A} : MM A := fun s => (s, NoFuel).
Definition fails {A} (e : crash) : MM A := fun s => (s, Failed e).
Definition check (b : bool) (e : crash) : MM unit := if b then mret tt else fails e.
Definition read {A} (f : monitor -> A) : MM A := fun s => (s, Done (f s)).
Definition update (f : monitor -> monitor) : MM unit := fun s => (f s, Done tt).

Definition at_time (n : nat) (s : monitor) : monitor := {|
  now := n; trace := trace s; SLEEP_THRESHOLD := SLEEP_THRESHOLD s; beginning_flag := beginning_flag s;
  stop_sample_stat := stop_sample_stat s; performance_depletion := performance_depletion s; construct_container := construct_container s |}.
Definition with_call (c : cmd) (s : monitor) : monitor := {|
  now := now s; trace := c :: trace s; SLEEP_THRESHOLD := SLEEP_THRESHOLD s; beginning_flag := beginning_flag s;
  stop_sample_stat := stop_sample_stat s; performance_depletion := performance_depletion s; construct_container := construct_container s |}.
Definition with_sleep (n : Z) (s : monitor) : monitor := {|
  now := now s; trace := trace s; SLEEP_THRESHOLD := n; beginning_flag := beginning_flag s;
  stop_sample_stat := stop_sample_stat s; performance_depletion := performance_depletion s; construct_container := construct_container s |}.
Definition with_switches (begin sample : bool) (s : monitor) : monitor := {|
  now := now s; trace := trace s; SLEEP_THRESHOLD := SLEEP_THRESHOLD s; beginning_flag := begin;
  stop_sample_stat := sample; performance_depletion := performance_depletion s; construct_container := construct_container s |}.
Definition with_depletion (q : Q) (s : monitor) : monitor := {|
  now := now s; trace := trace s; SLEEP_THRESHOLD := SLEEP_THRESHOLD s; beginning_flag := beginning_flag s;
  stop_sample_stat := stop_sample_stat s; performance_depletion := q; construct_container := construct_container s |}.
Definition with_container (l : list nat) (s : monitor) : monitor := {|
  now := now s; trace := trace s; SLEEP_THRESHOLD := SLEEP_THRESHOLD s; beginning_flag := beginning_flag s;
  stop_sample_stat := stop_sample_stat s; performance_depletion := performance_depletion s; construct_container := l |}.

Definition observe {A} (f : nat -> A) : MM A := fun s => (at_time (S (now s)) s, Done (f (now s))).
Definition call (c : cmd) : MM unit := update (with_call c).

(** ** Comparisons of doubles *)
Definition Qltb (a b : Q) : bool := negb (Qle_bool b a).
Definition double_is_equal (left right : Q) : bool := Qltb (Qabs (left - right)) (1 # 10000).

(** ** Choosing the ratio *)

(** One option of the curve: its expected latency and the size it stands for. *)
Definition option_avg (DC_hit_lat miss_lat FC_lat : Q) (is_last : bool) (n : curve_data_node) : Q * Q :=
  let tFC_hit_ := FC_hit_ n in
  let tMiss := miss_ n in
  let avg := (tFC_hit_ * FC_lat + tMiss * (miss_lat + FC_lat) + (1 - tFC_hit_ - tMiss) * (FC_lat + DC_hit_lat))%Q in
  if Qltb (size_ n) (1 # 100) then
    (((tMiss * miss_lat + (1 - tMiss) * DC_hit_lat) / (1 + FH_PERFORMANCE_THRESHOLD))%Q, 0%Q)
  else if is_last && Qltb (65 # 100) (size_ n) then (avg, 1%Q)
  else (avg, size_ n).

Fixpoint best_option (DC_hit_lat miss_lat FC_lat : Q) (container : list curve_data_node) (best : Q * Q) : Q * Q :=
  match container with
  | [] => best
  | n :: rest =>
      let o := option_avg DC_hit_lat miss_lat FC_lat (match rest with [] => true | _ => false end) n in
      best_option DC_hit_lat miss_lat FC_lat rest (if Qltb o.1 best.1 then o else best)
  end.

(** [best_avg], [best_size] after the comparison with the whole cache frozen. *)
Definition choose_size (DC_hit_lat miss_lat FC_lat Frozen_Avg : Q) (container : list curve_data_node) : Q * Q :=
  let best := best_option DC_hit_lat miss_lat FC_lat container (1000%Q, 0%Q) in
  if Qltb Frozen_Avg best.1 then (Frozen_Avg, 1%Q) else best.

(** ** The phases *)
Section monitor.
Context `{Observations} (m_numShards : nat) (FROZEN_THRESHOLD : Z).

Definition stopped : MM bool := observe should_stop.

(** A loop over all shards. *)
Fixpoint for_shards (n i : nat) (f : nat -> MM unit) : MM unit :=
  match n with
  | O => mret tt
  | S n => f i;; for_shards n (S i) f
  end.
Definition all_shards (f : nat -> MM unit) : MM unit := for_shards m_numShards 0 f.
Definition deconstruct_all : MM unit := all_shards (fun i => call (Deconstruct i)).

(** [do { sleep } while (size() < least && !should_stop)] *)
Fixpoint wait_samples (size : nat -> Z) (least : Z) (fuel : nat) : MM unit :=
  match fuel with
  | O => no_fuel
  | S fuel =>
      n ← observe size;
      if (n <? least)%Z then
        stop ← stopped;
        if (stop : bool) then mret tt else wait_samples size least fuel
      else mret tt
  end.

(** The observation of the miss ratio until the cache is stable. *)
Fixpoint wait_stable (fuel : nat) (last_miss_ratio : Q) (last_size size wait_count : Z) : MM unit :=
  match fuel with
  | O => no_fuel
  | S fuel =>
      stop ← stopped;
      if (stop : bool) then mret tt else
      miss_ratio ← observe PrintMissRatio;
      _ ← observe step_mean;
      let full := (size <=? last_size)%Z in
      let wait_count := if full && Qle_bool last_miss_ratio miss_ratio then (wait_count + 1)%Z else wait_count in
      if full && (WAIT_STABLE_THRESHOLD <=? wait_count)%Z then mret tt else
      let last_size := size in
      size ← observe Size;
      wait_stable fuel miss_ratio last_size size wait_count
  end.

(** The search: the curve of shard 0, the baseline, the whole cache frozen. *)
Definition search (fuel : nat) : MM Q :=
  stop ← stopped;
  container ← (if (stop : bool) then mret [] else call GetCurve;; observe learned);
  wait_samples other_size_from_last_end 5 fuel;;
  _ ← observe PrintMissRatio;
  DC_hit_lat ← observe step_hit;
  miss_lat ← observe step_other;
  all_shards (fun i => call (ConstructTier i));;
  _ ← observe PrintMissRatio;
  _ ← observe step_mean;
  _ ← observe PrintMissRatio;
  Frozen_Avg ← observe step_mean;
  FC_lat ← observe step_hit;
  deconstruct_all;;
  mret (choose_size DC_hit_lat miss_lat FC_lat Frozen_Avg container).2.

(** Sleep a second at a time; [first]: [should_stop] is looked at before the
    second, not after it. *)
Fixpoint sleep_for (first : bool) (fuel : nat) (seconds : Z) : MM unit :=
  match fuel with
  | O => no_fuel
  | S fuel =>
      if (seconds <=? 0)%Z then mret tt else
      stop ← (if first then stopped else mret false);
      if (stop : bool) then mret tt else
      _ ← observe PrintMissRatio;
      _ ← observe step_mean;
      stop ← (if first then mret false else stopped);
      if (stop : bool) then mret tt else sleep_for first fuel (seconds - 1)
  end.

(** The labels control jumps to. *)
Inductive phase := WAIT_STABLE | CONSTRUCT (best_size : Q) | DECONSTRUCT | END.

Definition wait_stable_phase (fuel : nat) : MM phase :=
  update (fun s => with_switches (beginning_flag s) true s);;
  wait_stable fuel (3 # 2) 0 0 0;;
  update (fun s => with_switches false (stop_sample_stat s) s);;
  best_size ← search fuel;
  stop ← stopped;
  if negb stop && Qltb best_size (5 # 100) then
    update (fun s => with_sleep (u64 (SLEEP_THRESHOLD s * 8)) s);;
    seconds ← read SLEEP_THRESHOLD;
    sleep_for true fuel seconds;;
    stop ← stopped;
    mret (if negb stop then WAIT_STABLE else CONSTRUCT best_size)
  else mret (CONSTRUCT best_size).

(** [req_latency_[i]]: the array has 16 elements. *)
Definition req_latency (i : nat) : MM Q :=
  check (i <? 16)%nat OutOfRange;; observe (fun t => req_tail t i).

(** The queue: visit the front, put it behind. *)
Fixpoint rotate (n : nat) (visit : nat -> MM unit) : MM unit :=
  match n with
  | O => mret tt
  | S n =>
      q ← read construct_container;
      match q with
      | [] => fails OutOfRange
      | i :: rest => visit i;; update (with_container (rest ++ [i]));; rotate n visit
      end
  end.

Definition construct_one (best_size : Q) (shard_id : nat) : MM unit :=
  (if double_is_equal best_size 1 then call (ConstructTier shard_id)
   else call (ConstructRatio shard_id best_size));;
  call (ResetCursor shard_id).

(** A shard that does not get faster by the threshold is thawed and stays in the
    queue, with a new baseline. *)
Fixpoint check_shards (n : nat) (baseline_metrics : gmap nat Q) : MM (gmap nat Q) :=
  match n with
  | O => mret baseline_metrics
  | S n =>
      q ← read construct_container;
      match q with
      | [] => fails OutOfRange
      | shard_id :: rest =>
          call (PrintStep shard_id);;
          performance ← req_latency shard_id;
          update (with_container rest);;
          match baseline_metrics !! shard_id with
          | None => fails OutOfRange
          | Some base =>
              if Qltb (base / (1 + FH_PERFORMANCE_THRESHOLD)) performance then
                update (with_container (rest ++ [shard_id]));;
                call (Deconstruct shard_id);;
                base ← req_latency shard_id;
                check_shards n (<[shard_id := base]> baseline_metrics)
              else check_shards n baseline_metrics
          end
      end
  end.

(** The passes over the queue: [fail_list], [construct_step]. *)
Fixpoint construct_passes (fuel : nat) (best_size : Q) (pass_count construct_step : Z) (baseline_metrics : gmap nat Q)
  : MM (gset nat * Z) :=
  match fuel with
  | O => no_fuel
  | S fuel =>
      stop ← stopped;
      q ← read construct_container;
      if (stop : bool) || bool_decide (q = []) then mret (∅, construct_step) else
      let pass_len := length q in
      rotate pass_len (fun _ => mret tt);;
      if (PASS_THRESHOLD <=? pass_count)%Z then
        q ← read construct_container;
        update (with_container []);;
        mret (list_to_set q, construct_step)
      else
      rotate pass_len (construct_one best_size);;
      rotate pass_len (fun i => check (i <? 16)%nat OutOfRange);;
      baseline_metrics ← check_shards pass_len baseline_metrics;
      _ ← observe PrintMissRatio;
      temp_step ← observe step_num;
      construct_passes fuel best_size (pass_count + 1) (u64 (construct_step + temp_step)) baseline_metrics
  end.

(** [baseline_metrics] has 80 elements. *)
Fixpoint fill_baseline (n i : nat) (baseline_metrics : gmap nat Q) : MM (gmap nat Q) :=
  match n with
  | O => mret baseline_metrics
  | S n =>
      update (fun s => with_container (construct_container s ++ [i]) s);;
      base ← req_latency i;
      check (i <? 80)%nat OutOfRange;;
      fill_baseline n (S i) (<[i := base]> baseline_metrics)
  end.

(** The watch over the frozen cache. *)
Fixpoint frozen_loop (best_size baseline : Q) (construct_step : Z) (fuel : nat)
    (first_flag : bool) (baseline_step total_step current_step : Z) : MM phase :=
  match fuel with
  | O => no_fuel
  | S fuel' =>
      stop ← stopped;
      if (stop : bool) then mret DECONSTRUCT else
      wait_samples GetStepSize 50 fuel;;
      performance ← observe step_mean;
      thput_step ← observe step_num;
      let baseline_step := if first_flag then thput_step else baseline_step in
      let delta := ((baseline - performance) / baseline * inject_Z thput_step / inject_Z baseline_step)%Q in
      update (fun s => with_depletion (performance_depletion s + delta)%Q s);;
      depletion ← read performance_depletion;
      if Qle_bool depletion 0 then
        update (fun s => with_sleep (u64 (SLEEP_THRESHOLD s * 8)) s);;
        mret DECONSTRUCT
      else
      let total_step := u64 (total_step + thput_step) in
      let current_step := u64 (current_step + thput_step) in
      if (u64 (construct_step * FROZEN_THRESHOLD) <? total_step)%Z then
        deconstruct_all;;
        update (fun s => if (2 <=? SLEEP_THRESHOLD s)%Z then with_sleep (SLEEP_THRESHOLD s / 2) s else s);;
        mret (CONSTRUCT best_size)
      else if (construct_step <? current_step)%Z then
        if Qltb COUNT_THRESHOLD depletion then
          update (with_depletion COUNT_THRESHOLD);;
          frozen_loop best_size baseline construct_step fuel' false baseline_step total_step 0
        else
          deconstruct_all;;
          mret (CONSTRUCT best_size)
      else frozen_loop best_size baseline construct_step fuel' false baseline_step total_step current_step
  end.

Definition construct_phase (fuel : nat) (best_size : Q) : MM phase :=
  q ← read construct_container;
  check (bool_decide (q = [])) AssertFail;;
  wait_samples GetStepSize 100 fuel;;
  _ ← observe PrintMissRatio;
  baseline_performance_for_query ← observe step_mean;
  construct_step ← observe step_num;
  let baseline_performance_with_threshold := (baseline_performance_for_query / (1 + FH_PERFORMANCE_THRESHOLD))%Q in
  update (fun s => with_switches (beginning_flag s) false s);;
  all_shards (fun i => check (i <? 16)%nat OutOfRange);;
  baseline_metrics ← fill_baseline m_numShards 0 ∅;
  '(fail_list, construct_step) ← construct_passes (S (S (Z.to_nat PASS_THRESHOLD))) best_size 0 construct_step baseline_metrics;
  stop ← stopped;
  if negb stop && (base.size fail_list =? m_numShards)%nat then mret WAIT_STABLE else
  update (fun s => with_switches (beginning_flag s) true s);;
  update (with_depletion COUNT_THRESHOLD);;
  frozen_loop best_size baseline_performance_with_threshold construct_step fuel true 0 0 0.

Definition deconstruct_phase (fuel : nat) : MM phase :=
  deconstruct_all;;
  stop ← stopped;
  (if negb stop then
     seconds ← read SLEEP_THRESHOLD;
     sleep_for false fuel seconds
   else mret tt);;
  stop ← stopped;
  mret (if negb stop then WAIT_STABLE else END).

Definition phase_step (fuel : nat) (p : phase) : MM phase :=
  match p with
  | WAIT_STABLE => wait_stable_phase fuel
  | CONSTRUCT best_size => construct_phase fuel best_size
  | DECONSTRUCT => deconstruct_phase fuel
  | END => mret END
  end.

Fixpoint run_phases (fuel loops : nat) (p : phase) : MM unit :=
  match fuel with
  | O => no_fuel
  | S fuel =>
      match p with
      | END => mret tt
      | _ => p ← phase_step loops p; run_phases fuel loops p
      end
  end.

Definition FastHashMonitor (fuel loops : nat) : MM unit := run_phases fuel loops WAIT_STABLE.
End monitor.
