(* ===== verification/MonitorProps.v ===== *)
(** * The controller is safe and stops

    The calls the controller makes respect what the shards assert: no shard is
    frozen twice, the curve is learned with nothing frozen, a ratio is between 0
    and 1; no assertion of its own fails; and once [should_stop] is set it thaws
    everything and ends. *)

From S2P Require Import Prelude Monitor.
From Stdlib Require Import QArith Lqa.
Local Close Scope Q_scope.

(** ** What the shards require *)

(** The three classes of FrozenHot shards, and what is in them: for the [k]-th
    call and shard [i], whether a construction has anything to freeze ([fills]),
    and whether the shard's list can be cut at the ratio asked for ([cuts]).
    [ShardCalls] says what that is for the shards of the source. *)
Inductive policy := FIFO_FH | LRU_FH | LFU_FH.

Class Shards := { kind : policy; fills : nat -> nat -> bool; cuts : nat -> nat -> bool }.

Definition is_lfu (p : policy) : bool := match p with LFU_FH => true | _ => false end.

(** A shard as the calls see it: the frozen list has nodes, [tier_no_insert]
    (and [tier_ready]) is set, [fast_hash_ready] ([FH_ready]) is set. *)
Record shard := { listed : bool; tier : bool; ready : bool }.
Definition thawed : shard := {| listed := false; tier := false; ready := false |}.

(** The assertions on the ratio. *)
Definition ratio_ok (p : policy) (FC_ratio : Q) : bool :=
  if is_lfu p then Qltb FC_ratio (999 # 1000) else Qle_bool FC_ratio 1 && Qle_bool 0 FC_ratio.

(** Flags and frozen list after a call; [None]: an assertion fails. *)
Definition exec_construct_ratio (p : policy) (fills cuts : bool) (FC_ratio : Q) (s : shard) : option shard :=
  if ratio_ok p FC_ratio && negb (listed s) && cuts then
    Some {| listed := fills; tier := tier s; ready := true |}
  else None.

Definition exec_construct_tier (p : policy) (fills : bool) (s : shard) : option shard :=
  if listed s then None else Some {| listed := fills; tier := true; ready := is_lfu p || ready s |}.

(** An empty frozen list: [deconstruct] returns before it resets the flags. *)
Definition exec_deconstruct (s : shard) : shard := if listed s then thawed else s.

(** Its own assertion, and that of the lookups made while it runs. *)
Definition exec_get_curve (s : shard) : option shard := if tier s || ready s then None else Some s.

Definition exec_shard (p : policy) (fills cuts : bool) (c : cmd) (s : shard) : option shard :=
  match c with
  | GetCurve => exec_get_curve s
  | ConstructTier _ => exec_construct_tier p fills s
  | ConstructRatio _ q => exec_construct_ratio p fills cuts q s
  | ResetCursor _ | PrintStep _ => Some s
  | Deconstruct _ => Some (exec_deconstruct s)
  end.

Definition target (c : cmd) : nat :=
  match c with GetCurve => 0 | ConstructTier i | ConstructRatio i _ | ResetCursor i | PrintStep i | Deconstruct i => i end.

Definition set_shard (i : nat) (s : shard) (S : nat -> shard) : nat -> shard := fun j => if decide (j = i) then s else S j.

(** The [k]-th call; [None]: it fails, or there is no such shard. *)
Definition exec_cmd `{Shards} (n k : nat) (S : nat -> shard) (c : cmd) : option (nat -> shard) :=
  let i := target c in
  if decide (i < n) then s ← exec_shard kind (fills k i) (cuts k i) c (S i); Some (set_shard i s S) else None.

(** A trace, the last call first, on shards that are not frozen. *)
Fixpoint replay `{Shards} (n : nat) (trace : list cmd) : option (nat -> shard) :=
  match trace with
  | [] => Some (fun _ => thawed)
  | c :: trace => S ← replay n trace; exec_cmd n (length trace) S c
  end.

(** What the controller counts on: the shard it learns from is not empty when it
    is frozen, and shards can be cut. *)
Class ShardsOk `{Shards} : Prop := {
  first_fills : forall k, fills k 0 = true;
  all_cut : forall k i, cuts k i = true
}.

(** The shards constructed and not deconstructed since. *)
Definition exec_set `{Shards} (n : nat) (F : gset nat) (c : cmd) : option (gset nat) :=
  match c with
  | GetCurve => if decide (0 < n /\ 0 ∉ F) then Some F else None
  | ConstructTier i => if decide (i < n /\ i ∉ F) then Some ({[i]} ∪ F) else None
  | ConstructRatio i q => if decide (i < n /\ i ∉ F) then if ratio_ok kind q then Some ({[i]} ∪ F) else None else None
  | ResetCursor i | PrintStep i => if decide (i < n) then Some F else None
  | Deconstruct i => if decide (i < n) then Some (F ∖ {[i]}) else None
  end.

(** A frozen list that is not empty is that of such a shard; a flag is set for a
    reason, unless the shard was empty when it was frozen. *)
Record Sim `{Shards} (S : nat -> shard) (F : gset nat) : Prop := {
  sim_listed : forall i, listed (S i) = true -> i ∈ F;
  sim_flags : forall i, (forall k, fills k i = true) -> tier (S i) || ready (S i) = true -> listed (S i) = true
}.

Lemma sim_not_listed `{Shards} S F i : Sim S F -> i ∉ F -> listed (S i) = false.
Proof. intros [Hl _] Hi. destruct (listed (S i)) eqn:E; [|done]. by apply Hl in E. Qed.

Lemma sim_set `{Shards} S F F' i s :
  Sim S F -> (forall j, j <> i -> j ∈ F -> j ∈ F') -> (listed s = true -> i ∈ F') ->
  ((forall k, fills k i = true) -> tier s || ready s = true -> listed s = true) -> Sim (set_shard i s S) F'.
Proof.
  intros [Hl Hf] HF Hs Hsf. split; intros j; unfold set_shard; case_decide as Hj; subst; auto.
Qed.

Lemma exec_sim `{ShardsOk} n k S F F' c : Sim S F -> exec_set n F c = Some F' -> exists S', exec_cmd n k S c = Some S' /\ Sim S' F'.
Proof.
  intros HS He. assert (Hsame : forall i, Sim S F -> Sim (set_shard i (S i) S) F).
  { intros i [Hl Hf]. apply (sim_set S F); [done | done | apply Hl | apply Hf]. }
  destruct c as [|i|i q|i|i|i]; cbn [exec_set] in He; unfold exec_cmd; cbn [target]; case_decide as Hd; try done.
  - destruct Hd as [Hn Hz0]. injection He as <-. rewrite decide_True by done. cbn [exec_shard exec_get_curve]. unfold exec_get_curve.
    assert (Hl := sim_not_listed _ _ _ HS Hz0). destruct (tier (S 0) || ready (S 0)) eqn:Hfl.
    + rewrite (sim_flags _ _ HS 0 first_fills Hfl) in Hl. done.
    + eexists. split; [reflexivity | by apply Hsame].
  - destruct Hd as [Hn Hi]. injection He as <-. rewrite decide_True by done. cbn [exec_shard]. unfold exec_construct_tier.
    rewrite (sim_not_listed _ _ _ HS Hi). eexists. split; [reflexivity|].
    apply (sim_set S F); [done | set_solver | set_solver | by intros Hf _; apply Hf].
  - destruct Hd as [Hn Hi]. destruct (ratio_ok kind q) eqn:Hq; [|done]. injection He as <-. rewrite decide_True by done.
    cbn [exec_shard]. unfold exec_construct_ratio. rewrite Hq, (sim_not_listed _ _ _ HS Hi).
    rewrite all_cut. eexists. split; [reflexivity|]. apply (sim_set S F); [done | set_solver | set_solver | by intros Hf _; apply Hf].
  - injection He as <-. eexists. split; [reflexivity | by apply Hsame].
  - injection He as <-. eexists. split; [reflexivity | by apply Hsame].
  - injection He as <-. eexists. split; [reflexivity|]. unfold exec_deconstruct. destruct (listed (S i)) eqn:Hl.
    + apply (sim_set S F); [done | set_solver | done | done].
    + apply (sim_set S F); [done | set_solver | by rewrite Hl | intros Hf Ht; by rewrite (sim_flags _ _ HS i Hf Ht) in Hl].
Qed.

(** The ratios the controller settles on. *)
Definition good (q : Q) : Prop := (0 <= q <= 9 # 10)%Q \/ (q == 1)%Q.

Lemma good_ratio p q : good q -> double_is_equal q 1 = true \/ ratio_ok p q = true.
Proof.
  intros [[H0 H9]|H1]; [right | left].
  - unfold ratio_ok, Qltb. destruct (is_lfu p).
    + apply negb_true_iff. destruct (Qle_bool (999 # 1000) q) eqn:E; [|done]. apply Qle_bool_iff in E. lra.
    + apply andb_true_iff. split; apply Qle_bool_iff; lra.
  - unfold double_is_equal, Qltb. rewrite H1. reflexivity.
Qed.

Definition shards (n : nat) : gset nat := set_seq 0 n.

(** ** Rules *)
Section rules.
Context `{Obs : Observations} `{Shs : Shards} `{Sok : !ShardsOk} (N : nat).
(** In a total run no loop may run out of fuel. *)
Context (total : bool).

Definition wpm {A} (m : MM A) (s : monitor) (Q : A -> monitor -> Prop) : Prop :=
  match m s with
  | (s', Done a) => Q a s'
  | (s', NoFuel) => total = false /\ is_Some (replay N (trace s'))
  | (_, Failed _) => False
  end.

(** The frozen shards and the queue. *)
Record At (F : gset nat) (q : list nat) (s : monitor) : Prop := {
  at_frozen : exists S, replay N (trace s) = Some S /\ Sim S F;
  at_queue : construct_container s = q
}.

Lemma wpm_bind {A B} (m : MM A) (k : A -> MM B) s Q : wpm m s (fun a s' => wpm (k a) s' Q) -> wpm (m ≫= k) s Q.
Proof. unfold wpm, mbind, MM_bind. by destruct (m s) as [s' []]. Qed.

Lemma wpm_ret {A} (a : A) s (Q : A -> monitor -> Prop) : Q a s -> wpm (mret a) s Q.
Proof. done. Qed.

Lemma wpm_mono {A} (m : MM A) s (P Q : A -> monitor -> Prop) : wpm m s P -> (forall a s', P a s' -> Q a s') -> wpm m s Q.
Proof. unfold wpm. destruct (m s) as [s' []]; auto. Qed.

Lemma wpm_observe {A} (f : nat -> A) s (Q : A -> monitor -> Prop) : Q (f (now s)) (at_time (S (now s)) s) -> wpm (observe f) s Q.
Proof. done. Qed.

Lemma wpm_read {A} (f : monitor -> A) s (Q : A -> monitor -> Prop) : Q (f s) s -> wpm (read f) s Q.
Proof. done. Qed.

Lemma wpm_update f s (Q : unit -> monitor -> Prop) : Q tt (f s) -> wpm (update f) s Q.
Proof. done. Qed.

Lemma wpm_check b e s (Q : unit -> monitor -> Prop) : b = true -> Q tt s -> wpm (check b e) s Q.
Proof. by intros ->. Qed.

Lemma wpm_no_fuel {A} F q s (Q : A -> monitor -> Prop) : At F q s -> total = false -> wpm no_fuel s Q.
Proof. intros [(S & HS & _) _] Ht. split; [done|]. by rewrite HS. Qed.

(** Updates of the other fields. *)
Lemma at_same F q s s' : trace s' = trace s -> construct_container s' = construct_container s -> At F q s -> At F q s'.
Proof. intros Ht Hc []. split; [by rewrite Ht | congruence]. Qed.

Lemma at_container F q q' s : At F q s -> At F q' (with_container q' s).
Proof. by intros []. Qed.

Lemma wpm_call F q s c F' (Q : unit -> monitor -> Prop) :
  At F q s -> exec_set N F c = Some F' -> (forall s', At F' q s' -> now s' = now s -> Q tt s') -> wpm (call c) s Q.
Proof.
  intros [(S & HS & Hsim) Hq] Hc HQ. apply HQ; [|done]. split; [|done].
  destruct (exec_sim _ (length (trace s)) _ _ _ _ Hsim Hc) as (S' & He & Hs'). exists S'. split; [|done]. cbn. by rewrite HS.
Qed.
End rules.

(** One step through the primitives of the monad. *)
Ltac wpm_step :=
  lazymatch goal with
  | |- wpm _ _ (mbind _ _) _ _ => apply wpm_bind
  | |- wpm _ _ (mret _) _ _ => apply wpm_ret
  | |- wpm _ _ (observe _) _ _ => apply wpm_observe
  | |- wpm _ _ stopped _ _ => apply wpm_observe
  | |- wpm _ _ (read _) _ _ => apply wpm_read
  | |- wpm _ _ (update _) _ _ => apply wpm_update
  end; cbn beta.
Ltac wpm_steps := repeat wpm_step.
(** [At] after ticks and updates of other fields. *)
Ltac same := eapply at_same; [| |eassumption]; reflexivity.
Ltac see_stop Hs := match goal with |- wpm _ _ (if should_stop ?t then _ else _) _ _ => destruct (should_stop t) eqn:Hs end.

(** ** The loops *)
Section loops.
Context `{Obs : Observations} `{Shs : Shards} `{Sok : !ShardsOk} (N : nat) (total : bool) (T : nat).
Context (stop_stays : forall t t', t <= t' -> should_stop t = true -> should_stop t' = true).
Context (stop_comes : total = true -> should_stop T = true).

(** Enough fuel to see [should_stop], when that matters. *)
Definition fueled (fuel : nat) (s : monitor) : Prop := total = true -> 0 < fuel /\ T < fuel + now s.

Lemma stops s : total = true -> T <= now s -> should_stop (now s) = true.
Proof. intros Ht Hle. by eapply stop_stays, stop_comes. Qed.

Lemma fueled_O s : fueled 0 s -> total = false.
Proof. unfold fueled. destruct total; [|done]. intros Hf. destruct (Hf eq_refl). lia. Qed.

(** The next turn of a loop that saw [should_stop] unset at [t]. *)
Lemma fueled_next fuel s s' t :
  fueled (S fuel) s -> now s <= t -> t < now s' -> should_stop t = false -> fueled fuel s'.
Proof.
  intros Hf Hn Ht Hs Htot. destruct (Hf Htot) as [_ Hlt].
  assert (t < T). { destruct (decide (T <= t)) as [Hle|]; [|lia]. apply (stop_stays T t Hle) in stop_comes; [|done]. congruence. }
  lia.
Qed.

Lemma fueled_later fuel s s' : fueled fuel s -> now s <= now s' -> fueled fuel s'.
Proof. intros Hf Hn Htot. destruct (Hf Htot). lia. Qed.

(** A loop that only observes. *)
Definition quiet {A} (m : nat -> MM A) : Prop := forall fuel F q s (Q : A -> monitor -> Prop),
  At N F q s -> fueled fuel s -> (forall a s', At N F q s' -> now s <= now s' -> Q a s') -> wpm N total (m fuel) s Q.

Lemma wait_samples_quiet size least : quiet (wait_samples size least).
Proof.
  intros fuel. induction fuel as [|fuel IH]; intros F q s Q HA Hf HQ; cbn [wait_samples].
  - eapply wpm_no_fuel; [done|]. by eapply fueled_O.
  - wpm_step. wpm_step. destruct (_ <? _)%Z.
    + wpm_steps. see_stop Hs.
      * apply wpm_ret, HQ; [same | cbn; lia].
      * eapply IH; [same | eapply fueled_next; [exact Hf | | | exact Hs]; cbn; lia |].
        intros a s' HA' Hn. apply HQ; [done | cbn in Hn; lia].
    + apply wpm_ret, HQ; [same | cbn; lia].
Qed.

Lemma wait_stable_quiet fuel : forall last_miss last_size size count F q s (Q : unit -> monitor -> Prop),
  At N F q s -> fueled fuel s -> (forall a s', At N F q s' -> now s < now s' -> Q a s') ->
  wpm N total (wait_stable fuel last_miss last_size size count) s Q.
Proof.
  induction fuel as [|fuel IH]; intros lm ls sz count F q s Q HA Hf HQ; cbn [wait_stable].
  - eapply wpm_no_fuel; [done|]. by eapply fueled_O.
  - wpm_steps. see_stop Hs; [apply wpm_ret, HQ; [same | cbn; lia]|]. wpm_steps.
    match goal with |- context [if ?b then mret tt else _] => destruct b end; [apply wpm_ret, HQ; [same | cbn; lia]|].
    wpm_steps. eapply IH; [same | eapply fueled_next; [exact Hf | | | exact Hs]; cbn; lia |].
    intros a s' HA' Hn. apply HQ; [done | cbn in Hn; lia].
Qed.

Lemma sleep_for_quiet first fuel : forall seconds F q s (Q : unit -> monitor -> Prop),
  At N F q s -> fueled fuel s -> (forall a s', At N F q s' -> now s <= now s' -> Q a s') ->
  wpm N total (sleep_for first fuel seconds) s Q.
Proof.
  induction fuel as [|fuel IH]; intros seconds F q s Q HA Hf HQ; cbn [sleep_for].
  - eapply wpm_no_fuel; [done|]. by eapply fueled_O.
  - destruct (_ <=? _)%Z; [by apply wpm_ret, HQ|]. destruct first; wpm_steps.
    + see_stop Hs; [apply wpm_ret, HQ; [same | cbn; lia]|]. wpm_steps.
      eapply IH; [same | eapply fueled_next; [exact Hf | | | exact Hs]; cbn; lia |].
      intros a s' HA' Hn. apply HQ; [done | cbn in Hn; lia].
    + see_stop Hs; [apply wpm_ret, HQ; [same | cbn; lia]|].
      eapply IH; [same | eapply fueled_next; [exact Hf | | | exact Hs]; cbn; lia |].
      intros a s' HA' Hn. apply HQ; [done | cbn in Hn; lia].
Qed.

(** *** All shards *)
Lemma for_shards_call (c : nat -> cmd) (step : gset nat -> nat -> gset nat) n : forall i F q s (Q : unit -> monitor -> Prop),
  At N F q s -> (forall j G, i <= j < i + n -> (forall k, j <= k < i + n -> k ∈ G <-> k ∈ F) -> exec_set N G (c j) = Some (step G j)) ->
  (forall j k G, j < k -> k ∈ step G j <-> k ∈ G) ->
  (forall s', At N (foldl step F (seq i n)) q s' -> now s' = now s -> Q tt s') ->
  wpm N total (for_shards n i (fun j => call (c j))) s Q.
Proof.
  induction n as [|n IH]; intros i F q s Q HA Hc Hstep HQ; cbn [for_shards]; [by apply wpm_ret, HQ|].
  wpm_step. eapply wpm_call; [done | apply Hc; [lia | done] |]. intros s1 HA1 Hn1.
  eapply IH; [done | | done |].
  - intros j G Hj HG. apply Hc; [lia|]. intros k Hk. rewrite HG by lia. apply Hstep. lia.
  - intros s' HA' Hn'. apply HQ; [done | lia].
Qed.

Lemma foldl_union (F : gset nat) i n : foldl (fun G j => {[j]} ∪ G) F (seq i n) = F ∪ set_seq i n.
Proof. revert i F. induction n as [|n IH]; intros i F; cbn [seq foldl]; [cbn; set_solver|]. rewrite IH. cbn. set_solver. Qed.

Lemma foldl_diff (F : gset nat) i n : foldl (fun G j => G ∖ {[j]}) F (seq i n) = F ∖ set_seq i n.
Proof. revert i F. induction n as [|n IH]; intros i F; cbn [seq foldl]; [cbn; set_solver|]. rewrite IH. cbn. set_solver. Qed.

Lemma exec_set_construct F i q0 :
  i < N -> i ∉ F -> good q0 ->
  exec_set N F (ConstructTier i) = Some ({[i]} ∪ F) /\
  (double_is_equal q0 1 = false -> exec_set N F (ConstructRatio i q0) = Some ({[i]} ∪ F)).
Proof.
  intros Hi HF Hq. cbn. rewrite !decide_True by done. split; [done|]. intros Hd.
  destruct (good_ratio kind q0 Hq) as [|Hr]; [congruence | by rewrite Hr].
Qed.

Lemma wpm_construct_all q s (Q : unit -> monitor -> Prop) :
  At N ∅ q s -> (forall s', At N (shards N) q s' -> now s' = now s -> Q tt s') ->
  wpm N total (all_shards N (fun i => call (ConstructTier i))) s Q.
Proof.
  intros HA HQ. eapply (for_shards_call ConstructTier (fun G j => {[j]} ∪ G)); [exact HA | | |].
  - intros j G Hj HG. apply (exec_set_construct G j 1); [lia | | by right]. rewrite HG by lia. set_solver.
  - intros j k G Hjk. set_solver by lia.
  - intros s' HA' Hn. apply HQ; [|done]. rewrite foldl_union in HA'. by replace (∅ ∪ set_seq 0 N) with (shards N) in HA' by set_solver.
Qed.

Lemma wpm_deconstruct_all F q s (Q : unit -> monitor -> Prop) :
  At N F q s -> F ⊆ shards N -> (forall s', At N ∅ q s' -> now s' = now s -> Q tt s') ->
  wpm N total (deconstruct_all N) s Q.
Proof.
  intros HA HF HQ. eapply (for_shards_call Deconstruct (fun G j => G ∖ {[j]})); [exact HA | | |].
  - intros j G Hj HG. cbn. by rewrite decide_True by lia.
  - intros j k G Hjk. set_solver by lia.
  - intros s' HA' Hn. apply HQ; [|done]. rewrite foldl_diff in HA'. by replace (F ∖ set_seq 0 N) with (∅ : gset nat) in HA' by set_solver.
Qed.

(** *** The queue *)
Lemma rotate_quiet visit q1 : forall q2 F s (Q : unit -> monitor -> Prop),
  (forall i s' (R : unit -> monitor -> Prop), i ∈ q1 -> R tt s' -> wpm N total (visit i) s' R) ->
  At N F (q1 ++ q2) s -> (forall s', At N F (q2 ++ q1) s' -> now s' = now s -> Q tt s') ->
  wpm N total (rotate (length q1) visit) s Q.
Proof.
  induction q1 as [|i q1 IH]; intros q2 F s Q Hv HA HQ; cbn [rotate length].
  - apply wpm_ret, HQ; [|done]. by rewrite app_nil_r.
  - wpm_step. wpm_step. rewrite (at_queue _ _ _ _ HA). cbn [app]. wpm_step. apply Hv; [set_solver|]. wpm_step. wpm_step.
    eapply (IH (q2 ++ [i]) F); [intros; apply Hv; [set_solver | done] | |].
    + rewrite (assoc_L (++)). by eapply at_container.
    + intros s' HA' Hn. apply HQ; [|done]. by rewrite <- (assoc_L (++)) in HA'.
Qed.

Lemma wpm_construct_one best i F q s (Q : unit -> monitor -> Prop) :
  At N F q s -> i < N -> i ∉ F -> good best -> (forall s', At N ({[i]} ∪ F) q s' -> now s' = now s -> Q tt s') ->
  wpm N total (construct_one best i) s Q.
Proof.
  intros HA Hi HF Hb HQ. unfold construct_one. destruct (exec_set_construct F i best Hi HF Hb) as [H1' H2'].
  wpm_step. destruct (double_is_equal best 1); (eapply wpm_call; [exact HA | by auto |]; intros s1 HA1 Hn1;
    eapply wpm_call; [exact HA1 | cbn; by rewrite decide_True | intros s2 HA2 Hn2; apply HQ; [done | lia]]).
Qed.

Lemma rotate_construct best q1 : forall q2 F s (Q : unit -> monitor -> Prop),
  At N F (q1 ++ q2) s -> NoDup q1 -> (forall i, i ∈ q1 -> i < N /\ i ∉ F) -> good best ->
  (forall s', At N (list_to_set q1 ∪ F) (q2 ++ q1) s' -> now s' = now s -> Q tt s') ->
  wpm N total (rotate (length q1) (construct_one best)) s Q.
Proof.
  induction q1 as [|i q1 IH]; intros q2 F s Q HA HN Hq Hb HQ; cbn [rotate length].
  - apply wpm_ret, HQ; [|done]. rewrite app_nil_r. replace (list_to_set [] ∪ F) with F by set_solver. done.
  - apply NoDup_cons in HN as [Hi HN]. wpm_step. wpm_step. rewrite (at_queue _ _ _ _ HA). cbn [app]. wpm_step.
    destruct (Hq i) as [Hi1 Hi2]; [set_solver|]. eapply wpm_construct_one; [exact HA | done | done | done |].
    intros s1 HA1 Hn1. wpm_step. wpm_step. eapply (IH (q2 ++ [i]) ({[i]} ∪ F)); [| done | | done |].
    + rewrite (assoc_L (++)). by eapply at_container.
    + intros j Hj. destruct (Hq j) as [Hj1 Hj2]; [set_solver|]. split; [done|]. intros [->%elem_of_singleton|]%elem_of_union; done.
    + intros s' HA' Hn. apply HQ; [|cbn in Hn; lia]. rewrite <- (assoc_L (++)) in HA'. cbn [list_to_set].
      replace ({[i]} ∪ list_to_set q1 ∪ F) with (list_to_set q1 ∪ ({[i]} ∪ F) : gset nat) by set_solver. done.
Qed.

Lemma wpm_req_latency i s (Q : Q -> monitor -> Prop) :
  i < 16 -> (forall x, Q x (at_time (S (now s)) s)) -> wpm N total (req_latency i) s Q.
Proof. intros Hi HQ. unfold req_latency. wpm_step. apply wpm_check; [by apply Nat.ltb_lt|]. wpm_step. apply HQ. Qed.

(** The shards of [q1] are frozen, those of [q2] thawed; of [q1], those that
    fail join [q2]. *)
Lemma check_shards_ok q1 : forall q2 F b s (Q : gmap nat Q -> monitor -> Prop),
  At N F (q1 ++ q2) s -> NoDup (q1 ++ q2) -> (forall i, i ∈ q1 ++ q2 -> i < N /\ i < 16 /\ is_Some (b !! i)) ->
  (forall i, i ∈ q2 -> i ∉ F) ->
  (forall b' G q' s', At N G q' s' -> NoDup q' -> (forall i, i ∈ q' -> i ∈ q1 ++ q2 /\ i ∉ G) -> (forall i, i ∈ q2 -> i ∈ q') -> G ⊆ F ->
     (forall i, i ∈ F -> i ∈ G \/ i ∈ q') -> (forall i, is_Some (b !! i) -> is_Some (b' !! i)) -> now s <= now s' -> Q b' s') ->
  wpm N total (check_shards (length q1) b) s Q.
Proof.
  induction q1 as [|i q1 IH]; intros q2 F b s Q HA HN Hq HF HQ; cbn [check_shards length].
  - apply wpm_ret. eapply HQ; [exact HA | done | | done | done | by left | done | done]. intros i Hi. auto.
  - cbn [app] in *. apply NoDup_cons in HN as [Hi HN]. wpm_step. wpm_step. rewrite (at_queue _ _ _ _ HA). cbn [app].
    destruct (Hq i) as (Hi1 & Hi2 & [base Hbase]); [set_solver|].
    wpm_step. eapply wpm_call; [exact HA | cbn; by rewrite decide_True | ]. intros s1 HA1 Hn1.
    wpm_step. apply wpm_req_latency; [done|]. intros x. wpm_step. wpm_step. rewrite Hbase.
    destruct (Qltb _ _).
    + wpm_step. wpm_step. wpm_step. eapply (wpm_call _ _ F (q1 ++ q2 ++ [i]) _ _ (F ∖ {[i]})).
      { rewrite (assoc_L (++)). eapply at_container, at_container. eapply at_same; [| |exact HA1]; reflexivity. }
      { cbn. by rewrite decide_True. }
      intros s2 HA2 Hn2. wpm_step. apply wpm_req_latency; [done|]. intros y.
      eapply (IH (q2 ++ [i]) (F ∖ {[i]})); [eapply at_same; [| |exact HA2]; reflexivity | | | |].
      * rewrite (assoc_L (++)). apply NoDup_app. split; [done|]. split; [set_solver | apply NoDup_singleton].
      * intros j Hj. destruct (decide (j = i)) as [->|Hne]; [by rewrite lookup_insert_eq|].
        rewrite lookup_insert_ne by done. apply Hq. set_solver.
      * intros j Hj. set_solver.
      * intros b' G q' s' HA' HN' Hsub Hin HGF Hcov Hdom Hn. eapply HQ; [exact HA' | done | | | | | | cbn in *; lia].
        -- intros j Hj. destruct (Hsub j Hj). set_solver.
        -- intros j Hj. apply Hin. set_solver.
        -- set_solver.
        -- intros j Hj. destruct (decide (j = i)) as [->|]; [right; apply Hin; set_solver|]. apply Hcov. set_solver.
        -- intros j Hj. apply Hdom. destruct (decide (j = i)) as [->|]; [by rewrite lookup_insert_eq|]. by rewrite lookup_insert_ne.
    + eapply (IH q2 F); [eapply at_container, at_same; [| |exact HA1]; reflexivity | done | | done |].
      * intros j Hj. apply Hq. set_solver.
      * intros b' G q' s' HA' HN' Hsub Hin HGF Hcov Hdom Hn. eapply HQ; [exact HA' | done | | done | done | done | done | cbn in *; lia].
        intros j Hj. destruct (Hsub j Hj). set_solver.
Qed.

Lemma wpm_check_all s (Q : unit -> monitor -> Prop) :
  N <= 16 -> Q tt s -> wpm N total (all_shards N (fun i => check (i <? 16) OutOfRange)) s Q.
Proof.
  intros HN HQ. unfold all_shards. enough (Hc : forall n i, i + n <= 16 -> wpm N total (for_shards n i (fun i => check (i <? 16) OutOfRange)) s Q) by (apply Hc; lia).
  induction n as [|n IH]; intros i Hi; cbn [for_shards]; [done|]. wpm_step. apply wpm_check; [apply Nat.ltb_lt; lia|]. apply IH. lia.
Qed.

Lemma fill_baseline_ok n : forall i b F q s (Q : gmap nat Q -> monitor -> Prop),
  At N F q s -> i + n <= 16 ->
  (forall b' s', At N F (q ++ seq i n) s' -> (forall j, i <= j < i + n \/ is_Some (b !! j) -> is_Some (b' !! j)) -> now s <= now s' -> Q b' s') ->
  wpm N total (fill_baseline n i b) s Q.
Proof.
  induction n as [|n IH]; intros i b F q s Q HA Hi HQ; cbn [fill_baseline].
  - apply wpm_ret, HQ; [by rewrite app_nil_r | intros j [|]; [lia | done] | done].
  - wpm_step. wpm_step. wpm_step. apply wpm_req_latency; [lia|]. intros x. wpm_step.
    apply wpm_check; [apply Nat.ltb_lt; lia|]. eapply (IH _ _ F (q ++ [i])); [| lia |].
    + eapply (at_same _ _ _ (with_container (q ++ [i]) s)); [done | cbn; by rewrite (at_queue _ _ _ _ HA) | by eapply at_container].
    + intros b' s' HA' Hb Hn. apply HQ; [by rewrite <- (assoc_L (++)) in HA' | | cbn in Hn; lia].
      intros j Hj. apply Hb. destruct (decide (j = i)) as [->|]; [right; by rewrite lookup_insert_eq|].
      destruct Hj as [|Hj]; [left; lia | right; by rewrite lookup_insert_ne].
Qed.

(** *** The passes *)

(** The shards in the queue are thawed. *)
Record Queued (F : gset nat) (q : list nat) : Prop := {
  q_nodup : NoDup q;
  q_shard : forall i, i ∈ q -> i < N /\ i ∉ F;
  q_frozen : F ⊆ shards N
}.

Lemma queued_all F q : Queued F q -> length q = N -> F = ∅.
Proof.
  intros [H1 H2 H3] Hl. assert (Hq : list_to_set q = shards N).
  { apply set_subseteq_size_eq.
    - intros i Hi. apply elem_of_list_to_set in Hi. apply elem_of_set_seq. destruct (H2 i Hi). lia.
    - unfold shards. rewrite size_set_seq, size_list_to_set by done. lia. }
  apply set_eq. intros i. split; [|set_solver]. intros Hi. assert (Hi' : i ∈ shards N) by set_solver.
  rewrite <- Hq, elem_of_list_to_set in Hi'. by destruct (H2 i Hi').
Qed.

Lemma construct_passes_ok fuel : forall best pass step b F q s (Q : gset nat * Z -> monitor -> Prop),
  At N F q s -> Queued F q -> N <= 16 -> (forall i, i ∈ q -> is_Some (b !! i)) -> good best ->
  (Z.of_nat fuel > PASS_THRESHOLD - pass + 1)%Z -> (0 <= pass <= PASS_THRESHOLD)%Z ->
  (forall r G q' s', At N G q' s' -> Queued G q' -> (q' = [] \/ should_stop (now s') = true) ->
     (base.size r.1 = N -> G = ∅) -> now s < now s' -> Q r s') ->
  wpm N total (construct_passes fuel best pass step b) s Q.
Proof.
  induction fuel as [|fuel IH]; intros best pass step b F q s Q HA HQd H16 Hb Hbest Hf Hp HQ; [lia|]. cbn [construct_passes].
  wpm_step. wpm_step. wpm_step. wpm_step. cbn [construct_container at_time]. rewrite (at_queue _ _ _ _ HA).
  assert (HA0 : At N F q (at_time (S (now s)) s)) by same.
  assert (H0 : base.size (∅ : gset nat) = N -> F = ∅).
  { intros HN. apply set_eq. intros i. split; [|set_solver]. intros Hi. apply (q_frozen _ _ HQd), elem_of_set_seq in Hi.
    rewrite size_empty in HN. lia. }
  destruct (should_stop (now s)) eqn:Hs; cbn [orb].
  { apply wpm_ret. eapply HQ; [exact HA0 | done | | done | cbn; lia]. right. cbn. eapply stop_stays; [|exact Hs]. lia. }
  destruct (bool_decide_reflect (q = [])) as [->|Hne].
  { apply wpm_ret. eapply HQ; [exact HA0 | done | by left | done | cbn; lia]. }
  wpm_step. eapply (rotate_quiet _ q [] F); [by intros | by rewrite app_nil_r |]. intros s1 HA1 Hn1. cbn [app] in HA1.
  destruct (Z.leb_spec PASS_THRESHOLD pass).
  - wpm_steps. rewrite (at_queue _ _ _ _ HA1).
    eapply HQ; [by eapply at_container | | by left | | cbn in *; lia].
    + destruct HQd. split; [by constructor | set_solver | done].
    + cbn [fst]. intros HN. apply (queued_all F q); [done|]. rewrite size_list_to_set in HN; [done | apply HQd].
  - wpm_step. eapply (rotate_construct best q [] F); [by rewrite app_nil_r | apply HQd | apply HQd | done |].
    intros s2 HA2 Hn2. cbn [app] in HA2. wpm_step.
    eapply (rotate_quiet _ q []); [| by rewrite app_nil_r |].
    { intros i s' R Hi HR. apply wpm_check; [|done]. apply Nat.ltb_lt. destruct (q_shard _ _ HQd i Hi). lia. }
    intros s3 HA3 Hn3. cbn [app] in HA3. wpm_step.
    eapply (check_shards_ok q []); [by rewrite app_nil_r | rewrite app_nil_r; apply HQd | | set_solver |].
    { intros i Hi. rewrite app_nil_r in Hi. destruct (q_shard _ _ HQd i Hi). split_and!; [done | lia | by apply Hb]. }
    intros b' G q' s4 HA4 HN4 Hsub _ HG Hcov Hdom Hn4. rewrite app_nil_r in Hsub. wpm_step. wpm_step. wpm_step. wpm_step.
    eapply IH; [same | | done | | done | lia | lia |].
    + split; [done | |].
      * intros i Hi. destruct (Hsub i Hi) as [Hi1 Hi2]. by destruct (q_shard _ _ HQd i Hi1).
      * intros i Hi. apply HG in Hi. apply elem_of_union in Hi as [Hi|Hi]; [|by apply (q_frozen _ _ HQd)].
        apply elem_of_list_to_set in Hi. apply elem_of_set_seq. destruct (q_shard _ _ HQd i Hi). lia.
    + intros i Hi. apply Hdom, Hb. by apply Hsub.
    + intros r G' q2 s' HA' HQ' Hst Hsz Hn'. eapply HQ; [exact HA' | done | done | done | cbn in *; lia].
Qed.

(** *** The watch *)
Lemma frozen_loop_ok FT best bl cs fuel : forall first bs ts cur F q s (Q : phase -> monitor -> Prop),
  At N F q s -> F ⊆ shards N -> fueled fuel s -> good best ->
  (forall p G s', At N G q s' -> G ⊆ shards N -> now s < now s' ->
     (p = DECONSTRUCT \/ p = CONSTRUCT best /\ G = ∅ /\ should_stop (now s) = false) -> Q p s') ->
  wpm N total (frozen_loop N FT best bl cs fuel first bs ts cur) s Q.
Proof.
  induction fuel as [|fuel IH]; intros first bs ts cur F q s Q HA HF Hf Hb HQ; cbn [frozen_loop].
  - eapply wpm_no_fuel; [done|]. by eapply fueled_O.
  - wpm_step. wpm_step. see_stop Hs; [apply wpm_ret; eapply HQ; [same | done | cbn; lia | by left]|].
    wpm_step. eapply (wait_samples_quiet _ _ (S fuel) F q); [same | eapply fueled_later; [exact Hf | cbn; lia] |].
    intros _ s1 HA1 Hn1. cbn in Hn1. do 6 wpm_step. wpm_step. wpm_step.
    match goal with |- context [if Qle_bool ?x 0 then _ else _] => destruct (Qle_bool x 0) end.
    { wpm_steps. eapply HQ; [same | done | cbn; lia | by left]. }
    match goal with |- context [if Z.ltb ?x ?y then _ else _] => destruct (Z.ltb x y) end.
    { wpm_step. eapply wpm_deconstruct_all; [same | done |]. intros s2 HA2 Hn2. wpm_steps.
      eapply HQ; [ | | | right; by split_and!]; [destruct (_ <=? _)%Z; [same | exact HA2] | set_solver |].
      destruct (_ <=? _)%Z; cbn in *; lia. }
    match goal with |- context [if Z.ltb ?x ?y then _ else _] => destruct (Z.ltb x y) end.
    + match goal with |- context [if Qltb ?x ?y then _ else _] => destruct (Qltb x y) end.
      * wpm_step. wpm_step. eapply IH; [same | done | eapply fueled_next; [exact Hf | | | exact Hs]; cbn in *; lia | done |].
        intros p G s' HA' HG Hn' Hp. eapply HQ; [exact HA' | done | cbn in *; lia |].
        destruct Hp as [|(-> & -> & Hst)]; [by left | right]. by split_and!.
      * wpm_step. eapply wpm_deconstruct_all; [same | done |]. intros s2 HA2 Hn2. apply wpm_ret.
        eapply HQ; [exact HA2 | set_solver | cbn in *; lia | right; by split_and!].
    + eapply IH; [same | done | eapply fueled_next; [exact Hf | | | exact Hs]; cbn in *; lia | done |].
      intros p G s' HA' HG Hn' Hp. eapply HQ; [exact HA' | done | cbn in *; lia |].
      destruct Hp as [|(-> & -> & Hst)]; [by left | right]. by split_and!.
Qed.

(** *** The phases *)
Context (curve_ok : forall t n, n ∈ learned t -> good (size_ n)).
Context (shards_ok : 0 < N <= 16).

Lemma best_option_ok dc ms fc l : forall best,
  (forall n, n ∈ l -> good (size_ n)) -> good best.2 -> good (best_option dc ms fc l best).2.
Proof.
  induction l as [|n l IH]; intros best Hl Hb; cbn [best_option]; [done|]. apply IH; [set_solver|].
  destruct (Qltb _ _); [|done]. unfold option_avg. assert (Hn := Hl n ltac:(set_solver)).
  destruct (Qltb (size_ n) _); [left; cbn; lra|]. destruct (_ && _); cbn; [by right | done].
Qed.

Lemma choose_size_ok dc ms fc fa l :
  (forall n, n ∈ l -> good (size_ n)) -> good (choose_size dc ms fc fa l).2.
Proof.
  intros Hl. unfold choose_size. destruct (Qltb _ _); [by right|]. apply best_option_ok; [done | left; cbn; lra].
Qed.

Lemma search_ok fuel q s (Q : Q -> monitor -> Prop) :
  At N ∅ q s -> fueled fuel s -> (forall best s', At N ∅ q s' -> now s < now s' -> good best -> Q best s') ->
  wpm N total (search N fuel) s Q.
Proof.
  intros HA Hf HQ. unfold search. wpm_step. wpm_step. wpm_step.
  eapply (wpm_mono N total _ _ (fun l s' => At N ∅ q s' /\ now s < now s' /\ forall n, n ∈ l -> good (size_ n))).
  { destruct (should_stop (now s)).
    - apply wpm_ret. split; [same|]. split; [cbn; lia | set_solver].
    - wpm_step. eapply wpm_call; [same | cbn; rewrite decide_True by (split; [lia | set_solver]); reflexivity |].
      intros s1 HA1 Hn1. wpm_step. split; [same|]. split; [cbn in *; lia | apply curve_ok]. }
  intros l s1 (HA1 & Hn1 & Hl). wpm_step.
  eapply (wait_samples_quiet _ _ fuel); [exact HA1 | eapply fueled_later; [exact Hf | lia] |]. intros _ s2 HA2 Hn2. do 6 wpm_step.
  wpm_step. eapply wpm_construct_all; [same|]. intros s3 HA3 Hn3. do 10 wpm_step.
  wpm_step. eapply wpm_deconstruct_all; [same | done |]. intros s4 HA4 Hn4. apply wpm_ret, HQ; [done | cbn in *; lia |].
  by apply choose_size_ok.
Qed.

Definition rank (p : phase) : nat := match p with WAIT_STABLE => 3 | CONSTRUCT _ => 2 | DECONSTRUCT => 1 | END => 0 end.

(** What holds when control reaches a label. *)
Definition phase_inv (p : phase) (s : monitor) : Prop :=
  match p with
  | WAIT_STABLE => At N ∅ [] s
  | CONSTRUCT best => At N ∅ [] s /\ good best
  | DECONSTRUCT => exists F q, At N F q s /\ F ⊆ shards N /\ (q = [] \/ should_stop (now s) = true)
  | END => exists q, At N ∅ q s
  end.

Definition phase_post (p : phase) (s : monitor) (p' : phase) (s' : monitor) : Prop :=
  phase_inv p' s' /\ now s < now s' /\ (should_stop (now s) = true -> rank p' < rank p).

Lemma stop_later t t' : should_stop t' = false -> t <= t' -> should_stop t = true -> False.
Proof. intros H1 Hle H2. apply (stop_stays t t' Hle) in H2. congruence. Qed.

Lemma wait_stable_phase_ok fuel s :
  At N ∅ [] s -> fueled fuel s -> wpm N total (wait_stable_phase N fuel) s (phase_post WAIT_STABLE s).
Proof.
  intros HA Hf. unfold wait_stable_phase. wpm_step. wpm_step. wpm_step.
  eapply (wait_stable_quiet fuel _ _ _ _ ∅ []); [same | eapply fueled_later; [exact Hf | done] |]. intros _ s1 HA1 Hn1.
  wpm_step. wpm_step. wpm_step. eapply search_ok; [same | eapply fueled_later; [exact Hf | cbn in *; lia] |]. intros best s2 HA2 Hn2 Hb.
  wpm_step. wpm_step. destruct (should_stop (now s2)) eqn:Hs; cbn [negb andb].
  { apply wpm_ret. split; [split; [same | done]|]. split; [cbn in *; lia | intros; cbn; lia]. }
  destruct (Qltb best _).
  - wpm_step. wpm_step. wpm_step. wpm_step. wpm_step.
    eapply sleep_for_quiet; [same | eapply fueled_later; [exact Hf | cbn in *; lia] |]. intros _ s3 HA3 Hn3.
    wpm_step. wpm_step. wpm_step. destruct (should_stop (now s3)) eqn:Hs3; cbn [negb].
    + split; [split; [same | done]|]. split; [cbn in *; lia | intros; cbn; lia].
    + split; [same|]. split; [cbn in *; lia|]. intros H0. exfalso. apply (stop_later (now s) (now s3)); [done | cbn in *; lia | done].
  - apply wpm_ret. split; [split; [same | done]|]. split; [cbn in *; lia | intros; cbn; lia].
Qed.

Lemma construct_phase_ok FT fuel best s :
  At N ∅ [] s -> good best -> fueled fuel s -> wpm N total (construct_phase N FT fuel best) s (phase_post (CONSTRUCT best) s).
Proof.
  intros HA Hb Hf. unfold construct_phase. wpm_step. wpm_step. rewrite (at_queue _ _ _ _ HA). wpm_step. apply wpm_check; [done|].
  wpm_step. eapply (wait_samples_quiet _ _ fuel); [exact HA | done |]. intros _ s1 HA1 Hn1. do 8 wpm_step.
  wpm_step. apply wpm_check_all; [lia|].
  wpm_step. eapply (fill_baseline_ok N 0 ∅ ∅ []); [same | lia |]. intros b s3 HA3 Hbs Hn3. cbn [app] in HA3.
  wpm_step. eapply construct_passes_ok; [exact HA3 | | lia | | done | done | done |].
  { split; [apply NoDup_seq | | set_solver]. intros i [_ Hi]%elem_of_seq. split; [lia | set_solver]. }
  { intros i [_ Hi]%elem_of_seq. apply Hbs. left. lia. }
  intros [fl cs] G q' s4 HA4 HQ4 Hst Hsz Hn4. cbn [fst] in Hsz. wpm_step. wpm_step.
  match goal with |- context [if ?c then mret WAIT_STABLE else _] => destruct c eqn:Hc end.
  - apply wpm_ret. apply andb_true_iff in Hc as [Hc1 Hc2%Nat.eqb_eq]. apply negb_true_iff in Hc1.
    assert (q' = []) as -> by (destruct Hst as [|Hst]; [done | congruence]). rewrite (Hsz Hc2) in HA4.
    split; [same|]. split; [cbn in *; lia|]. intros H0. exfalso. apply (stop_later (now s) (now s4)); [done | cbn in *; lia | done].
  - do 4 wpm_step. eapply frozen_loop_ok; [same | apply HQ4 | eapply fueled_later; [exact Hf | cbn in *; lia] | done |].
    intros p G' s5 HA5 HG5 Hn5 Hp. cbn in Hn5.
    assert (Hq5 : q' = [] \/ should_stop (now s5) = true).
    { destruct Hst as [|Hst]; [by left | right]. eapply stop_stays; [|exact Hst]. lia. }
    destruct Hp as [-> | (-> & -> & Hs5)].
    + split; [by exists G', q'|]. split; [cbn in *; lia | intros; cbn; lia].
    + cbn in Hs5. assert (q' = []) as ->.
      { destruct Hst as [|Hst]; [done|]. exfalso. apply (stop_later (now s4) (S (now s4))); [done | lia | done]. }
      split; [by split|]. split; [cbn in *; lia|]. intros H0. exfalso. apply (stop_later (now s) (S (now s4))); [done | cbn in *; lia | done].
Qed.

Lemma deconstruct_phase_ok fuel s :
  phase_inv DECONSTRUCT s -> fueled fuel s -> wpm N total (deconstruct_phase N fuel) s (phase_post DECONSTRUCT s).
Proof.
  intros (F & q & HA & HF & Hq) Hf. unfold deconstruct_phase. wpm_step. eapply wpm_deconstruct_all; [exact HA | done |].
  intros s1 HA1 Hn1. wpm_step. wpm_step. wpm_step.
  eapply (wpm_mono N total _ _ (fun _ s' => At N ∅ q s' /\ now s1 < now s')).
  { destruct (should_stop (now s1)); cbn [negb]; [apply wpm_ret; split; [same | cbn; lia]|].
    wpm_step. wpm_step. eapply sleep_for_quiet; [same | eapply fueled_later; [exact Hf | cbn; lia] |].
    intros _ s2 HA2 Hn2. split; [done | cbn in *; lia]. }
  intros _ s2 [HA2 Hn2]. wpm_step. wpm_step. wpm_step. destruct (should_stop (now s2)) eqn:Hs; cbn [negb].
  - split; [exists q; same|]. split; [cbn in *; lia | cbn; lia].
  - assert (q = []) as ->. { destruct Hq as [|Hq]; [done|]. exfalso. apply (stop_later (now s) (now s2)); [done | lia | done]. }
    split; [same|]. split; [cbn in *; lia|]. intros H0. exfalso. apply (stop_later (now s) (now s2)); [done | lia | done].
Qed.

Lemma phase_step_ok FT fuel p s :
  p <> END -> phase_inv p s -> fueled fuel s -> wpm N total (phase_step N FT fuel p) s (phase_post p s).
Proof.
  intros Hp Hi Hf. destruct p; cbn [phase_step]; [by apply wait_stable_phase_ok | destruct Hi; by apply construct_phase_ok | by apply deconstruct_phase_ok | done].
Qed.

(** Phases to go: after [should_stop] at most three. *)
Lemma run_phases_ok FT loops fuel : forall p s,
  phase_inv p s -> (total = true -> 0 < loops /\ T < loops) -> (total = true -> 4 * (T - now s) + rank p < fuel) ->
  wpm N total (run_phases N FT fuel loops p) s (fun _ s' => exists q, At N ∅ q s').
Proof.
  induction fuel as [|fuel IH]; intros p s Hi Hl Hf; cbn [run_phases].
  - assert (exists F q, At N F q s) as (F & q & HA).
    { destruct p; cbn in Hi; [eauto | destruct Hi; eauto | destruct Hi as (F & q & HA & _); eauto | destruct Hi; eauto]. }
    eapply wpm_no_fuel; [exact HA|]. destruct total; [|done]. specialize (Hf eq_refl). lia.
  - assert (p = END \/ p <> END) as [->|Hp] by (destruct p; [by right.. | by left]); [exact Hi|].
    assert (Hstep : wpm N total (p' ← phase_step N FT loops p; run_phases N FT fuel loops p') s (fun _ s' => exists q, At N ∅ q s')); [|by destruct p].
    wpm_step. eapply wpm_mono; [apply phase_step_ok; [done | done |]; intros Ht; specialize (Hl Ht); lia|].
    intros p' s' (Hi' & Hn & Hr). apply IH; [done | done |]. intros Ht. specialize (Hf Ht).
    destruct (decide (T <= now s)) as [Hle|].
    + assert (Hx := Hr (stops s Ht Hle)). lia.
    + assert (rank p' <= 3) by (destruct p'; cbn; lia). lia.
Qed.
End loops.

Lemma at_start `{Observations} `{ShardsOk} N : phase_inv N WAIT_STABLE new_monitor.
Proof. split; [|done]. exists (fun _ => thawed). split; [done|]. by split. Qed.

Lemma thawed_end `{Observations} `{ShardsOk} N q s : At N ∅ q s ->
  exists S, replay N (trace s) = Some S /\ forall i, listed (S i) = false /\ ((forall k, fills k i = true) -> S i = thawed).
Proof.
  intros [(S & HS & Hsim) _]. exists S. split; [done|]. intros i. assert (Hl := sim_not_listed _ _ i Hsim ltac:(set_solver)).
  split; [done|]. intros Hf. assert (Hfl := sim_flags _ _ Hsim i Hf). rewrite Hl in Hfl.
  destruct (S i) as [l t r]. cbn in Hl, Hfl. unfold thawed. destruct (t || r) eqn:E; [by discriminate Hfl|].
  apply orb_false_elim in E as [-> ->]. by subst l.
Qed.

(** ** The choice *)

(** The options [choose_size] looks at: the cache not frozen at a latency
    nothing is slower than, the whole cache frozen, the points of the curve. *)
Definition options (DC_hit_lat miss_lat FC_lat Frozen_Avg : Q) (container : list curve_data_node) : list (Q * Q) :=
  (1000%Q, 0%Q) :: (Frozen_Avg, 1%Q) ::
  imap (fun i n => option_avg DC_hit_lat miss_lat FC_lat (bool_decide (S i = length container)) n) container.

Definition fastest (l : list (Q * Q)) (o : Q * Q) : Prop := o ∈ l /\ forall o', o' ∈ l -> (o.1 <= o'.1)%Q.

Lemma Qltb_lt a b : Qltb a b = true <-> (a < b)%Q.
Proof. unfold Qltb. rewrite negb_true_iff. split; intros Hx; [apply Qnot_le_lt; intros Hle%Qle_bool_iff; congruence|].
  destruct (Qle_bool b a) eqn:Hle; [|done]. apply Qle_bool_iff in Hle. lra. Qed.

Lemma fastest_app l1 l2 b1 b2 :
  fastest l1 b1 -> fastest l2 b2 -> fastest (l1 ++ l2) (if Qltb b2.1 b1.1 then b2 else b1).
Proof.
  intros [Hi1 Hm1] [Hi2 Hm2]. destruct (Qltb b2.1 b1.1) eqn:Hb.
  - apply Qltb_lt in Hb. split; [set_solver|]. intros o [Ho|Ho]%elem_of_app; [specialize (Hm1 _ Ho); lra | by apply Hm2].
  - assert (b1.1 <= b2.1)%Q by (apply Qnot_lt_le; intros Hx%Qltb_lt; congruence).
    split; [set_solver|]. intros o [Ho|Ho]%elem_of_app; [by apply Hm1 | specialize (Hm2 _ Ho); lra].
Qed.

Lemma fastest_one o : fastest [o] o.
Proof. split; [set_solver|]. intros o' ->%list_elem_of_singleton. apply Qle_refl. Qed.

Lemma best_option_fastest dc ms fc container : forall seen best,
  fastest seen best ->
  fastest (seen ++ imap (fun i n => option_avg dc ms fc (bool_decide (S i = length container)) n) container) (best_option dc ms fc container best).
Proof.
  induction container as [|n rest IH]; intros seen best Hb; cbn [best_option imap]; [by rewrite app_nil_r|].
  replace (match rest with [] => true | _ => false end) with (bool_decide (1 = length (n :: rest))) by (by destruct rest).
  match goal with |- fastest (_ ++ ?x :: ?l) _ => change (x :: l) with ([x] ++ l); rewrite (assoc_L (++)) end.
  rewrite (imap_ext _ (fun i n => option_avg dc ms fc (bool_decide (S i = length rest)) n)); [by apply IH, fastest_app, fastest_one|].
  intros i x _. cbn. f_equal. apply bool_decide_ext. lia.
Qed.

(** The controller picks the ratio with the lowest expected latency: the
    pair it settles on is one of its options (not frozen at 1000, everything
    frozen at the measured latency, a point of the learned curve) and no option
    has a lower latency. *)
Theorem choose_size_fastest (DC_hit_lat miss_lat FC_lat Frozen_Avg : Q) (container : list curve_data_node) :
  fastest (options DC_hit_lat miss_lat FC_lat Frozen_Avg container) (choose_size DC_hit_lat miss_lat FC_lat Frozen_Avg container).
Proof.
  destruct (fastest_app _ [(Frozen_Avg, 1%Q)] _ _ (best_option_fastest DC_hit_lat miss_lat FC_lat container _ _ (fastest_one (1000%Q, 0%Q))) (fastest_one _)) as [Hi Hm].
  split; unfold options, choose_size; [set_solver | intros o Ho; apply Hm; set_solver].
Qed.

(** ** Runs *)



(** A cache of two shards that is stable at once, gains by half its size frozen,
    and is stopped at the [n]-th observation. *)
Definition sample_observations (n : nat) : Observations := {|
  should_stop t := n <=? t;
  PrintMissRatio _ := (1 # 2)%Q;
  step_mean _ := 3%Q; step_num _ := 100%Z; step_hit _ := 1%Q; step_other _ := 6%Q;
  GetStepSize _ := 1000%Z; other_size_from_last_end _ := 10%Z; Size _ := 1000%Z;
  req_tail t i := if Nat.even (t + i) then 5%Q else 4%Q;
  learned _ := [{| size_ := (1 # 2)%Q; FC_hit_ := (1 # 2)%Q; miss_ := (1 # 4)%Q |}; {| size_ := (7 # 10)%Q; FC_hit_ := (6 # 10)%Q; miss_ := (3 # 10)%Q |}]
|}.

(** Shards that have what is asked of them, but for an empty one. *)
Definition sample_shards (empty : nat) : Shards := {| kind := LFU_FH; fills _ i := negb (i =? empty); cuts _ _ := true |}.

Lemma sample_stays n t t' : t <= t' -> should_stop (Observations := sample_observations n) t = true -> should_stop (Observations := sample_observations n) t' = true.
Proof. cbn [should_stop sample_observations]. intros Ht H%Nat.leb_le. apply Nat.leb_le. lia. Qed.

Lemma sample_curve m t n : n ∈ learned (Observations := sample_observations m) t -> good (size_ n).
Proof. intros [->|[->|[]%not_elem_of_nil]%elem_of_cons]%elem_of_cons; left; cbn; lra. Qed.



(** The run of the sample: the two passes that freeze both shards. *)
Example sample_trace :
  take 7 (rev (trace (FastHashMonitor (H := sample_observations 90) 2 10 400 100 new_monitor).1)) =
  [GetCurve; ConstructTier 0; ConstructTier 1; Deconstruct 0; Deconstruct 1; ConstructRatio 0 (1 # 2); ResetCursor 0].
Proof. vm_compute. reflexivity. Qed.

(** A shard that was empty when all of it was frozen keeps refusing insertions
    after it was deconstructed; if it is shard 0, the assertion of the next
    [get_curve] fails. *)
Theorem controller_empty_shard p fills cuts s :
  listed s = false ->
  exists s1, exec_construct_tier p false s = Some s1 /\ exec_deconstruct s1 = s1 /\ tier s1 = true /\
    exec_shard p fills cuts GetCurve (exec_deconstruct s1) = None.
Proof. intros Hl. unfold exec_construct_tier. rewrite Hl. eexists. split_and!; reflexivity. Qed.

(** A controller that comes back to the search gets there. *)
Example sample_empty :
  replay (H := sample_shards 0) 2 (trace (FastHashMonitor (H := sample_observations 300) 2 10 2000 400 new_monitor).1) = None.
Proof. vm_compute. reflexivity. Qed.
