(* ===== verification/Curve.v ===== *)
(** * The learning pass ([cache/FIFO_FH.h], [cache/hhvm_lru_cache_FH.h], [get_curve])

    A marker is put at the front of the list.  While the pass runs, a lookup of
    an entry behind the marker moves it to the front and counts as a hit of the
    dynamic cache, a lookup of an entry in front of the marker as a hit of the
    frozen cache there would be: the entries in front are what would be frozen.
    [get_curve] samples how many they are and the hits.  The two classes differ
    in the threshold at which they stop.

    Time is counted in points at which other threads run ([others t], at most
    one [usleep] or the time between two of them) and [should_stop t] is read. *)

From S2P Require Import Prelude DList ListPrims Interfaces CacheSpec LRUCache FHCache FHLinks FastHash FIFOFH Monitor.
From Stdlib Require Import QArith.
Local Close Scope Q_scope.

Section object.
Context {M : Type -> Type} `{CHM M} {T : Type} `{CLHTlib T}.
Abbreviation FH A := (SM (FIFO_FHCache M T) A) (only parsing).

Definition FIFO_CURVE_THRESHOLD : Q := 993 # 1000.
Definition LRU_CURVE_THRESHOLD : Q := 992 # 1000.

Section pass.
Context (threshold : Q) (others : nat -> FH unit) (should_stop : nat -> bool).

(** [do { usleep } while (FC_size <= m_maxSize * i * 1.0/100 * 2 && !should_stop)] *)
Fixpoint curve_wait (i : Z) (fuel : nat) (t : nat) : FH (nat * Z) :=
  match fuel with
  | O => crashes OutOfFuel
  | S fuel =>
      others t;;
      step ← gets (fun c => (get_step (m_stat c)).1);
      FC_size ← gets movement_counter;
      if Qltb threshold (step.1 + step.2) then mret (S t, FC_size) else
      maxSize ← gets m_maxSize;
      if Qle_bool (inject_Z FC_size) (inject_Z (u64 (maxSize * i)) / 100 * 2) && negb (should_stop t)
      then curve_wait i fuel (S t) else mret (S t, FC_size)
  end.

(** [for (int i = 0; i < 45 && !should_stop; i++)], [n] of the 45 turns left. *)
Fixpoint curve_loop (n : nat) (i : Z) (fuel : nat) (t : nat) : FH (list curve_data_node) :=
  match n with
  | O => mret []
  | S n =>
      others t;;
      if should_stop t then mret [] else
      '(t, FC_size) ← curve_wait i fuel (S t);
      maxSize ← gets m_maxSize;
      let FC_ratio := (inject_Z FC_size / inject_Z maxSize)%Q in
      step ← gets (fun c => (print_step2 (m_stat c)).1);
      let '(FC_hit, miss) := step in
      if Qltb threshold (FC_hit + miss) || Qltb (9 # 10) FC_ratio then mret [] else
      rest ← curve_loop n (i + 1) fuel t;
      mret ({| size_ := FC_ratio; FC_hit_ := FC_hit; miss_ := miss |} :: rest)
  end.

Definition start_learning (now : Z) : FH unit :=
  node ← on_list (new_node (MARKER_KEY, now) OutOfListMarker nullptr);
  modify (with_marker node);;
  marker ← gets m_marker;
  on_list (pushFront marker);;
  modify (with_flags (fun f => set_curve true (sample_flag f) f));;
  modify (with_stat reset_cursor);;
  modify (with_flags (fun f => set_curve (curve_flag f) false f)).

Definition end_learning : FH unit :=
  modify (with_flags (fun f => set_curve (curve_flag f) true f));;
  modify (with_flags (fun f => set_curve false (sample_flag f) f));;
  marker ← gets m_marker;
  on_list (fh_delink marker);;
  on_list (delete_node marker);;
  modify (with_marker nullptr);;
  modify (fun c => with_counters 0 (eviction_counter c) (unreachable_counter c) c).

(** [curve_container] before and after. *)
Definition get_curve (fuel : nat) (now : Z) (curve_container : list curve_data_node) : FH (list curve_data_node) :=
  no_insert ← flag tier_no_insert;
  assertM (negb no_insert);;
  start_learning now;;
  assertM (match curve_container with [] => true | _ => false end);;
  curve ← curve_loop 45 0 fuel 0;
  end_learning;;
  mret (curve_container ++ curve).
End pass.

(** The two classes. *)
Definition FIFO_get_curve := get_curve FIFO_CURVE_THRESHOLD.
Definition LRU_get_curve := get_curve LRU_CURVE_THRESHOLD.

(** ** What the other threads do *)
Inductive access :=
  | Find (now ac key : Z)
  | Insert (now key value : Z).

(** While [sample_flag] is unset [sample_generator] samples every access.
    [look] is the [find] of one of the two classes. *)
Definition run_access (look : bool -> Z -> Z -> Z -> FH (bool * Z)) (a : access) : FH unit :=
  match a with
  | Find now ac key => r ← look (sample_generator false 0) now ac key; mret tt
  | Insert now key value => r ← insert (sample_generator false 0) now key value; mret tt
  end.

Fixpoint run_accesses (look : bool -> Z -> Z -> Z -> FH (bool * Z)) (l : list access) : FH unit :=
  match l with
  | [] => mret tt
  | a :: l => run_access look a;; run_accesses look l
  end.
End object.
