(* ===== verification/CurveProps.v ===== *)
(** * The learning pass measures what it says

    During the pass the entries in front of the marker are those looked up since
    it began, [movement_counter] is their number, and the counters are the hits
    in front, the hits behind, the misses and the insertions. *)

From S2P Require Import Prelude DList ListPrims Interfaces CacheSpec LRUCache FHCache FHLinks FastHash FIFOFH FHSlots FIFOFHSpec FIFOFHProps LRUFH Monitor Curve.
From Stdlib Require Import QArith Lqa.
Local Close Scope Q_scope.

(** ** The specification: what is in front, what is behind *)
Definition learn1 (maxSize : Z) (a : access) (fb : list slot * list slot) : list slot * list slot :=
  match a with
  | Find _ _ k => match assoc k (live fb.2) with Some v => (Live k v :: fb.1, unlink k fb.2) | None => fb end
  | Insert _ k v =>
      (fb.1, Live k v :: (if (maxSize <=? Z.of_nat (length (live (fb.1 ++ fb.2))))%Z then (evict_slots fb.2).2 else fb.2))
  end.

Definition event_of (a : access) (fb : list slot * list slot) : event :=
  match a with
  | Find _ _ k =>
      match assoc k (live fb.1), assoc k (live fb.2) with
      | Some _, _ => EFastHit
      | None, Some _ => EOtherHit
      | None, None => EMiss
      end
  | Insert _ _ _ => EInsert
  end.

(** Keys are user keys, a key is inserted once, lookups come after the marker,
    and an eviction finds an entry behind it. *)
Definition admissible (maxSize tm : Z) (a : access) (fb : list slot * list slot) : Prop :=
  match a with
  | Find now _ k => user_key k /\ (tm < now)%Z
  | Insert _ k v =>
      user_key k /\ v <> 0%Z /\ assoc k (live (fb.1 ++ fb.2)) = None /\
      ((Z.of_nat (length (live (fb.1 ++ fb.2))) < maxSize)%Z \/ live fb.2 <> [])
  end.

Fixpoint learn (maxSize : Z) (l : list access) (fb : list slot * list slot) : list slot * list slot :=
  match l with [] => fb | a :: l => learn maxSize l (learn1 maxSize a fb) end.

Fixpoint events (maxSize : Z) (l : list access) (fb : list slot * list slot) : list event :=
  match l with [] => [] | a :: l => event_of a fb :: events maxSize l (learn1 maxSize a fb) end.

Fixpoint all_admissible (maxSize tm : Z) (l : list access) (fb : list slot * list slot) : Prop :=
  match l with [] => True | a :: l => admissible maxSize tm a fb /\ all_admissible maxSize tm l (learn1 maxSize a fb) end.

Lemma learn_app mx l1 l2 fb : learn mx (l1 ++ l2) fb = learn mx l2 (learn mx l1 fb).
Proof. revert fb. induction l1 as [|a l1 IH]; intros fb; cbn; [done | apply IH]. Qed.

Lemma events_app mx l1 l2 fb : events mx (l1 ++ l2) fb = events mx l1 fb ++ events mx l2 (learn mx l1 fb).
Proof. revert fb. induction l1 as [|a l1 IH]; intros fb; cbn; [done | by rewrite IH]. Qed.

Lemma length_events mx l fb : length (events mx l fb) = length l.
Proof. revert fb. induction l as [|a l IH]; intros fb; cbn; [done | by rewrite IH]. Qed.

Lemma all_admissible_app mx tm l1 l2 fb :
  all_admissible mx tm (l1 ++ l2) fb <-> all_admissible mx tm l1 fb /\ all_admissible mx tm l2 (learn mx l1 fb).
Proof. revert fb. induction l1 as [|a l1 IH]; intros fb; cbn; [tauto | rewrite IH; tauto]. Qed.

(** The marker does not get in the way of an eviction while an entry is behind it. *)
Lemma evict_behind f b :
  Mark ∉ b -> live b <> [] -> evictable (f ++ Mark :: b) /\ evict_slots (f ++ Mark :: b) = (true, f ++ Mark :: (evict_slots b).2).
Proof.
  intros Hm Hl. induction b as [|[k v| |] b IH] using rev_ind; [done | | | set_solver].
  - rewrite app_comm_cons, (assoc_L (++)). split; [by unfold evictable; rewrite rev_app_distr|]. by rewrite !evict_slots_live.
  - rewrite app_comm_cons, (assoc_L (++)), evictable_tomb, !evict_slots_tomb. apply IH; [set_solver|].
    rewrite live_app in Hl. cbn in Hl. by rewrite app_nil_r in Hl.
Qed.

Lemma Forall_impl_elem {A} (P Q : A -> Prop) l : Forall P l -> (forall x, x ∈ l -> P x -> Q x) -> Forall Q l.
Proof. rewrite !Forall_forall. auto. Qed.

Lemma removelast_sub' {A} (x : A) l : x ∈ removelast l -> x ∈ l.
Proof. destruct l as [|y l _] using rev_ind; [done|]. rewrite removelast_last. set_solver. Qed.

Section learning.
Context {M : Type -> Type} `{CHMLaws M} {T : Type} `{CLHTLaws T}.
Implicit Types (c : FIFO_FHCache M T) (f b : list slot).

Definition time (h : arena (Z * Z)) (n : positive) : option Z := snd <$> pay (cells h) n.

(** ** The state during the pass

    [ps], [pl]: a node that is not in the list yet. *)
Record PlacesOut c tm f b mk n1 n2 ps pl : Prop := {
  pl_marker : m_marker c = addr mk;
  pl_nodes : Nodes (m_list c) (m_map c) (n1 ++ mk :: n2) [] ps (f ++ Mark :: b) [] pl;
  pl_length : length n1 = length f;
  pl_time : time (m_list c) mk = Some tm;
  pl_newer : Forall (fun n => exists t, time (m_list c) n = Some t /\ (tm < t)%Z) n1;
  pl_older : Forall (fun n => exists t, time (m_list c) n = Some t /\ (t <= tm)%Z) n2
}.

Abbreviation Places c tm f b mk n1 n2 := (PlacesOut c tm f b mk n1 n2 [] []).

Record Learning c tm f b : Prop := {
  ln_places : exists mk n1 n2, Places c tm f b mk n1 n2;
  ln_unmarked : Mark ∉ f ++ b;
  ln_size : m_size c = Z.of_nat (length (live (f ++ b)));
  ln_vals : forall k v, (k, v) ∈ live (f ++ b) -> v <> 0%Z;
  ln_hash : frozen (m_fasthash c) ∅;
  ln_flags : fast_hash_construct (m_flags c) = false /\ curve_flag (m_flags c) = true /\ tier_no_insert (m_flags c) = false /\
    tier_ready (m_flags c) = false /\ fast_hash_ready (m_flags c) = false;
  ln_moved : movement_counter c = Z.of_nat (length f);
  ln_max : (0 < m_maxSize c < 2 ^ 64)%Z;
  ln_le : (m_size c <= m_maxSize c)%Z;
  ln_ev : eviction_counter c = 0%Z;
  ln_live : length (live f) = length f
}.

Lemma time_same h h' : same_pay h h' -> forall n, time h' n = time h n.
Proof. intros Hp n. unfold time. by rewrite Hp. Qed.

Lemma places_keys c tm f b mk n1 n2 : Places c tm f b mk n1 n2 -> NoDup (live (f ++ b)).*1.
Proof.
  intros P. assert (HN := nodes_keys _ _ _ _ _ _ _ _ (pl_nodes _ _ _ _ _ _ _ _ _ P)).
  rewrite !app_nil_r, live_app, live_cons in HN. by rewrite live_app.
Qed.

(** The hash table during the pass. *)
Lemma places_find c tm f b mk n1 n2 k : Places c tm f b mk n1 n2 ->
  match assoc k (live (f ++ b)) with
  | Some v => exists n, chm_find (m_map c) k = Some (HMV v (addr n))
  | None => chm_find (m_map c) k = None
  end.
Proof.
  intros P. assert (Hf := nodes_find _ _ _ _ _ _ _ _ k (pl_nodes _ _ _ _ _ _ _ _ _ P)).
  rewrite !app_nil_r, live_app, live_cons in Hf. rewrite live_app. cbn [live1 app] in Hf.
  destruct (assoc k _); naive_solver.
Qed.

Lemma wp_get_time c n k t Q : pay (cells (m_list c)) n = Some (k, t) -> Q t c -> wp (get_time (addr n)) c Q.
Proof.
  intros Hp HQ. unfold get_time. wp_step. apply fh_wp_on_list. eapply wp_get_payload; [exact Hp|].
  apply wp_ret. by destruct c.
Qed.

Lemma wp_get_time' c n t Q : time (m_list c) n = Some t -> Q t c -> wp (get_time (addr n)) c Q.
Proof. unfold time. intros Ht. destruct (pay _ n) as [[k t']|] eqn:E; [|done]. injection Ht as <-. by eapply wp_get_time. Qed.

Lemma wp_set_time c n k t t' Q :
  pay (cells (m_list c)) n = Some (k, t) ->
  Q tt (with_list (on_cells (alter (with_payload (k, t')) n) (m_list c)) c) -> wp (set_time (addr n) t') c Q.
Proof.
  intros Hp HQ. unfold set_time. wp_step. apply fh_wp_on_list. eapply wp_get_payload; [exact Hp|].
  rewrite with_list_id. apply fh_wp_on_list, wp_set_payload; [|exact HQ].
  unfold pay in Hp. by destruct (cells (m_list c) !! n).
Qed.

(** A new time for a node. *)
Definition retimed (n : positive) (k t : Z) (h : arena (Z * Z)) : arena (Z * Z) := on_cells (alter (with_payload (k, t)) n) h.

Lemma pay_retimed n k t t' h x : pay (cells h) n = Some (k, t') ->
  pay (cells (retimed n k t h)) x = if decide (n = x) then Some (k, t) else pay (cells h) x.
Proof.
  intros Hp. unfold retimed. cbn. rewrite pay_alter. case_decide; [subst|done]. unfold pay in Hp. by destruct (cells h !! x).
Qed.

Lemma time_retimed n k t t' h x : pay (cells h) n = Some (k, t') ->
  time (retimed n k t h) x = if decide (n = x) then Some t else time h x.
Proof. intros Hp. unfold time. rewrite (pay_retimed _ _ _ _ _ _ Hp). by case_decide. Qed.

Lemma nodes_retimed h m ns fs ps dc fc pl n k t t' :
  pay (cells h) n = Some (k, t') -> Nodes (M:=M) h m ns fs ps dc fc pl -> Nodes (retimed n k t h) m ns fs ps dc fc pl.
Proof.
  intros Hp [Lk H1' H2' H3' Hm [th Hth]].
  assert (Hext : forall ns' sl, Forall2 (slot_ok (cells h) m) ns' sl -> Forall2 (slot_ok (cells (retimed n k t h)) m) ns' sl).
  { intros ns' sl HF. eapply Forall2_impl; [exact HF|]. intros x [j v| |]; cbn [slot_ok]; intros Hs.
    - destruct Hs as ([tx Htx] & Hr). split; [|done]. rewrite (pay_retimed _ _ _ _ _ _ Hp). case_decide; [subst; naive_solver | eauto].
    - destruct Hs as [tx Htx]. rewrite (pay_retimed _ _ _ _ _ _ Hp). case_decide; [subst; naive_solver | eauto].
    - destruct Hs as [tx Htx]. rewrite (pay_retimed _ _ _ _ _ _ Hp). case_decide; [subst; naive_solver | eauto]. }
  split; [by apply links_set_payload | by apply Hext.. | done |].
  unfold special. rewrite (pay_retimed _ _ _ _ _ _ Hp). case_decide; [subst; naive_solver | by exists th].
Qed.

(** ** Lookups *)
Lemma places_split c tm f b mk n1 n2 : Places c tm f b mk n1 n2 ->
  Forall2 (slot_ok (cells (m_list c)) (m_map c)) n1 f /\ Forall2 (slot_ok (cells (m_list c)) (m_map c)) n2 b.
Proof.
  intros P. assert (HF := nd_dc _ _ _ _ _ _ _ _ (pl_nodes _ _ _ _ _ _ _ _ _ P)).
  apply Forall2_app_inv in HF as [H1' HF]; [|apply P]. by apply Forall2_cons in HF as [_ HF].
Qed.

Lemma places_front c tm f b mk n1 n2 k v : Places c tm f b mk n1 n2 -> assoc k (live f) = Some v ->
  exists n t, chm_find (m_map c) k = Some (HMV v (addr n)) /\ time (m_list c) n = Some t /\ (tm < t)%Z.
Proof.
  intros P Ha. assert (Hks := places_keys _ _ _ _ _ _ _ P). rewrite live_app, fmap_app, NoDup_app in Hks.
  apply assoc_Some in Ha; [|apply Hks]. destruct (places_split _ _ _ _ _ _ _ P) as [HF _].
  destruct (slots_lookup _ _ _ _ _ _ HF Ha) as (x1 & n & x2 & s1 & s2 & -> & -> & _ & Hf).
  assert (Ht := pl_newer _ _ _ _ _ _ _ _ _ P). apply Forall_app in Ht as [_ Ht]. apply Forall_cons in Ht as [(t & Ht & Hlt) _]. eauto.
Qed.

Lemma places_behind c tm f b mk n1 n2 k v : Places c tm f b mk n1 n2 -> assoc k (live b) = Some v ->
  exists x1 n x2 s1 s2 t, n2 = x1 ++ n :: x2 /\ b = s1 ++ Live k v :: s2 /\ length x1 = length s1 /\ unlink k b = s1 ++ s2 /\
    chm_find (m_map c) k = Some (HMV v (addr n)) /\ pay (cells (m_list c)) n = Some (k, t) /\ (t <= tm)%Z /\
    n ∉ n1 ++ mk :: x1 ++ x2.
Proof.
  intros P Ha. assert (Hks := places_keys _ _ _ _ _ _ _ P). rewrite live_app, fmap_app, NoDup_app in Hks.
  destruct Hks as (_ & _ & Hks). apply assoc_Some in Ha; [|done]. destruct (places_split _ _ _ _ _ _ _ P) as [_ HF].
  destruct (slots_lookup _ _ _ _ _ _ HF Ha) as (x1 & n & x2 & s1 & s2 & -> & -> & Hl & Hf).
  assert (Ht := pl_older _ _ _ _ _ _ _ _ _ P). apply Forall_app in Ht as [_ Ht]. apply Forall_cons in Ht as [(t & Ht & Hle) _].
  apply Forall2_app_inv in HF as [_ HF]; [|done]. apply Forall2_cons in HF as [([t' Hp] & _) _].
  unfold time in Ht. rewrite Hp in Ht. injection Ht as ->.
  rewrite live_app, live_cons, fmap_app in Hks. cbn in Hks. rewrite NoDup_app, NoDup_cons in Hks.
  exists x1, n, x2, s1, s2, t. split_and!; try done.
  - apply (unlink_split k v); set_solver.
  - destruct (nodes_all _ _ _ _ _ _ _ _ (pl_nodes _ _ _ _ _ _ _ _ _ P)) as [_ HN].
    rewrite !app_nil_r, NoDup_app, NoDup_cons, NoDup_app, NoDup_cons in HN. set_solver.
Qed.

(** The entry of [n] behind the marker goes to the front with a new time. *)
Lemma wp_to_front c tm f b mk n1 n2 k v x1 n x2 s1 s2 now Q :
  Places c tm f b mk n1 n2 -> n2 = x1 ++ n :: x2 -> b = s1 ++ Live k v :: s2 -> length x1 = length s1 ->
  (exists t, pay (cells (m_list c)) n = Some (k, t)) -> n ∉ n1 ++ mk :: x1 ++ x2 -> (tm < now)%Z ->
  (forall h, Places (with_list h c) tm (Live k v :: f) (s1 ++ s2) mk (n :: n1) (x1 ++ x2) -> Q tt (with_list h c)) ->
  wp (set_time (addr n) now;; b ← on_list (isInList (addr n)); whenM b (on_list (fh_delink (addr n));; on_list (pushFront (addr n)))) c Q.
Proof.
  intros [Hmk Nd Hlen Htm Hnew Hold] -> -> Hl [t Hp] Hn Hnow HQ. wp_step. eapply wp_set_time; [exact Hp|].
  fold (retimed n k now (m_list c)). apply (nodes_retimed _ _ _ _ _ _ _ _ n k now t Hp) in Nd.
  assert (Hr := fun x => time_retimed n k now t (m_list c) x Hp). remember (retimed n k now (m_list c)) as h eqn:Hh.
  assert (Nd0 : Nodes (M:=M) h (m_map c) ((n1 ++ mk :: x1) ++ n :: x2) [] [] ((f ++ Mark :: s1) ++ Live k v :: s2) [] []).
  { by rewrite <- !(assoc_L (++)). }
  destruct (dll_next _ _ _ _ _ _ (lk_main _ _ _ _ (nd_links _ _ _ _ _ _ _ _ Nd0))) as [_ [p Hprv]].
  wp_step. apply fh_wp_on_list. eapply wp_isInList; [exact Hprv|]. rewrite ptr_eqb_marker. cbn [negb whenM].
  wp_step. apply fh_wp_on_list. eapply wp_nodes_delink_main; [|exact Nd0|]; [by rewrite !length_app; cbn; lia|].
  intros h1 Nd1 Hp1. apply fh_wp_on_list. eapply wp_nodes_pushFront; [exact Nd1|]. intros h2 Nd2 Hp2. cbn.
  assert (Hkeep : forall x, x ∈ n1 ++ mk :: x1 ++ x2 -> time h2 x = time (m_list c) x).
  { intros x Hx. rewrite (time_same _ _ Hp2), (time_same _ _ Hp1), Hr, decide_False; [done|]. by intros ->. }
  apply HQ. split; cbn.
  - done.
  - rewrite <- !(assoc_L (++)) in Nd2. exact Nd2.
  - by rewrite Hlen.
  - rewrite Hkeep; [done | set_solver].
  - apply Forall_cons. split.
    + exists now. split; [|done]. rewrite (time_same _ _ Hp2), (time_same _ _ Hp1), Hr, decide_True; done.
    + eapply Forall_impl_elem; [exact Hnew|]. cbn. intros x Hx (tx & Htx & Hlt). exists tx. rewrite Hkeep; [done | set_solver].
  - apply Forall_app in Hold as [Ho1 Ho2]. apply Forall_cons in Ho2 as [_ Ho2]. apply Forall_app. split;
      (eapply Forall_impl_elem; [eassumption|]; cbn; intros x Hx (tx & Htx & Hlt); exists tx; rewrite Hkeep; [done | set_solver]).
Qed.

Lemma places_fields c c' tm f b mk n1 n2 :
  m_list c' = m_list c -> m_map c' = m_map c -> m_marker c' = m_marker c -> Places c tm f b mk n1 n2 -> Places c' tm f b mk n1 n2.
Proof. intros E1 E2 E3 []. split; rewrite ?E1, ?E2, ?E3; done. Qed.

Lemma learning_stat c tm f b g : Learning c tm f b -> Learning (with_stat g c) tm f b.
Proof. intros [(mk & n1 & n2 & P)]. split; try done. exists mk, n1, n2. by apply (places_fields c). Qed.

Lemma assoc_behind k f b v : assoc k (live f) = None -> assoc k (live (f ++ b)) = Some v -> assoc k (live b) = Some v.
Proof. intros Hf. by rewrite live_app, assoc_app, Hf. Qed.

Definition answers (ac k : Z) (sl : list slot) : bool * Z :=
  match assoc k (live sl) with Some v => (true, v) | None => (false, ac) end.

Lemma wp_learn_find c tm f b now ac k :
  Learning c tm f b -> user_key k -> (tm < now)%Z ->
  wp (FIFOFH.find true now ac k) c (fun r c' =>
    r = answers ac k (f ++ b) /\
    Learning c' tm (learn1 (m_maxSize c) (Find now ac k) (f, b)).1 (learn1 (m_maxSize c) (Find now ac k) (f, b)).2 /\
    m_stat c' = count (event_of (Find now ac k) (f, b)) (m_stat c) /\ m_maxSize c' = m_maxSize c).
Proof.
  intros L Hk Hnow. assert (L0 := L). destruct L as [(mk & n1 & n2 & P) Hum Hsz Hvals Hh (Hfl1 & Hfl2 & Hfl3 & Hfl4 & Hfl5) Hmv Hmax Hle Hev Hlf].
  unfold FIFOFH.find. do 3 (wp_step; apply wp_flag). rewrite Hfl4, Hfl5. cbn [orb]. wp_step. apply wp_assert; [done|].
  unfold FIFOFH.find_dynamic. do 2 wp_step. assert (Hf := places_find _ _ _ _ _ _ _ k P). unfold answers. cbn [learn1 event_of fst snd].
  assert (Hks := places_keys _ _ _ _ _ _ _ P). destruct (assoc k (live (f ++ b))) as [v|] eqn:Ha.
  2: { rewrite Hf. rewrite live_app, assoc_app in Ha. destruct (assoc k (live f)); [done|]. rewrite Ha.
       wp_step. unfold stat. cbn [whenM]. apply wp_modify, wp_ret. split_and!; [done | by apply learning_stat | done | done]. }
  destruct Hf as [n Hf]. rewrite Hf. do 2 (wp_step; apply wp_flag). rewrite Hfl1, Hfl2. cbn [negb andb m_listNode m_value].
  assert (Hmk : forall Q : Z -> FIFO_FHCache M T -> Prop, Q tm c -> wp (get_time (addr mk)) c Q) by (intros Q; eapply wp_get_time', P).
  destruct (assoc k (live f)) as [w|] eqn:Haf.
  - assert (v = w) as -> by (rewrite live_app, assoc_app, Haf in Ha; by injection Ha).
    destruct (places_front _ _ _ _ _ _ _ _ _ P Haf) as (n' & t & Hf' & Ht & Hlt). rewrite Hf in Hf'. injection Hf' as <-.
    wp_step. eapply wp_get_time'; [exact Ht|]. do 2 wp_step. rewrite (pl_marker _ _ _ _ _ _ _ _ _ P). cbn [ptr_eqb].
    replace (ptr_eqb (addr mk) nullptr) with false by done. wp_step. wp_step. apply Hmk, wp_ret.
    rewrite (proj2 (Z.leb_gt _ _)) by done. wp_step. unfold stat. cbn [whenM]. apply wp_modify, wp_ret.
    assert (Hab : assoc k (live b) = None).
    { apply assoc_None. rewrite live_app, fmap_app, NoDup_app in Hks. apply assoc_Some in Haf; [|apply Hks].
      intros Hb. destruct Hks as (_ & Hd & _). eapply Hd; [|exact Hb]. apply list_elem_of_fmap. by exists (k, w). }
    rewrite Hab. split_and!; [done | by apply learning_stat | done | done].
  - apply (assoc_behind _ _ _ _ Haf) in Ha. rewrite Ha.
    destruct (places_behind _ _ _ _ _ _ _ _ _ P Ha) as (x1 & n' & x2 & s1 & s2 & t & Hn2 & Hb & Hl & Hu & Hf' & Hp & Hle' & Hnin).
    rewrite Hf in Hf'. injection Hf' as <-.
    wp_step. eapply wp_get_time; [exact Hp|]. do 2 wp_step. rewrite (pl_marker _ _ _ _ _ _ _ _ _ P).
    replace (ptr_eqb (addr mk) nullptr) with false by done. wp_step. wp_step. apply Hmk, wp_ret.
    rewrite (proj2 (Z.leb_le _ _)) by done. wp_step. wp_step. unfold stat. cbn [whenM]. apply wp_modify. wp_step. apply wp_modify.
    eapply (wp_to_front _ tm f b mk n1 n2 k v x1 n x2 s1 s2 now); [by apply (places_fields c) | done | done | done | by exists t | done | done |].
    intros h P'. apply wp_ret. rewrite Hu. assert (Hp' : live (Live k v :: f ++ s1 ++ s2) ≡ₚ live (f ++ b)).
    { rewrite Hb, live_cons, !live_app, live_cons. cbn [live1 app]. solve_Permutation. }
    split_and!; [done | | done | done]. cbn [fst snd]. split; cbn; try done.
    + exists mk, (n :: n1), (x1 ++ x2). exact P'.
    + rewrite Hb in Hum. clear -Hum. set_solver.
    + by rewrite Hp'.
    + intros j w. rewrite Hp'. apply Hvals.
    + assert (S (length (live f)) <= length (live (f ++ b))) by (rewrite <- Hp', live_cons, live_app; cbn; rewrite length_app; lia).
      rewrite Hmv, u64_small; lia.
    + by rewrite live_cons, length_app, Hlf.
Qed.

(** The promotion of the LRU class is off during the pass. *)
Lemma lru_find_dynamic_learning tl yes now ac k c :
  fast_hash_construct (m_flags c) = false -> curve_flag (m_flags c) = true ->
  LRUFH.find_dynamic tl yes now ac k c = FIFOFH.find_dynamic yes now ac k c.
Proof.
  intros H1' H2'. unfold LRUFH.find_dynamic, FIFOFH.find_dynamic, mbind, SM_bind, flag, gets.
  destruct (chm_find (m_map c) k); [|done]. by rewrite H1', H2'.
Qed.

Lemma lru_find_learning tl yes now ac k c :
  fast_hash_construct (m_flags c) = false -> curve_flag (m_flags c) = true -> LRUFH.find tl yes now ac k c = FIFOFH.find yes now ac k c.
Proof.
  intros H1' H2'. assert (Hd := fun ac => lru_find_dynamic_learning tl yes now ac k c H1' H2').
  unfold LRUFH.find, FIFOFH.find, mbind, SM_bind, flag, gets. destruct (assertM _ c) as [[[] c']|] eqn:E; [|done].
  unfold assertM in E. destruct (negb _ || negb _); [|done]. injection E as <-.
  destruct (tier_ready (m_flags c) || fast_hash_ready (m_flags c)); [|exact (Hd ac)].
  destruct (CLHT_find _ _ _) as [hit v]. destruct (hit && negb (v =? 0)%Z); [done|]. by destruct (tier_ready (m_flags c)).
Qed.

(** ** Insertions *)
Lemma wp_nodes_pushAfter h m ns1 a ns2 fs n ps d1 s0 d2 fc s pl Q :
  length ns1 = length d1 -> Nodes (M:=M) h m (ns1 ++ a :: ns2) fs (n :: ps) (d1 ++ s0 :: d2) fc (s :: pl) ->
  (forall h', Nodes h' m (ns1 ++ a :: n :: ns2) fs ps (d1 ++ s0 :: s :: d2) fc pl -> same_pay h h' -> Q tt h') ->
  wp (pushAfter (addr a) (addr n)) h Q.
Proof.
  intros Hlen Nd HQ. eapply wp_pushAfter_links; [apply Nd|]. intros h' Lk Hp. apply HQ; [|done].
  assert (HF := nd_dc _ _ _ _ _ _ _ _ Nd). apply Forall2_app_inv in HF as [HF1 HF2]; [|done].
  apply Forall2_cons in HF2 as [Hs0 HF2]. assert (Ho := nd_out _ _ _ _ _ _ _ _ Nd). apply Forall2_cons in Ho as [Hs Ho].
  eapply nodes_relink; [exact Nd | done | done | apply Forall2_app; [done|]; by repeat constructor | apply Nd | done |].
  intros x. rewrite !live_app, !live_cons. set_solver.
Qed.

(** Nodes that keep their data keep their places. *)
Lemma places_kept c c' tm f b b' mk n1 n2 n2' ps pl ps' pl' :
  PlacesOut c tm f b mk n1 n2 ps pl -> m_marker c' = m_marker c ->
  Nodes (m_list c') (m_map c') (n1 ++ mk :: n2') [] ps' (f ++ Mark :: b') [] pl' ->
  (forall n, n ∈ n1 ++ mk :: n2' -> n ∈ n1 ++ mk :: n2 /\ time (m_list c') n = time (m_list c) n) ->
  PlacesOut c' tm f b' mk n1 n2' ps' pl'.
Proof.
  intros [Hmk Nd Hlen Htm Hnew Hold] Hm Nd' Hk. assert (HN := nodes_all _ _ _ _ _ _ _ _ Nd').
  rewrite NoDup_app in HN. destruct HN as (_ & HN & _). rewrite NoDup_app, NoDup_cons in HN. split; [congruence | done | done | | |].
  - destruct (Hk mk) as [_ ->]; [set_solver | done].
  - eapply Forall_impl_elem; [exact Hnew|]. cbn. intros x Hx (t & Ht & Hlt). exists t. destruct (Hk x) as [_ ->]; [set_solver | done].
  - rewrite Forall_forall in Hold |- *. intros x Hx. destruct (Hk x) as [Hin Ht]; [set_solver|]. rewrite Ht. apply Hold.
    apply elem_of_app in Hin as [Hin|[->|Hin]%elem_of_cons]; [| |done]; exfalso; set_solver.
Qed.

(** The node that was out of the list goes behind the marker. *)
Lemma places_push c c' tm f b mk n1 n2 n s :
  PlacesOut c tm f b mk n1 n2 [n] [s] -> m_marker c' = m_marker c ->
  Nodes (m_list c') (m_map c') (n1 ++ mk :: n :: n2) [] [] (f ++ Mark :: s :: b) [] [] ->
  time (m_list c') n = Some tm -> (forall x, x ∈ n1 ++ mk :: n2 -> time (m_list c') x = time (m_list c) x) ->
  Places c' tm f (s :: b) mk n1 (n :: n2).
Proof.
  intros [Hmk Nd Hlen Htm Hnew Hold] Hm Nd' Hn Hk. split; [congruence | done | done | | |].
  - by rewrite Hk by set_solver.
  - eapply Forall_impl_elem; [exact Hnew|]. cbn. intros x Hx (t & Ht & Hlt). exists t. by rewrite Hk by set_solver.
  - apply Forall_cons. split; [by exists tm|].
    eapply Forall_impl_elem; [exact Hold|]. cbn. intros x Hx (t & Ht & Hlt). exists t. by rewrite Hk by set_solver.
Qed.

(** The eviction of a full cache. *)
Lemma wp_learn_evict c tm f b mk n1 n2 ps pl Q :
  PlacesOut c tm f b mk n1 n2 ps pl -> Mark ∉ b -> live b <> [] ->
  (forall h m n2', PlacesOut (with_list h (with_map m c)) tm f (evict_slots b).2 mk n1 n2' ps pl ->
     Q true (with_list h (with_map m c))) ->
  wp FIFOFH.evict c Q.
Proof.
  intros P Hm Hl HQ. destruct (evict_behind f b Hm Hl) as [Hev Hes]. assert (Nd := pl_nodes _ _ _ _ _ _ _ _ _ P).
  eapply fh_wp_evict; [exact Hev | exact Nd |]. rewrite Hes. cbn [fst snd]. intros h m ns' Nd' [[l Hns] Hk].
  assert (HF := nd_dc _ _ _ _ _ _ _ _ Nd'). apply Forall2_app_inv_r in HF as (n1' & r & HF1 & HF2 & ->).
  apply Forall2_cons_inv_r in HF2 as (mk' & n2' & _ & HF2 & ->). rewrite <- (assoc_L (++)) in Hns. cbn [app] in Hns.
  apply app_inj_1 in Hns as [<- Hns]; [|rewrite (pl_length _ _ _ _ _ _ _ _ _ P); symmetry; by eapply Forall2_length].
  injection Hns as <- ->. eapply HQ. eapply places_kept; [exact P | done | exact Nd' |].
  intros n Hn. split; [set_solver|]. cbn. unfold time. by rewrite Hk.
Qed.

Lemma wp_learn_insert c tm f b now k v :
  Learning c tm f b -> user_key k -> v <> 0%Z -> assoc k (live (f ++ b)) = None ->
  (Z.of_nat (length (live (f ++ b))) < m_maxSize c)%Z \/ live b <> [] ->
  wp (FIFOFH.insert true now k v) c (fun r c' =>
    r = true /\
    Learning c' tm (learn1 (m_maxSize c) (Insert now k v) (f, b)).1 (learn1 (m_maxSize c) (Insert now k v) (f, b)).2 /\
    m_stat c' = count EInsert (m_stat c) /\ m_maxSize c' = m_maxSize c).
Proof.
  intros [(mk & n1 & n2 & P) Hum Hsz Hvals Hh (Hfl1 & Hfl2 & Hfl3 & Hfl4 & Hfl5) Hmv Hmax Hle Hev Hlf] Hu Hv Ha Hroom.
  assert (Hf := places_find _ _ _ _ _ _ _ k P). rewrite Ha in Hf. assert (Nd := pl_nodes _ _ _ _ _ _ _ _ _ P).
  unfold FIFOFH.insert. wp_step. unfold stat at 1. cbn [whenM]. apply wp_modify. wp_step. apply wp_flag. cbn [with_stat m_flags]. rewrite Hfl3.
  wp_step. apply fh_wp_on_list, wp_new_node. wp_step. apply wp_gets. cbn [with_list with_stat m_map m_list].
  wp_step. apply wp_modify. rewrite (chm_insert_new _ _ _ _ Hf). cbn [negb]. wp_step. apply wp_flag.
  cbn [with_map with_list with_stat m_flags]. rewrite Hfl1. wp_step. apply wp_ret. do 4 wp_step. cbn [m_maxSize m_size with_map with_list with_stat].
  assert (Nd1 := nodes_alloc _ _ _ _ _ _ _ _ k v now Nd Hf Hu).
  remember (m_maxSize c <=? m_size c)%Z as full eqn:Hfull. symmetry in Hfull. rewrite Hsz in Hfull.
  assert (Hres : learn1 (m_maxSize c) (Insert now k v) (f, b) = (f, Live k v :: (if full then (evict_slots b).2 else b))).
  { cbn [learn1 fst snd]. by rewrite Hfull. }
  rewrite Hres. cbn [fst snd].
  wp_step. apply wp_mono with (P := fun e c' => e = full /\ m_size c' = m_size c /\ m_maxSize c' = m_maxSize c /\ m_flags c' = m_flags c /\
    m_fasthash c' = m_fasthash c /\ eviction_counter c' = eviction_counter c /\ movement_counter c' = movement_counter c /\
    m_stat c' = insert_incr (m_stat c) /\
    exists n2', PlacesOut c' tm f (if full then (evict_slots b).2 else b) mk n1 n2' [brk (m_list c)] [Live k v]).
  - assert (P0 : PlacesOut (with_map (chm_insert (m_map c) k (HMV v (addr (brk (m_list c))))).2
        (with_list (Arena (<[brk (m_list c) := Node (k, now) OutOfListMarker nullptr]> (cells (m_list c))) (Pos.succ (brk (m_list c)))) (with_stat insert_incr c)))
        tm f b mk n1 n2 [brk (m_list c)] [Live k v]).
    { eapply places_kept; [exact P | done | exact Nd1 |]. intros n Hn. split; [done|]. unfold time, pay. cbn.
      rewrite lookup_insert_ne; [done|]. intros <-. assert (Hd : brk (m_list c) ∈ dom (cells (m_list c))).
      { apply elem_of_dom. eapply links_alloc; [apply Nd|]. rewrite !app_nil_r. set_solver. }
      apply (lk_brk _ _ _ _ (nd_links _ _ _ _ _ _ _ _ Nd)) in Hd. lia. }
    destruct full.
    + eapply wp_learn_evict; [exact P0 | set_solver | |].
      { destruct Hroom as [Hlt|]; [|done]. apply Z.leb_le in Hfull. lia. }
      intros h m n2' P1. split_and!; [done.. |]. by exists n2'.
    + apply wp_ret. split_and!; [done.. |]. by exists n2.
  - intros ? c1 (-> & Hs1 & Hm1 & Hf1 & Hh1 & He1 & Hmv1 & Hst1 & n2' & P1). wp_step. apply wp_flag. rewrite Hf1, Hfl3.
    wp_step. apply wp_flag. rewrite Hf1, Hfl2. cbn [negb]. assert (Nd2 := pl_nodes _ _ _ _ _ _ _ _ _ P1).
    wp_step. wp_step. wp_step. rewrite (pl_marker _ _ _ _ _ _ _ _ _ P1). wp_step. eapply wp_get_time'; [apply P1|].
    assert (Ho := nd_out _ _ _ _ _ _ _ _ Nd2). apply Forall2_cons in Ho as [([t Ht] & _) _].
    wp_step. eapply wp_set_time; [exact Ht|]. fold (retimed (brk (m_list c)) k tm (m_list c1)).
    apply (nodes_retimed _ _ _ _ _ _ _ _ _ k tm t Ht) in Nd2.
    assert (Hr := fun x => time_retimed _ k tm t (m_list c1) x Ht). remember (retimed _ k tm (m_list c1)) as h1 eqn:Hh1'.
    apply fh_wp_on_list. eapply wp_nodes_pushAfter; [apply P1 | exact Nd2 |]. intros h2 Nd3 Hp2. cbn.
    remember (if full then (evict_slots b).2 else b) as b1 eqn:Hb1.
    assert (P2 : Places (with_list h2 (with_list h1 c1)) tm f (Live k v :: b1) mk n1 (brk (m_list c) :: n2')).
    { eapply places_push; [exact P1 | done | exact Nd3 | |].
      - by rewrite (time_same _ _ Hp2), Hr, decide_True.
      - intros x Hx. rewrite (time_same _ _ Hp2), Hr, decide_False; [done|]. intros <-.
        destruct (nodes_all _ _ _ _ _ _ _ _ Nd2) as [_ HN]. rewrite !app_nil_l, NoDup_app in HN. set_solver. }
    assert (Hb : Mark ∉ b) by set_solver. assert (Hlb := live_evict b (evictable_unmarked b Hb)).
    assert (Hlen : Z.of_nat (length (live (f ++ Live k v :: b1))) = if full then m_size c else (m_size c + 1)%Z).
    { rewrite Hsz, !live_app, live_cons, !length_app, Hb1. cbn [live1 length app]. destruct full; [|lia].
      rewrite (length_live_evict b (evictable_unmarked b Hb)).
      assert (live b <> []). { destruct Hroom as [Hlt|]; [|done]. apply Z.leb_le in Hfull. lia. }
      destruct (live b); [done | cbn [length]; lia]. }
    assert (Hum1 : Mark ∉ f ++ Live k v :: b1).
    { rewrite Hb1. destruct full; [|set_solver]. intros [Hx|[[=]|Hx%evict_slots_sub]%elem_of_cons]%elem_of_app; set_solver. }
    assert (Hvals1 : forall j w, (j, w) ∈ live (f ++ Live k v :: b1) -> w <> 0%Z).
    { intros j w. rewrite live_app, live_cons. intros [Hj|[Hj|Hj]%elem_of_app]%elem_of_app.
      - apply (Hvals j). rewrite live_app. set_solver.
      - by apply list_elem_of_singleton in Hj as [= -> ->].
      - apply (Hvals j). rewrite live_app. apply elem_of_app. right. rewrite Hb1 in Hj. destruct full; [|done].
        rewrite (proj1 Hlb) in Hj. by apply removelast_sub' in Hj. }
    assert (Hrep : forall n, n = (if full then m_size c else m_size c + 1)%Z -> (n <= m_maxSize c)%Z ->
      Learning (with_size n (with_list h2 (with_list h1 c1))) tm f (Live k v :: b1)).
    { intros n Hn Hnle. split; cbn [with_size with_list m_size m_fasthash m_flags movement_counter m_maxSize eviction_counter]; try done.
      - exists mk, n1, (brk (m_list c) :: n2'). by eapply places_fields; [..|exact P2].
      - by rewrite Hn, <- Hlen.
      - by rewrite Hh1.
      - by rewrite Hf1.
      - by rewrite Hmv1.
      - by rewrite Hm1.
      - by rewrite Hm1.
      - by rewrite He1. }
    wp_step. destruct full; cbn [negb]; repeat wp_step.
    + rewrite whenM_false by (cbn; lia). apply wp_ret. cbn. split_and!; [done | | by rewrite Hst1 | done].
      specialize (Hrep (m_size c) eq_refl Hle). rewrite <- Hs1 in Hrep. by destruct c1.
    + cbn. apply Z.leb_gt in Hfull. rewrite Hs1, Hsz, whenM_false by (cbn; lia). rewrite u64_small by lia.
      apply wp_ret. split_and!; [done | apply Hrep; lia | exact Hst1 | exact Hm1].
Qed.

(** ** Accesses of other threads *)

(** [look] is a lookup that behaves as the one of the FIFO class during the pass. *)
Definition looks_up (look : bool -> Z -> Z -> Z -> SM (FIFO_FHCache M T) (bool * Z)) : Prop := forall yes now ac k c,
  fast_hash_construct (m_flags c) = false -> curve_flag (m_flags c) = true -> look yes now ac k c = FIFOFH.find yes now ac k c.

Lemma wp_run_access look c tm f b a :
  looks_up look -> Learning c tm f b -> admissible (m_maxSize c) tm a (f, b) ->
  wp (run_access look a) c (fun _ c' =>
    Learning c' tm (learn1 (m_maxSize c) a (f, b)).1 (learn1 (m_maxSize c) a (f, b)).2 /\
    m_stat c' = count (event_of a (f, b)) (m_stat c) /\ m_maxSize c' = m_maxSize c).
Proof.
  intros Hlook L Ha. destruct a as [now ac k|now k v]; cbn [run_access admissible fst snd] in *; change (sample_generator false 0) with true; wp_step.
  - unfold wp. destruct (ln_flags _ _ _ _ L) as (Hf1 & Hf2 & _). rewrite (Hlook true now ac k c Hf1 Hf2).
    destruct Ha as [Hk Hnow]. assert (Hw := wp_learn_find c tm f b now ac k L Hk Hnow). unfold wp in Hw.
    destruct (FIFOFH.find true now ac k c) as [[r c']|]; [|done]. apply wp_ret, Hw.
  - destruct Ha as (Hk & Hv & Hn & Hroom).
    eapply wp_mono; [by apply (wp_learn_insert c tm f b now k v)|]. cbn beta. intros r c' [_ Hc]. by apply wp_ret.
Qed.

Lemma wp_run_accesses look tm l : looks_up look -> forall c f b,
  Learning c tm f b -> all_admissible (m_maxSize c) tm l (f, b) ->
  wp (run_accesses look l) c (fun _ c' =>
    Learning c' tm (learn (m_maxSize c) l (f, b)).1 (learn (m_maxSize c) l (f, b)).2 /\
    m_stat c' = foldl (fun s e => count e s) (m_stat c) (events (m_maxSize c) l (f, b)) /\ m_maxSize c' = m_maxSize c).
Proof.
  intros Hlook. induction l as [|a l IH]; intros c f b L Ha; cbn [run_accesses learn events foldl]; [done|].
  destruct Ha as [Ha Hl]. wp_step. eapply wp_mono; [by apply (wp_run_access look c tm f b a)|]. cbn beta. intros _ c1 (L1 & Hs1 & Hm1).
  rewrite <- Hm1 in L1, Hl. eapply wp_mono; [apply (IH c1 _ _ L1)|].
  - by rewrite <- surjective_pairing.
  - cbn beta. intros _ c2 (L2 & Hs2 & Hm2). rewrite <- surjective_pairing, Hm1 in L2, Hs2.
    split_and!; [done | by rewrite Hs2, Hs1 | congruence].
Qed.

(** ** The pass *)
Section pass.
Context (look : bool -> Z -> Z -> Z -> SM (FIFO_FHCache M T) (bool * Z)) (look_ok : looks_up look).
Context (threshold : Q) (threshold_ok : (threshold < 1)%Q).
Context (A : nat -> list access) (should_stop : nat -> bool) (N : nat) (stop_comes : forall t, N <= t -> should_stop t = true).
Context (maxSize tm : Z) (s0 : FHStat) (dc : list slot).

(** What has been accessed at a time. *)
Definition history (t : nat) : list access := concat (A <$> seq 0 t).
Context (history_ok : forall t, all_admissible maxSize tm (history t) ([], dc)).

Definition others (t : nat) : SM (FIFO_FHCache M T) unit := run_accesses look (A t).

Record At (t : nat) c : Prop := {
  at_learning : Learning c tm (learn maxSize (history t) ([], dc)).1 (learn maxSize (history t) ([], dc)).2;
  at_stat : m_stat c = foldl (fun s e => count e s) (reset_cursor s0) (events maxSize (history t) ([], dc));
  at_max : m_maxSize c = maxSize
}.

Lemma history_S t : history (S t) = history t ++ A t.
Proof. unfold history. rewrite seq_S, fmap_app, concat_app. cbn. by rewrite app_nil_r. Qed.

Lemma wp_others t c : At t c -> wp (others t) c (fun _ c' => At (S t) c').
Proof.
  intros [L Hs Hm]. assert (Ha := history_ok (S t)). rewrite history_S, all_admissible_app in Ha. destruct Ha as [_ Ha].
  rewrite (surjective_pairing (learn maxSize (history t) ([], dc))) in Ha. rewrite <- Hm in Ha at 1.
  eapply wp_mono; [apply (wp_run_accesses look tm _ look_ok c _ _ L Ha)|]. cbn beta. rewrite <- surjective_pairing, Hm. intros _ c' (L' & Hs' & Hm').
  split; rewrite ?history_S, ?learn_app, ?events_app; [done | | done]. by rewrite Hs', Hs, foldl_app.
Qed.

(** Time enough to see [should_stop]. *)
Lemma wp_curve_wait i fuel : forall t c, At t c -> 0 < fuel -> N < fuel + t ->
  wp (curve_wait threshold others should_stop i fuel t) c (fun r c' => At r.1 c' /\ t < r.1 /\ r.2 = movement_counter c').
Proof.
  induction fuel as [|fuel IH]; intros t c HA Hf HN; [lia|]. cbn [curve_wait].
  wp_step. eapply wp_mono; [by apply wp_others|]. cbn beta. intros _ c1 HA1. do 4 wp_step.
  destruct (Qltb _ _); [apply wp_ret; split_and!; [done | cbn; lia | done]|]. do 2 wp_step.
  destruct (should_stop t) eqn:Hs.
  - rewrite andb_false_r. apply wp_ret. split_and!; [done | cbn; lia | done].
  - destruct (Qle_bool _ _); cbn [negb andb]; [|apply wp_ret; split_and!; [done | cbn; lia | done]].
    assert (t < N) by (destruct (decide (N <= t)) as [Hle|]; [by rewrite (stop_comes t Hle) in Hs | lia]).
    eapply wp_mono; [apply IH; [done | lia | lia]|]. cbn beta. intros r c2 (H1' & H2' & H3'). split_and!; [done | lia | done].
Qed.

(** What a point of the curve says of the accesses up to a time. *)
Definition measures (u : nat) (p : curve_data_node) : Prop :=
  let n e := occurrences e (events maxSize (history u) ([], dc)) in
  let total := (n EFastHit + n EInsert + n EOtherHit)%Z in
  size_ p = ratio (Z.of_nat (length (learn maxSize (history u) ([], dc)).1)) maxSize /\ (0 <= size_ p <= 9 # 10)%Q /\
  (0 < total)%Z /\ (FC_hit_ p == ratio (n EFastHit) total)%Q /\ miss_ p = ratio (n EInsert) total.

Lemma ratio_nonneg a z : (0 <= a)%Z -> (0 < z)%Z -> (0 <= ratio a z)%Q.
Proof. intros Ha Hz. unfold ratio. apply Qle_shift_div_l; [by rewrite (Zlt_Qlt 0) in Hz|]. rewrite Qmult_0_l. by rewrite (Zle_Qle 0) in Ha. Qed.

Lemma occurrences_sum es :
  (occurrences EFastHit es + occurrences EInsert es + occurrences EOtherHit es <= Z.of_nat (length es))%Z.
Proof.
  induction es as [|e es IH]; [done|]. rewrite !occurrences_cons. cbn [length]. rewrite Nat2Z.inj_succ.
  destruct e; repeat case_decide; try done; lia.
Qed.

Lemma measures_ok u c : At u c -> (Z.of_nat (length (history u)) < 2 ^ 64)%Z ->
  let r := (print_step2 (m_stat c)).1 in
  let size := (inject_Z (movement_counter c) / inject_Z (m_maxSize c))%Q in
  Qltb threshold (r.1 + r.2) = false -> Qltb (9 # 10) size = false ->
  measures u {| size_ := size; FC_hit_ := r.1; miss_ := r.2 |}.
Proof.
  intros [L Hs Hm] Hlen. unfold print_step2. rewrite Hs. remember (events maxSize (history u) ([], dc)) as es eqn:He.
  assert (Hes : (Z.of_nat (length es) < 2 ^ 64)%Z) by by rewrite He, length_events.
  rewrite (step_of_reset es s0 Hes). assert (Hsum := occurrences_sum es).
  assert (H1' := occurrences_bound EFastHit es). assert (H2' := occurrences_bound EInsert es). assert (H3' := occurrences_bound EOtherHit es).
  unfold step_ratios, step_total. cbn [fast_hit insert_num o_hit].
  rewrite (u64_small (occurrences EFastHit es + occurrences EInsert es)), u64_small by lia.
  rewrite (ln_moved _ _ _ _ L), Hm. assert (Hmx := ln_max _ _ _ _ L). rewrite Hm in Hmx.
  unfold measures. rewrite <- He. destruct (Z.eqb_spec (occurrences EFastHit es + occurrences EInsert es + occurrences EOtherHit es) 0) as [_|Hne];
    cbn [fst snd size_ FC_hit_ miss_]; intros Hthr Hsize.
  - exfalso. unfold Qltb in Hthr. apply negb_false_iff, Qle_bool_iff in Hthr. lra.
  - unfold Qltb in Hsize. apply negb_false_iff, Qle_bool_iff in Hsize.
    split_and!; [done | apply ratio_nonneg; lia | done | lia | ring | done].
Qed.

Lemma wp_curve_loop n fuel : N < fuel -> (forall t, Z.of_nat (length (history t)) < 2 ^ 64)%Z -> forall i t c, At t c ->
  wp (curve_loop threshold others should_stop n i fuel t) c (fun l c' =>
    exists t', At t' c' /\ t <= t' /\ length l <= n /\ Forall (fun p => exists u, t < u <= t' /\ measures u p) l).
Proof.
  intros Hf Hlen. induction n as [|n IH]; intros i t c HA; cbn [curve_loop].
  - apply wp_ret. exists t. split_and!; [done.. | by constructor].
  - wp_step. eapply wp_mono; [by apply wp_others|]. cbn beta. intros _ c1 HA1.
    destruct (should_stop t); [apply wp_ret; exists (S t); split_and!; [done | lia | cbn; lia | by constructor]|].
    wp_step. eapply wp_mono; [apply (wp_curve_wait i fuel (S t) c1); [done | lia | lia]|].
    cbn beta. intros [u FC_size] c2 (HA2 & Hu & Hfc). cbn [fst snd] in *. subst FC_size. do 4 wp_step.
    assert (Hms := measures_ok u c2 HA2 (Hlen u)). cbn zeta in Hms. destruct (print_step2 (m_stat c2)).1 as [FC_hit miss]. cbn [fst snd] in Hms.
    destruct (Qltb threshold (FC_hit + miss)) eqn:E1; cbn [orb]; [apply wp_ret; exists u; split_and!; [done | lia | cbn; lia | by constructor]|].
    destruct (Qltb (9 # 10) _) eqn:E2; [apply wp_ret; exists u; split_and!; [done | lia | cbn; lia | by constructor]|].
    wp_step. eapply wp_mono; [by apply IH|]. cbn beta. intros l c3 (t' & HA3 & Ht' & Hl & HF). apply wp_ret. exists t'.
    split_and!; [done | lia | cbn; lia |]. constructor; [exists u; split; [lia | by apply Hms]|].
    eapply Forall_impl; [exact HF|]. cbn. intros p (w & Hw & Hp). exists w. split; [lia | done].
Qed.
End pass.

(** ** The beginning and the end *)
Lemma wp_start_learning c dc now :
  Rep c dc [] ∅ -> frozen_on c = false -> movement_counter c = 0%Z -> (forall n t, time (m_list c) n = Some t -> (t <= now)%Z) ->
  wp (start_learning now) c (fun _ c' => Learning c' now [] dc /\ m_stat c' = reset_cursor (m_stat c) /\ m_maxSize c' = m_maxSize c).
Proof.
  intros R Hoff Hmv Htimes. destruct R as [(ns & fs & Nd) Hsz Hvals Hh Hfc [Hid1 Hid2] [Htn Htd] Hoff' Hmax Hle Hev0 Hum].
  assert (fs = []) as -> by (assert (HF := nd_fc _ _ _ _ _ _ _ _ Nd); by inversion HF).
  unfold frozen_on in Hoff. apply orb_false_elim in Hoff as [Ht Hr]. rewrite app_nil_r in *.
  unfold start_learning. wp_step. apply fh_wp_on_list, wp_new_node. do 4 wp_step. cbn. wp_step. apply fh_wp_on_list. cbn.
  assert (Nd1 := nodes_alloc_mark _ _ _ _ _ _ _ _ now Nd). assert (Hb := fun x => lk_brk _ _ _ _ (nd_links _ _ _ _ _ _ _ _ Nd) x).
  eapply wp_nodes_pushFront; [exact Nd1|]. intros h Nd2 Hp. do 4 wp_step. apply wp_modify. cbn. split_and!; [|done..].
  assert (Ht0 : time (m_list c) (brk (m_list c)) = None).
  { unfold time, pay. destruct (cells (m_list c) !! brk (m_list c)) eqn:E; [|done]. exfalso.
    assert (brk (m_list c) < brk (m_list c))%positive by (apply Hb, elem_of_dom; eauto). lia. }
  assert (Hth : forall x, time h x = if decide (x = brk (m_list c)) then Some now else time (m_list c) x).
  { intros x. rewrite (time_same _ _ Hp). unfold time, pay. cbn. case_decide; subst; [by rewrite lookup_insert_eq | by rewrite lookup_insert_ne]. }
  split; cbn; try done; [|by rewrite Htn, Ht].
  exists (brk (m_list c)), [], ns. split; cbn; [done | exact Nd2 | done | by rewrite Hth, decide_True | done |].
  apply Forall_forall. intros x Hx.
  assert (Hx' : is_Some (cells (m_list c) !! x)) by (eapply links_alloc; [apply Nd | set_solver]).
  destruct Hx' as [[[k t] p q] Hx']. exists t.
  assert (Htx : time (m_list c) x = Some t) by (unfold time, pay; by rewrite Hx'). split; [|by eapply Htimes].
  rewrite Hth, decide_False; [done|]. intros ->. congruence.
Qed.

Lemma wp_end_learning c tm f b :
  Learning c tm f b -> wp end_learning c (fun _ c' => Rep c' (f ++ b) [] ∅ /\ frozen_on c' = false /\ movement_counter c' = 0%Z).
Proof.
  intros [(mk & n1 & n2 & P) Hum Hsz Hvals Hh (Hfl1 & Hfl2 & Hfl3 & Hfl4 & Hfl5) Hmv Hmax Hle Hev Hlf].
  unfold end_learning. do 6 wp_step. cbn. rewrite (pl_marker _ _ _ _ _ _ _ _ _ P). wp_step. apply fh_wp_on_list. cbn.
  eapply wp_nodes_delink_main; [apply P | apply P |]. intros h Nd Hp. wp_step. apply fh_wp_on_list, wp_delete_node; [by eapply slot_alloc|].
  wp_step. apply wp_modify, wp_modify. cbn. apply nodes_free_dead in Nd; [|done].
  split_and!; [|by unfold frozen_on; cbn; rewrite Hfl4, Hfl5 | done].
  split; cbn; rewrite ?app_nil_r, ?Hfl1, ?Hfl3, ?Hfl4; try done.
  - by exists (n1 ++ n2), [].
  - intros k v Hk. by apply elem_of_nil in Hk.
Qed.
End learning.


(** *** A pass over four entries, two of which are looked up, one of them twice. *)
Definition demo_accesses (t : nat) : list access :=
  match t with 1 => [Find 101 0 12] | 3 => [Find 102 0 12; Find 103 0 10] | _ => [] end.
Definition demo_stop (t : nat) : bool := 8 <=? t.

Example demo_curve :
  match demo_fh 30 4 with
  | Ok (_, c) =>
      match (get_curve LRU_CURVE_THRESHOLD (others (LRUFH.find true) demo_accesses) demo_stop 20 100 [];; snapshotKeys []) c,
            get_curve LRU_CURVE_THRESHOLD (others (LRUFH.find true) demo_accesses) demo_stop 20 100 [] c with
      | Ok (keys, _), Ok (curve, _) => keys = [10; 12; 11; 13]%Z /\
          (fun p => (Qred (size_ p), Qred (FC_hit_ p), Qred (miss_ p))) <$> take 2 curve = [((1 # 30), 0, 0); ((1 # 15), (1 # 3), 0)]%Q
      | _, _ => False
      end
  | Crash _ => False
  end.
Proof. vm_compute. split; reflexivity. Qed.

Lemma demo_accesses_ok maxSize t :
  (4 < maxSize)%Z -> all_admissible maxSize 100 (history demo_accesses t) ([], entries (demo_entries 4)) /\
  (Z.of_nat (length (history demo_accesses t)) < 2 ^ 64)%Z.
Proof.
  intros Hm. assert (Hh : history demo_accesses t ∈ [[]; [Find 101 0 12]; [Find 101 0 12; Find 102 0 12; Find 103 0 10]]).
  { destruct t as [|[|[|[|t]]]]; [vm_compute; set_solver.. |]. unfold history. replace (S (S (S (S t)))) with (4 + t) by lia.
    rewrite seq_app, fmap_app, concat_app. replace (concat (demo_accesses <$> seq (0 + 4) t)) with (@nil access).
    - rewrite app_nil_r. vm_compute. set_solver.
    - symmetry. assert (Hs : forall i, 4 <= i -> concat (demo_accesses <$> seq i t) = []); [|apply Hs; lia].
      induction t as [|t IH]; intros i Hi; [done|]. cbn [seq fmap list_fmap concat]. fold (demo_accesses <$> seq (S i) t).
      rewrite IH by lia. destruct i as [|[|[|[|i]]]]; [lia.. | done]. }
  rewrite !elem_of_cons in Hh. destruct Hh as [->|[->|[->|Hh]]]; [| | |by apply elem_of_nil in Hh]; (split; [|cbn; lia]); cbn; unfold user_key; lia.
Qed.


(** All entries in front of the marker: the next insertion into the full cache
    evicts the marker, and the pass ends with a dereference of the out-of-list
    address. *)
Example learning_marker_evicted :
  let accesses t := match t with 1 => [Find 101 0 10; Find 102 0 11; Insert 103 50 7] | _ => [] end in
  match demo_fh 2 2 with
  | Ok (_, c) => get_curve FIFO_CURVE_THRESHOLD (others FIFOFH.find accesses) demo_stop 20 100 [] c = Crash BadPointer
  | Crash _ => False
  end.
Proof. vm_compute. reflexivity. Qed.
