(* ===== verification/FreqLists.v ===== *)
(** * Frequency lists ([cache/lfu.h], [cache/lfu_FH.h])

    Both LFU classes keep the keys in a list of [ListNode]s, one per frequency,
    highest first; each holds the ring of the [freListNode]s with its frequency,
    most recent first.  Here a ring is the list of its keys and the list of
    [ListNode]s a list of buckets with their addresses: a hash-table entry points
    at its bucket by address, and an address that is in no list is a freed one.
    The text of [delink], [pushFront], [pushForward] and of the transactions made
    of them is the same in the two classes. *)

From stdpp Require Import sorting.
From S2P Require Import Prelude Interfaces CacheSpec.

(** ** The data *)
Record ListNode := Bucket { address : positive; fre : Z; ring : list Z }.

Record LFUValue := LV { val : Z; listNode : option positive }.

Section store.
Context {M : Type -> Type} `{CHM M}.

(** The hash table, the list between [m_head] and [m_tail], the allocator. *)
Record store := { m_map : M LFUValue; nodes : list ListNode; fresh : positive }.

Definition set_map (m : M LFUValue) (s : store) : store := {| m_map := m; nodes := nodes s; fresh := fresh s |}.
Definition set_nodes (l : list ListNode) (s : store) : store := {| m_map := m_map s; nodes := l; fresh := fresh s |}.
Definition set_fresh (p : positive) (s : store) : store := {| m_map := m_map s; nodes := nodes s; fresh := p |}.

Definition empty_store : store := {| m_map := chm_empty _; nodes := []; fresh := 1%positive |}.

(** The bucket at an address with what is before and behind it. *)
Fixpoint locate (p : positive) (l : list ListNode) : option (list ListNode * ListNode * list ListNode) :=
  match l with
  | [] => None
  | b :: l =>
      if (address b =? p)%positive then Some ([], b, l)
      else match locate p l with Some (pre, x, post) => Some (b :: pre, x, post) | None => None end
  end.

Definition in_ring (key : Z) (b : ListNode) : bool := existsb (Z.eqb key) (ring b).
Definition delink_key (key : Z) (b : ListNode) : ListNode := Bucket (address b) (fre b) (filter (fun k => k <> key) (ring b)).
Definition push_key (key : Z) (b : ListNode) : ListNode := Bucket (address b) (fre b) (key :: ring b).

(** [frenode->isInList()] *)
Definition isInList (key : Z) : SM store bool := gets (fun s => existsb (in_ring key) (nodes s)).

(** [auto fre = listnode->fre] *)
Definition fre_of (listnode : positive) : SM store Z :=
  l ← gets nodes;
  match locate listnode l with
  | None => crashes UseAfterFree
  | Some (_, b, _) => mret (fre b)
  end.

(** The frequency of a hit goes up by one: [find] from [frenode->isInList()] on,
    under the mutex; [f] is the frequency read before.  [fre] is a [long long],
    but the constructor of [ListNode] takes an [int].  A ring other than the
    bucket's ([BadPointer]) never holds the key. *)
Definition promote (key : Z) (hashAccessor : LFUValue) (listnode : positive) (f : Z) : SM store unit :=
  b ← isInList key;
  if negb b then mret tt else
  l ← gets nodes;
  match locate listnode l with
  | None => crashes UseAfterFree
  | Some (pre, b, post) =>
      if negb (in_ring key b) then crashes BadPointer else
      if (2 ^ 63 - 1 <=? f)%Z then crashes SignedOverflow else
      let move_to (p : positive) := modify (fun s => set_map (chm_assign (m_map s) key (LV (val hashAccessor) (Some p))) s) in
      let alone :=
        match ring b with
        | [_] => modify (set_nodes (pre ++ Bucket (address b) (fre b + 1) (ring b) :: post))
        | _ =>
            newnode ← gets fresh;
            modify (set_fresh (Pos.succ newnode));;
            assertM (fre b <? i32 (f + 1))%Z;;
            modify (set_nodes (pre ++ Bucket newnode (i32 (f + 1)) [key] :: delink_key key b :: post));;
            move_to newnode
        end in
      match last pre with
      | None => alone
      | Some prev =>
          if (f + 1 <? fre prev)%Z then alone
          else if (fre prev <=? f)%Z then crashes AssertFail
          else
            let b' := delink_key key b in
            modify (set_nodes (removelast pre ++ push_key key prev :: (match ring b' with [] => post | _ => b' :: post end)));;
            move_to (address prev)
      end
  end.

(** A new key goes to the bucket of frequency 1, which is last. *)
Definition push_new (key : Z) (hashMapValue : LFUValue) : SM store unit :=
  l ← gets nodes;
  p ← match last l with
      | Some b =>
          if (fre b =? 1)%Z then modify (set_nodes (removelast l ++ [push_key key b]));; mret (address b)
          else newnode ← gets fresh;
               modify (set_fresh (Pos.succ newnode));;
               modify (set_nodes (l ++ [Bucket newnode 1 [key]]));;
               mret newnode
      | None =>
          newnode ← gets fresh;
          modify (set_fresh (Pos.succ newnode));;
          modify (set_nodes [Bucket newnode 1 [key]]);;
          mret newnode
      end;
  modify (fun s => set_map (chm_assign (m_map s) key (LV (val hashMapValue) (Some p))) s).

(** The eviction: the last key of the last bucket. *)
Definition evict_last : SM store bool :=
  l ← gets nodes;
  match last l with
  | None => crashes AssertFail
  | Some moribund =>
      match last (ring moribund) with
      | None => crashes AssertFail
      | Some key =>
          modify (set_nodes (removelast l ++ [delink_key key moribund]));;
          m ← gets m_map;
          match chm_find m key with
          | None => mret false
          | Some _ => modify (fun s => set_map (chm_erase (m_map s) key).2 s);; mret true
          end
      end
  end.
End store.

Arguments store : clear implicits.

(** ** The specification: entries by frequency, then by recency *)
(* key, value, frequency *)
Abbreviation entry := (Z * (Z * Z))%type (only parsing).
Definition freq (e : entry) : Z := e.2.2.

(** In front of all entries of the same or a lower frequency. *)
Fixpoint place (e : entry) (l : list entry) : list entry :=
  match l with
  | [] => [e]
  | x :: l' => if (freq x <=? freq e)%Z then e :: l else x :: place e l'
  end.

(** A hit. *)
Definition bump (k : Z) (l : list entry) : list entry :=
  match assoc k l with
  | Some (v, f) => place (k, (v, f + 1)%Z) (without k l)
  | None => l
  end.

(** Where a hit fails: the new frequency does not fit in a [long long]; or it
    needs a node of its own, and does not fit in an [int]. *)
Definition overflows (k : Z) (l : list entry) : option crash :=
  match assoc k l with
  | None => None
  | Some (_, f) =>
      if (2 ^ 63 - 1 <=? f)%Z then Some SignedOverflow
      else if (2 ^ 31 - 1 <=? f)%Z && existsb (fun e => negb (e.1 =? k) && (freq e =? f))%Z l && negb (existsb (fun e => freq e =? f + 1)%Z l)
      then Some AssertFail else None
  end.

(** A new key; a full cache drops the last entry. *)
Definition take_in (cap : Z) (k v : Z) (l : list entry) : list entry :=
  let l' := place (k, (v, 1%Z)) l in
  if (Z.of_nat (length l) <? cap)%Z then l' else removelast l'.

Lemma place_skip e l1 l2 : Forall (fun x => (freq e < freq x)%Z) l1 -> place e (l1 ++ l2) = l1 ++ place e l2.
Proof.
  induction 1 as [|x l1 Hx HF IH]; cbn; [done|]. rewrite (proj2 (Z.leb_gt _ _)) by done. by rewrite IH.
Qed.

Lemma place_front e l : Forall (fun x => (freq x <= freq e)%Z) l -> place e l = e :: l.
Proof. destruct 1 as [|x l Hx HF]; cbn; [done|]. by rewrite (proj2 (Z.leb_le _ _)). Qed.

Lemma length_place e l : length (place e l) = S (length l).
Proof. induction l as [|x l IH]; cbn; [done|]. case_match; cbn; [done | by rewrite IH]. Qed.

Lemma length_take_in cap k v l :
  length (take_in cap k v l) = if (Z.of_nat (length l) <? cap)%Z then S (length l) else length l.
Proof.
  unfold take_in. case_match; [apply length_place|]. rewrite removelast_firstn_len, length_take, length_place. lia.
Qed.

Lemma length_bump k l : NoDup l.*1 -> length (bump k l) = length l.
Proof.
  intros HN. unfold bump. destruct (assoc k l) as [[v f]|] eqn:E; [|done]. rewrite length_place. by apply (length_without k (v, f)).
Qed.

(** Frequencies below [2^31 - 1] can be raised; a call raises them by one. *)
Lemma overflows_small k l : Forall (fun e => (freq e < 2 ^ 31 - 1)%Z) l -> overflows k l = None.
Proof.
  intros Hl. unfold overflows. destruct (assoc k l) as [[v f]|] eqn:E; [|done]. apply assoc_split in E as (l1 & l2 & -> & _).
  apply Forall_app in Hl as [_ Hl]. apply Forall_cons in Hl as [Hl _]. unfold freq in Hl. cbn in Hl.
  rewrite (proj2 (Z.leb_gt _ _)) by lia. by rewrite (proj2 (Z.leb_gt _ _)) by lia.
Qed.

Lemma place_Forall (P : entry -> Prop) e l : P e -> Forall P l -> Forall P (place e l).
Proof. intros He. induction 1 as [|x l Hx HF IH]; cbn; [by repeat constructor|]. case_match; by repeat constructor. Qed.

Lemma bump_freq k l N : Forall (fun e => (freq e <= N)%Z) l -> Forall (fun e => (freq e <= N + 1)%Z) (bump k l).
Proof.
  intros Hl. assert (Hl' : Forall (fun e => (freq e <= N + 1)%Z) l) by (eapply Forall_impl; [exact Hl|]; cbn; lia).
  unfold bump. destruct (assoc k l) as [[v f]|] eqn:E; [|done]. apply place_Forall.
  - apply assoc_split in E as (l1 & l2 & -> & _). apply Forall_app in Hl as [_ Hl]. apply Forall_cons in Hl as [Hl _]. unfold freq in *. cbn in *. lia.
  - apply Forall_forall. intros x Hx. unfold without in Hx. apply list_elem_of_filter in Hx as [_ Hx].
    rewrite Forall_forall in Hl'. by apply Hl'.
Qed.

Lemma take_in_freq cap k v l N : (0 <= N)%Z -> Forall (fun e => (freq e <= N)%Z) l -> Forall (fun e => (freq e <= N + 1)%Z) (take_in cap k v l).
Proof.
  intros HN Hl. assert (Hp : Forall (fun e => (freq e <= N + 1)%Z) (place (k, (v, 1%Z)) l)).
  { apply place_Forall; [unfold freq; cbn; lia|]. eapply Forall_impl; [exact Hl|]. cbn. lia. }
  unfold take_in. case_match; [done|]. rewrite removelast_firstn_len. by apply Forall_take.
Qed.

(** ** Where the keys are *)
Definition home1 (b : ListNode) : list (Z * positive) := (fun k => (k, address b)) <$> ring b.
Definition home (l : list ListNode) : list (Z * positive) := concat (home1 <$> l).

Definition ents1 (val_of : Z -> Z) (b : ListNode) : list entry := (fun k => (k, (val_of k, fre b))) <$> ring b.
Definition ents (val_of : Z -> Z) (l : list ListNode) : list entry := concat (ents1 val_of <$> l).

#[global] Arguments home : simpl never.
#[global] Arguments ents : simpl never.

Lemma home_app l1 l2 : home (l1 ++ l2) = home l1 ++ home l2.
Proof. unfold home. by rewrite fmap_app, concat_app. Qed.
Lemma home_cons b l : home (b :: l) = home1 b ++ home l.
Proof. done. Qed.
Lemma ents_app v l1 l2 : ents v (l1 ++ l2) = ents v l1 ++ ents v l2.
Proof. unfold ents. by rewrite fmap_app, concat_app. Qed.
Lemma ents_cons v b l : ents v (b :: l) = ents1 v b ++ ents v l.
Proof. done. Qed.

Lemma fmap_filter {A} (f : Z -> Z * A) (k : Z) (l : list Z) : (forall j, (f j).1 = j) ->
  f <$> filter (fun j => j <> k) l = without k (f <$> l).
Proof.
  intros Hf. unfold without. induction l as [|j l IH]; [done|]. cbn [fmap list_fmap].
  destruct (decide (j = k)) as [->|Hj].
  - rewrite !filter_cons_False; [done | by rewrite Hf; naive_solver | naive_solver].
  - rewrite !filter_cons_True; [cbn; by f_equal | by rewrite Hf | done].
Qed.

Lemma home1_delink k b : home1 (delink_key k b) = without k (home1 b).
Proof. unfold home1. cbn. by apply fmap_filter. Qed.
Lemma ents1_delink v k b : ents1 v (delink_key k b) = without k (ents1 v b).
Proof. unfold ents1. cbn. by apply fmap_filter. Qed.

Lemma ents_keys v l : (ents v l).*1 = (home l).*1.
Proof.
  induction l as [|b l IH]; [done|]. rewrite ents_cons, home_cons, !fmap_app, IH. f_equal.
  unfold ents1, home1. by rewrite <- !list_fmap_compose.
Qed.

Lemma ents_ext v v' l : (forall k, k ∈ (home l).*1 -> v' k = v k) -> ents v' l = ents v l.
Proof.
  induction l as [|b l IH]; intros Hv; [done|]. rewrite home_cons, fmap_app in Hv. rewrite !ents_cons, IH by set_solver. f_equal.
  unfold ents1. apply list_fmap_ext. intros i k Hk%list_elem_of_lookup_2. rewrite Hv; [done|]. apply elem_of_app. left.
  unfold home1. rewrite <- list_fmap_compose. apply list_elem_of_fmap. by exists k.
Qed.

Lemma ents_freq v l (P : Z -> Prop) : Forall (fun b => P (fre b)) l -> Forall (fun e => P (freq e)) (ents v l).
Proof.
  induction 1 as [|b l Hb HF IH]; [by constructor|]. rewrite ents_cons. apply Forall_app. split; [|done].
  unfold ents1. by apply Forall_fmap, Forall_true.
Qed.

(** ** Well-formed lists *)
Section wf.
Context {M : Type -> Type} `{CHMLaws M}.
Implicit Types (s : store M) (m : M LFUValue).

Definition value_of m (k : Z) : Z := match chm_find m k with Some x => val x | None => 0%Z end.

(** The hash table says for every key in which bucket it is. *)
Record Homes m (H : list (Z * positive)) : Prop := {
  hm_nodup : NoDup H.*1;
  hm_map : forall k a, (k, a) ∈ H -> exists v, chm_find m k = Some (LV v (Some a));
  hm_dom : forall k, is_Some (chm_find m k) -> k ∈ H.*1
}.

Lemma homes_move m Hs Hs' k v a a' :
  Homes m Hs -> chm_find m k = Some (LV v (Some a)) -> Hs' ≡ₚ (k, a') :: without k Hs ->
  Homes (chm_assign m k (LV v (Some a'))) Hs' /\ forall j, value_of (chm_assign m k (LV v (Some a'))) j = value_of m j.
Proof.
  intros [HN Hm Hd] Hk Hp. assert (Hf := fun j => chm_find_assign _ m k (LV v (Some a')) _ j Hk). split.
  - split.
    + rewrite Hp. cbn. apply NoDup_cons. split; [rewrite keys_without, list_elem_of_filter; tauto|].
      rewrite keys_without. by apply NoDup_filter.
    + intros j b. rewrite Hp. intros [[= -> ->]|[Hj Hin]%elem_of_without]%elem_of_cons; rewrite Hf; [by rewrite decide_True; eauto|].
      rewrite decide_False by done. by apply Hm.
    + intros j. rewrite Hf, Hp. cbn. rewrite elem_of_cons, keys_without, list_elem_of_filter. case_decide; [auto|].
      intros Hj. right. split; [done | by apply Hd].
  - intros j. unfold value_of. rewrite Hf. case_decide; [|done]. subst. by rewrite Hk.
Qed.

(** A key that is in the table but in no bucket yet gets one. *)
Lemma homes_add m m0 Hs k v a x :
  Homes m0 Hs -> chm_find m0 k = None -> (forall j, chm_find m j = if decide (j = k) then Some x else chm_find m0 j) -> val x = v ->
  Homes (chm_assign m k (LV v (Some a))) ((k, a) :: Hs) /\
  forall j, value_of (chm_assign m k (LV v (Some a))) j = if decide (j = k) then v else value_of m0 j.
Proof.
  intros [HN Hm Hd] Hk Hx Hv. assert (Hxk : chm_find m k = Some x) by by rewrite Hx, decide_True.
  assert (Hf : forall j, chm_find (chm_assign m k (LV v (Some a))) j = if decide (j = k) then Some (LV v (Some a)) else chm_find m0 j).
  { intros j. rewrite (chm_find_assign _ m k _ _ j Hxk), Hx. by case_decide. }
  assert (Hk' : k ∉ Hs.*1).
  { intros ([j b] & -> & Hb)%list_elem_of_fmap. destruct (Hm _ _ Hb) as [w Hw]. cbn in Hk. congruence. }
  split.
  - split.
    + cbn. by apply NoDup_cons.
    + intros j b [[= -> ->]|Hin]%elem_of_cons; rewrite Hf; [by rewrite decide_True; eauto|].
      rewrite decide_False; [by apply Hm|]. intros ->. apply Hk', list_elem_of_fmap. by exists (k, b).
    + intros j. rewrite Hf. cbn. rewrite elem_of_cons. case_decide; [auto|]. intros Hj. right. by apply Hd.
  - intros j. unfold value_of. rewrite Hf. by case_decide.
Qed.

Lemma homes_erase m Hs Hs' k a :
  Homes m Hs -> (k, a) ∈ Hs -> Hs' ≡ₚ without k Hs ->
  Homes (chm_erase m k).2 Hs' /\ forall j, j <> k -> value_of (chm_erase m k).2 j = value_of m j.
Proof.
  intros [HN Hm Hd] Hk Hp. split.
  - split.
    + rewrite Hp, keys_without. by apply NoDup_filter.
    + intros j b. rewrite Hp. intros [Hj Hin]%elem_of_without. rewrite chm_find_erase, decide_False by done. by apply Hm.
    + intros j. rewrite chm_find_erase. case_decide; [by intros [??]|]. intros Hj. rewrite Hp, keys_without, list_elem_of_filter.
      split; [done | by apply Hd].
  - intros j Hj. unfold value_of. by rewrite chm_find_erase, decide_False.
Qed.

(** Only the last bucket may be empty, and only that of frequency 1. *)
Definition Full (l : list ListNode) : Prop := forall l1 b l2, l = l1 ++ b :: l2 -> ring b = [] -> l2 = [] /\ fre b = 1%Z.

Definition above (b b' : ListNode) : Prop := (fre b' < fre b)%Z.

(** The buckets of the list, highest frequency first; [fs] are buckets of
    another list, whose keys are in the same hash table. *)
Record Wf s (fs : list ListNode) : Prop := {
  wf_homes : Homes (m_map s) (home (nodes s ++ fs));
  wf_order : StronglySorted above (nodes s);
  wf_pos : Forall (fun b => (1 <= fre b)%Z) (nodes s);
  wf_full : Full (nodes s);
  wf_addr : NoDup (address <$> nodes s ++ fs);
  wf_fresh : Forall (fun b => (address b < fresh s)%positive) (nodes s ++ fs)
}.

(** The entries in eviction order. *)
Definition contents s : list entry := ents (value_of (m_map s)) (nodes s).

Lemma wf_no_nodes s : nodes s = [] -> (forall k, chm_find (m_map s) k = None) -> Wf s [].
Proof.
  intros Hn Hm. split; rewrite Hn; cbn; try by constructor.
  - split; cbn; [by constructor | by intros ?? ?%elem_of_nil |]. intros k. rewrite Hm. by intros [??].
  - by intros [|??] ?? ?.
Qed.

Lemma full_front pre b post : Full (pre ++ b :: post) -> Forall (fun x => ring x <> []) pre.
Proof.
  intros HF. apply Forall_forall. intros x (l1 & l2 & ->)%list_elem_of_split Hr.
  rewrite <- (assoc_L (++)) in HF. destruct (HF l1 x (l2 ++ b :: post) eq_refl Hr) as [Hn _]. by destruct l2.
Qed.

Lemma full_suffix l1 l2 : Full (l1 ++ l2) -> Full l2.
Proof. intros HF l b r ->. apply (HF (l1 ++ l)). by rewrite (assoc_L (++)). Qed.

Lemma full_app l1 l2 : Forall (fun x => ring x <> []) l1 -> Full l2 -> Full (l1 ++ l2).
Proof.
  induction 1 as [|x l1 Hx HF IH]; intros H2; [done|]. specialize (IH H2). intros [|y l] b r; cbn; intros [= -> Hr] Hb; [done|].
  by apply (IH l b r).
Qed.

Lemma locate_spec p l pre b post : locate p l = Some (pre, b, post) -> l = pre ++ b :: post /\ address b = p.
Proof.
  revert pre. induction l as [|x l IH]; intros pre; cbn; [done|]. destruct (Pos.eqb_spec (address x) p); [by intros [= <- <- <-]|].
  destruct (locate p l) as [[[pre' b'] post']|]; [|done]. intros [= <- <- <-]. by destruct (IH pre' eq_refl) as [-> ->].
Qed.

Lemma locate_split pre b post : NoDup (address <$> pre ++ b :: post) -> locate (address b) (pre ++ b :: post) = Some (pre, b, post).
Proof.
  induction pre as [|x pre IH]; cbn; intros HN; [by rewrite Pos.eqb_refl|]. apply NoDup_cons in HN as [Hx HN].
  rewrite (proj2 (Pos.eqb_neq (address x) (address b))), IH; [done | done |]. intros He. apply Hx. rewrite He, fmap_app. set_solver.
Qed.

Lemma home_elem k a l : (k, a) ∈ home l -> exists pre b post, l = pre ++ b :: post /\ address b = a /\ k ∈ ring b.
Proof.
  induction l as [|b l IH]; [by intros ?%elem_of_nil|]. rewrite home_cons. intros [Hk|Hk]%elem_of_app.
  - apply list_elem_of_fmap in Hk as (j & [= -> ->] & Hj). by exists [], b, l.
  - destruct (IH Hk) as (pre & x & post & -> & ? & ?). by exists (b :: pre), x, post.
Qed.

Lemma in_ring_true k b : in_ring k b = true <-> k ∈ ring b.
Proof.
  unfold in_ring. rewrite existsb_exists. split; [intros (x & Hx & ->%Z.eqb_eq); by apply list_elem_of_In|].
  intros Hk. exists k. split; [by apply list_elem_of_In | apply Z.eqb_refl].
Qed.

(** The entry of a key, from the bucket it is in. *)
Record Located (m : M LFUValue) (l fs : list ListNode) k v pre b post : Prop := {
  lc_list : l = pre ++ b :: post;
  lc_find : chm_find m k = Some (LV v (Some (address b)));
  lc_pre : k ∉ (home pre).*1;
  lc_post : k ∉ (home post).*1;
  lc_fs : k ∉ (home fs).*1;
  lc_in : k ∈ ring b;
  lc_nodup : NoDup (ring b)
}.

Lemma home1_keys b : (home1 b).*1 = ring b.
Proof. unfold home1. rewrite <- list_fmap_compose. apply list_fmap_id. Qed.

Lemma located_at s fs k v pre b post :
  Wf s fs -> nodes s = pre ++ b :: post -> k ∈ ring b -> chm_find (m_map s) k = Some (LV v (Some (address b))) ->
  Located (m_map s) (nodes s) fs k v pre b post.
Proof.
  intros W Hn Hin Hf. assert (HN := hm_nodup _ _ (wf_homes _ _ W)). rewrite Hn, !home_app, home_cons, !fmap_app, home1_keys in HN.
  rewrite !NoDup_app in HN. split; try done; set_solver.
Qed.

Lemma located s fs k a v :
  Wf s fs -> (k, a) ∈ home (nodes s) -> chm_find (m_map s) k = Some (LV v (Some a)) ->
  exists pre b post, Located (m_map s) (nodes s) fs k v pre b post /\ address b = a.
Proof.
  intros W Hk Hf. destruct (home_elem _ _ _ Hk) as (pre & b & post & Hn & <- & Hin). exists pre, b, post. split; [|done].
  by apply located_at.
Qed.

Lemma located_home m l fs k v pre b post : Located m l fs k v pre b post ->
  without k (home (l ++ fs)) = home pre ++ home1 (delink_key k b) ++ home post ++ home fs.
Proof.
  intros [-> Hf H1 H2 H3 H4 H5]. rewrite !home_app, home_cons, !without_app, <- home1_delink, !(without_id k) by done.
  by rewrite <- !(assoc_L (++)).
Qed.

Lemma located_bump m l fs k v pre b post : Located m l fs k v pre b post ->
  bump k (ents (value_of m) l) = place (k, (v, fre b + 1)%Z) (ents (value_of m) pre ++ ents1 (value_of m) (delink_key k b) ++ ents (value_of m) post).
Proof.
  intros [-> Hf H1 H2 H3 H4 H5]. unfold bump. rewrite ents_app, ents_cons, !assoc_app.
  assert (Ha : assoc k (ents (value_of m) pre) = None) by (apply assoc_None; by rewrite ents_keys).
  assert (Hb : assoc k (ents1 (value_of m) b) = Some (v, fre b)).
  { apply assoc_Some.
    - unfold ents1. rewrite <- list_fmap_compose, list_fmap_id. done.
    - unfold ents1. apply list_elem_of_fmap. exists k. split; [|done]. unfold value_of. by rewrite Hf. }
  rewrite Ha, Hb, !without_app, <- ents1_delink, !(without_id k) by by rewrite ents_keys. done.
Qed.

(** ** A hit *)

(** The order around a bucket. *)
Lemma order_split s fs pre b post : Wf s fs -> nodes s = pre ++ b :: post ->
  Forall (fun x => (fre b < fre x)%Z) pre /\ Forall (fun x => (fre x < fre b)%Z) post /\
  StronglySorted above pre /\ StronglySorted above (b :: post) /\ (1 <= fre b)%Z.
Proof.
  intros W Hn. assert (Ho := wf_order _ _ W). rewrite Hn in Ho. apply StronglySorted_app in Ho as (H1 & H2 & H3).
  assert (H4 := H3). apply StronglySorted_cons in H4 as [H4 _].
  assert (Hp := wf_pos _ _ W). rewrite Hn in Hp. apply Forall_app in Hp as [_ Hp]. apply Forall_cons in Hp as [Hp _].
  split_and!; try done. apply Forall_forall. intros x Hx. apply (H1 x b Hx). left.
Qed.

(** New nodes in place of a bucket, for a key that moves to the bucket at [a']. *)
Lemma wf_move s fs k v pre b post l a' fr :
  Wf s fs -> Located (m_map s) (nodes s) fs k v pre b post ->
  home (l ++ fs) ≡ₚ (k, a') :: home pre ++ home1 (delink_key k b) ++ home post ++ home fs ->
  StronglySorted above l -> Forall (fun x => (1 <= fre x)%Z) l -> Full l ->
  NoDup (address <$> l ++ fs) -> Forall (fun x => (address x < fr)%positive) (l ++ fs) ->
  let s' := {| m_map := chm_assign (m_map s) k (LV v (Some a')); nodes := l; fresh := fr |} in
  Wf s' fs /\ contents s' = ents (value_of (m_map s)) l /\ forall j, value_of (m_map s') j = value_of (m_map s) j.
Proof.
  intros W Lc Hh Ho Hp Hf Ha Hfr s'. rewrite <- (located_home _ _ _ _ _ _ _ _ Lc) in Hh.
  destruct (homes_move _ _ _ k v _ a' (wf_homes _ _ W) (lc_find _ _ _ _ _ _ _ _ Lc) Hh) as [Hhm Hval].
  split_and!; [by split | | exact Hval]. unfold contents. apply ents_ext. intros j _. apply Hval.
Qed.

(** The bucket that is raised or split: nothing is before it or its predecessor is far. *)
Definition room_above (pre : list ListNode) (b : ListNode) : Prop :=
  match last pre with None => True | Some q => (fre b + 1 < fre q)%Z end.

Lemma room_all s fs pre b post : Wf s fs -> nodes s = pre ++ b :: post -> room_above pre b ->
  Forall (fun x => (fre b + 1 < fre x)%Z) pre.
Proof.
  intros W Hn Hr. destruct (order_split _ _ _ _ _ W Hn) as (_ & _ & Ho & _).
  destruct pre as [|q pre _] using rev_ind; [done|]. unfold room_above in Hr. rewrite last_snoc in Hr.
  apply StronglySorted_app in Ho as (Ho & _ & _). apply Forall_app. split; [|by repeat constructor].
  apply Forall_forall. intros x Hx. specialize (Ho x q Hx ltac:(left)). unfold above in Ho. lia.
Qed.

Lemma place_raised s fs k v pre b post : Wf s fs -> nodes s = pre ++ b :: post -> room_above pre b ->
  place (k, (v, fre b + 1)%Z) (ents (value_of (m_map s)) pre ++ ents1 (value_of (m_map s)) (delink_key k b) ++ ents (value_of (m_map s)) post) =
  ents (value_of (m_map s)) pre ++ (k, (v, fre b + 1)%Z) :: ents1 (value_of (m_map s)) (delink_key k b) ++ ents (value_of (m_map s)) post.
Proof.
  intros W Hn Hr. destruct (order_split _ _ _ _ _ W Hn) as (_ & Hpost & _). rewrite place_skip.
  - f_equal. apply place_front. apply Forall_app. split.
    + unfold ents1. apply Forall_fmap, Forall_forall. intros x _. cbn. lia.
    + eapply Forall_impl; [apply (ents_freq _ post (fun z => z < fre b)%Z Hpost)|]. cbn. intros x Hx. unfold freq in *. cbn. lia.
  - eapply Forall_impl; [apply (ents_freq _ pre (fun z => fre b + 1 < z)%Z (room_all _ _ _ _ _ W Hn Hr))|]. done.
Qed.

(** The key is alone in its bucket: the bucket is raised. *)
Lemma wf_raise s fs k v pre b post :
  Wf s fs -> Located (m_map s) (nodes s) fs k v pre b post -> ring b = [k] -> room_above pre b ->
  let s' := set_nodes (pre ++ Bucket (address b) (fre b + 1) (ring b) :: post) s in
  Wf s' fs /\ contents s' = bump k (contents s).
Proof.
  intros W Lc Hr Hroom s'. assert (Hn := lc_list _ _ _ _ _ _ _ _ Lc). destruct (order_split _ _ _ _ _ W Hn) as (Hpre & Hpost & Ho1 & Ho2 & Hb1).
  assert (Hall := room_all _ _ _ _ _ W Hn Hroom). assert (W' := W). destruct W' as [Hh Ho Hp Hf Ha Hfr]. rewrite Hn in Hh, Hp, Hf, Ha, Hfr. split.
  - split; cbn.
    + rewrite !home_app, home_cons in *. exact Hh.
    + apply StronglySorted_app. split_and!; [|done | apply StronglySorted_cons; split; [|by apply StronglySorted_cons in Ho2 as [_ ?]]].
      * intros x y Hx [->|Hy]%elem_of_cons; rewrite Forall_forall in Hall, Hpost; specialize (Hall x Hx); unfold above; cbn; [lia|].
        specialize (Hpost y Hy). lia.
      * eapply Forall_impl; [exact Hpost|]. unfold above. cbn. intros x Hx. lia.
    + apply Forall_app in Hp as [Hp1 Hp2]. apply Forall_cons in Hp2 as [_ Hp2]. apply Forall_app. split; [done|].
      apply Forall_cons. split; [cbn; lia | done].
    + apply full_app; [by eapply full_front|]. assert (Hf2 := full_suffix _ _ Hf). intros [|y l] x r; cbn.
      * intros [= <- <-] Hx. cbn in Hx. congruence.
      * intros [= <- Hr'] Hx. apply (Hf2 (b :: l) x r); [by rewrite Hr' | done].
    + rewrite !fmap_app, fmap_cons in *. exact Ha.
    + rewrite !Forall_app, Forall_cons in *. exact Hfr.
  - unfold contents at 2. rewrite (located_bump _ _ _ _ _ _ _ _ Lc).
    rewrite (place_raised s fs k v pre b post); [|exact W | done | done].
    unfold contents. cbn. rewrite ents_app, ents_cons. f_equal. unfold ents1. cbn [ring delink_key fre]. rewrite Hr, filter_cons_False by naive_solver.
    unfold value_of at 1. cbn. by rewrite (lc_find _ _ _ _ _ _ _ _ Lc).
Qed.

Lemma sorted_around pre x post :
  StronglySorted above pre -> Forall (fun y => (fre x < fre y)%Z) pre -> StronglySorted above (x :: post) ->
  StronglySorted above (pre ++ x :: post).
Proof.
  intros H1 H2 H3. apply StronglySorted_app. split_and!; [|done..]. assert (H4 := H3). apply StronglySorted_cons in H4 as [H4 _].
  rewrite Forall_forall in H2, H4. intros y z Hy [->|Hz]%elem_of_cons; [by apply H2|].
  specialize (H2 y Hy). specialize (H4 z Hz). unfold above in *. lia.
Qed.

Lemma delink_nonempty k b : k ∈ ring b -> NoDup (ring b) -> ring b <> [k] -> ring (delink_key k b) <> [].
Proof.
  intros Hk HN Hne. cbn. intros Hf. assert (Hall : forall x, x ∈ ring b -> x = k).
  { intros x Hx. destruct (decide (x = k)); [done|]. assert (x ∈ filter (fun j => j <> k) (ring b)) by by apply list_elem_of_filter.
    rewrite Hf in *. set_solver. }
  destruct (ring b) as [|x [|y l]]; [set_solver | |].
  - apply Hne. f_equal. apply Hall. left.
  - apply NoDup_cons in HN as [Hx _]. apply Hx. rewrite (Hall x), (Hall y) by set_solver. left.
Qed.

(** Other keys stay in the bucket: a new bucket for the key. *)
Lemma wf_split s fs k v pre b post :
  Wf s fs -> Located (m_map s) (nodes s) fs k v pre b post -> ring b <> [k] -> room_above pre b ->
  let l := pre ++ Bucket (fresh s) (fre b + 1) [k] :: delink_key k b :: post in
  let s' := {| m_map := chm_assign (m_map s) k (LV v (Some (fresh s))); nodes := l; fresh := Pos.succ (fresh s) |} in
  Wf s' fs /\ contents s' = bump k (contents s) /\ forall j, value_of (m_map s') j = value_of (m_map s) j.
Proof.
  intros W Lc Hr Hroom l s'. assert (Hn := lc_list _ _ _ _ _ _ _ _ Lc). destruct (order_split _ _ _ _ _ W Hn) as (Hpre & Hpost & Ho1 & Ho2 & Hb1).
  assert (Hall := room_all _ _ _ _ _ W Hn Hroom). assert (W' := W). destruct W' as [Hh Ho Hp Hf Ha Hfr]. rewrite Hn in Hh, Hp, Hf, Ha, Hfr.
  assert (Hne : ring (delink_key k b) <> []) by (apply delink_nonempty; [apply Lc..|done]).
  apply Forall_app in Hp as [Hp1 Hp2]. apply Forall_cons in Hp2 as [Hp2 Hp3]. apply StronglySorted_cons in Ho2 as [Hpost' Ho2].
  assert (Hfb : Forall (fun x => (address x < Pos.succ (fresh s))%positive) ((pre ++ b :: post) ++ fs)).
  { eapply Forall_impl; [exact Hfr|]. cbn. lia. }
  destruct (wf_move s fs k v pre b post l (fresh s) (Pos.succ (fresh s)) W Lc) as (W2 & Hc & Hv); unfold l in *.
  - rewrite !home_app, !home_cons, <- !(assoc_L (++)). cbn [home1 ring address fmap list_fmap app].
    rewrite (Permutation_app_comm (home pre)). cbn. constructor. rewrite <- !(assoc_L (++)). rewrite (Permutation_app_comm (home pre)).
    by rewrite <- !(assoc_L (++)).
  - apply sorted_around; [done | done |]. apply StronglySorted_cons. split; [apply Forall_cons; split|].
    + unfold above. cbn. lia.
    + eapply Forall_impl; [exact Hpost|]. unfold above. cbn. lia.
    + apply StronglySorted_cons. by split.
  - apply Forall_app. split; [done|]. repeat (apply Forall_cons; split); [cbn; lia | cbn; lia | done].
  - apply full_app; [by eapply full_front|]. apply (full_app [_]); [by repeat constructor|]. apply (full_app [_]); [by repeat constructor|].
    apply (full_suffix [b]), (full_suffix pre). exact Hf.
  - rewrite !fmap_app, !fmap_cons in *. cbn [address delink_key] in *. rewrite <- !(assoc_L (++)) in *. cbn [app] in *.
    assert (Hnew : fresh s ∉ (address <$> pre) ++ address b :: (address <$> post) ++ (address <$> fs)).
    { intros Hx. assert (Hx' : fresh s ∈ address <$> pre ++ b :: post ++ fs) by (rewrite fmap_app, fmap_cons, fmap_app; exact Hx).
      apply list_elem_of_fmap in Hx' as (x & Hx1 & Hx2). rewrite Forall_forall in Hfr. specialize (Hfr x Hx2). lia. }
    apply NoDup_app in Ha as (Ha1 & Ha2 & Ha3). apply NoDup_app. split_and!; [done | |].
    + intros x Hx [->|Hx']%elem_of_cons; [apply Hnew, elem_of_app; by left | by apply (Ha2 x Hx)].
    + apply NoDup_cons. split; [|done]. intros Hx. apply Hnew, elem_of_app. by right.
  - rewrite !Forall_app, !Forall_cons in *. cbn. destruct Hfb as [[? [? ?]] ?]. split_and!; try done. lia.
  - split_and!; [exact W2 | | exact Hv]. etransitivity; [exact Hc|]. unfold contents.
    rewrite (located_bump _ _ _ _ _ _ _ _ Lc), (place_raised s fs k v pre b post) by done. rewrite ents_app, !ents_cons. f_equal.
    unfold ents1 at 1. cbn. unfold value_of at 1. by rewrite (lc_find _ _ _ _ _ _ _ _ Lc).
Qed.

(** A bucket is dropped when it is empty. *)
Definition kept (b : ListNode) (post : list ListNode) : list ListNode := match ring b with [] => post | _ => b :: post end.

Lemma kept_home b post : home (kept b post) = home1 b ++ home post.
Proof. unfold kept, home1. by destruct (ring b) eqn:E; rewrite ?home_cons; unfold home1; rewrite ?E. Qed.

Lemma kept_ents v b post : ents v (kept b post) = ents1 v b ++ ents v post.
Proof. unfold kept, ents1. by destruct (ring b) eqn:E; rewrite ?ents_cons; unfold ents1; rewrite ?E. Qed.

Lemma kept_elem x b post : x ∈ kept b post -> x ∈ b :: post.
Proof. unfold kept. destruct (ring b); set_solver. Qed.

Lemma kept_sorted b post : StronglySorted above (b :: post) -> StronglySorted above (kept b post).
Proof. unfold kept. destruct (ring b); [|done]. by intros [_ ?]%StronglySorted_cons. Qed.

Lemma kept_full b post : Full post -> Full (kept b post).
Proof. intros Hf. unfold kept. destruct (ring b) eqn:E; [done|]. apply (full_app [_]); [|done]. repeat constructor. congruence. Qed.

Lemma kept_addr b post L : NoDup (address <$> b :: post ++ L) -> NoDup (address <$> kept b post ++ L).
Proof. unfold kept. destruct (ring b); [|done]. cbn. by intros [_ ?]%NoDup_cons. Qed.

(** The bucket above has the frequency: the key joins it. *)
Lemma wf_join s fs k v pre q b post :
  Wf s fs -> Located (m_map s) (nodes s) fs k v (pre ++ [q]) b post -> fre q = (fre b + 1)%Z ->
  let l := pre ++ push_key k q :: kept (delink_key k b) post in
  let s' := {| m_map := chm_assign (m_map s) k (LV v (Some (address q))); nodes := l; fresh := fresh s |} in
  Wf s' fs /\ contents s' = bump k (contents s) /\ forall j, value_of (m_map s') j = value_of (m_map s) j.
Proof.
  intros W Lc Hq l s'. assert (Hn := lc_list _ _ _ _ _ _ _ _ Lc). destruct (order_split _ _ _ _ _ W Hn) as (Hpre & Hpost & Ho1 & Ho2 & Hb1).
  assert (Hn' := Hn). rewrite <- (assoc_L (++)) in Hn'. cbn in Hn'. destruct (order_split _ _ _ _ _ W Hn') as (Hpre' & _ & Ho1' & Ho3 & _).
  assert (W' := W). destruct W' as [Hh Ho Hp Hf Ha Hfr]. rewrite Hn' in Hh, Hp, Hf, Ha, Hfr.
  apply Forall_app in Hp as [Hp1 Hp2]. apply Forall_cons in Hp2 as [Hp2 Hp3].
  assert (Ho4 : StronglySorted above (delink_key k b :: post)).
  { apply StronglySorted_cons in Ho2 as [H1 H2]. by apply StronglySorted_cons. }
  destruct (wf_move s fs k v (pre ++ [q]) b post l (address q) (fresh s) W Lc) as (W2 & Hc & Hv); unfold l in *.
  - rewrite !home_app, !home_cons, kept_home, <- !(assoc_L (++)). unfold home1 at 1. cbn [push_key ring fmap list_fmap address app].
    rewrite <- !Permutation_middle. constructor. by change (home []) with (@nil (Z * positive)).
  - apply sorted_around; [done | done |]. apply StronglySorted_cons. split; [|by apply kept_sorted].
    apply Forall_forall. intros x Hx%kept_elem. apply StronglySorted_cons in Ho3 as [Ho3 _]. rewrite Forall_forall in Ho3.
    apply elem_of_cons in Hx as [->|Hx]; [apply (Ho3 b); left | apply (Ho3 x); by right].
  - apply Forall_app. split; [done|]. apply Forall_cons. split; [done|]. apply Forall_forall. intros x Hx%kept_elem.
    rewrite Forall_forall in Hp3. apply elem_of_cons in Hx as [->|Hx]; [apply (Hp3 b); left | apply (Hp3 x); by right].
  - apply full_app; [by eapply full_front|]. apply (full_app [_]); [by repeat constructor|]. apply kept_full.
    apply (full_suffix [q; b]), (full_suffix pre). exact Hf.
  - rewrite <- (assoc_L (++)), <- app_comm_cons, fmap_app, fmap_cons. rewrite <- (assoc_L (++)), <- !app_comm_cons, fmap_app, !fmap_cons in Ha.
    apply NoDup_app in Ha as (Ha1 & Ha2 & Ha3). apply NoDup_cons in Ha3 as [Ha3 Ha4]. cbn [push_key address].
    assert (Hsub : forall x, x ∈ address <$> kept (delink_key k b) post ++ fs -> x ∈ address b :: (address <$> post ++ fs)).
    { intros x. rewrite !fmap_app, elem_of_cons, !elem_of_app. intros [Hx|Hx]; [|by right; right].
      apply list_elem_of_fmap in Hx as (y & -> & Hy%kept_elem). apply elem_of_cons in Hy as [->|Hy]; [by left|].
      right. left. apply list_elem_of_fmap. eauto. }
    apply NoDup_app. split_and!; [done | |].
    + intros x Hx [->|Hx'%Hsub]%elem_of_cons; [eapply Ha2; [exact Hx | left] | eapply Ha2; [exact Hx | right; exact Hx']].
    + apply NoDup_cons. split; [by intros Hx%Hsub|]. by apply kept_addr.
  - rewrite !Forall_app, Forall_cons in *. destruct Hfr as [[H1 [H2 H3]] H4]. split_and!; try done.
    apply Forall_forall. intros x Hx%kept_elem. rewrite Forall_forall in H3. apply elem_of_cons in Hx as [->|Hx]; [apply (H3 b); left | apply (H3 x); by right].
  - split_and!; [exact W2 | | exact Hv]. etransitivity; [exact Hc|]. unfold contents.
    rewrite (located_bump _ _ _ _ _ _ _ _ Lc), !ents_app, !ents_cons, kept_ents. rewrite <- !(assoc_L (++)).
    rewrite place_skip; [f_equal|].
    + rewrite place_front.
      * change (ents (value_of (m_map s)) []) with (@nil (Z * (Z * Z))). unfold ents1. cbn. unfold value_of at 1. by rewrite (lc_find _ _ _ _ _ _ _ _ Lc), Hq.
      * rewrite !Forall_app. split_and!; [|done | |].
        -- unfold ents1. apply Forall_fmap, Forall_forall. intros x _. unfold freq. cbn. lia.
        -- unfold ents1. apply Forall_fmap, Forall_forall. intros x _. unfold freq. cbn. lia.
        -- eapply Forall_impl; [apply (ents_freq _ post (fun z => z < fre b)%Z Hpost)|]. unfold freq. cbn. lia.
    + eapply Forall_impl; [apply (ents_freq _ pre (fun z => fre q < z)%Z Hpre')|]. unfold freq. cbn. lia.
Qed.

Lemma in_list_true s k a : (k, a) ∈ home (nodes s) -> existsb (in_ring k) (nodes s) = true.
Proof.
  intros Hk. destruct (home_elem _ _ _ Hk) as (pre & b & post & -> & _ & Hin). apply existsb_exists. exists b.
  split; [apply list_elem_of_In; set_solver | by apply in_ring_true].
Qed.

(** The list has a bucket with that address and frequency. *)
Definition fre_at s (a : positive) (f : Z) : Prop := exists pre b post, nodes s = pre ++ b :: post /\ address b = a /\ fre b = f.

Lemma locate_at s fs pre b post : Wf s fs -> nodes s = pre ++ b :: post -> locate (address b) (nodes s) = Some (pre, b, post).
Proof.
  intros W Hn. assert (HN := wf_addr _ _ W). rewrite Hn, fmap_app, NoDup_app in HN. destruct HN as [HN _]. by rewrite Hn, (locate_split _ _ _ HN).
Qed.

Lemma wp_fre_of s fs k a (Q : Z -> store M -> Prop) :
  Wf s fs -> (k, a) ∈ home (nodes s) -> (forall f, fre_at s a f -> Q f s) -> wp (fre_of a) s Q.
Proof.
  intros W Hk HQ. destruct (home_elem _ _ _ Hk) as (pre & b & post & Hn & <- & Hin). unfold fre_of. do 2 wp_step.
  rewrite (locate_at s fs pre b post W Hn). wp_step. apply HQ. by exists pre, b, post.
Qed.

Lemma located_assoc m l fs k v pre b post : Located m l fs k v pre b post -> assoc k (ents (value_of m) l) = Some (v, fre b).
Proof.
  intros [-> Hf H1 H2 H3 H4 H5]. rewrite ents_app, ents_cons, !assoc_app. rewrite (proj2 (assoc_None k (ents (value_of m) pre))) by by rewrite ents_keys.
  rewrite (proj2 (assoc_Some k (v, fre b) (ents1 (value_of m) b) ltac:(by unfold ents1; rewrite <- list_fmap_compose, list_fmap_id))); [done|].
  unfold ents1. apply list_elem_of_fmap. exists k. split; [|done]. unfold value_of. by rewrite Hf.
Qed.

(** A hit that needs a node of its own: others have the frequency, and nobody
    the next one. *)
Lemma overflows_split s fs k v pre b post :
  Wf s fs -> Located (m_map s) (nodes s) fs k v pre b post -> ring b <> [k] -> room_above pre b ->
  overflows k (contents s) = if (2 ^ 63 - 1 <=? fre b)%Z then Some SignedOverflow else if (2 ^ 31 - 1 <=? fre b)%Z then Some AssertFail else None.
Proof.
  intros W Lc Hr Hroom. unfold overflows, contents. rewrite (located_assoc _ _ _ _ _ _ _ _ Lc). assert (Hn := lc_list _ _ _ _ _ _ _ _ Lc).
  destruct (order_split _ _ _ _ _ W Hn) as (_ & Hpost & _). assert (Hpre := room_all _ _ _ _ _ W Hn Hroom).
  assert (H1 : existsb (fun e => negb (e.1 =? k) && (freq e =? fre b))%Z (ents (value_of (m_map s)) (nodes s)) = true).
  { assert (Hne := delink_nonempty k b (lc_in _ _ _ _ _ _ _ _ Lc) (lc_nodup _ _ _ _ _ _ _ _ Lc) Hr).
    destruct (ring (delink_key k b)) as [|j r] eqn:Ej; [done|]. assert (Hj : j ∈ ring (delink_key k b)) by (rewrite Ej; left).
    cbn in Hj. apply list_elem_of_filter in Hj as [Hjk Hj]. apply existsb_exists. exists (j, (value_of (m_map s) j, fre b)). split.
    - apply list_elem_of_In. rewrite Hn, ents_app, ents_cons, !elem_of_app. right. left. apply list_elem_of_fmap. by exists j.
    - cbn. rewrite Z.eqb_refl. by rewrite (proj2 (Z.eqb_neq _ _)). }
  assert (H2 : existsb (fun e => freq e =? fre b + 1)%Z (ents (value_of (m_map s)) (nodes s)) = false).
  { apply not_true_is_false. intros (e & He%list_elem_of_In & Hf%Z.eqb_eq)%existsb_exists. revert He. rewrite Hn, ents_app, ents_cons, !elem_of_app.
    assert (Fp := ents_freq (value_of (m_map s)) pre (fun z => fre b + 1 < z)%Z Hpre). assert (Fq := ents_freq (value_of (m_map s)) post (fun z => z < fre b)%Z Hpost).
    rewrite Forall_forall in Fp, Fq. intros [He|[He|He]]; [specialize (Fp e He); lia | | specialize (Fq e He); lia].
    apply list_elem_of_fmap in He as (j & -> & _). unfold freq in Hf. cbn in Hf. lia. }
  rewrite H1, H2. cbn [negb]. by rewrite !andb_true_r.
Qed.

(** A hit that raises its bucket or joins the one above. *)
Lemma overflows_fits s fs k v pre b post :
  Wf s fs -> Located (m_map s) (nodes s) fs k v pre b post -> ring b = [k] \/ (exists q, last pre = Some q /\ fre q = (fre b + 1)%Z) ->
  overflows k (contents s) = if (2 ^ 63 - 1 <=? fre b)%Z then Some SignedOverflow else None.
Proof.
  intros W Lc Hc. unfold overflows, contents. rewrite (located_assoc _ _ _ _ _ _ _ _ Lc). assert (Hn := lc_list _ _ _ _ _ _ _ _ Lc).
  destruct (order_split _ _ _ _ _ W Hn) as (Hpre & Hpost & _). case_match; [done|].
  destruct Hc as [Hr|(q & Hq & Hfq)].
  - replace (existsb (fun e => negb (e.1 =? k) && (freq e =? fre b))%Z (ents (value_of (m_map s)) (nodes s))) with false; [by rewrite andb_false_r|].
    symmetry. apply not_true_is_false. intros (e & He%list_elem_of_In & [Hk Hf%Z.eqb_eq]%andb_true_iff)%existsb_exists. revert He. rewrite Hn, ents_app, ents_cons, !elem_of_app.
    assert (Fp := ents_freq (value_of (m_map s)) pre (fun z => fre b < z)%Z Hpre). assert (Fq := ents_freq (value_of (m_map s)) post (fun z => z < fre b)%Z Hpost).
    rewrite Forall_forall in Fp, Fq. intros [He|[He|He]]; [specialize (Fp e He); lia | | specialize (Fq e He); lia].
    unfold ents1 in He. rewrite Hr in He. apply list_elem_of_fmap in He as (j & -> & ->%list_elem_of_singleton). cbn in Hk. by rewrite Z.eqb_refl in Hk.
  - apply last_Some in Hq as [pre' ->]. assert (Hfull := wf_full _ _ W). rewrite Hn in Hfull. apply full_front in Hfull. apply Forall_app in Hfull as [_ Hfull].
    apply Forall_cons in Hfull as [Hfull _]. destruct (ring q) as [|j r] eqn:Er; [done|].
    replace (existsb (fun e => freq e =? fre b + 1)%Z (ents (value_of (m_map s)) (nodes s))) with true; [by rewrite andb_false_r|].
    symmetry. apply existsb_exists. exists (j, (value_of (m_map s) j, fre q)). split; [|unfold freq; cbn; by apply Z.eqb_eq].
    apply list_elem_of_In. rewrite Hn, !ents_app, ents_cons, !elem_of_app. left. right. left. apply list_elem_of_fmap. exists j. rewrite Er. split; [done|left].
Qed.

(** [promote] where the key is in the bucket [b]. *)
Definition promoted (k v : Z) (pre : list ListNode) (b : ListNode) (post : list ListNode) : SM (store M) unit :=
  let alone :=
    match ring b with
    | [_] => modify (set_nodes (pre ++ Bucket (address b) (fre b + 1) (ring b) :: post))
    | _ => newnode ← gets fresh; modify (set_fresh (Pos.succ newnode));; assertM (fre b <? i32 (fre b + 1))%Z;;
           modify (set_nodes (pre ++ Bucket newnode (i32 (fre b + 1)) [k] :: delink_key k b :: post));;
           modify (fun s0 => set_map (chm_assign (m_map s0) k (LV v (Some newnode))) s0)
    end in
  if (2 ^ 63 - 1 <=? fre b)%Z then crashes SignedOverflow else
  match last pre with
  | None => alone
  | Some prev =>
      if (fre b + 1 <? fre prev)%Z then alone
      else if (fre prev <=? fre b)%Z then crashes AssertFail
      else
        modify (set_nodes (removelast pre ++ push_key k prev :: (match ring (delink_key k b) with [] => post | _ => delink_key k b :: post end)));;
        modify (fun s0 => set_map (chm_assign (m_map s0) k (LV v (Some (address prev)))) s0)
  end.

Lemma promote_eq k v s pre b post : existsb (in_ring k) (nodes s) = true -> locate (address b) (nodes s) = Some (pre, b, post) -> in_ring k b = true ->
  promote k (LV v (Some (address b))) (address b) (fre b) s = promoted k v pre b post s.
Proof.
  intros H1 H2 H3. unfold promote, isInList. unfold mbind at 1, SM_bind at 1, gets at 1. rewrite H1. cbn [negb].
  unfold mbind at 1, SM_bind at 1, gets at 1. rewrite H2, H3. cbn [negb val]. unfold promoted. by destruct (2 ^ 63 - 1 <=? fre b)%Z.
Qed.

(** The key gets a bucket of its own, the old one raised or a new one. *)
Lemma alone_ok s fs k v pre b post :
  Wf s fs -> Located (m_map s) (nodes s) fs k v pre b post -> room_above pre b ->
  (ring b = [k] ->
    match overflows k (contents s) with
    | Some e => (2 ^ 63 - 1 <=? fre b)%Z = true /\ e = SignedOverflow
    | None => (2 ^ 63 - 1 <=? fre b)%Z = false
    end) ->
  (ring b <> [k] ->
    match overflows k (contents s) with
    | Some e => (2 ^ 63 - 1 <=? fre b)%Z = true /\ e = SignedOverflow \/ (2 ^ 63 - 1 <=? fre b)%Z = false /\ (fre b <? i32 (fre b + 1))%Z = false /\ e = AssertFail
    | None => (2 ^ 63 - 1 <=? fre b)%Z = false /\ i32 (fre b + 1) = (fre b + 1)%Z
    end) ->
  let run := (if (2 ^ 63 - 1 <=? fre b)%Z then crashes SignedOverflow else
     match ring b with
     | [_] => modify (set_nodes (pre ++ Bucket (address b) (fre b + 1) (ring b) :: post))
     | _ => newnode ← gets fresh; modify (set_fresh (Pos.succ newnode));; assertM (fre b <? i32 (fre b + 1))%Z;;
            modify (set_nodes (pre ++ Bucket newnode (i32 (fre b + 1)) [k] :: delink_key k b :: post));;
            modify (fun s0 => set_map (chm_assign (m_map s0) k (LV v (Some newnode))) s0)
     end : SM (store M) unit) s in
  match overflows k (contents s) with
  | Some e => run = Crash e
  | None => match run with Ok (_, s') => Wf s' fs /\ contents s' = bump k (contents s) /\ (forall j, value_of (m_map s') j = value_of (m_map s) j) | Crash _ => False end
  end.
Proof.
  intros W Lc Hroom Hone Hmany. assert (Hin := lc_in _ _ _ _ _ _ _ _ Lc). destruct (decide (ring b = [k])) as [Hr|Hr].
  - specialize (Hone Hr). destruct (overflows k (contents s)) as [e|]; [destruct Hone as [-> ->]; done|]. rewrite Hone.
    destruct (wf_raise _ _ _ _ _ _ _ W Lc Hr Hroom) as [W' Hc]. rewrite Hr in *. by split_and!.
  - specialize (Hmany Hr). destruct (wf_split _ _ _ _ _ _ _ W Lc Hr Hroom) as (W' & Hc & Hv).
    destruct (ring b) as [|x [|y r]] eqn:Er; [set_solver|set_solver|].
    destruct (overflows k (contents s)) as [e|].
    + destruct Hmany as [[-> ->]|(-> & Hi & ->)]; [done|]. cbn. unfold assertM, mbind, SM_bind, gets, modify. by rewrite Hi.
    + destruct Hmany as [-> Hi]. rewrite Hi. cbn. unfold assertM, mbind, SM_bind, gets, modify. rewrite (proj2 (Z.ltb_lt _ _)) by lia. by split_and!.
Qed.

Lemma fl_promote s fs k v a f :
  Wf s fs -> (k, a) ∈ home (nodes s) -> chm_find (m_map s) k = Some (LV v (Some a)) -> fre_at s a f ->
  match overflows k (contents s) with
  | Some e => promote k (LV v (Some a)) a f s = Crash e
  | None => wp (promote k (LV v (Some a)) a f) s (fun _ s' =>
      Wf s' fs /\ contents s' = bump k (contents s) /\ forall j, value_of (m_map s') j = value_of (m_map s) j)
  end.
Proof.
  intros W Hk Hf Hfre. destruct (located s fs k a v W Hk Hf) as (pre & b & post & Lc & Hab).
  assert (Hn := lc_list _ _ _ _ _ _ _ _ Lc). assert (Hl := locate_at s fs pre b post W Hn).
  assert (f = fre b) as ->.
  { destruct Hfre as (pre' & b' & post' & Hn' & Ha' & <-). assert (Hl' := locate_at s fs pre' b' post' W Hn'). congruence. }
  subst a. assert (Hin := lc_in _ _ _ _ _ _ _ _ Lc). destruct (order_split _ _ _ _ _ W Hn) as (Hpre & _ & _ & _ & Hb1).
  assert (Hp : forall X Y : res (unit * store M), X = Y -> match overflows k (contents s) with
    | Some e => Y = Crash e
    | None => match Y with Ok (_, s') => Wf s' fs /\ contents s' = bump k (contents s) /\ (forall j, value_of (m_map s') j = value_of (m_map s) j) | Crash _ => False end
    end -> match overflows k (contents s) with
    | Some e => X = Crash e
    | None => match X with Ok (_, s') => Wf s' fs /\ contents s' = bump k (contents s) /\ (forall j, value_of (m_map s') j = value_of (m_map s) j) | Crash _ => False end
    end) by by intros X Y ->.
  apply (Hp _ _ (promote_eq k v s pre b post (in_list_true s k _ Hk) Hl (proj2 (in_ring_true k b) Hin))). clear Hp. unfold promoted.
  assert (Hone : room_above pre b -> ring b = [k] ->
    match overflows k (contents s) with
    | Some e => (2 ^ 63 - 1 <=? fre b)%Z = true /\ e = SignedOverflow
    | None => (2 ^ 63 - 1 <=? fre b)%Z = false
    end).
  { intros Hroom Hr. rewrite (overflows_fits _ _ _ _ _ _ _ W Lc (or_introl Hr)). by destruct (2 ^ 63 - 1 <=? fre b)%Z. }
  assert (Hmany : room_above pre b -> ring b <> [k] ->
    match overflows k (contents s) with
    | Some e => (2 ^ 63 - 1 <=? fre b)%Z = true /\ e = SignedOverflow \/ (2 ^ 63 - 1 <=? fre b)%Z = false /\ (fre b <? i32 (fre b + 1))%Z = false /\ e = AssertFail
    | None => (2 ^ 63 - 1 <=? fre b)%Z = false /\ i32 (fre b + 1) = (fre b + 1)%Z
    end).
  { intros Hroom Hr. rewrite (overflows_split _ _ _ _ _ _ _ W Lc Hr Hroom). destruct (2 ^ 63 - 1 <=? fre b)%Z; [by left|].
    destruct (Z.leb_spec (2 ^ 31 - 1) (fre b)); [|split; [done|]; apply i32_small; lia]. right. assert (Hi := i32_range (fre b + 1)).
    rewrite (proj2 (Z.ltb_ge _ _)) by lia. done. }
  destruct pre as [|q pre _] using rev_ind; [|rewrite last_snoc, removelast_last; destruct (Z.ltb_spec (fre b + 1) (fre q)) as [Hlt|Hge]].
  - exact (alone_ok s fs k v [] b post W Lc I (Hone I) (Hmany I)).
  - assert (Hroom : room_above (pre ++ [q]) b) by (unfold room_above; by rewrite last_snoc).
    exact (alone_ok s fs k v (pre ++ [q]) b post W Lc Hroom (Hone Hroom) (Hmany Hroom)).
  - apply Forall_app in Hpre as [_ Hpre]. apply Forall_cons in Hpre as [Hpre _].
    rewrite (overflows_fits _ _ _ _ _ _ _ W Lc) by (right; exists q; rewrite last_snoc; split; [done|lia]).
    rewrite (proj2 (Z.leb_gt (fre q) (fre b))) by done. destruct (2 ^ 63 - 1 <=? fre b)%Z; [done|]. exact (wf_join s fs k v pre q b post W Lc ltac:(lia)).
Qed.

Lemma fl_wp_promote s fs k v a f (Q : unit -> store M -> Prop) :
  Wf s fs -> (k, a) ∈ home (nodes s) -> chm_find (m_map s) k = Some (LV v (Some a)) -> fre_at s a f -> overflows k (contents s) = None ->
  (forall s', Wf s' fs -> contents s' = bump k (contents s) -> (forall j, value_of (m_map s') j = value_of (m_map s) j) -> Q tt s') ->
  wp (promote k (LV v (Some a)) a f) s Q.
Proof.
  intros W Hk Hf Hfre Ho HQ. assert (Hp := fl_promote s fs k v a f W Hk Hf Hfre). rewrite Ho in Hp.
  eapply wp_mono; [exact Hp|]. intros [] s' (H1 & H2 & H3). by apply HQ.
Qed.

(** ** A new key *)

Lemma wf_add s fs m k v x a l fr :
  Wf s fs -> chm_find (m_map s) k = None -> (forall j, chm_find m j = if decide (j = k) then Some x else chm_find (m_map s) j) -> val x = v ->
  home (l ++ fs) ≡ₚ (k, a) :: home (nodes s ++ fs) ->
  StronglySorted above l -> Forall (fun x => (1 <= fre x)%Z) l -> Full l ->
  NoDup (address <$> l ++ fs) -> Forall (fun x => (address x < fr)%positive) (l ++ fs) ->
  let s' := {| m_map := chm_assign m k (LV v (Some a)); nodes := l; fresh := fr |} in
  Wf s' fs /\ forall j, value_of (m_map s') j = if decide (j = k) then v else value_of (m_map s) j.
Proof.
  intros W Hk Hm Hv Hh Ho Hp Hf Ha Hfr s'.
  destruct (homes_add m (m_map s) _ k v a x (wf_homes _ _ W) Hk Hm Hv) as [[HN Hmp Hd] Hval]. split; [|exact Hval].
  split; try done. split; cbn.
  - by rewrite Hh.
  - intros j b. rewrite Hh. apply Hmp.
  - intros j Hj. rewrite Hh. by apply Hd.
Qed.

Lemma absent_home s fs k : Wf s fs -> chm_find (m_map s) k = None -> k ∉ (home (nodes s)).*1.
Proof.
  intros W Hk ([j a] & -> & Hj)%list_elem_of_fmap. cbn in Hk.
  destruct (hm_map _ _ (wf_homes _ _ W) j a) as [v Hv]; [rewrite home_app; set_solver | congruence].
Qed.

(** All frequencies are above that of the last bucket. *)
Lemma order_last s fs l b : Wf s fs -> nodes s = l ++ [b] -> Forall (fun x => (fre b < fre x)%Z) l /\ (1 <= fre b)%Z.
Proof. intros W Hn. by destruct (order_split _ _ _ _ _ W Hn) as (? & _ & _ & _ & ?). Qed.

(** No bucket has frequency 1: a new one, behind all others. *)
Lemma wf_new_bucket s fs m k x :
  Wf s fs -> chm_find (m_map s) k = None -> (forall j, chm_find m j = if decide (j = k) then Some x else chm_find (m_map s) j) ->
  Forall (fun b => (1 < fre b)%Z) (nodes s) ->
  let s' := {| m_map := chm_assign m k (LV (val x) (Some (fresh s))); nodes := nodes s ++ [Bucket (fresh s) 1 [k]]; fresh := Pos.succ (fresh s) |} in
  Wf s' fs /\ contents s' = place (k, (val x, 1%Z)) (contents s) /\ (forall j, j <> k -> value_of (m_map s') j = value_of (m_map s) j).
Proof.
  intros W Hk Hm Hgt s'. assert (Hkh := absent_home _ _ _ W Hk). assert (W' := W). destruct W' as [Hh Ho Hp Hf Ha Hfr].
  assert (Hall : Forall (fun b => ring b <> []) (nodes s)).
  { apply Forall_forall. intros b Hb Hr. apply list_elem_of_split in Hb as (l1 & l2 & Hn). destruct (Hf l1 b l2 Hn Hr) as [_ H1b].
    rewrite Hn in Hgt. apply Forall_app in Hgt as [_ Hgt]. apply Forall_cons in Hgt as [Hgt _]. lia. }
  destruct (wf_add s fs m k (val x) x (fresh s) (nodes s ++ [Bucket (fresh s) 1 [k]]) (Pos.succ (fresh s)) W Hk Hm eq_refl) as [W' Hval].
  - rewrite !home_app, home_cons. unfold home1 at 1. cbn [ring address fmap list_fmap app]. change (home []) with (@nil (Z * positive)).
    rewrite <- !(assoc_L (++)). cbn [app]. by rewrite <- Permutation_middle.
  - apply sorted_around; [done | done | by repeat constructor].
  - apply Forall_app. split; [done|]. by repeat constructor.
  - apply full_app; [done|]. intros [|? l1] b l2; [intros [= <- <-]; done | intros [= <- Hx]; by destruct l1].
  - rewrite <- (assoc_L (++)), fmap_app. cbn. assert (Hx : forall b, b ∈ nodes s ++ fs -> address b <> fresh s).
    { intros b Hb He. rewrite Forall_forall in Hfr. specialize (Hfr b Hb). lia. }
    rewrite fmap_app in Ha. apply NoDup_app in Ha as (Ha1 & Ha2 & Ha3). apply NoDup_app. split_and!; [done | |].
    + intros y Hy [->|Hy']%elem_of_cons; [|by eapply Ha2]. apply list_elem_of_fmap in Hy as (b & He & Hb).
      apply (Hx b); [set_solver | done].
    + apply NoDup_cons. split; [|done]. intros (b & He & Hb)%list_elem_of_fmap. apply (Hx b); [set_solver | done].
  - rewrite <- (assoc_L (++)), !Forall_app in *. destruct Hfr as [Hf1 Hf2]. split_and!.
    + eapply Forall_impl; [exact Hf1|]. cbn. lia.
    + repeat constructor. cbn. lia.
    + eapply Forall_impl; [exact Hf2|]. cbn. lia.
  - split_and!; [exact W' | | intros j Hj; unfold s'; by rewrite Hval, decide_False].
    unfold contents, s'. cbn [nodes]. rewrite ents_app, (ents_ext (value_of (m_map s))).
    + rewrite <- (app_nil_r (ents (value_of (m_map s)) (nodes s))) at 2. rewrite place_skip.
      * f_equal. unfold ents. cbn. by rewrite Hval, decide_True.
      * eapply Forall_impl; [apply (ents_freq _ _ (fun z => 1 < z)%Z Hgt)|]. done.
    + intros j Hj. rewrite Hval, decide_False; [done|]. by intros ->.
Qed.

(** The last bucket has frequency 1: the key joins it. *)
Lemma wf_join_last s fs m k x l b :
  Wf s fs -> chm_find (m_map s) k = None -> (forall j, chm_find m j = if decide (j = k) then Some x else chm_find (m_map s) j) ->
  nodes s = l ++ [b] -> fre b = 1%Z ->
  let s' := {| m_map := chm_assign m k (LV (val x) (Some (address b))); nodes := l ++ [push_key k b]; fresh := fresh s |} in
  Wf s' fs /\ contents s' = place (k, (val x, 1%Z)) (contents s) /\ (forall j, j <> k -> value_of (m_map s') j = value_of (m_map s) j).
Proof.
  intros W Hk Hm Hn Hb s'. assert (Hkh := absent_home _ _ _ W Hk). destruct (order_last _ _ _ _ W Hn) as [Hl _].
  assert (W' := W). destruct W' as [Hh Ho Hp Hf Ha Hfr]. rewrite Hn in Ho, Hp, Hf, Ha, Hfr, Hkh.
  destruct (wf_add s fs m k (val x) x (address b) (l ++ [push_key k b]) (fresh s) W Hk Hm eq_refl) as [W' Hval].
  - rewrite Hn, !home_app, !home_cons, <- !(assoc_L (++)). unfold home1 at 1. cbn [push_key ring address fmap list_fmap app].
    by rewrite <- Permutation_middle.
  - apply StronglySorted_app in Ho as (Ho1 & Ho2 & _). apply sorted_around; [done | done | by repeat constructor].
  - apply Forall_app in Hp as [Hp _]. apply Forall_app. split; [done|]. repeat constructor. cbn. lia.
  - apply full_app; [by eapply full_front|]. intros [|? l1] c l2; [intros [= <- <-]; done | intros [= <- Hx]; by destruct l1].
  - rewrite !fmap_app in *. exact Ha.
  - rewrite !Forall_app, !Forall_cons in *. exact Hfr.
  - split_and!; [exact W' | | intros j Hj; unfold s'; by rewrite Hval, decide_False].
    assert (He : forall l', k ∉ (home l').*1 -> ents (value_of (m_map s')) l' = ents (value_of (m_map s)) l').
    { intros l' Hl'. apply ents_ext. intros j Hj. unfold s'. rewrite Hval, decide_False; [done|]. by intros ->. }
    rewrite home_app, fmap_app in Hkh. unfold contents, s'. cbn [nodes]. fold s'. rewrite Hn, !ents_app, He by set_solver.
    rewrite place_skip; [f_equal|].
    + rewrite place_front by (eapply Forall_impl; [apply (ents_freq _ [b] (fun z => z <= 1)%Z); repeat constructor; lia|]; done).
      assert (Hk' : k ∉ (home [b]).*1) by set_solver. apply He in Hk'. unfold ents in Hk' |- *. cbn in Hk' |- *.
      unfold ents1 in Hk' |- *. cbn in Hk' |- *. rewrite Hk'. by rewrite Hval, decide_True, Hb.
    + eapply Forall_impl; [apply (ents_freq _ l (fun z => fre b < z)%Z Hl)|]. unfold freq. cbn. lia.
Qed.

Lemma wp_push_new s fs m k x (Q : unit -> store M -> Prop) :
  Wf s fs -> chm_find (m_map s) k = None -> (forall j, chm_find m j = if decide (j = k) then Some x else chm_find (m_map s) j) ->
  (forall s' l b, Wf s' fs -> contents s' = place (k, (val x, 1%Z)) (contents s) ->
     (forall j, j <> k -> value_of (m_map s') j = value_of (m_map s) j) ->
     nodes s' = l ++ [b] -> ring b <> [] -> fre b = 1%Z -> Q tt s') ->
  wp (push_new k x) (set_map m s) Q.
Proof.
  intros W Hk Hm HQ.
  assert (Hnew : Forall (fun b => (1 < fre b)%Z) (nodes s) ->
    Q tt {| m_map := chm_assign m k (LV (val x) (Some (fresh s))); nodes := nodes s ++ [Bucket (fresh s) 1 [k]]; fresh := Pos.succ (fresh s) |}).
  { intros Hgt. destruct (wf_new_bucket _ _ _ _ _ W Hk Hm Hgt) as (W' & Hc & Hv). by eapply (HQ _ _ (Bucket (fresh s) 1 [k])). }
  unfold push_new. do 2 wp_step. cbn [set_map nodes]. wp_step.
  destruct (nodes s) as [|b l _] eqn:En using rev_ind.
  - cbn [last]. do 6 wp_step. wp_step. apply wp_modify. by apply Hnew.
  - rewrite last_snoc. destruct (order_last _ _ _ _ W En) as [Hl Hb]. destruct (Z.eqb_spec (fre b) 1) as [H1|H1].
    + do 3 wp_step. rewrite removelast_last. apply wp_modify. destruct (wf_join_last _ _ _ _ _ _ _ W Hk Hm En H1) as (W' & Hc & Hv).
      by eapply (HQ _ l (push_key k b)).
    + do 6 wp_step. wp_step. apply wp_modify. apply Hnew. apply Forall_app. split; [|repeat constructor; lia].
      eapply Forall_impl; [exact Hl|]. cbn. lia.
Qed.

(** ** The eviction *)
Lemma delink_last k b r : ring b = r ++ [k] -> NoDup (ring b) -> delink_key k b = Bucket (address b) (fre b) r.
Proof.
  intros Hr HN. unfold delink_key. f_equal. rewrite Hr in *. apply NoDup_app in HN as (_ & Hd & _).
  rewrite filter_app, filter_cons_False, app_nil_r by naive_solver.
  apply filter_all, Forall_forall. intros x Hx ->. apply (Hd k Hx). left.
Qed.

Lemma wf_drop_last s fs l b r k :
  Wf s fs -> nodes s = l ++ [b] -> fre b = 1%Z -> ring b = r ++ [k] ->
  let s' := set_map (chm_erase (m_map s) k).2 (set_nodes (l ++ [delink_key k b]) s) in
  Wf s' fs /\ contents s' = removelast (contents s) /\ (forall j, j ∈ (home fs).*1 -> value_of (m_map s') j = value_of (m_map s) j) /\
  is_Some (chm_find (m_map s) k).
Proof.
  intros W Hn Hb Hr s'. assert (Hin : k ∈ ring b) by (rewrite Hr; set_solver).
  destruct (hm_map _ _ (wf_homes _ _ W) k (address b)) as [v Hf].
  { rewrite Hn, !home_app, home_cons, !elem_of_app. left; right; left. unfold home1. apply list_elem_of_fmap. by exists k. }
  assert (Lc := located_at s fs k v l b [] W Hn Hin Hf). assert (Hd := delink_last _ _ _ Hr (lc_nodup _ _ _ _ _ _ _ _ Lc)).
  assert (W' := W). destruct W' as [Hh Ho Hp Hfu Ha Hfr]. 
  destruct (homes_erase _ _ (home (nodes s' ++ fs)) k (address b) Hh) as [Hh' Hv].
  { rewrite Hn, !home_app, home_cons, !elem_of_app. left; right; left. unfold home1. apply list_elem_of_fmap. by exists k. }
  { rewrite (located_home _ _ _ _ _ _ _ _ Lc). unfold s'. cbn. rewrite !home_app, home_cons, <- !(assoc_L (++)). done. }
  assert (He : forall l', k ∉ (home l').*1 -> ents (value_of (m_map s')) l' = ents (value_of (m_map s)) l').
  { intros l' Hl'. apply ents_ext. intros j Hj. apply Hv. by intros ->. }
  rewrite Hn in Ho, Hp, Hfu, Ha, Hfr.
  split_and!; [split; try done; unfold s'; cbn [nodes set_map set_nodes] | | intros j Hj; apply Hv; intros ->; by apply (lc_fs _ _ _ _ _ _ _ _ Lc) | by rewrite Hf].
  - destruct (order_last _ _ _ _ W Hn) as [Hl _]. apply StronglySorted_app in Ho as (_ & Ho & _). apply sorted_around; [done.. | by repeat constructor].
  - rewrite Forall_app, !Forall_cons in *. exact Hp.
  - apply full_app; [by eapply full_front|]. intros [|? l1] c l2; [by intros [= <- <-] | intros [= <- Hx]; by destruct l1].
  - rewrite !fmap_app in *. exact Ha.
  - rewrite !Forall_app, !Forall_cons in *. exact Hfr.
  - unfold contents. rewrite Hn. unfold s' at 2. cbn [nodes set_map set_nodes]. rewrite !ents_app, He by apply (lc_pre _ _ _ _ _ _ _ _ Lc).
    rewrite He.
    + unfold ents. cbn [fmap list_fmap concat app]. rewrite !app_nil_r, Hd. unfold ents1. cbn [ring fre]. rewrite Hr, fmap_app, (assoc_L (++)).
      cbn [fmap list_fmap]. by rewrite removelast_last.
    + rewrite home_cons, fmap_app, home1_delink, keys_without. change (home []) with (@nil (Z * positive)). cbn. rewrite app_nil_r, list_elem_of_filter. tauto.
Qed.

Lemma wp_evict_last s fs l b (Q : bool -> store M -> Prop) :
  Wf s fs -> nodes s = l ++ [b] -> ring b <> [] -> fre b = 1%Z ->
  (forall s', Wf s' fs -> contents s' = removelast (contents s) -> (forall j, j ∈ (home fs).*1 -> value_of (m_map s') j = value_of (m_map s) j) -> Q true s') ->
  wp evict_last s Q.
Proof.
  intros W Hn Hr Hb HQ. unfold evict_last. do 2 wp_step. rewrite Hn, last_snoc.
  destruct (ring b) as [|k r _] eqn:Er using rev_ind; [done|]. rewrite last_snoc, removelast_last.
  destruct (wf_drop_last s fs l b r k W Hn Hb Er) as (W' & Hc & He & [x Hx]).
  do 4 wp_step. cbn [set_nodes m_map]. rewrite Hx. do 2 wp_step. wp_step. by apply HQ.
Qed.

(** ** The whole contents *)
Lemma homes_find m l k : Homes m (home l) ->
  match chm_find m k with
  | Some x => exists a, x = LV (val x) (Some a) /\ (k, a) ∈ home l /\ exists f, assoc k (ents (value_of m) l) = Some (val x, f)
  | None => assoc k (ents (value_of m) l) = None
  end.
Proof.
  intros Hh. destruct (chm_find m k) as [x|] eqn:Hf.
  - assert (Hk := hm_dom _ _ Hh k ltac:(by eexists)). apply list_elem_of_fmap in Hk as ([j a] & -> & Hin). cbn in Hf |- *.
    destruct (hm_map _ _ Hh _ _ Hin) as [v Hv]. rewrite Hf in Hv. injection Hv as ->. exists a. split_and!; [done | done |].
    destruct (home_elem _ _ _ Hin) as (pre & b & post & Hn & _ & Hb). exists (fre b). apply assoc_Some.
    + rewrite ents_keys. apply Hh.
    + rewrite Hn, ents_app, ents_cons, !elem_of_app. right. left. unfold ents1.
      apply list_elem_of_fmap. exists j. split; [|done]. unfold value_of. by rewrite Hf.
  - apply assoc_None. rewrite ents_keys. intros ([j a] & -> & Hin)%list_elem_of_fmap. cbn in Hf.
    destruct (hm_map _ _ Hh _ _ Hin) as [v Hv]. congruence.
Qed.

Lemma contents_find s k :
  Wf s [] -> match chm_find (m_map s) k with
             | Some x => exists a, x = LV (val x) (Some a) /\ (k, a) ∈ home (nodes s) /\ exists f, assoc k (contents s) = Some (val x, f)
             | None => assoc k (contents s) = None
             end.
Proof. intros W. apply homes_find. rewrite <- (app_nil_r (nodes s)). apply W. Qed.

Lemma contents_sorted s fs : Wf s fs -> StronglySorted (fun x y => (freq y <= freq x)%Z) (contents s).
Proof.
  intros W. unfold contents. induction (wf_order _ _ W) as [|b bs Ho IH Hb]; [by constructor|].
  rewrite ents_cons. apply StronglySorted_app. split_and!; [| |exact IH].
  - intros x y Hx Hy. unfold ents1 in Hx. apply list_elem_of_fmap in Hx as (k & -> & _).
    assert (Hf := ents_freq (value_of (m_map s)) bs (fun z => z < fre b)%Z Hb). rewrite Forall_forall in Hf.
    specialize (Hf y Hy). unfold freq in *. cbn in *. lia.
  - unfold ents1. induction (ring b) as [|k r IHr]; [by constructor|]. cbn. apply StronglySorted_cons. split; [|done].
    apply Forall_fmap, Forall_true. intros k'. unfold freq. cbn. lia.
Qed.
End wf.
