(* ===== verification/LFU.v ===== *)
(** * The LFU cache ([cache/lfu.h], class [LFUCache])

    The baseline with least-frequently-used eviction, on the lists of
    [FreqLists].  [lfu_refines]: over every sequence of fewer than [2^31] calls the object
    answers as the specification [spec_call] does, whose state is the list of
    entries by frequency and then recency, and never crashes or exceeds its
    capacity. *)

From stdpp Require Import sorting.
From S2P Require Import Prelude Interfaces BaseCache CacheSpec CacheAPI FreqLists.

Section cache.
Context {M : Type -> Type} `{CHM M}.

(** [FH_DESIGN] is not defined in this class's build: its fast list has no code. *)
Record LFUCache := { n : Z; s : Z; lists : store M; stat : BaseStat }.

Definition set_s (x : Z) (c : LFUCache) : LFUCache := {| n := n c; s := x; lists := lists c; stat := stat c |}.
Definition set_lists (l : store M) (c : LFUCache) : LFUCache := {| n := n c; s := s c; lists := l; stat := stat c |}.
Definition set_stat (b : BaseStat) (c : LFUCache) : LFUCache := {| n := n c; s := s c; lists := lists c; stat := b |}.

(** A transaction on the table and the lists. *)
Definition on_lists {A} (m : SM (store M) A) : SM LFUCache A := zoom lists set_lists m.

Definition new_LFUCache (capacity : Z) : LFUCache :=
  {| n := capacity; s := 0; lists := empty_store; stat := {| hit_num := 0; miss_num := 0 |} |}.

Definition size : SM LFUCache Z := gets s.

Definition clear : SM LFUCache unit :=
  on_lists (modify (fun l => set_nodes [] (set_map (chm_clear (m_map l)) l)));;
  modify (set_s 0).

Definition find (sample : bool) (ac key : Z) : SM LFUCache (bool * Z) :=
  m ← gets (fun c => m_map (lists c));
  match chm_find m key with
  | None =>
      modify (fun c => set_stat (count_find sample false (stat c)) c);;
      mret (false, ac)
  | Some hashAccessor =>
      match listNode hashAccessor with
      | None => crashes AssertFail
      | Some listnode =>
          fre ← on_lists (fre_of listnode);
          on_lists (promote key hashAccessor listnode fre);;
          modify (fun c => set_stat (count_find sample true (stat c)) c);;
          mret (true, val hashAccessor)
      end
  end.

Definition insert (key value : Z) : SM LFUCache bool :=
  m ← gets (fun c => m_map (lists c));
  let hashMapValue := LV value None in
  let r := chm_insert m key hashMapValue in
  if negb r.1 then mret false else
  on_lists (modify (set_map r.2));;
  on_lists (push_new key hashMapValue);;
  c ← gets (fun c => c);
  assertM (s c <=? n c)%Z;;
  if (s c <? n c)%Z then modify (set_s (u64 (s c + 1)));; mret true
  else on_lists evict_last.

(** Inherited from [BaseCacheAPI]. *)
Definition delete_key (key : Z) : SM LFUCache unit := mret tt.
Definition snapshotKeys (keys : list Z) : SM LFUCache (list Z) := mret keys.

#[export] Instance LFU_api : CacheAPI LFUCache Z := {
  api_find e := find (sample e);
  api_insert := insert;
  api_delete_key := delete_key;
  api_clear := clear;
  api_snapshotKeys := snapshotKeys;
  api_size := size
}.
End cache.

Arguments LFUCache : clear implicits.

(** ** The specification *)
Definition spec_call (cap : Z) (o : op Z) (l : list (Z * (Z * Z))) : answer Z * list (Z * (Z * Z)) :=
  match o with
  | Find _ ac key =>
      match assoc key l with
      | Some (v, _) => (Found true v, bump key l)
      | None => (Found false ac, l)
      end
  | Insert key value =>
      match assoc key l with
      | Some _ => (Inserted false, l)
      | None => (Inserted true, take_in cap key value l)
      end
  | DeleteKey _ => (Done, l)
  | Clear => (Done, [])
  | SnapshotKeys keys => (Keys keys, l)
  | Size => (Count (Z.of_nat (length l)), l)
  end.

Fixpoint spec_calls (cap : Z) (ops : list (op Z)) (l : list (Z * (Z * Z))) : list (answer Z) * list (Z * (Z * Z)) :=
  match ops with
  | [] => ([], l)
  | o :: ops =>
      let r := spec_call cap o l in
      let rest := spec_calls cap ops r.2 in
      (r.1 :: rest.1, rest.2)
  end.

Section props.
Context {M : Type -> Type} `{CHMLaws M}.
Implicit Types (c : LFUCache M).

Record Rep (cap : Z) c (l : list (Z * (Z * Z))) : Prop := {
  rp_wf : Wf (lists c) [];
  rp_contents : contents (lists c) = l;
  rp_cap : n c = cap;
  rp_size : s c = Z.of_nat (length l);
  rp_bound : (Z.of_nat (length l) <= cap < 2 ^ 64)%Z
}.

Lemma lfu_rep_new cap : (0 <= cap < 2 ^ 64)%Z -> Rep cap (new_LFUCache cap) [].
Proof. intros Hc. split; cbn; [|done..]. apply wf_no_nodes; [done|]. intros k. apply chm_find_empty. Qed.

Lemma lfu_rep_nodup cap c l : Rep cap c l -> NoDup l.*1.
Proof.
  intros [W <- _ _ _]. unfold contents. rewrite ents_keys. assert (HN := hm_nodup _ _ (wf_homes _ _ W)). by rewrite app_nil_r in HN.
Qed.

Lemma lfu_wp_find cap e ac key c l : Rep cap c l -> overflows key l = None ->
  wp (find e ac key) c (fun r c' => Found r.1 r.2 = (spec_call cap (Find (Build_choice true e) ac key) l).1 /\
                                    Rep cap c' (spec_call cap (Find (Build_choice true e) ac key) l).2).
Proof.
  intros R Hov. assert (HN := lfu_rep_nodup _ _ _ R). destruct R as [W <- Hn Hs Hb]. assert (Hk := contents_find (lists c) key W).
  unfold find, spec_call. do 2 wp_step. destruct (chm_find (m_map (lists c)) key) as [x|] eqn:Hf.
  - destruct Hk as (a & Hx & Hin & f & Ha). rewrite Ha, Hx. cbn [listNode val]. unfold on_lists. do 2 wp_step. apply (wp_fre_of _ [] _ _ _ W Hin).
    intros fr Hfr. do 2 wp_step. rewrite Hx in Hf. apply (fl_wp_promote _ [] _ _ _ _ _ W Hin Hf Hfr Hov). intros s' W' Hc _. do 3 wp_step. cbn. split; [done|].
    split; cbn; try done; by rewrite ?Hc, ?length_bump.
  - rewrite Hk. do 3 wp_step. done.
Qed.

Lemma lfu_wp_insert cap key value c l : Rep cap c l ->
  wp (insert key value) c (fun b c' => Inserted b = (spec_call cap (Insert key value) l).1 /\
                                       Rep cap c' (spec_call cap (Insert key value) l).2).
Proof.
  intros R. destruct R as [W <- Hn Hs Hb]. assert (Hk := contents_find (lists c) key W).
  unfold insert, spec_call. do 2 wp_step. destruct (chm_find (m_map (lists c)) key) as [x|] eqn:Hf.
  { destruct Hk as (a & Hx & Hin & f & Ha). rewrite Ha. rewrite (chm_insert_dup _ _ _ _ _ Hf). cbn [fst negb]. by wp_step. }
  rewrite Hk, (chm_insert_new _ _ _ _ Hf). cbn [negb]. unfold on_lists. do 5 wp_step. cbn [set_lists lists].
  assert (Hi := fun j => chm_find_insert _ (m_map (lists c)) key (LV value None) j Hf).
  apply (wp_push_new (lists c) [] _ key (LV value None) _ W Hf Hi). intros s' l b W' Hc Hv Hn' Hr H1.
  do 4 wp_step; [apply Z.leb_le; cbn; lia|].
  cbn [set_lists s n]. rewrite Hs, Hn. assert (Hlen := length_take_in cap key value (contents (lists c))). unfold take_in in *. cbn [val] in *.
  destruct (Z.ltb_spec (Z.of_nat (length (contents (lists c)))) cap) as [Hlt|Hge].
  - do 2 wp_step. apply wp_ret. cbn. split; [done|]. split; cbn; [done.. | | lia]. rewrite u64_small; lia.
  - wp_step. apply (wp_evict_last _ [] _ _ _ W' Hn' Hr H1). intros s2 W2 Hc2 _. cbn. split; [done|]. rewrite Hc in Hc2.
    split; cbn; try done; lia.
Qed.

Lemma lfu_wp_call cap o c l : Rep cap c l -> Forall (fun e => (freq e < 2 ^ 31 - 1)%Z) l ->
  wp (call o) c (fun a c' => a = (spec_call cap o l).1 /\ Rep cap c' (spec_call cap o l).2).
Proof.
  intros R Hlow. destruct o as [e ac key|key value|key| |keys|]; cbn [call api_find api_insert api_delete_key api_clear api_snapshotKeys api_size LFU_api].
  - wp_step. exact (lfu_wp_find cap (sample e) ac key c l R (overflows_small key l Hlow)).
  - wp_step. exact (lfu_wp_insert cap key value c l R).
  - done.
  - destruct R as [W Hl Hn Hs Hb]. unfold clear, on_lists. do 5 wp_step. split; [done|]. split; cbn; try done; [|lia].
    apply wf_no_nodes; [done|]. intros k. apply chm_find_clear.
  - done.
  - unfold size. do 3 wp_step. split; [|done]. cbn. by rewrite (rp_size _ _ _ R).
Qed.

Lemma spec_call_freq cap o (l : list (Z * (Z * Z))) N : (0 <= N)%Z -> Forall (fun e => (freq e <= N)%Z) l ->
  Forall (fun e => (freq e <= N + 1)%Z) (spec_call cap o l).2.
Proof.
  intros HN Hl. assert (Hl' : Forall (fun e => (freq e <= N + 1)%Z) l) by (eapply Forall_impl; [exact Hl|]; cbn; lia).
  destruct o as [e ac key|key value|key| |keys|]; cbn [spec_call]; try done; [|].
  - assert (Hb := bump_freq key l N Hl). by destruct (assoc key l) as [[v f]|].
  - assert (Ht := take_in_freq cap key value l N HN Hl). by destruct (assoc key l).
Qed.

Lemma run_rep cap (ops : list (op Z)) c l N : Rep cap c l -> (0 <= N)%Z -> (N + Z.of_nat (length ops) < 2 ^ 31)%Z -> Forall (fun e => (freq e <= N)%Z) l ->
  wp (run ops) c (fun answers c => answers = (spec_calls cap ops l).1 /\ Rep cap c (spec_calls cap ops l).2).
Proof.
  revert c l N. induction ops as [|o ops IH]; intros c l N R HN Hlen Hl; cbn [run spec_calls]; [done|]. cbn [length] in Hlen.
  assert (Hlow : Forall (fun e => (freq e < 2 ^ 31 - 1)%Z) l) by (eapply Forall_impl; [exact Hl|]; cbn; lia).
  wp_step. eapply wp_mono; [by apply lfu_wp_call|]. intros a c1 [-> R1]. wp_step.
  eapply wp_mono; [apply (IH c1 _ (N + 1)%Z R1); [lia|lia|by apply spec_call_freq]|]. intros rest c2 [-> R2]. by wp_step.
Qed.

(** A hit whose new frequency has to be that of a new node, and is not an
    [int]: the assertion of [pushForward] fails. *)
Theorem lfu_hit_overflows cap sample ac key c l e : Rep cap c l -> overflows key l = Some e -> find sample ac key c = Crash e.
Proof.
  intros R Hov. destruct R as [W <- Hn Hs Hb]. assert (Hk := contents_find (lists c) key W).
  unfold find, on_lists. unfold mbind at 1, SM_bind at 1, gets at 1. destruct (chm_find (m_map (lists c)) key) as [x|] eqn:Hf.
  2:{ unfold overflows in Hov. by rewrite Hk in Hov. }
  destruct Hk as (a & Hx & Hin & f & Ha). rewrite Hx in Hf |- *. cbn [listNode].
  assert (Hfre : wp (fre_of a) (lists c) (fun fr s' => fre_at (lists c) a fr /\ s' = lists c)) by (apply (wp_fre_of _ [] _ _ _ W Hin); by intros fr Hfr).
  unfold wp in Hfre. unfold mbind, SM_bind, zoom. destruct (fre_of a (lists c)) as [[fr s']|]; [|done]. destruct Hfre as [Hfr ->].
  assert (Hp := fl_promote (lists c) [] key (val x) a fr W Hin Hf Hfr). rewrite Hov in Hp. cbn. by rewrite Hp.
Qed.

(** C8: the LFU cache refines the frequency-list specification.  A new cache
    of any capacity runs every sequence of fewer than [2^31] calls without a
    crash and gives the answers of the specification: a hit raises the entry's
    frequency and moves it in front of the entries with that frequency, a new
    key starts at frequency 1, and a full cache evicts the least recently used
    entry of the lowest frequency; the inherited [delete_key] and
    [snapshotKeys] do nothing.  Afterwards the size counter is the number of
    entries, which have distinct keys, are sorted by frequency and are at most
    the capacity.  What a longer sequence can meet is [lfu_hit_overflows]: the
    constructor of [ListNode] takes the frequency as an [int]. *)
Theorem lfu_refines (capacity : Z) (ops : list (op Z)) :
  (0 <= capacity < 2 ^ 64)%Z -> (Z.of_nat (length ops) < 2 ^ 31)%Z ->
  wp (run ops) (new_LFUCache (M := M) capacity) (fun answers c =>
    let '(answers', l) := spec_calls capacity ops [] in
    answers = answers' /\ contents (lists c) = l /\ s c = Z.of_nat (length l) /\ (s c <= capacity)%Z /\
    NoDup l.*1 /\ StronglySorted (fun x y => (freq y <= freq x)%Z) l).
Proof.
  intros Hc Hlen. eapply wp_mono; [apply (run_rep capacity ops _ [] 0 (lfu_rep_new capacity Hc)); [lia|lia|constructor]|].
  intros answers c [-> R]. destruct (spec_calls capacity ops []) as [answers l]. cbn in R.
  split_and!; [done | apply R | apply R | | by eapply lfu_rep_nodup | ].
  2: { rewrite <- (rp_contents _ _ _ R). eapply contents_sorted, R. }
  rewrite (rp_size _ _ _ R). apply R.
Qed.

(** A full cache whose other entries were all hit since they came gives up the
    entry that has just come. *)
Lemma take_in_all_hit cap k v l :
  (cap <= Z.of_nat (length l))%Z -> Forall (fun e => (1 < freq e)%Z) l -> take_in cap k v l = l.
Proof.
  intros Hc Hl. unfold take_in. rewrite (proj2 (Z.ltb_ge _ _)) by done.
  rewrite <- (app_nil_r l) at 1. rewrite place_skip by exact Hl. cbn. apply removelast_last.
Qed.
End props.

(** ** Runs *)
Definition hits (k : Z) : op Z := Find {| try_lock := true; sample := true |} 0%Z k.

(** Key 3 meets a full cache of hit keys: its insertion succeeds and evicts it.
    Key 2 has been hit less often than key 1, but more recently than key 4. *)
Definition demo_ops : list (op Z) :=
  [Insert 1 10; Insert 2 20; hits 1; hits 1; hits 2; Insert 3 30; hits 3; Insert 1 11; DeleteKey 1; hits 1; Size]%Z.

Lemma lfu_refines_witness :
  (0 <= 2 < 2 ^ 64)%Z /\ (Z.of_nat (length demo_ops) < 2 ^ 31)%Z /\
  wp (run demo_ops) (new_LFUCache (M := gmap Z) 2) (fun answers c =>
    let '(answers', l) := spec_calls 2 demo_ops [] in
    answers = answers' /\ contents (lists c) = l /\ s c = Z.of_nat (length l) /\ (s c <= 2)%Z /\
    NoDup l.*1 /\ StronglySorted (fun x y => (freq y <= freq x)%Z) l) /\
  spec_calls 2 demo_ops [] =
    ([Inserted true; Inserted true; Found true 10; Found true 10; Found true 20; Inserted true; Found false 0;
      Inserted false; Done; Found true 10; Count 2],
     [(1, (10, 4)); (2, (20, 2))])%Z.
Proof.
  split; [lia|]. split; [by vm_compute|]. split; [apply (lfu_refines 2 demo_ops); [lia|by vm_compute] | reflexivity].
Defined.

Example lfu_demo :
  wp (run demo_ops) (new_LFUCache (M := gmap Z) 2) (fun answers _ => answers = (spec_calls 2 demo_ops []).1).
Proof. vm_compute. reflexivity. Qed.

(** Entries whose frequency is the highest [int]: of two in one bucket the hit
    one needs a node of its own, one alone keeps its node. *)
Definition worn (ring1 ring2 : list Z) : LFUCache (gmap Z) :=
  {| n := 2; s := 2; stat := {| hit_num := 0; miss_num := 0 |};
     lists := {| m_map := {[ 1%Z := LV 10 (Some 1%positive); 2%Z := LV 20 (Some (if decide (ring2 = []) then 1 else 2)%positive) ]};
                 nodes := Bucket 1 (2 ^ 31 - 1) ring1 :: (if decide (ring2 = []) then [] else [Bucket 2 1 ring2]); fresh := 3 |} |}.

Example worn_shared : find true 0 1 (worn [1; 2] [])%Z = Crash AssertFail.
Proof. vm_compute. reflexivity. Qed.

Example worn_alone : wp (find true 0 1) (worn [1] [2])%Z (fun r c => r = (true, 10)%Z /\ contents (lists c) = [(1, (10, 2 ^ 31)); (2, (20, 1))]%Z).
Proof. vm_compute. split; reflexivity. Qed.
