(* ===== verification/LFUFH.v ===== *)
(** * The FrozenHot LFU cache ([cache/lfu_FH.h], class [LFU_FHCache])

    The dynamic cache is the hash table with the frequency lists of
    [FreqLists]; constructing the frozen cache moves buckets to a second list
    and their entries to the CLHT table, deconstruction moves them back with new
    frequencies above all others.

    [find] and [insert] look at the flags, wait for the list mutex and look
    again: [others] is what the other threads do in between.  A value is the
    pointer its [shared_ptr] holds (see [FastHash]). *)

From S2P Require Import Prelude Interfaces CacheSpec FHCache FastHash FreqLists.
From Stdlib Require Import QArith Qround.
Local Close Scope Q_scope.

Section object.
Context {M : Type -> Type} `{CHM M} {T : Type} `{CLHTlib T}.

Record flags := {
  FH_ready : bool; FH_construct : bool; tier_ready : bool;
  tier_no_insert : bool; curve_flag : bool; sample_flag : bool
}.

Record LFU_FHCache := {
  m_maxSize : Z;
  s : Z;
  lists : store M;             (* the table and the list [m_head] .. [m_tail] *)
  fast : list ListNode;        (* the list [m_fast_head] .. [m_fast_tail] *)
  m_fasthash : T;
  m_flags : flags;
  fail_num : Z;
  m_threshold : Z;
  m_stat : FHStat
}.

Definition with_size (n : Z) (c : LFU_FHCache) : LFU_FHCache :=
  {| m_maxSize := m_maxSize c; s := n; lists := lists c; fast := fast c; m_fasthash := m_fasthash c;
     m_flags := m_flags c; fail_num := fail_num c; m_threshold := m_threshold c; m_stat := m_stat c |}.
Definition with_lists (l : store M) (c : LFU_FHCache) : LFU_FHCache :=
  {| m_maxSize := m_maxSize c; s := s c; lists := l; fast := fast c; m_fasthash := m_fasthash c;
     m_flags := m_flags c; fail_num := fail_num c; m_threshold := m_threshold c; m_stat := m_stat c |}.
Definition with_fast (l : list ListNode) (c : LFU_FHCache) : LFU_FHCache :=
  {| m_maxSize := m_maxSize c; s := s c; lists := lists c; fast := l; m_fasthash := m_fasthash c;
     m_flags := m_flags c; fail_num := fail_num c; m_threshold := m_threshold c; m_stat := m_stat c |}.
Definition with_fasthash (t : T) (c : LFU_FHCache) : LFU_FHCache :=
  {| m_maxSize := m_maxSize c; s := s c; lists := lists c; fast := fast c; m_fasthash := t;
     m_flags := m_flags c; fail_num := fail_num c; m_threshold := m_threshold c; m_stat := m_stat c |}.
Definition with_flags (f : flags -> flags) (c : LFU_FHCache) : LFU_FHCache :=
  {| m_maxSize := m_maxSize c; s := s c; lists := lists c; fast := fast c; m_fasthash := m_fasthash c;
     m_flags := f (m_flags c); fail_num := fail_num c; m_threshold := m_threshold c; m_stat := m_stat c |}.
Definition with_threshold (x : Z) (c : LFU_FHCache) : LFU_FHCache :=
  {| m_maxSize := m_maxSize c; s := s c; lists := lists c; fast := fast c; m_fasthash := m_fasthash c;
     m_flags := m_flags c; fail_num := fail_num c; m_threshold := x; m_stat := m_stat c |}.
Definition with_stat (f : FHStat -> FHStat) (c : LFU_FHCache) : LFU_FHCache :=
  {| m_maxSize := m_maxSize c; s := s c; lists := lists c; fast := fast c; m_fasthash := m_fasthash c;
     m_flags := m_flags c; fail_num := fail_num c; m_threshold := m_threshold c; m_stat := f (m_stat c) |}.

Definition set_ready b (f : flags) : flags :=
  {| FH_ready := b; FH_construct := FH_construct f; tier_ready := tier_ready f;
     tier_no_insert := tier_no_insert f; curve_flag := curve_flag f; sample_flag := sample_flag f |}.
Definition set_construct b (f : flags) : flags :=
  {| FH_ready := FH_ready f; FH_construct := b; tier_ready := tier_ready f;
     tier_no_insert := tier_no_insert f; curve_flag := curve_flag f; sample_flag := sample_flag f |}.
Definition set_tier no_insert ready (f : flags) : flags :=
  {| FH_ready := FH_ready f; FH_construct := FH_construct f; tier_ready := ready;
     tier_no_insert := no_insert; curve_flag := curve_flag f; sample_flag := sample_flag f |}.
Definition set_curve curve sample (f : flags) : flags :=
  {| FH_ready := FH_ready f; FH_construct := FH_construct f; tier_ready := tier_ready f;
     tier_no_insert := tier_no_insert f; curve_flag := curve; sample_flag := sample |}.

Abbreviation FH A := (SM LFU_FHCache A) (only parsing).

(** A transaction on the table and the lists. *)
Definition on_lists {A} (m : SM (store M) A) : FH A := zoom lists with_lists m.
Definition flag (f : flags -> bool) : FH bool := gets (fun c => f (m_flags c)).
Definition stat (yes : bool) (f : FHStat -> FHStat) : FH unit := whenM yes (modify (with_stat f)).

(** The constructor.  [None]: the table's bucket count is not an [int]. *)
Definition new_LFU_FHCache (capacity : Z) : option LFU_FHCache :=
  t ← CLHT_new 0 (1 + Z.log2 capacity);
  Some {| m_maxSize := capacity; s := 0; lists := empty_store; fast := []; m_fasthash := t;
          m_flags := {| FH_ready := false; FH_construct := false; tier_ready := false;
                        tier_no_insert := false; curve_flag := false; sample_flag := true |};
          fail_num := 0; m_threshold := 0; m_stat := stat0 |}.

Definition size : FH Z := gets s.
Definition is_full : FH bool := gets (fun c => (m_maxSize c <=? s c)%Z).

Definition clear : FH unit :=
  on_lists (modify (fun l => set_map (chm_clear (m_map l)) l));;
  modify (fun c => with_fasthash (CLHT_clear (m_fasthash c)) c);;
  modify (with_fast []);;
  on_lists (modify (set_nodes []));;
  modify (with_size 0).

(** ** [find] *)

(** [CURVE_HANDLE] *)
Definition curve_handle (stat_yes : bool) (fre ac : Z) : FH (bool * Z) :=
  threshold ← gets m_threshold;
  assertM (negb (threshold =? 0)%Z);;
  (if (fre <=? threshold)%Z then stat stat_yes o_hit_incr else stat stat_yes fast_hit_incr);;
  mret (true, ac).

(** From [STATUS_BACK], or from behind the lookup in the frozen table, on; the
    jump back to [STATUS_BACK] is the recursive call.  [others t] is what the
    other threads do before the lookup and before the mutex is obtained. *)
Fixpoint find_from (others : nat -> FH unit) (stat_yes status_first_ready : bool) (key : Z)
    (fuel : nat) (t : nat) (ac : Z) (STATUS_BACK : bool) : FH (bool * Z) :=
  match fuel with
  | O => crashes OutOfFuel
  | S fuel =>
      fasthash ← gets m_fasthash;
      tier ← flag tier_ready;
      let r := if STATUS_BACK then CLHT_find fasthash key ac else (false, ac) in
      if r.1 then stat stat_yes fast_hit_incr;; mret (true, r.2)
      else if STATUS_BACK && tier then stat stat_yes fh_miss_incr;; mret (false, r.2)
      else
      others t;;
      m ← gets (fun c => m_map (lists c));
      match chm_find m key with
      | None => stat stat_yes fh_miss_incr;; mret (false, r.2)
      | Some hashAccessor =>
          let ac := val hashAccessor in
          construct ← flag FH_construct;
          if (construct : bool) then stat stat_yes o_hit_incr;; mret (true, ac) else
          match listNode hashAccessor with
          | None => crashes AssertFail
          | Some listnode =>
              l ← gets (fun c => nodes (lists c) ++ fast c);
              match locate listnode l with
              | None => crashes UseAfterFree
              | Some (_, b, _) =>
                  let fre := fre b in
                  curve ← flag curve_flag;
                  if (curve : bool) then curve_handle stat_yes fre ac else
                  others (S t);;
                  curve ← flag curve_flag;
                  if (curve : bool) then curve_handle stat_yes fre ac else
                  ready ← flag FH_ready;
                  if negb status_first_ready && ready
                  then find_from others stat_yes status_first_ready key fuel (S (S t)) ac true
                  else
                  construct ← flag FH_construct;
                  whenM (negb construct) (on_lists (promote key hashAccessor listnode fre));;
                  stat stat_yes o_hit_incr;;
                  mret (true, ac)
              end
          end
      end
  end.

(** A frozen bucket's key never reaches [promote] ([isInList] of [FreqLists]
    looks at the dynamic list): it is in the frozen table, or [FH_construct] is
    set. *)
Definition find (others : nat -> FH unit) (fuel : nat) (stat_yes : bool) (ac key : Z) : FH (bool * Z) :=
  tier ← flag tier_ready;
  ready ← flag FH_ready;
  curve ← flag curve_flag;
  assertM (negb (tier || ready) || negb curve);;
  status_first_ready ← flag FH_ready;
  find_from others stat_yes status_first_ready key fuel 0 ac status_first_ready.

(** ** [insert] *)
Definition refuses : FH bool := no_insert ← flag tier_no_insert; curve ← flag curve_flag; mret (no_insert || curve).

Definition insert (others : FH unit) (stat_yes : bool) (key value : Z) : FH bool :=
  stat stat_yes insert_incr;;
  no ← refuses;
  if (no : bool) then mret false else
  m ← gets (fun c => m_map (lists c));
  let hashMapValue := LV value None in
  let r := chm_insert m key hashMapValue in
  if negb r.1 then mret false else
  on_lists (modify (set_map r.2));;
  others;;
  no ← refuses;
  if (no : bool) then on_lists (modify (fun l => set_map (chm_erase (m_map l) key).2 l));; mret false else
  on_lists (push_new key hashMapValue);;
  c ← gets (fun c => c);
  assertM (s c <=? m_maxSize c)%Z;;
  if (s c <? m_maxSize c)%Z then modify (with_size (u64 (s c + 1)));; mret true
  else on_lists evict_last.

(** ** Construction and deconstruction of the frozen cache *)

(** One bucket: its keys go to the frozen table, those that are not in the hash
    table leave the ring.  [count_missing]: [construct_ratio] counts them too. *)
Fixpoint freeze_ring (count_missing : bool) (m : M LFUValue) (keys : list Z) (t : T) (count : Z) : list Z * T * Z :=
  match keys with
  | [] => ([], t, count)
  | key :: keys =>
      match chm_find m key with
      | None => freeze_ring count_missing m keys t (if count_missing then u64 (count + 1) else count)
      | Some temp_hashAccessor =>
          let '(kept, t, count) := freeze_ring count_missing m keys (CLHT_insert t key (val temp_hashAccessor)).2 (u64 (count + 1)) in
          (key :: kept, t, count)
      end
  end.

(** [while(count < FC_size)]: the buckets frozen, the bucket [out_node] stops
    at with those behind it.  [m_tail.list] is default-constructed: its [m_next]
    is null. *)
Fixpoint ratio_loop (FC_size : Z) (m : M LFUValue) (l : list ListNode) (t : T) (count : Z)
  : res (list ListNode * list ListNode * T) :=
  match l with
  | [] => if (count <? FC_size)%Z then Crash NullDeref else Ok ([], [], t)
  | b :: l' =>
      if (count <? FC_size)%Z then
        let '(kept, t, count) := freeze_ring true m (ring b) t count in
        match l' with
        | [] => Crash AssertFail
        | _ =>
            '(frozen, rest, t) ← ratio_loop FC_size m l' t count;
            mret (Bucket (address b) (fre b) kept :: frozen, rest, t)
        end
      else Ok ([], l, t)
  end.

Definition construct_ratio (FC_ratio : Q) : FH bool :=
  assertM (negb (Qle_bool (999 # 1000) FC_ratio));;
  f ← gets fast;
  assertM (match f with [] => true | _ => false end);;
  modify (with_flags (set_construct true));;
  maxSize ← gets m_maxSize;
  let FC_size := Qfloor (FC_ratio * inject_Z maxSize) in
  c ← gets (fun c => c);
  match ratio_loop FC_size (m_map (lists c)) (nodes (lists c)) (m_fasthash c) 0 with
  | Crash e => crashes e
  | Ok (frozen, rest, t) =>
      modify (with_fasthash t);;
      modify (with_fast frozen);;
      on_lists (modify (set_nodes rest));;
      modify (with_flags (set_ready true));;
      modify (with_flags (set_construct false));;
      mret true
  end.

(** [while(out_node != &m_fast_tail)] *)
Fixpoint tier_loop (m : M LFUValue) (l : list ListNode) (t : T) (count : Z) : list ListNode * T :=
  match l with
  | [] => ([], t)
  | b :: l =>
      let '(kept, t, count) := freeze_ring false m (ring b) t count in
      let '(frozen, t) := tier_loop m l t count in
      (Bucket (address b) (fre b) kept :: frozen, t)
  end.

Definition construct_tier : FH bool :=
  modify (with_flags (set_construct true));;
  modify (with_flags (fun f => set_tier true (tier_ready f) f));;
  f ← gets fast;
  assertM (match f with [] => true | _ => false end);;
  c ← gets (fun c => c);
  modify (with_fast (nodes (lists c)));;
  on_lists (modify (set_nodes []));;
  c ← gets (fun c => c);
  let '(frozen, t) := tier_loop (m_map (lists c)) (fast c) (m_fasthash c) 0 in
  modify (with_fast frozen);;
  modify (with_fasthash t);;
  modify (with_flags (set_ready true));;
  modify (with_flags (fun f => set_tier (tier_no_insert f) true f));;
  modify (with_flags (set_construct false));;
  mret true.

(** From the last bucket to the first: [max_freq + 1], [max_freq + 2], ... *)
Fixpoint renumber (max_freq : Z) (l : list ListNode) : list ListNode :=
  match l with
  | [] => []
  | b :: l => Bucket (address b) (max_freq + Z.of_nat (length (b :: l))) (ring b) :: renumber max_freq l
  end.

(** The frequency of the first node; that of [m_tail] is 0. *)
Definition max_fre (l : list ListNode) : Z := match l with [] => 0%Z | b :: _ => fre b end.

Definition deconstruct : FH unit :=
  f ← gets fast;
  match f with
  | [] => mret tt
  | _ =>
      modify (with_flags (set_construct true));;
      l ← gets (fun c => nodes (lists c));
      (* the [int] that counts the nodes, the [long long] of the first one *)
      (if (2 ^ 31 <=? Z.of_nat (length f))%Z || (2 ^ 63 <=? max_fre l + Z.of_nat (length f))%Z then crashes SignedOverflow else mret tt);;
      modify (with_fast (renumber (max_fre l) f));;
      f ← gets fast;
      on_lists (modify (set_nodes (f ++ l)));;
      modify (with_fast []);;
      modify (with_flags (fun f => if tier_ready f then set_tier false false f else f));;
      modify (with_flags (fun f => if FH_ready f then set_ready false f else f));;
      modify (with_flags (set_construct false));;
      modify (fun c => with_fasthash (CLHT_clear (m_fasthash c)) c)
  end.
End object.

Arguments LFU_FHCache : clear implicits.
