(* ===== verification/LFUFHProps.v ===== *)
(** * The FrozenHot LFU cache: properties

    The specification of [LFU_FHCache] has two lists of entries, the dynamic and
    the frozen ones, and a mode.  A lookup answers from both; a hit of the frozen
    part changes nothing.  [lfh_run_refines]: every sequence of calls, the
    construction and deconstruction of the frozen cache among them, follows the
    specification or fails where [spec_fails] lets it: constructions that fail an
    assertion, and frequencies that leave their machine types.
    [lfh_find_livelock] is about the retry of [find]. *)

From stdpp Require Import sorting.
From S2P Require Import Prelude Interfaces CacheSpec FHCache FastHash FreqLists LFUFH.
From Stdlib Require Import QArith Qround.
Local Close Scope Q_scope.

(** ** The specification *)
Inductive mode := Dynamic | Ratio | Tier.

#[export] Instance mode_eq_dec : EqDecision mode.
Proof. solve_decision. Defined.

Definition pairs (l : list (Z * (Z * Z))) : list (Z * Z) := (fun e => (e.1, e.2.1)) <$> l.

(** The entries' values are pointers to strings, their keys survive the
    truncation. *)
Definition entry_ok (e : Z * (Z * Z)) : Prop := key32 e.1 /\ e.2.1 <> 0%Z.

Lemma place_elem e l x : x ∈ place e l <-> x = e \/ x ∈ l.
Proof. induction l as [|y l IH]; cbn; [set_solver|]. case_match; set_solver. Qed.

Lemma bump_ok k l : Forall entry_ok l -> Forall entry_ok (bump k l).
Proof.
  rewrite !Forall_forall. intros Hl x. unfold bump. destruct (assoc k l) as [[v f]|] eqn:E; [|apply Hl].
  apply assoc_split in E as (l1 & l2 & -> & _). intros [->|Hx]%place_elem.
  - apply (Hl (k, (v, f))). set_solver.
  - destruct x as [j w]. apply elem_of_without in Hx as [_ Hx]. by apply Hl.
Qed.

Lemma bump_None k l : assoc k l = None -> bump k l = l.
Proof. unfold bump. by intros ->. Qed.

Lemma take_in_ok cap k v l : entry_ok (k, (v, 1%Z)) -> Forall entry_ok l -> Forall entry_ok (take_in cap k v l).
Proof.
  rewrite !Forall_forall. intros He Hl x. unfold take_in. case_match; [|intros Hx%removelast_elem; revert Hx]; intros [->|Hx]%place_elem; auto.
Qed.

Record spec := Sp { dyn : list (Z * (Z * Z)); frz : list (Z * (Z * Z)); md : mode }.

Inductive op :=
  | Find (stat_yes : bool) (ac key : Z)
  | Insert (stat_yes : bool) (key value : Z)
  | ConstructRatio (FC_ratio : Q)
  | ConstructTier
  | Deconstruct
  | Clear
  | Size.

Inductive answer := Found (r : bool * Z) | Bool (b : bool) | Done | Count (n : Z).

Definition look (ac k : Z) (l : list (Z * (Z * Z))) : bool * Z :=
  match assoc k l with Some (v, _) => (true, v) | None => (false, ac) end.

(** The entries above the lowest frequency. *)
Definition hot (l : list (Z * (Z * Z))) : list (Z * (Z * Z)) :=
  match last l with Some e => filter (fun x => (freq e < freq x)%Z) l | None => [] end.

Definition FC_size (cap : Z) (FC_ratio : Q) : Z := Qfloor (FC_ratio * inject_Z cap).

Definition raise (g : Z -> Z) (l : list (Z * (Z * Z))) : list (Z * (Z * Z)) := (fun e => (e.1, (e.2.1, g (freq e)))) <$> l.

Inductive spec_step (cap : Z) : op -> spec -> answer -> spec -> Prop :=
  (* the frozen part answers first; a dynamic hit is promoted *)
  | s_find yes ac k d f m : overflows k d = None ->
      spec_step cap (Find yes ac k) (Sp d f m) (Found (look ac k (f ++ d))) (Sp (bump k d) f m)
  | s_insert_tier yes k v d f : spec_step cap (Insert yes k v) (Sp d f Tier) (Bool false) (Sp d f Tier)
  | s_insert_dup yes k v d f m w : assoc k (f ++ d) = Some w ->
      spec_step cap (Insert yes k v) (Sp d f m) (Bool false) (Sp d f m)
  (* the dynamic part has what the frozen one leaves of the capacity *)
  | s_insert yes k v d f m : m <> Tier -> assoc k (f ++ d) = None ->
      spec_step cap (Insert yes k v) (Sp d f m) (Bool true) (Sp (take_in (cap - Z.of_nat (length f)) k v d) f m)
  (* whole frequencies, as few of them as hold [FC_size] entries *)
  | s_ratio q d1 d2 m : ~ (999 # 1000 <= q)%Q -> (FC_size cap q <= Z.of_nat (length d1))%Z ->
      (d1 <> [] -> (Z.of_nat (length (hot d1)) < FC_size cap q)%Z) ->
      (forall x y, x ∈ d1 -> y ∈ d2 -> (freq y < freq x)%Z) ->
      spec_step cap (ConstructRatio q) (Sp (d1 ++ d2) [] m) (Bool true) (Sp d2 d1 (if decide (m = Tier) then Tier else Ratio))
  | s_tier d m : spec_step cap ConstructTier (Sp d [] m) (Bool true) (Sp [] d Tier)
  (* frozen entries return in front of all others, in their order *)
  | s_deconstruct d f m g :
      (forall x y, x ∈ f -> y ∈ f -> (freq x < freq y)%Z -> (g (freq x) < g (freq y))%Z) ->
      (forall x y, x ∈ f -> y ∈ d -> (freq y < g (freq x))%Z) ->
      spec_step cap Deconstruct (Sp d f m) Done (Sp (raise g f ++ d) [] Dynamic)
  | s_deconstruct_none d m : spec_step cap Deconstruct (Sp d [] m) Done (Sp d [] m)
  | s_clear d f m : spec_step cap Clear (Sp d f m) Done (Sp [] [] m)
  | s_size d f m : spec_step cap Size (Sp d f m) (Count (Z.of_nat (length (f ++ d)))) (Sp d f m).

(** The highest frequency. *)
Definition top (l : list (Z * (Z * Z))) : Z := match l with [] => 1%Z | e :: _ => freq e end.

(** The calls that may fail: construction while something is frozen, a
    [construct_ratio] that would have to freeze entries of the lowest frequency,
    a hit whose new frequency is not a [long long] or needs a node of its own
    and is not an [int] ([ListNode(const int&)]), a deconstruction that gets to
    frequencies beyond [long long] (its [int] counts the frozen buckets, of which
    one may be empty). *)
Inductive spec_fails (cap : Z) : op -> spec -> crash -> Prop :=
  | f_ratio_frozen q d f m : m <> Dynamic -> spec_fails cap (ConstructRatio q) (Sp d f m) AssertFail
  | f_tier_frozen d f m : m <> Dynamic -> spec_fails cap ConstructTier (Sp d f m) AssertFail
  | f_ratio_big q d f m : (999 # 1000 <= q)%Q -> spec_fails cap (ConstructRatio q) (Sp d f m) AssertFail
  | f_ratio_few q d m : (Z.of_nat (length (hot d)) < FC_size cap q)%Z ->
      spec_fails cap (ConstructRatio q) (Sp d [] m) AssertFail
  | f_find yes ac k d f m e : assoc k f = None -> overflows k d = Some e -> spec_fails cap (Find yes ac k) (Sp d f m) e
  | f_deconstruct d f m : (2 ^ 31 <= Z.of_nat (S (length f)) \/ 2 ^ 63 <= top d + Z.of_nat (S (length f)))%Z ->
      spec_fails cap Deconstruct (Sp d f m) SignedOverflow
  | f_ratio_empty q m : (0 < FC_size cap q)%Z -> spec_fails cap (ConstructRatio q) (Sp [] [] m) NullDeref.

(** Sequences of calls, up to the first that fails. *)
Inductive spec_trace (cap : Z) : list op -> spec -> res (list answer * spec) -> Prop :=
  | t_end sp : spec_trace cap [] sp (Ok ([], sp))
  | t_call o ops sp a sp' rest sp'' : spec_step cap o sp a sp' -> spec_trace cap ops sp' (Ok (rest, sp'')) ->
      spec_trace cap (o :: ops) sp (Ok (a :: rest, sp''))
  | t_later o ops sp a sp' e : spec_step cap o sp a sp' -> spec_trace cap ops sp' (Crash e) -> spec_trace cap (o :: ops) sp (Crash e)
  | t_fails o ops sp e : spec_fails cap o sp e -> spec_trace cap (o :: ops) sp (Crash e).

(** Keys and values as the frozen table takes them. *)
Definition op_ok (o : op) : Prop :=
  match o with
  | Find _ _ k => key32 k
  | Insert _ k v => key32 k /\ v <> 0%Z
  | ConstructRatio q => (0 <= q)%Q
  | _ => True
  end.

(** ** The frozen table of a list of buckets *)
Definition table (v : Z -> Z) (ks : list Z) : gmap Z Z := list_to_map ((fun k => (k, v k)) <$> ks).

Lemma table_elem v ks k : table v ks !! k = if decide (k ∈ ks) then Some (v k) else None.
Proof.
  unfold table. induction ks as [|j ks IH]; cbn; [by rewrite lookup_empty|]. destruct (decide (k = j)) as [->|Hk].
  - rewrite lookup_insert_eq, decide_True; [done | left].
  - rewrite lookup_insert_ne, IH by done. do 2 case_decide; set_solver.
Qed.

Lemma assoc_ents v l k : NoDup (home l).*1 -> fst <$> assoc k (ents v l) = if decide (k ∈ (home l).*1) then Some (v k) else None.
Proof.
  intros HN. case_decide as Hk.
  - apply list_elem_of_fmap in Hk as ([j a] & -> & Hin). destruct (home_elem _ _ _ Hin) as (pre & b & post & -> & _ & Hb).
    assert (Ha : assoc j (ents v (pre ++ b :: post)) = Some (v j, fre b)) ; [|cbn [fst]; by rewrite Ha].
    apply assoc_Some; [by rewrite ents_keys|]. rewrite ents_app, ents_cons, !elem_of_app. right. left. apply list_elem_of_fmap. by exists j.
  - rewrite (proj2 (assoc_None k _)); [done|]. by rewrite ents_keys.
Qed.

Section freeze.
Context {M : Type -> Type} `{CHMLaws M} {T : Type} `{CLHTLaws T}.
Implicit Types (m : M LFUValue) (t : T).

(** Keys of live entries. *)
Definition Live m (ks : list Z) : Prop :=
  Forall (fun k => key32 k /\ exists x, chm_find m k = Some x /\ val x <> 0%Z) ks.

Lemma freeze_ring_spec cm m ks t F done_ count :
  Live m ks -> NoDup (done_ ++ ks) -> frozen t (table (value_of m) done_) -> (0 <= count)%Z -> (count + Z.of_nat (length ks) < 2 ^ 64)%Z ->
  F = table (value_of m) (done_ ++ ks) ->
  exists t', freeze_ring cm m ks t count = (ks, t', (count + Z.of_nat (length ks))%Z) /\ frozen t' F.
Proof.
  intros HL. revert t done_ count. induction HL as [|k ks [Hk (x & Hx & Hv)] HL IH]; intros t done_ count HN Hf H0c Hc HF; cbn [freeze_ring].
  - rewrite app_nil_r in HF. subst F. exists t. split; [|done]. do 2 f_equal. cbn. lia.
  - rewrite Hx. assert (HF' : frozen (CLHT_insert t k (val x)).2 (table (value_of m) (done_ ++ [k]))).
    { assert (Hkd : k ∉ done_) by (apply NoDup_app in HN as (_ & HN & _); intros Hd; by apply (HN k Hd); left).
      destruct (frozen_insert t _ k (val x) Hf Hk) as [Hg Hw]; [by rewrite table_elem, decide_False | done |].
      assert (He : <[k:=val x]> (table (value_of m) done_) = table (value_of m) (done_ ++ [k])); [|by rewrite <- He].
      apply map_eq. intros j. rewrite table_elem. destruct (decide (j = k)) as [->|Hj].
      - rewrite lookup_insert_eq, decide_True by set_solver. unfold value_of. by rewrite Hx.
      - rewrite lookup_insert_ne, table_elem by done. do 2 case_decide; set_solver. }
    cbn [length] in Hc. rewrite u64_small by lia.
    destruct (IH (CLHT_insert t k (val x)).2 (done_ ++ [k]) (count + 1)%Z) as (t' & -> & Ht'); rewrite <- ?(assoc_L (++)); try done; try lia.
    exists t'. split; [|done]. cbn [length]. rewrite Nat2Z.inj_succ, Z.add_succ_r, Z.add_1_r, Z.add_succ_l. done.
Qed.

Lemma bucket_eta b : Bucket (address b) (fre b) (ring b) = b.
Proof. by destruct b. Qed.

Lemma keys_cons b l : (home (b :: l)).*1 = ring b ++ (home l).*1.
Proof. by rewrite home_cons, fmap_app, home1_keys. Qed.

Lemma lfh_live_app m ks ks' : Live m (ks ++ ks') <-> Live m ks /\ Live m ks'.
Proof. apply Forall_app. Qed.

(** Freezing everything. *)
Lemma tier_loop_spec m l t done_ count :
  Live m (home l).*1 -> NoDup (done_ ++ (home l).*1) -> frozen t (table (value_of m) done_) ->
  (0 <= count)%Z -> (count + Z.of_nat (length (home l)) < 2 ^ 64)%Z ->
  exists t', tier_loop m l t count = (l, t') /\ frozen t' (table (value_of m) (done_ ++ (home l).*1)).
Proof.
  revert t done_ count. induction l as [|b l IH]; intros t done_ count HL HN Hf H0c Hc; cbn [tier_loop].
  - rewrite app_nil_r. by exists t.
  - rewrite keys_cons, lfh_live_app in HL. destruct HL as [HL1 HL2]. rewrite keys_cons, (assoc_L (++)) in HN |- *.
    rewrite <- (length_fmap fst), keys_cons, length_app, length_fmap in Hc. assert (HN' := HN). apply NoDup_app in HN' as [HN1 _].
    destruct (freeze_ring_spec false m (ring b) t _ done_ count HL1 HN1 Hf H0c ltac:(lia) eq_refl) as (t1 & -> & Hf1).
    destruct (IH t1 _ (count + Z.of_nat (length (ring b)))%Z HL2 HN Hf1) as (t2 & -> & Hf2); [lia | lia |].
    exists t2. by rewrite bucket_eta.
Qed.

(** Freezing the buckets in front, until they hold [FC_size] entries. *)
Lemma ratio_loop_spec FC m l t done_ count :
  Live m (home l).*1 -> NoDup (done_ ++ (home l).*1) -> frozen t (table (value_of m) done_) ->
  (0 <= count)%Z -> (count + Z.of_nat (length (home l)) < 2 ^ 64)%Z ->
  match ratio_loop FC m l t count with
  | Ok (l1, l2, t') =>
      l = l1 ++ l2 /\ (l2 = [] -> l = []) /\ frozen t' (table (value_of m) (done_ ++ (home l1).*1)) /\
      (FC <= count + Z.of_nat (length (home l1)))%Z /\
      (l1 <> [] -> (count + Z.of_nat (length (home (removelast l1))) < FC)%Z)
  | Crash e => (count + Z.of_nat (length (home (removelast l))) < FC)%Z /\ e = (match l with [] => NullDeref | _ => AssertFail end)
  end.
Proof.
  revert t done_ count. induction l as [|b l IH]; intros t done_ count HL HN Hf H0c Hc; cbn [ratio_loop].
  - destruct (Z.ltb_spec count FC); [split; [unfold home; cbn; lia | done]|].
    split_and!; [done | done | by rewrite app_nil_r | unfold home; cbn; lia | done].
  - destruct (Z.ltb_spec count FC); [|split_and!; [done | done | by rewrite app_nil_r | unfold home; cbn; lia | done]].
    rewrite keys_cons, lfh_live_app in HL. destruct HL as [HL1 HL2]. rewrite keys_cons, (assoc_L (++)) in HN.
    rewrite <- (length_fmap fst), keys_cons, length_app, length_fmap in Hc. assert (HN' := HN). apply NoDup_app in HN' as [HN1 _].
    destruct (freeze_ring_spec true m (ring b) t _ done_ count HL1 HN1 Hf H0c ltac:(lia) eq_refl) as (t1 & -> & Hf1).
    destruct l as [|b' l']; [split; [unfold home; cbn; lia | done]|]. specialize (IH t1 _ (count + Z.of_nat (length (ring b)))%Z HL2 HN Hf1 ltac:(lia) ltac:(lia)).
    cbn [mbind res_bind]. destruct (ratio_loop FC m (b' :: l') t1 _) as [[[l1 l2] t2]|e].
    + destruct IH as (Hl & Hl2 & Hf2 & Hfc & Hmin). cbv beta iota delta [mbind res_bind mret res_ret]. rewrite bucket_eta, keys_cons, (assoc_L (++)), Hl. split_and!; try done.
      * intros ->. exfalso. discriminate (Hl2 eq_refl).
      * rewrite <- (length_fmap fst (home (b :: l1))), keys_cons, length_app, length_fmap. lia.
      * intros _. destruct l1 as [|b1 l1]; [unfold home; cbn; lia|]. specialize (Hmin ltac:(done)).
        change (removelast (b :: b1 :: l1)) with (b :: removelast (b1 :: l1)).
        rewrite <- (length_fmap fst (home (b :: _))), keys_cons, length_app, length_fmap. lia.
    + destruct IH as [IH ->]. split; [|done]. rewrite <- (length_fmap fst). change (removelast (b :: b' :: l')) with (b :: removelast (b' :: l')).
      rewrite keys_cons, length_app, length_fmap. lia.
Qed.
End freeze.

(** ** Representation *)
Section rep.
Context {M : Type -> Type} `{CHMLaws M} {T : Type} `{CLHTLaws T}.
Implicit Types (c : LFU_FHCache M T).

Definition mode_flags (m : mode) (sample : bool) : flags :=
  {| FH_ready := negb (bool_decide (m = Dynamic)); FH_construct := false; tier_ready := bool_decide (m = Tier);
     tier_no_insert := bool_decide (m = Tier); curve_flag := false; sample_flag := sample |}.

Definition FastOk c (m : mode) : Prop :=
  match m with
  | Dynamic => fast c = []
  | Ratio => Forall (fun b => ring b <> []) (fast c)
  | Tier => nodes (lists c) = [] /\ Full (fast c)
  end.

Record Rep (cap : Z) c (sp : spec) : Prop := {
  rp_wf : Wf (lists c) (fast c);
  rp_dyn : contents (lists c) = dyn sp;
  rp_frz : ents (value_of (m_map (lists c))) (fast c) = frz sp;
  rp_tab : frozen (m_fasthash c) (table (value_of (m_map (lists c))) (home (fast c)).*1);
  rp_cap : m_maxSize c = cap;
  rp_size : s c = Z.of_nat (length (frz sp ++ dyn sp));
  rp_bound : (s c <= cap < 2 ^ 64)%Z;
  rp_ok : Forall entry_ok (frz sp ++ dyn sp);
  rp_mode : m_flags c = mode_flags (md sp) true;
  rp_fast : FastOk c (md sp);
  rp_sorted : StronglySorted above (fast c)
}.

(** What the two lists hold, the frozen one first. *)
Lemma rep_homes cap c sp : Rep cap c sp -> Homes (m_map (lists c)) (home (fast c ++ nodes (lists c))).
Proof.
  intros R. destruct (wf_homes _ _ (rp_wf _ _ _ R)) as [HN Hm Hd].
  assert (Hp : home (fast c ++ nodes (lists c)) ≡ₚ home (nodes (lists c) ++ fast c)) by (rewrite !home_app; apply Permutation_app_comm).
  split; [by rewrite Hp | intros k a; rewrite Hp; apply Hm | intros k Hk; rewrite Hp; by apply Hd].
Qed.

Lemma rep_all cap c sp : Rep cap c sp -> ents (value_of (m_map (lists c))) (fast c ++ nodes (lists c)) = frz sp ++ dyn sp.
Proof. intros R. by rewrite ents_app, <- (rp_dyn _ _ _ R), <- (rp_frz _ _ _ R). Qed.

Lemma lfh_rep_nodup cap c sp : Rep cap c sp -> NoDup (frz sp ++ dyn sp).*1.
Proof. intros R. rewrite <- (rep_all _ _ _ R), ents_keys. apply (rep_homes _ _ _ R). Qed.

Lemma lfh_rep_find cap c sp k : Rep cap c sp ->
  match chm_find (m_map (lists c)) k with
  | Some x => exists a, x = LV (val x) (Some a) /\ (k, a) ∈ home (fast c ++ nodes (lists c)) /\ exists f, assoc k (frz sp ++ dyn sp) = Some (val x, f)
  | None => assoc k (frz sp ++ dyn sp) = None
  end.
Proof. intros R. rewrite <- (rep_all _ _ _ R). apply homes_find, (rep_homes _ _ _ R). Qed.

Lemma rep_live cap c sp : Rep cap c sp -> Live (m_map (lists c)) (home (fast c ++ nodes (lists c))).*1.
Proof.
  intros R. apply Forall_forall. intros k Hk. assert (Hh := rep_homes _ _ _ R). apply list_elem_of_fmap in Hk as ([j a] & -> & Hin).
  destruct (hm_map _ _ Hh _ _ Hin) as [v Hv]. assert (Hf := lfh_rep_find _ _ _ j R). rewrite Hv in Hf. destruct Hf as (a' & _ & _ & f & Ha).
  assert (Hok := rp_ok _ _ _ R). rewrite Forall_forall in Hok. apply assoc_Some in Ha; [|by eapply lfh_rep_nodup].
  destruct (Hok _ Ha) as [Hk Hne]. split; [done|]. by exists (LV v (Some a)).
Qed.

(** The frozen table answers for the frozen entries. *)
Lemma rep_fast_find cap c sp k ac : Rep cap c sp -> key32 k -> CLHT_find (m_fasthash c) k ac = look ac k (frz sp).
Proof.
  intros R Hk. rewrite (frozen_find _ _ k ac (rp_tab _ _ _ R) Hk). unfold look. rewrite <- (rp_frz _ _ _ R), table_elem.
  assert (HN : NoDup (home (fast c)).*1).
  { assert (HN := hm_nodup _ _ (rep_homes _ _ _ R)). rewrite home_app, fmap_app in HN. by apply NoDup_app in HN as [HN _]. }
  rewrite <- (assoc_ents (value_of (m_map (lists c))) _ _ HN). by destruct (assoc k _) as [[v f]|].
Qed.

Lemma look_app ac k l1 l2 : look ac k (l1 ++ l2) = match assoc k l1 with Some (v, _) => (true, v) | None => look ac k l2 end.
Proof. unfold look. rewrite assoc_app. by destruct (assoc k l1). Qed.

Lemma lfh_rep_stat cap c sp g : Rep cap c sp -> Rep cap (with_stat g c) sp.
Proof. intros [????? ?????]. by split. Qed.

Lemma lfh_wp_stat cap c sp yes g (Q : unit -> LFU_FHCache M T -> Prop) :
  Rep cap c sp -> (forall c', Rep cap c' sp -> Q tt c') -> wp (stat yes g) c Q.
Proof. intros R HQ. unfold stat. apply wp_when; intros _; [apply wp_modify|]; apply HQ; [by apply lfh_rep_stat | done]. Qed.

Lemma rep_flags cap c d f m : Rep cap c (Sp d f m) -> m_flags c = mode_flags m true.
Proof. intros R. apply (rp_mode _ _ _ R). Qed.

(** What the table and the lists say of a dynamic entry. *)
Lemma rep_hit cap c sp k v fr : Rep cap c sp -> assoc k (frz sp) = None -> assoc k (dyn sp) = Some (v, fr) ->
  exists a b pre post, chm_find (m_map (lists c)) k = Some (LV v (Some a)) /\ (k, a) ∈ home (nodes (lists c)) /\
    locate a (nodes (lists c) ++ fast c) = Some (pre, b, post) /\ fre_at (lists c) a (fre b).
Proof.
  intros R Ef Ed. assert (Hmf := lfh_rep_find _ _ _ k R). rewrite assoc_app, Ef, Ed in Hmf.
  destruct (chm_find (m_map (lists c)) k) as [x|] eqn:Hx; [|done]. destruct Hmf as (a & Hxa & Hin & fr' & [= -> ->]).
  assert (Hin' : (k, a) ∈ home (nodes (lists c))).
  { rewrite home_app in Hin. apply elem_of_app in Hin as [Hin|Hin]; [|done]. exfalso.
    apply assoc_None in Ef. apply Ef. rewrite <- (rp_frz _ _ _ R), ents_keys. apply list_elem_of_fmap. by exists (k, a). }
  destruct (home_elem _ _ _ Hin') as (pre & b & post & Hn & Hba & Hb). assert (HNa := wf_addr _ _ (rp_wf _ _ _ R)).
  exists a, b, pre, (post ++ fast c). split_and!; [by rewrite Hxa | done | | by exists pre, b, post].
  rewrite Hn, <- (assoc_L (++)) in HNa |- *. cbn in HNa |- *. subst a. by apply locate_split.
Qed.

(** A dynamic hit. *)
Lemma wp_promote_dynamic cap c d f m k v a fr (Q : unit -> LFU_FHCache M T -> Prop) :
  Rep cap c (Sp d f m) -> m <> Tier -> (k, a) ∈ home (nodes (lists c)) -> chm_find (m_map (lists c)) k = Some (LV v (Some a)) ->
  fre_at (lists c) a fr -> overflows k d = None ->
  (forall c', Rep cap c' (Sp (bump k d) f m) -> Q tt c') -> wp (on_lists (promote k (LV v (Some a)) a fr)) c Q.
Proof.
  intros R Hm Hin Hf Hfr Hov HQ. assert (HN := lfh_rep_nodup _ _ _ R). destruct R as [W Hd Hz Ht Hc Hs Hb Hok Hfl Hfa Hso]. cbn in *.
  rewrite <- Hd in Hov. unfold on_lists. wp_step. apply (fl_wp_promote _ _ _ _ _ _ _ W Hin Hf Hfr Hov). intros s' W' Hc' Hv. apply HQ.
  assert (Hlen : length (bump k d) = length d) by (apply length_bump; rewrite fmap_app in HN; by apply NoDup_app in HN as (_ & _ & HN)).
  split; cbn; try done.
  - by rewrite Hc', Hd.
  - rewrite <- Hz. by apply ents_ext.
  - replace (table (value_of (m_map s')) (home (fast c)).*1) with (table (value_of (m_map (lists c))) (home (fast c)).*1); [done|].
    apply map_eq. intros j. rewrite !table_elem. by rewrite Hv.
  - rewrite length_app, Hlen, <- length_app. done.
  - apply Forall_app in Hok as [Hok1 Hok2]. apply Forall_app. split; [done | by apply bump_ok].
  - destruct m; try done.
Qed.

Lemma lfufh_wp_find cap c d f m yes ac k fuel :
  Rep cap c (Sp d f m) -> key32 k -> overflows k d = None ->
  wp (find (fun _ => mret tt) (S fuel) yes ac k) c (fun r c' => r = look ac k (f ++ d) /\ Rep cap c' (Sp (bump k d) f m)).
Proof.
  intros R Hk Hov. assert (Hfl := rep_flags _ _ _ _ _ R). assert (HN := lfh_rep_nodup _ _ _ R). cbn in HN. unfold find, flag.
  do 8 wp_step; [rewrite Hfl; by destruct m|]. do 2 wp_step. cbn [find_from]. unfold flag. do 4 wp_step.
  set (r := if FH_ready (m_flags c) then CLHT_find (m_fasthash c) k ac else (false, ac)).
  assert (Hr : r = look ac k f).
  { unfold r. rewrite Hfl. destruct m; cbn; [|by rewrite (rep_fast_find _ _ _ k ac R Hk)..].
    assert (Hz := rp_frz _ _ _ R). rewrite (rp_fast _ _ _ R) in Hz. cbn in Hz. by rewrite <- Hz. }
  rewrite Hr. unfold look at 1 2 3 4. rewrite look_app. destruct (assoc k f) as [[v fr]|] eqn:Ef; cbn [fst snd].
  - wp_step. apply (lfh_wp_stat _ _ _ _ _ _ R). intros c' R'. wp_step. split; [done|].
    rewrite bump_None; [done|]. apply assoc_None. intros Hd. assert (Hff : k ∈ f.*1).
    { apply assoc_split in Ef as (l1 & l2 & -> & _). rewrite fmap_app. set_solver. }
    rewrite fmap_app in HN. apply NoDup_app in HN as (_ & HN & _). by apply (HN k).
  - assert (Hnd : m = Tier -> d = []).
    { intros ->. assert (Hd := rp_dyn _ _ _ R). destruct (rp_fast _ _ _ R) as [Hn _]. unfold contents in Hd. by rewrite Hn in Hd. }
    rewrite Hfl. cbn [FH_ready tier_ready mode_flags]. destruct (decide (m = Tier)) as [Hm|Hm].
    { subst m. rewrite (bool_decide_eq_false_2 (Tier = Dynamic)), (bool_decide_eq_true_2 (Tier = Tier)) by done. cbn [negb andb].
      wp_step. apply (lfh_wp_stat _ _ _ _ _ _ R). intros c' R'. wp_step.
      rewrite Hnd in R' |- * by done. done. }
    rewrite (bool_decide_eq_false_2 (m = Tier)), andb_false_r by done. wp_step. apply wp_ret. do 2 wp_step.
    destruct (assoc k d) as [[v fr]|] eqn:Ed.
    + destruct (rep_hit _ _ _ _ _ _ R Ef Ed) as (a & b & pre & post & Hx & Hin & Hl & Hfr). rewrite Hx. do 2 wp_step.
      rewrite Hfl. cbn [FH_construct mode_flags listNode val]. do 2 wp_step. rewrite Hl. do 2 wp_step. rewrite Hfl. cbn [curve_flag mode_flags].
      wp_step. apply wp_ret. do 2 wp_step. rewrite Hfl. cbn [curve_flag mode_flags].
      do 2 wp_step. rewrite Hfl. cbn [FH_ready mode_flags]. rewrite andb_negb_l. do 2 wp_step. rewrite Hfl. cbn [FH_construct mode_flags negb whenM].
      wp_step. apply (wp_promote_dynamic _ _ _ _ _ _ _ _ _ _ R Hm Hin Hx Hfr Hov).
      intros c' R'. wp_step. apply (lfh_wp_stat _ _ _ _ _ _ R'). intros c2 R2. wp_step. split; [|done]. unfold look. by rewrite Ed.
    + assert (Hmf := lfh_rep_find _ _ _ k R). cbn in Hmf. rewrite assoc_app, Ef, Ed in Hmf.
      destruct (chm_find (m_map (lists c)) k) as [x|]; [by destruct Hmf as (? & _ & _ & ? & ?)|].
      wp_step. apply (lfh_wp_stat _ _ _ _ _ _ R). intros c' R'. wp_step. unfold look. rewrite Ed.
      split; [done|]. by rewrite bump_None.
Qed.

Lemma crash_bind {S A B} (m : SM S A) (k : A -> SM S B) (s : S) e :
  wp m s (fun a s' => k a s' = Crash e) -> (m ≫= k) s = Crash e.
Proof. unfold wp, mbind, SM_bind. by destruct (m s) as [[a s']|]. Qed.

Lemma crash_first {S A B} (m : SM S A) (k : A -> SM S B) (s : S) e : m s = Crash e -> (m ≫= k) s = Crash e.
Proof. unfold mbind, SM_bind. by intros ->. Qed.

(** A dynamic hit that cannot have its new frequency. *)
Lemma lfh_find_overflows cap c d f m yes ac k fuel e :
  Rep cap c (Sp d f m) -> key32 k -> assoc k f = None -> overflows k d = Some e ->
  find (fun _ => mret tt) (S fuel) yes ac k c = Crash e.
Proof.
  intros R Hk Ef Hov. destruct (assoc k d) as [[v fr]|] eqn:Ed; [|by unfold overflows in Hov; rewrite Ed in Hov].
  assert (Hm : m <> Tier).
  { intros ->. assert (Hd := rp_dyn _ _ _ R). destruct (rp_fast _ _ _ R) as [Hn _]. unfold contents in Hd. rewrite Hn in Hd. cbn in Hd. by subst d. }
  assert (Hfl := rep_flags _ _ _ _ _ R). destruct (rep_hit _ _ _ _ _ _ R Ef Ed) as (a & b & pre & post & Hx & Hin & Hl & Hfr).
  assert (Hr : (if FH_ready (m_flags c) then CLHT_find (m_fasthash c) k ac else (false, ac)) = (false, ac)).
  { rewrite Hfl. destruct m; [done | | done]. cbn [FH_ready mode_flags]. rewrite (rep_fast_find _ _ _ k ac R Hk). unfold look. cbn. by rewrite Ef. }
  unfold find, flag. do 3 apply crash_bind, wp_gets. apply crash_bind, wp_assert; [rewrite Hfl; by destruct m|]. apply crash_bind, wp_gets.
  cbn [find_from]. unfold flag. apply crash_bind, wp_gets, crash_bind, wp_gets. rewrite Hr, Hfl. cbn [fst snd mode_flags tier_ready].
  rewrite (bool_decide_eq_false_2 (m = Tier)), andb_false_r by done. apply crash_bind, wp_ret, crash_bind, wp_gets. rewrite Hx.
  apply crash_bind, wp_gets. rewrite Hfl. cbn [FH_construct mode_flags listNode val].
  apply crash_bind, wp_gets. rewrite Hl. apply crash_bind, wp_gets. rewrite Hfl. cbn [curve_flag mode_flags].
  apply crash_bind, wp_ret, crash_bind, wp_gets. rewrite Hfl. cbn [curve_flag mode_flags].
  apply crash_bind, wp_gets. rewrite Hfl. cbn [FH_ready mode_flags]. rewrite andb_negb_l.
  apply crash_bind, wp_gets. rewrite Hfl. cbn [FH_construct mode_flags negb whenM]. apply crash_first.
  assert (Hp := fl_promote _ _ _ _ _ _ (rp_wf _ _ _ R) Hin Hx Hfr). assert (Hd := rp_dyn _ _ _ R). cbn in Hd. rewrite Hd, Hov in Hp.
  unfold on_lists, zoom. by rewrite Hp.
Qed.

(** The table of frozen keys depends on their values only. *)
Lemma table_ext v v' ks : (forall k, k ∈ ks -> v' k = v k) -> table v' ks = table v ks.
Proof. intros Hv. apply map_eq. intros j. rewrite !table_elem. case_decide as Hj; [by rewrite Hv | done]. Qed.

(** The frozen part of [Rep] after a change of the dynamic one. *)
Lemma rep_dynamic cap c d f m s' n d' :
  Rep cap c (Sp d f m) -> m <> Tier -> Wf s' (fast c) -> contents s' = d' ->
  (forall k, k ∈ (home (fast c)).*1 -> value_of (m_map s') k = value_of (m_map (lists c)) k) ->
  n = Z.of_nat (length (f ++ d')) -> (n <= cap)%Z -> Forall entry_ok d' ->
  Rep cap (with_size n (with_lists s' c)) (Sp d' f m).
Proof.
  intros [W Hd Hz Ht Hc Hs Hb Hok Hfl Hfa Hso] Hm W' Hd' Hv Hn Hle Hok'. cbn in *. split; cbn; try done.
  - rewrite <- Hz. by apply ents_ext.
  - by rewrite (table_ext (value_of (m_map (lists c)))).
  - lia.
  - apply Forall_app in Hok as [Hok _]. by apply Forall_app.
  - by destruct m.
Qed.

Lemma fast_keys_absent cap c sp k : Rep cap c sp -> assoc k (frz sp ++ dyn sp) = None -> k ∉ (home (fast c)).*1.
Proof.
  intros R Ha. apply assoc_None in Ha. rewrite fmap_app in Ha. intros Hk. apply Ha, elem_of_app. left.
  by rewrite <- (rp_frz _ _ _ R), ents_keys.
Qed.

Lemma with_size_same c s' : with_lists s' c = with_size (s c) (with_lists s' c).
Proof. done. Qed.

Lemma lfh_wp_insert cap c d f m yes k v :
  Rep cap c (Sp d f m) -> key32 k -> v <> 0%Z ->
  wp (insert (mret tt) yes k v) c (fun b c' => exists sp', spec_step cap (Insert yes k v) (Sp d f m) (Bool b) sp' /\ Rep cap c' sp').
Proof.
  intros R Hk Hv. unfold insert, refuses, flag. wp_step. apply (lfh_wp_stat _ _ _ _ _ _ R). clear R c. intros c R.
  assert (Hfl := rep_flags _ _ _ _ _ R). do 6 wp_step. rewrite Hfl. cbn [tier_no_insert curve_flag mode_flags]. rewrite orb_false_r.
  destruct (decide (m = Tier)) as [->|Hm].
  { rewrite bool_decide_eq_true_2 by done. wp_step. eexists. split; [constructor | done]. }
  rewrite (bool_decide_eq_false_2 (m = Tier)) by done. do 2 wp_step. assert (Hmf := lfh_rep_find _ _ _ k R). cbn in Hmf.
  destruct (chm_find (m_map (lists c)) k) as [x|] eqn:Hx.
  { destruct Hmf as (a & _ & _ & fr & Ha). rewrite (chm_insert_dup _ _ _ _ _ Hx). cbn [fst negb]. wp_step. eexists. split; [by econstructor | done]. }
  rewrite (chm_insert_new _ _ _ _ Hx). cbn [negb]. unfold on_lists. do 5 wp_step. do 6 wp_step. cbn [with_lists m_flags lists].
  rewrite Hfl. cbn [tier_no_insert curve_flag mode_flags]. rewrite orb_false_r, (bool_decide_eq_false_2 (m = Tier)) by done. do 2 wp_step.
  cbn [with_lists lists]. assert (Hi := fun j => chm_find_insert _ (m_map (lists c)) k (LV v None) j Hx).
  assert (Hab := fast_keys_absent _ _ _ k R Hmf). assert (W := rp_wf _ _ _ R).
  apply (wp_push_new (lists c) (fast c) _ k (LV v None) _ W Hx Hi). intros s' l b W' Hc Hvs Hn Hr Hone.
  assert (Hsz := rp_size _ _ _ R). assert (Hb := rp_bound _ _ _ R). assert (Hcap := rp_cap _ _ _ R). assert (Hd := rp_dyn _ _ _ R). cbn in Hsz, Hd.
  rewrite Hd in Hc. cbn [val] in Hc. do 4 wp_step; [apply Z.leb_le; cbn; lia|]. cbn [with_lists s m_maxSize].
  assert (Hlen := length_take_in (cap - Z.of_nat (length f)) k v d). rewrite length_app in Hsz.
  assert (Hokd : Forall entry_ok (take_in (cap - Z.of_nat (length f)) k v d)).
  { apply take_in_ok; [done|]. assert (Hok := rp_ok _ _ _ R). by apply Forall_app in Hok as [_ Hok]. }
  assert (Hfv : forall j, j ∈ (home (fast c)).*1 -> value_of (m_map s') j = value_of (m_map (lists c)) j) by (intros j Hj; apply Hvs; by intros ->).
  rewrite Hcap. destruct (Z.ltb_spec (s c) cap) as [Hlt|Hge].
  - do 2 wp_step. wp_step. eexists. split; [by apply s_insert|]. rewrite u64_small by lia. cbn [with_lists s].
    rewrite (proj2 (Z.ltb_lt _ _)) in Hlen by lia.
    apply (rep_dynamic cap c d); try done; [|rewrite length_app; lia | lia].
    rewrite Hc. unfold take_in. by rewrite (proj2 (Z.ltb_lt _ _)) by lia.
  - wp_step. cbn [with_lists lists]. rewrite (proj2 (Z.ltb_ge _ _)) in Hlen by lia.
    apply (wp_evict_last _ (fast c) _ _ _ W' Hn Hr Hone). intros s2 W2 Hc2 He2. eexists. split; [by apply s_insert|].
    apply (rep_dynamic cap c d _ _ s2 (s c)); try done; [| |rewrite length_app; lia | lia].
    + rewrite Hc2, Hc. unfold take_in. by rewrite (proj2 (Z.ltb_ge _ _)) by lia.
    + intros j Hj. by rewrite He2, Hfv.
Qed.

Lemma lfh_wp_clear cap c d f m : Rep cap c (Sp d f m) ->
  wp clear c (fun _ c' => Rep cap c' (Sp [] [] m)).
Proof.
  intros [W Hd Hz Ht Hc Hs Hb Hok Hfl Hfa Hso]. unfold clear, on_lists. do 11 wp_step. cbn in *. split; cbn; try done; try lia.
  - apply wf_no_nodes; [done|]. intros k. apply chm_find_clear.
  - apply frozen_clear.
  - destruct m; cbn; [done | by constructor | split; [done|]]. by intros [|??] ?? ?.
  - constructor.
Qed.

(** ** Construction *)
Lemma wf_all_frozen s : Wf s [] -> Wf (set_nodes [] s) (nodes s).
Proof.
  intros [Hh Ho Hp Hf Ha Hfr]. rewrite app_nil_r in *. split; cbn; try done; try by constructor. by intros [|??] ?? ?.
Qed.

Lemma fast_nil_frz cap c sp : Rep cap c sp -> fast c = [] -> frz sp = [].
Proof. intros R Hf. by rewrite <- (rp_frz _ _ _ R), Hf. Qed.

Lemma home_bound cap c sp : Rep cap c sp -> fast c = [] -> (Z.of_nat (length (home (nodes (lists c)))) <= cap < 2 ^ 64)%Z.
Proof.
  intros R Hf. assert (Hb := rp_bound _ _ _ R). assert (Hs := rp_size _ _ _ R). rewrite (fast_nil_frz _ _ _ R Hf) in Hs. cbn in Hs.
  assert (Hd := rp_dyn _ _ _ R). apply (f_equal (fun l => length l.*1)) in Hd. unfold contents in Hd. rewrite ents_keys, !length_fmap in Hd. lia.
Qed.

Lemma lfh_wp_construct_tier cap c d f m : Rep cap c (Sp d f m) -> fast c = [] ->
  wp construct_tier c (fun b c' => b = true /\ Rep cap c' (Sp [] d Tier)).
Proof.
  intros R Hf. assert (Hhb := home_bound _ _ _ R Hf). assert (HL := rep_live _ _ _ R). assert (HN := hm_nodup _ _ (rep_homes _ _ _ R)).
  assert (Hff := fast_nil_frz _ _ _ R Hf). cbn in Hff. subst f. destruct R as [W Hd Hz Ht Hc Hs Hb Hok Hfl Hfa Hso]. cbn in *. rewrite Hf in *. cbn in *.
  unfold construct_tier, on_lists. do 8 wp_step; [cbn; by rewrite Hf|]. do 9 wp_step.
  cbn [with_flags with_lists with_fast lists fast m_fasthash set_nodes m_map nodes].
  destruct (tier_loop_spec _ _ _ [] 0 HL HN Ht ltac:(lia) ltac:(lia)) as (t' & -> & Ht'). do 11 wp_step. split; [done|].
  split; cbn; try done; try by rewrite ?app_nil_r.
  - by apply wf_all_frozen.
  - by rewrite Hfl.
  - split; [done | apply W].
  - apply W.
Qed.

Lemma qle_bool_false q r : Qle_bool r q = false -> ~ (r <= q)%Q.
Proof. intros Hb Hq. apply Qle_bool_iff in Hq. congruence. Qed.

(** The entries of the buckets but the last are the hot ones. *)
Lemma hot_removelast v l : StronglySorted above l -> (forall b l', l = l' ++ [b] -> ring b <> []) ->
  hot (ents v l) = ents v (removelast l).
Proof.
  intros Ho Hr. destruct l as [|b l _] using rev_ind; [done|]. specialize (Hr b l eq_refl). rewrite removelast_last.
  unfold hot. rewrite ents_app. destruct (ring b) as [|k r _] eqn:Er using rev_ind; [done|].
  assert (He : ents v [b] = ((fun k => (k, (v k, fre b))) <$> r) ++ [(k, (v k, fre b))]).
  { unfold ents. cbn. unfold ents1. by rewrite app_nil_r, Er, fmap_app. }
  rewrite He, (assoc_L (++)), last_snoc. unfold freq at 2. cbn [snd]. rewrite !filter_app.
  apply StronglySorted_app in Ho as (Ho & _ & _).
  assert (Hl : Forall (fun x => (fre b < freq x)%Z) (ents v l)).
  { apply (ents_freq _ l (fun z => fre b < z)%Z), Forall_forall. intros x Hx. apply (Ho x b Hx). left. }
  rewrite (filter_all _ _ Hl), !filter_none, !app_nil_r; [done | repeat constructor; cbn; lia |].
  apply Forall_fmap, Forall_true. intros j. cbn. lia.
Qed.

Lemma length_ents v l : length (ents v l) = length (home l).
Proof. rewrite <- (length_fmap fst), ents_keys. apply length_fmap. Qed.

Lemma hot_length v l : StronglySorted above l -> (length (hot (ents v l)) <= length (home (removelast l)))%nat.
Proof.
  intros Ho. destruct l as [|b l _] using rev_ind; [unfold hot, ents; cbn; lia|]. destruct (decide (ring b = [])) as [Hr|Hr].
  - rewrite removelast_last, <- (length_ents v). assert (He : ents v (l ++ [b]) = ents v l).
    { rewrite ents_app. unfold ents at 2. cbn. unfold ents1. by rewrite Hr, !app_nil_r. }
    rewrite He. unfold hot. destruct (last (ents v l)); [apply length_filter | cbn; lia].
  - rewrite hot_removelast, length_ents; [done | done |]. by intros b' l' [_ [= <-]]%app_inj_2.
Qed.

Lemma ents_lt v l1 l2 : (forall x y, x ∈ l1 -> y ∈ l2 -> above x y) ->
  forall x y, x ∈ ents v l1 -> y ∈ ents v l2 -> (freq y < freq x)%Z.
Proof.
  intros Ha x y Hx Hy. assert (Hf : Forall (fun e => (freq e < freq x)%Z) (ents v l2)); [|rewrite Forall_forall in Hf; by apply Hf].
  apply (ents_freq _ _ (fun z => z < freq x)%Z), Forall_forall. intros b Hb.
  assert (Hf : Forall (fun e => (fre b < freq e)%Z) (ents v l1)); [|rewrite Forall_forall in Hf; by apply Hf].
  apply (ents_freq _ _ (fun z => fre b < z)%Z), Forall_forall. intros b' Hb'. by apply Ha.
Qed.

Lemma wf_cut s l1 l2 : Wf s [] -> nodes s = l1 ++ l2 -> Wf (set_nodes l2 s) l1.
Proof.
  intros [[HN Hm Hd] Ho Hp Hf Ha Hfr] Hn. rewrite app_nil_r in *. rewrite Hn in *.
  assert (Hperm : home (l2 ++ l1) ≡ₚ home (l1 ++ l2)) by (rewrite !home_app; apply Permutation_app_comm).
  split; cbn.
  - split; [by rewrite Hperm | intros k a; rewrite Hperm; apply Hm | intros k Hk; rewrite Hperm; by apply Hd].
  - by apply StronglySorted_app in Ho as (_ & _ & Ho).
  - by apply Forall_app in Hp as [_ Hp].
  - by eapply full_suffix.
  - by rewrite fmap_app, Permutation_app_comm, <- fmap_app.
  - by rewrite Permutation_app_comm.
Qed.

Lemma construct_ratio_spec cap c d f m q : Rep cap c (Sp d f m) ->
  match construct_ratio q c with
  | Ok (b, c') => exists sp', spec_step cap (ConstructRatio q) (Sp d f m) (Bool b) sp' /\ Rep cap c' sp'
  | Crash e => spec_fails cap (ConstructRatio q) (Sp d f m) e
  end.
Proof.
  intros R. unfold construct_ratio, on_lists, mbind, SM_bind, assertM, gets, modify, zoom, mret, SM_ret, crashes.
  destruct (Qle_bool (999 # 1000) q) eqn:Eq; cbn [negb]; [by apply f_ratio_big, Qle_bool_iff|]. apply qle_bool_false in Eq.
  destruct (fast c) as [|b0 l0] eqn:Ef.
  2: { apply f_ratio_frozen. intros ->. assert (Hfa := rp_fast _ _ _ R). cbn in Hfa. congruence. }
  assert (Hff := fast_nil_frz _ _ _ R Ef). cbn in Hff. subst f.
  assert (Hhb := home_bound _ _ _ R Ef). assert (HL := rep_live _ _ _ R). assert (HN := hm_nodup _ _ (rep_homes _ _ _ R)).
  destruct R as [W Hd Hz Ht Hc Hs Hb Hok Hfl Hfa Hso]. cbn in *. rewrite Ef in *. cbn in *. rewrite Hc. fold (FC_size cap q).
  assert (Hl := ratio_loop_spec (FC_size cap q) _ _ _ [] 0 HL HN Ht ltac:(lia) ltac:(lia)).
  assert (Ho := wf_order _ _ W). destruct (ratio_loop _ _ _ _ _) as [[[l1 l2] t']|e].
  - destruct Hl as (Hn & Hnil & Ht' & Hfc & Hmin). cbn [fst snd]. unfold contents in Hd. rewrite Hn, ents_app in Hd. rewrite Hn in Ho.
    eexists. split.
    + rewrite <- Hd. apply s_ratio; [done | by rewrite length_ents | | ].
      * intros Hd1. destruct l1 as [|b1 l1 _] using rev_ind; [done|]. specialize (Hmin ltac:(by destruct l1)).
        apply StronglySorted_app in Ho as (_ & Ho & _). rewrite hot_removelast, length_ents; [lia | done |].
        intros b l' [_ [= <-]]%app_inj_2; [|done]. destruct l2 as [|b2 l2]; [exfalso; rewrite Hnil in Hn by done; by destruct l1|].
        assert (Hfu := wf_full _ _ W). rewrite Hn in Hfu. apply full_front in Hfu. apply Forall_app in Hfu as [_ Hfu]. by apply Forall_cons in Hfu as [Hfu _].
      * apply ents_lt. apply StronglySorted_app in Ho as (Ho & _ & _). exact Ho.
    + split; cbn; try done; try lia.
      * by apply wf_cut.
      * by rewrite Hd.
      * by rewrite Hd.
      * rewrite Hfl. unfold mode_flags, set_ready, set_construct. cbn. by destruct m.
      * unfold FastOk. cbn. destruct (decide (m = Tier)) as [->|Hm].
        -- destruct Hfa as [Hnn _]. rewrite Hnn in Hn. symmetry in Hn. apply app_nil in Hn as [-> ->]. split; [done|]. by intros [|??] ?? ?.
        -- destruct l2 as [|b2 l2]; [rewrite Hnil in Hn by done; symmetry in Hn; apply app_nil in Hn as [-> _]; constructor|].
           assert (Hfu := wf_full _ _ W). rewrite Hn in Hfu. by apply full_front in Hfu.
      * by apply StronglySorted_app in Ho as (_ & Ho & _).
  - destruct Hl as [Hlt ->]. assert (Hhot := hot_length (value_of (m_map (lists c))) _ Ho). unfold contents in Hd. rewrite Hd in Hhot.
    destruct (nodes (lists c)) as [|b l] eqn:En; [|apply f_ratio_few; lia].
    rewrite <- Hd. apply f_ratio_empty. lia.
Qed.

(** ** Deconstruction *)
Lemma renumber_home mx l : home (renumber mx l) = home l.
Proof. induction l as [|b l IH]; [done|]. cbn [renumber]. by rewrite !home_cons, IH. Qed.

Lemma renumber_address mx l : address <$> renumber mx l = address <$> l.
Proof. induction l as [|b l IH]; [done|]. cbn. by rewrite IH. Qed.

Lemma renumber_range mx l : Forall (fun b => (mx < fre b <= mx + Z.of_nat (length l))%Z) (renumber mx l).
Proof.
  induction l as [|b l IH]; cbn [renumber]; [done|]. apply Forall_cons. split; [cbn [fre length]; lia|].
  eapply Forall_impl; [exact IH|]. cbn [length]. lia.
Qed.

Lemma renumber_sorted mx l : StronglySorted above (renumber mx l).
Proof.
  induction l as [|b l IH]; cbn [renumber]; [by constructor|]. apply StronglySorted_cons. split; [|done].
  eapply Forall_impl; [apply renumber_range|]. unfold above. cbn [fre length]. lia.
Qed.

(** How many buckets have at most that frequency. *)
Definition rank (l : list ListNode) (f : Z) : Z := Z.of_nat (length (filter (fun b => (fre b <= f)%Z) l)).

Lemma rank_mono l b f : b ∈ l -> (f < fre b)%Z -> (rank l f < rank l (fre b))%Z.
Proof.
  intros Hb Hf. apply list_elem_of_split in Hb as (l1 & l2 & ->). unfold rank. rewrite !filter_app, !filter_cons_False, filter_cons_True, !length_app by lia.
  cbn [length]. assert (Hle : forall l, (length (filter (fun x => (fre x <= f)%Z) l) <= length (filter (fun x => (fre x <= fre b)%Z) l))%nat).
  { intros l. induction l as [|x l IH]; [done|]. destruct (decide (fre x <= f)%Z).
    - rewrite !filter_cons_True by lia. cbn. lia.
    - rewrite (filter_cons_False _ x) by done. destruct (decide (fre x <= fre b)%Z); [rewrite filter_cons_True by done; cbn; lia|].
      by rewrite filter_cons_False. }
  assert (Hl1 := Hle l1). assert (Hl2 := Hle l2). lia.
Qed.

Lemma renumber_rank v mx l : StronglySorted above l -> ents v (renumber mx l) = raise (fun f => mx + rank l f)%Z (ents v l).
Proof.
  intros Ho. assert (Hr : forall pre l, (forall x y, x ∈ pre -> y ∈ l -> above x y) -> StronglySorted above l ->
    ents v (renumber mx l) = raise (fun f => mx + rank (pre ++ l) f)%Z (ents v l)); [|apply (Hr [] l); [by intros x y []%elem_of_nil | done]].
  clear Ho l. intros pre l. revert pre. induction l as [|b l IH]; intros pre Hpre Ho; [done|]. cbn [renumber].
  apply StronglySorted_cons in Ho as [Hb Ho]. rewrite !ents_cons. unfold raise. rewrite fmap_app. f_equal.
  - unfold ents1. cbn [ring fre]. rewrite <- list_fmap_compose. apply list_fmap_ext. intros i k _. cbn. unfold freq. cbn. do 3 f_equal.
    unfold rank. rewrite filter_app, filter_cons_True by lia. rewrite filter_none, filter_all; [done | |].
    + eapply Forall_impl; [exact Hb|]. unfold above. intros x. cbn. lia.
    + apply Forall_forall. intros x Hx. assert (Hxb : above x b) by (apply Hpre; [done | left]). unfold above in Hxb. lia.
  - rewrite (IH (pre ++ [b])); [|intros x y [Hx|Hx]%elem_of_app Hy|done].
    + by rewrite <- (assoc_L (++)).
    + apply Hpre; [done | by right].
    + apply list_elem_of_singleton in Hx as ->. rewrite Forall_forall in Hb. by apply Hb.
Qed.

Lemma max_fre_bound l : StronglySorted above l -> Forall (fun b => (fre b <= max_fre l)%Z) l.
Proof.
  intros [|b l' Ho Hb]; [constructor|].
  apply Forall_cons. split; [cbn; lia|]. eapply Forall_impl; [exact Hb|]. unfold above. cbn. lia.
Qed.

Lemma renumber_full l : Full l -> Full (renumber 0 l).
Proof.
  induction l as [|b l IH]; intros Hf; [done|]. specialize (IH (full_suffix [b] l Hf)). cbn [renumber].
  intros [|b1 l1] x l2; cbn [app]; intros [= <- Hl2] Hr; [|by apply (IH l1 x l2)]. destruct (Hf [] b l eq_refl Hr) as [-> _].
  by subst l2.
Qed.

Lemma wf_thaw s fs : Wf s fs -> Full (renumber (max_fre (nodes s)) fs ++ nodes s) ->
  Wf (set_nodes (renumber (max_fre (nodes s)) fs ++ nodes s) s) [].
Proof.
  intros [[HN Hm Hd] Ho Hp Hf Ha Hfr] Hfull. set (mx := max_fre (nodes s)) in *.
  assert (Hmx : (0 <= mx)%Z) by (unfold mx; destruct Hp; cbn; lia). assert (Hrg := renumber_range mx fs).
  assert (Hperm : home ((renumber mx fs ++ nodes s) ++ []) ≡ₚ home (nodes s ++ fs)).
  { rewrite app_nil_r, !home_app, renumber_home. apply Permutation_app_comm. }
  split; cbn [set_nodes nodes m_map fresh].
  - split; [by rewrite Hperm | intros k a; rewrite Hperm; apply Hm | intros k Hk; rewrite Hperm; by apply Hd].
  - apply StronglySorted_app. split_and!; [|apply renumber_sorted | done]. intros x y Hx Hy. rewrite Forall_forall in Hrg.
    specialize (Hrg x Hx). assert (Hb := max_fre_bound _ Ho). rewrite Forall_forall in Hb. specialize (Hb y Hy). fold mx in Hb. unfold above. lia.
  - apply Forall_app. split; [|done]. eapply Forall_impl; [exact Hrg|]. cbn. lia.
  - done.
  - by rewrite app_nil_r, fmap_app, renumber_address, Permutation_app_comm, <- fmap_app.
  - rewrite app_nil_r. apply Forall_app in Hfr as [Hfr1 Hfr2]. apply Forall_app. split; [|done].
    apply Forall_forall. intros b Hb. rewrite Forall_forall in Hfr2.
    assert (Hba : address b ∈ address <$> renumber mx fs) by (apply list_elem_of_fmap; eauto).
    rewrite renumber_address in Hba. apply list_elem_of_fmap in Hba as (b' & -> & Hb'). by apply Hfr2.
Qed.

Lemma freq_bucket v l x : x ∈ ents v l -> exists b, b ∈ l /\ freq x = fre b.
Proof.
  induction l as [|b l IH]; [by intros []%elem_of_nil|]. rewrite ents_cons. intros [Hx|Hx]%elem_of_app.
  - apply list_elem_of_fmap in Hx as (k & -> & _). exists b. split; [left | done].
  - destruct (IH Hx) as (b' & Hb & Hf). exists b'. split; [by right | done].
Qed.

Lemma length_raise g l : length (raise g l) = length l.
Proof. apply length_fmap. Qed.

Lemma raise_ok g l : Forall entry_ok l -> Forall entry_ok (raise g l).
Proof. intros Hl. unfold raise. apply Forall_fmap. exact Hl. Qed.

(** Where the new frequencies of the frozen buckets overflow. *)
Definition thaw_overflows (l f : list ListNode) : bool :=
  (2 ^ 31 <=? Z.of_nat (length f))%Z || (2 ^ 63 <=? max_fre l + Z.of_nat (length f))%Z.

Lemma full_length l : Full l -> (length l <= S (length (home l)))%nat.
Proof.
  induction l as [|b l IH]; intros Hf; [cbn; lia|]. assert (HF := IH (full_suffix [b] l Hf)).
  rewrite home_cons, length_app. destruct (ring b) as [|k r] eqn:Er.
  - destruct (Hf [] b l eq_refl Er) as [-> _]. cbn. lia.
  - assert (Hl : length (home1 b) = length (ring b)) by (by rewrite <- (length_fmap fst), home1_keys). rewrite Hl, Er. cbn [length]. lia.
Qed.

Lemma max_fre_top v l : Full l -> (max_fre l <= top (ents v l))%Z.
Proof.
  intros Hf. destruct l as [|b l]; [unfold ents; cbn; lia|]. rewrite ents_cons. cbn [max_fre]. unfold ents1. destruct (ring b) as [|k r] eqn:Er; [|done].
  destruct (Hf [] b l eq_refl Er) as [-> ->]. unfold ents. done.
Qed.

Lemma thaw_fails cap c d f m : Rep cap c (Sp d f m) -> thaw_overflows (nodes (lists c)) (fast c) = true ->
  spec_fails cap Deconstruct (Sp d f m) SignedOverflow.
Proof.
  intros R Ho. assert (Hl : (length (fast c) <= S (length f))%nat).
  { rewrite <- (rp_frz _ _ _ R : _ = f), length_ents. destruct (decide (m = Tier)) as [->|Hm]; [by apply full_length, (rp_fast _ _ _ R)|].
    apply full_length. destruct m; [|rewrite <- (app_nil_r (fast c)); apply full_app; [apply (rp_fast _ _ _ R)|by intros [|??] ?? ?]|done].
    assert (Hfa : fast c = []) by apply (rp_fast _ _ _ R). rewrite Hfa. by intros [|??] ?? ?. }
  assert (Ht := max_fre_top (value_of (m_map (lists c))) _ (wf_full _ _ (rp_wf _ _ _ R))).
  assert (Hd : contents (lists c) = d) by apply (rp_dyn _ _ _ R). unfold contents in Hd. rewrite Hd in Ht.
  apply f_deconstruct. unfold thaw_overflows in Ho. apply orb_true_iff in Ho as [Ho|Ho]; apply Z.leb_le in Ho; lia.
Qed.

Lemma lfh_wp_deconstruct cap c d f m : Rep cap c (Sp d f m) -> thaw_overflows (nodes (lists c)) (fast c) = false \/ fast c = [] ->
  wp deconstruct c (fun _ c' => exists sp', spec_step cap Deconstruct (Sp d f m) Done sp' /\ Rep cap c' sp').
Proof.
  intros R Hov. unfold deconstruct, on_lists. do 2 wp_step. destruct (fast c) as [|b0 l0] eqn:Ef.
  { wp_step. assert (Hff := fast_nil_frz _ _ _ R Ef). cbn in Hff. subst f. eexists. split; [apply s_deconstruct_none | done]. }
  destruct Hov as [Hov|]; [|done]. rewrite <- Ef in Hov |- *. assert (Hne : fast c <> []) by by rewrite Ef. clear Ef b0 l0.
  destruct R as [W Hd Hz Ht Hc Hs Hb Hok Hfl Hfa Hso]. cbn in *. set (l := nodes (lists c)) in *. set (mx := max_fre l).
  assert (Hfull : Full (renumber mx (fast c) ++ l)).
  { destruct m; cbn in Hfa; [done | |].
    - apply full_app; [|apply W]. apply Forall_forall. intros b Hbin. assert (Hr : ring b ∈ ring <$> renumber mx (fast c)) by (apply list_elem_of_fmap; eauto).
      assert (He : ring <$> renumber mx (fast c) = ring <$> fast c) by (generalize (fast c); intros x; induction x as [|y x IH]; cbn; congruence).
      rewrite He in Hr. apply list_elem_of_fmap in Hr as (b' & -> & Hb'). rewrite Forall_forall in Hfa. by apply Hfa.
    - destruct Hfa as [Hn Hfu]. fold l in Hn. unfold mx. rewrite Hn, app_nil_r. by apply renumber_full. }
  assert (W' := wf_thaw _ _ W Hfull). fold l mx in W'. do 5 wp_step. cbn [with_flags lists]. fold l. unfold thaw_overflows in Hov. fold l in Hov. rewrite Hov. apply wp_ret. do 12 wp_step. cbn [with_flags lists with_fast fast m_flags].
  eexists. split.
  - apply (s_deconstruct cap d f m (fun x => mx + rank (fast c) x)%Z); intros x y Hx Hy.
    + intros Hlt. rewrite <- Hz in Hy. apply freq_bucket in Hy as (b & Hbin & Hy). rewrite Hy in Hlt |- *.
      assert (Hr := rank_mono _ _ _ Hbin Hlt). lia.
    + rewrite <- Hz in Hx. apply freq_bucket in Hx as (b & Hbin & Hx). rewrite <- Hd in Hy. unfold contents in Hy. apply freq_bucket in Hy as (b' & Hb' & Hy).
      assert (Hmx := max_fre_bound _ (wf_order _ _ W)). rewrite Forall_forall in Hmx. specialize (Hmx b' Hb'). fold l mx in Hmx.
      assert (Hr := rank_mono _ _ (fre b - 1)%Z Hbin ltac:(lia)). unfold rank in Hr at 1. rewrite Hx, Hy. lia.
  - split; cbn; try done; try lia.
    + fold l mx. unfold contents. cbn. rewrite ents_app, renumber_rank, Hz by done. by rewrite <- Hd.
    + apply frozen_clear.
    + by rewrite Hs, !length_app, length_raise.
    + apply Forall_app in Hok as [Hok1 Hok2]. apply Forall_app. split; [by apply raise_ok | done].
    + rewrite Hfl. by destruct m.
    + constructor.
Qed.

(** ** Runs *)
Definition run_op (o : op) : SM (LFU_FHCache M T) answer :=
  match o with
  | Find yes ac k => r ← find (fun _ => mret tt) 1 yes ac k; mret (Found r)
  | Insert yes k v => b ← insert (mret tt) yes k v; mret (Bool b)
  | ConstructRatio q => b ← construct_ratio q; mret (Bool b)
  | ConstructTier => b ← construct_tier; mret (Bool b)
  | Deconstruct => deconstruct;; mret Done
  | Clear => clear;; mret Done
  | Size => n ← size; mret (Count n)
  end.

Fixpoint run (ops : list op) : SM (LFU_FHCache M T) (list answer) :=
  match ops with
  | [] => mret []
  | o :: ops => a ← run_op o; rest ← run ops; mret (a :: rest)
  end.

(** A call follows the specification or fails where it may. *)
Definition Follows {A} (cap : Z) (o : op) (sp : spec) (f : A -> answer) (r : res (A * LFU_FHCache M T)) : Prop :=
  match r with
  | Ok (a, c') => exists sp', spec_step cap o sp (f a) sp' /\ Rep cap c' sp'
  | Crash e => spec_fails cap o sp e
  end.

Lemma follows_wp {A} cap o sp f (m : SM (LFU_FHCache M T) A) c :
  wp m c (fun a c' => exists sp', spec_step cap o sp (f a) sp' /\ Rep cap c' sp') -> Follows cap o sp f (m c).
Proof. unfold wp, Follows. by destruct (m c) as [[a c']|]. Qed.

Lemma follows_bind {A} cap o sp f (m : SM (LFU_FHCache M T) A) c :
  Follows cap o sp f (m c) -> Follows cap o sp id ((a ← m; mret (f a)) c).
Proof. unfold Follows, mbind, SM_bind. by destruct (m c) as [[a c']|]. Qed.

Lemma run_op_follows cap o c sp : Rep cap c sp -> op_ok o -> Follows cap o sp id (run_op o c).
Proof.
  intros R Ho. destruct sp as [d f m]. destruct o as [yes ac k|yes k v|q| | | |]; cbn [run_op op_ok] in *.
  - apply follows_bind. destruct (overflows k d) as [e|] eqn:Hov; [destruct (assoc k f) eqn:Ef|].
    + exfalso. assert (HN := lfh_rep_nodup _ _ _ R). cbn in HN. rewrite fmap_app in HN. apply NoDup_app in HN as (_ & HN & _).
      unfold overflows in Hov. destruct (assoc k d) eqn:Ed; [|done]. apply assoc_split in Ef as (l1 & l2 & -> & _), Ed as (l3 & l4 & -> & _).
      apply (HN k); rewrite fmap_app; set_solver.
    + unfold Follows. rewrite (lfh_find_overflows _ _ _ _ _ _ _ _ _ _ R Ho Ef Hov). by apply f_find.
    + apply follows_wp. eapply wp_mono; [by apply lfufh_wp_find|]. intros r c' [-> R']. eexists. split; [by constructor | done].
  - destruct Ho. by apply follows_bind, follows_wp, lfh_wp_insert.
  - apply follows_bind. assert (Hr := construct_ratio_spec cap c d f m q R). exact Hr.
  - apply follows_bind. destruct (fast c) as [|b0 l0] eqn:Ef.
    + apply follows_wp. assert (Hff := fast_nil_frz _ _ _ R Ef). cbn in Hff. subst f.
      eapply wp_mono; [by eapply lfh_wp_construct_tier|]. intros b c' [-> R']. eexists. split; [constructor | done].
    + unfold construct_tier, mbind, SM_bind, modify, gets. cbn [with_flags fast]. rewrite Ef. cbn. apply f_tier_frozen.
      intros ->. assert (Hfa := rp_fast _ _ _ R). cbn in Hfa. congruence.
  - apply (follows_bind _ _ _ (fun _ => Done)). destruct (fast c) as [|b0 l0] eqn:Ef.
    { apply follows_wp. apply lfh_wp_deconstruct; [done | by right]. }
    destruct (thaw_overflows (nodes (lists c)) (fast c)) eqn:Hov; [|apply follows_wp, lfh_wp_deconstruct; [done | by left]].
    assert (Hfs := thaw_fails _ _ _ _ _ R Hov). unfold thaw_overflows in Hov.
    unfold deconstruct, mbind, SM_bind, modify, gets. rewrite Ef in Hov |- *. cbn [with_flags lists]. by rewrite Hov.
  - apply (follows_bind _ _ _ (fun _ => Done)), follows_wp. eapply wp_mono; [by eapply lfh_wp_clear|]. intros ? c' R'. eexists. split; [constructor | done].
  - apply follows_bind, follows_wp. unfold size. wp_step. rewrite (rp_size _ _ _ R). eexists. split; [constructor | done].
Qed.

Lemma run_follows cap ops c sp : Rep cap c sp -> Forall op_ok ops ->
  match run ops c with
  | Ok (answers, c') => exists sp', spec_trace cap ops sp (Ok (answers, sp')) /\ Rep cap c' sp'
  | Crash e => spec_trace cap ops sp (Crash e)
  end.
Proof.
  intros R Hok. revert c sp R. induction Hok as [|o ops Ho Hok IH]; intros c sp R; cbn [run].
  - exists sp. split; [constructor | done].
  - assert (Hf := run_op_follows _ o _ _ R Ho). unfold Follows in Hf. unfold mbind, SM_bind. destruct (run_op o c) as [[a c1]|e].
    + destruct Hf as (sp1 & Hs1 & R1). specialize (IH c1 sp1 R1). destruct (run ops c1) as [[rest c2]|e].
      * destruct IH as (sp2 & Ht & R2). exists sp2. split; [by econstructor | done].
      * by econstructor.
    + by constructor.
Qed.

Lemma lfh_rep_new cap c : (0 < cap < 2 ^ 64)%Z -> new_LFU_FHCache cap = Some c -> Rep cap c (Sp [] [] Dynamic).
Proof.
  intros Hcap. unfold new_LFU_FHCache, CLHT_new. destruct (CLHT_buckets 0 (1 + Z.log2 cap)) as [n|]; [|done]. cbn. intros [= <-].
  split; cbn; try done; try lia.
  - apply wf_no_nodes; [done|]. intros k. apply chm_find_empty.
  - apply frozen_create.
  - constructor.
Qed.

(** C7: the FrozenHot LFU cache refines its specification.  Every sequence of
    lookups, insertions, constructions and deconstructions of the frozen cache
    and clears, from a new cache on, follows [spec_step]: lookups answer from
    the frozen and the dynamic entries alike, a dynamic hit raises a frequency,
    insertions are refused while all is frozen and evict dynamic entries only,
    freezing takes the highest frequencies, and deconstruction returns frozen
    entries in their order above all others.  The only crashes are those of
    [spec_fails], frequencies that leave their machine types among them; at the end the size counter is exact and within the capacity
    and no key is there twice. *)
Theorem lfh_run_refines (capacity : Z) (ops : list op) :
  (0 < capacity < 2 ^ 30)%Z -> Forall op_ok ops ->
  exists c, new_LFU_FHCache capacity = Some c /\
  match run ops c with
  | Ok (answers, c') => exists sp,
      spec_trace capacity ops (Sp [] [] Dynamic) (Ok (answers, sp)) /\
      contents (lists c') = dyn sp /\ ents (value_of (m_map (lists c'))) (fast c') = frz sp /\
      s c' = Z.of_nat (length (frz sp ++ dyn sp)) /\ (s c' <= capacity)%Z /\ NoDup (frz sp ++ dyn sp).*1
  | Crash e => spec_trace capacity ops (Sp [] [] Dynamic) (Crash e)
  end.
Proof.
  intros Hc Hok. destruct (new_LFU_FHCache (M := M) (T := T) capacity) as [c|] eqn:Hn.
  - exists c. split; [done|]. assert (R := lfh_rep_new capacity c ltac:(lia) Hn). assert (Hr := run_follows _ ops _ _ R Hok).
    destruct (run ops c) as [[answers c']|e]; [|done]. destruct Hr as (sp & Ht & R'). exists sp.
    split_and!; [done | apply R' | apply R' | apply R' | apply R' | by eapply lfh_rep_nodup].
  - exfalso. unfold new_LFU_FHCache, CLHT_new in Hn. assert (Hl : (Z.log2 capacity < 30)%Z) by (apply Z.log2_lt_pow2; lia).
    assert (Hl0 := Z.log2_nonneg capacity). unfold CLHT_buckets in Hn. rewrite bit_length_0, Z.add_0_l, (proj2 (Z.ltb_lt _ _)), (proj2 (Z.leb_le _ _)) in Hn by lia.
    done.
Qed.

(** ** The retry of [find] *)
(** The entry of [k] is dynamic. *)
Definition Cold (cap k : Z) (m : mode) c : Prop := exists d f, Rep cap c (Sp d f m) /\ k ∈ d.*1.

Lemma cold_hit cap k m c : Cold cap k m c -> key32 k ->
  exists v a b pre post, m_flags c = mode_flags m true /\ (FH_ready (m_flags c) = true -> forall ac, CLHT_find (m_fasthash c) k ac = (false, ac)) /\
    chm_find (m_map (lists c)) k = Some (LV v (Some a)) /\ locate a (nodes (lists c) ++ fast c) = Some (pre, b, post).
Proof.
  intros (d & f & R & Hk) Hk32. assert (HN := lfh_rep_nodup _ _ _ R). cbn in HN. rewrite fmap_app in HN. apply NoDup_app in HN as (_ & Hdis & _).
  assert (Ef : assoc k f = None) by (apply assoc_None; intros Hf; by apply (Hdis k)).
  destruct (assoc k d) as [[v fr]|] eqn:Ed; [|by apply assoc_None in Ed].
  destruct (rep_hit _ _ _ _ _ _ R Ef Ed) as (a & b & pre & post & Hx & _ & Hl & _). exists v, a, b, pre, post.
  split_and!; [by eapply rep_flags | | done | done]. intros _ ac. rewrite (rep_fast_find _ _ _ k ac R Hk32). unfold look. cbn. by rewrite Ef.
Qed.

(** A turn of the retry that finds the frozen cache ready and the entry not in
    it ends with the next one. *)
Lemma find_round cap others yes k fuel t ac sb c m :
  key32 k -> Cold cap k m c -> sb = bool_decide (m = Ratio) -> m <> Tier ->
  wp (others t) c (fun _ c1 => Cold cap k m c1 /\ wp (others (S t)) c1 (fun _ c2 => Cold cap k Ratio c2 /\
    forall ac', find_from others yes false k fuel (S (S t)) ac' true c2 = Crash OutOfFuel)) ->
  find_from others yes false k (S fuel) t ac sb c = Crash OutOfFuel.
Proof.
  intros Hk Hc Hsb Hm Ho. destruct (cold_hit _ _ _ _ Hc Hk) as (v0 & a0 & b0 & pre0 & post0 & Hfl & Hmiss & _ & _).
  cbn [find_from]. unfold flag. apply crash_bind, wp_gets, crash_bind, wp_gets.
  assert (Hr : (if sb then CLHT_find (m_fasthash c) k ac else (false, ac)) = (false, ac)).
  { subst sb. destruct m; [done | | done]. apply Hmiss. by rewrite Hfl. }
  rewrite Hr, Hfl. cbn [fst snd mode_flags tier_ready]. rewrite (bool_decide_eq_false_2 (m = Tier)), andb_false_r by done.
  apply crash_bind. eapply wp_mono; [exact Ho|]. intros [] c1 [Hc1 Ho1]. clear c Hc Ho Hfl Hmiss Hr.
  destruct (cold_hit _ _ _ _ Hc1 Hk) as (v & a & b & pre & post & Hfl & _ & Hx & Hl).
  apply crash_bind, wp_gets. rewrite Hx. apply crash_bind, wp_gets. rewrite Hfl. cbn [FH_construct mode_flags listNode val].
  apply crash_bind, wp_gets. rewrite Hl. apply crash_bind, wp_gets. rewrite Hfl. cbn [curve_flag mode_flags].
  apply crash_bind. eapply wp_mono; [exact Ho1|]. intros [] c2 [Hc2 Hrest].
  destruct (cold_hit _ _ _ _ Hc2 Hk) as (v2 & a2 & b2 & pre2 & post2 & Hfl2 & _).
  apply crash_bind, wp_gets. rewrite Hfl2. cbn [curve_flag mode_flags]. apply crash_bind, wp_gets. rewrite Hfl2. apply Hrest.
Qed.

(** The retry of [find] can go on for ever.  [find] reads [FH_ready] once,
    into [status_first_ready].  If the frozen cache becomes ready between this
    read and the acquisition of the list mutex, [find] starts again at
    [STATUS_BACK], and does so in every turn, since it never reads
    [status_first_ready] again: for a key the frozen cache does not hold, no
    number of turns is enough as long as the frozen cache is not deconstructed,
    whatever else the other threads do that leaves the entry in the dynamic
    cache. *)
Theorem lfh_find_livelock cap k (others : nat -> SM (LFU_FHCache M T) unit) yes ac c :
  key32 k -> Cold cap k Dynamic c ->
  wp (others 0) c (fun _ c1 => Cold cap k Dynamic c1 /\ wp (others 1) c1 (fun _ c2 => Cold cap k Ratio c2)) ->
  (forall t c', Cold cap k Ratio c' -> wp (others (S (S t))) c' (fun _ c2 => Cold cap k Ratio c2)) ->
  forall fuel, find others fuel yes ac k c = Crash OutOfFuel.
Proof.
  intros Hk Hc H01 Hrest fuel. destruct (cold_hit _ _ _ _ Hc Hk) as (_ & _ & _ & _ & _ & Hfl & _).
  assert (Hloop : forall fuel t ac c', Cold cap k Ratio c' -> find_from others yes false k fuel (S (S t)) ac true c' = Crash OutOfFuel).
  { clear c Hc H01 Hfl ac fuel. intros fuel. induction fuel as [|fuel IH]; intros t ac c Hc; [done|].
    apply (find_round cap _ _ _ _ _ _ _ _ Ratio); [done | done | done | done |]. eapply wp_mono; [by apply Hrest|]. intros [] c1 Hc1. split; [done|].
    eapply wp_mono; [by apply Hrest|]. intros [] c2 Hc2. split; [done|]. intros ac'. by apply IH. }
  unfold find, flag. do 3 apply crash_bind, wp_gets. rewrite Hfl. apply crash_bind, wp_assert; [done|]. apply crash_bind, wp_gets. rewrite Hfl.
  destruct fuel as [|fuel]; [done|]. apply (find_round cap _ _ _ _ _ _ _ _ Dynamic); [done | done | done | done |].
  eapply wp_mono; [exact H01|]. intros [] c1 [Hc1 H1']. split; [done|]. eapply wp_mono; [exact H1'|]. intros [] c2 Hc2.
  split; [done|]. intros ac'. by apply Hloop.
Qed.
End rep.

(** ** Runs *)
Abbreviation demo := (LFU_FHCache (gmap Z) (gmap Z Z)).

(** The cache after some calls. *)
Definition after (capacity : Z) (ops : list op) : option demo :=
  c ← new_LFU_FHCache capacity;
  match run ops c with Ok (_, c') => Some c' | Crash _ => None end.

Lemma cold_after cap ops c k m :
  (0 < cap < 2 ^ 64)%Z -> Forall op_ok ops -> after cap ops = Some c -> m_flags c = mode_flags m true ->
  k ∈ (contents (lists c)).*1 -> Cold cap k m c.
Proof.
  intros Hc Hok Ha Hfl Hk. unfold after in Ha. destruct (new_LFU_FHCache cap) as [c0|] eqn:Hn; [|done]. cbn in Ha.
  assert (R0 := lfh_rep_new (M := gmap Z) (T := gmap Z Z) cap c0 Hc Hn). assert (Hr := run_follows cap ops c0 _ R0 Hok).
  destruct (run ops c0) as [[answers c']|e]; [|done]. injection Ha as ->. destruct Hr as ([d f m'] & _ & R).
  assert (m' = m) as ->. { assert (Hm := rp_mode _ _ _ R). rewrite Hfl in Hm. cbn in Hm. by destruct m, m'. }
  exists d, f. split; [done|]. by rewrite <- (rp_dyn _ _ _ R : _ = d).
Qed.

(** Keys 1 and 2 are hit; a half of the cache, these two, is frozen; 5 takes the
    place of 3. *)
Definition hot_ops : list op :=
  [Insert true 1 10; Insert true 2 20; Insert true 3 30; Insert true 4 40; Find true 0 1; Find true 0 1; Find true 0 2]%Z.
Definition frozen_ops : list op :=
  hot_ops ++ [ConstructRatio (1 # 2); Find true 0 1; Insert true 5 50; Find true 0 3; Find true 0 4; Deconstruct; ConstructTier; Insert true 6 60; Find true 0 4]%Z.

Lemma lfh_run_refines_witness :
  (0 < 4 < 2 ^ 30)%Z /\ Forall op_ok frozen_ops /\
  exists c : demo, new_LFU_FHCache 4 = Some c /\
  match run frozen_ops c with
  | Ok (answers, c') => (exists sp,
      spec_trace 4 frozen_ops (Sp [] [] Dynamic) (Ok (answers, sp)) /\
      contents (lists c') = dyn sp /\ ents (value_of (m_map (lists c'))) (fast c') = frz sp /\
      s c' = Z.of_nat (length (frz sp ++ dyn sp)) /\ (s c' <= 4)%Z /\ NoDup (frz sp ++ dyn sp).*1) /\
      drop 7 answers = [Bool true; Found (true, 10); Bool true; Found (false, 0); Found (true, 40); Done; Bool true; Bool false; Found (true, 40)]%Z /\
      ents (value_of (m_map (lists c'))) (fast c') = [(1, (10, 4)); (2, (20, 3)); (4, (40, 2)); (5, (50, 1))]%Z
  | Crash e => False
  end.
Proof.
  assert (Hok : Forall op_ok frozen_ops) by (unfold frozen_ops, hot_ops; cbn; repeat constructor; unfold key32; cbn; try lia; discriminate).
  split; [lia | split; [exact Hok|]]. destruct (lfh_run_refines (M := gmap Z) (T := gmap Z Z) 4 frozen_ops ltac:(lia) Hok) as (c & Hn & Hr).
  exists c. split; [exact Hn|]. clear Hok. vm_compute in Hn. injection Hn as <-. destruct (run frozen_ops _) as [[answers c']|e] eqn:E; [|vm_compute in E; discriminate].
  split; [exact Hr|]. clear Hr. vm_compute in E. injection E as <- <-. split; vm_compute; reflexivity.
Defined.

Lemma lfh_find_livelock_witness :
  exists c : demo, after 4 hot_ops = Some c /\
  let others (t : nat) := if Nat.eqb t 1 then construct_ratio (1 # 2);; mret tt else mret tt in
  (forall fuel, find others fuel true 0 3 c = Crash OutOfFuel) /\
  (forall fuel, exists c', find (fun _ => mret tt) (S fuel) true 0 3 c = Ok ((true, 30%Z), c')).
Proof.
  destruct (after 4 hot_ops) as [c|] eqn:Hc; [|vm_compute in Hc; discriminate]. exists c. split; [done|].
  assert (Hok : Forall op_ok hot_ops) by (unfold hot_ops; repeat constructor; unfold key32; cbn; try lia; discriminate).
  assert (HC : Cold 4 3 Dynamic c).
  { apply (cold_after 4 hot_ops); [lia | exact Hok | exact Hc | |]; revert Hc; vm_compute; intros [= <-]; [reflexivity | repeat constructor]. }
  intros others. split.
  - apply (lfh_find_livelock 4 3 others true 0 c); [unfold key32; lia | exact HC | | intros t c' Hc'; exact Hc'].
    split; [exact HC|]. assert (E : after 4 (hot_ops ++ [ConstructRatio (1 # 2)]) = match others 1%nat c with Ok (_, c2) => Some c2 | Crash _ => None end).
    { vm_compute in Hc. injection Hc as <-. vm_compute. reflexivity. }
    unfold wp. destruct (others 1%nat c) as [[[] c2]|e] eqn:E1.
    + apply (cold_after 4 (hot_ops ++ [ConstructRatio (1 # 2)])); [lia | | exact E | |].
      * apply Forall_app. split; [exact Hok | repeat constructor; cbn; discriminate].
      * revert E. vm_compute. intros [= <-]. reflexivity.
      * revert E. vm_compute. intros [= <-]. repeat constructor.
    + revert E. vm_compute. discriminate.
  - intros fuel. destruct HC as (d & f & R & Hk).
    assert (Hov : overflows 3 d = None) by (rewrite <- (rp_dyn _ _ _ R : _ = d); revert Hc; vm_compute; by intros [= <-]).
    destruct (wp_elim _ _ _ (lfufh_wp_find 4 c d f Dynamic true 0 3 fuel R ltac:(unfold key32; lia) Hov)) as (r & c' & Hf & Hr & _).
    exists c'. rewrite Hf. do 2 f_equal. rewrite Hr. rewrite <- (rp_frz _ _ _ R : _ = f), <- (rp_dyn _ _ _ R : _ = d).
    revert Hc. vm_compute. intros [= <-]. reflexivity.
Defined.

(** A cache none of whose entries was hit cannot be frozen in part. *)
Example ratio_cold_fails :
  match after 4 [Insert true 1 10; Insert true 2 20; Insert true 3 30; Insert true 4 40]%Z with
  | Some c => construct_ratio (1 # 4) c = Crash AssertFail
  | None => False
  end.
Proof. vm_compute. reflexivity. Qed.
