(* ===== verification/LFUCurve.v ===== *)
(** * The learning pass of the FrozenHot LFU cache ([cache/lfu_FH.h], [get_curve])

    The pass walks along the buckets, highest frequency first.  Entries above
    [m_threshold], the frequency of the bucket it has reached, count as frozen:
    a lookup of one is a hit of the frozen cache there would be.  The walk goes
    on when the share of the cache walked is due.  [lfh_get_curve_measures]: on
    a filled cache the pass ends, whatever is looked up, with a curve whose
    sizes are whole frequencies.

    Time is counted in points at which other threads run ([others t]) and
    [should_stop t] is read. *)

From stdpp Require Import sorting.
From S2P Require Import Prelude Interfaces CacheSpec FHCache FastHash Monitor FreqLists LFUFH LFUFHProps.
From Stdlib Require Import QArith Qround Lqa.
Local Close Scope Q_scope.

Section object.
Context {M : Type -> Type} `{CHM M} {T : Type} `{CLHTlib T}.
Abbreviation FH A := (SM (LFU_FHCache M T) A) (only parsing).

(** [maxSize * i * 1.0/100 * 2] *)
Definition due (maxSize i : Z) : Q := (inject_Z (u64 (maxSize * i)) / 100 * 2)%Q.

Section pass.
Context (others : nat -> FH unit) (should_stop : nat -> bool).

(** [while(FC_size <= m_maxSize * i * 1.0/100 * 2 && !should_stop)].  [None] is
    [&m_tail], whose [list.m_next] is null. *)
Fixpoint curve_fill (i : Z) (fuel : nat) (t : nat) (FC_size : Z) (out_node : option positive) : FH (nat * Z * option positive) :=
  match fuel with
  | O => crashes OutOfFuel
  | S fuel =>
      others t;;
      maxSize ← gets m_maxSize;
      if Qle_bool (inject_Z FC_size) (due maxSize i) && negb (should_stop t) then
        match out_node with
        | None => crashes NullDeref
        | Some p =>
            l ← gets (fun c => nodes (lists c));
            match locate p l with
            | None => crashes UseAfterFree
            | Some (_, b, post) =>
                let FC_size := u64 (FC_size + Z.of_nat (length (ring b))) in
                match post with
                | [] => mret (S t, FC_size, None)
                | next :: _ =>
                    modify (with_threshold (fre next));;
                    step ← gets (fun c => (get_step (m_stat c)).1);
                    if Qltb (99 # 100) (step.1 + step.2) then mret (S t, FC_size, Some (address next))
                    else curve_fill i fuel (S t) FC_size (Some (address next))
                end
            end
        end
      else mret (S t, FC_size, out_node)
  end.

(** [for(int i = 1; i < 45 && !should_stop; i++)], [n] of the 44 turns left. *)
Fixpoint curve_loop (n : nat) (i : Z) (fuel : nat) (t : nat) (FC_size : Z) (out_node : option positive) : FH (list curve_data_node) :=
  match n with
  | O => mret []
  | S n =>
      others t;;
      if should_stop t then mret [] else
      '(t, FC_size, out_node) ← curve_fill i fuel (S t) FC_size out_node;
      maxSize ← gets m_maxSize;
      if Qltb (due maxSize (i + 1)) (inject_Z FC_size) then curve_loop n (i + 1) fuel t FC_size out_node else
      let FC_ratio := (inject_Z FC_size / inject_Z maxSize)%Q in
      step ← gets (fun c => (print_step2 (m_stat c)).1);
      let '(FC_hit, miss) := step in
      if Qltb (99 # 100) (FC_hit + miss) then mret [{| size_ := 1; FC_hit_ := FC_hit; miss_ := miss |}] else
      rest ← curve_loop n (i + 1) fuel t FC_size out_node;
      mret ({| size_ := FC_ratio; FC_hit_ := FC_hit; miss_ := miss |} :: rest)
  end.

(** The returned [false] and the entries added to [curve_container]. *)
Definition get_curve (fuel : nat) (curve_container : list curve_data_node) : FH (bool * list curve_data_node) :=
  no_insert ← flag tier_no_insert;
  assertM (negb no_insert);;
  l ← gets (fun c => nodes (lists c));
  modify (with_threshold (max_fre l));;
  modify (with_flags (fun f => set_curve true (sample_flag f) f));;
  modify (with_stat reset_cursor);;
  modify (with_flags (fun f => set_curve (curve_flag f) false f));;
  assertM (match curve_container with [] => true | _ => false end);;
  l ← gets (fun c => nodes (lists c));
  curve ← curve_loop 44 1 fuel 0 0 (address <$> head l);
  modify (with_flags (fun f => set_curve (curve_flag f) true f));;
  modify (with_flags (fun f => set_curve false (sample_flag f) f));;
  modify (with_threshold 0);;
  mret (false, curve_container ++ curve).
End pass.

(** ** What the other threads do

    While [sample_flag] is unset [sample_generator] samples every access. *)
Inductive access := Look (ac key : Z) | Put (key value : Z).

Definition run_access (a : access) : FH unit :=
  match a with
  | Look ac key => r ← find (fun _ => mret tt) 1 (sample_generator false 0) ac key; mret tt
  | Put key value => r ← insert (mret tt) (sample_generator false 0) key value; mret tt
  end.

Fixpoint run_accesses (l : list access) : FH unit :=
  match l with
  | [] => mret tt
  | a :: l => run_access a;; run_accesses l
  end.
End object.

(** ** The pass *)
Section props.
Context {M : Type -> Type} `{CHMLaws M} {T : Type} `{CLHTLaws T}.
Implicit Types (c : LFU_FHCache M T).

(** [c0] while the pass runs: only the threshold and the counters move. *)
Definition Learning c0 c : Prop :=
  exists g th, c = with_stat g (with_threshold th (with_flags (set_curve true false) c0)) /\ (th <> 0)%Z.

Lemma lfh_learning_stat c0 c g : Learning c0 c -> Learning c0 (with_stat g c).
Proof. intros (g0 & th & -> & Hth). by exists (fun s => g (g0 s)), th. Qed.

Lemma learning_threshold c0 c th : Learning c0 c -> (th <> 0)%Z -> Learning c0 (with_threshold th c).
Proof. intros (g0 & th0 & -> & _) Hth. by exists g0, th. Qed.

Lemma wp_learning_stat c0 c yes g (Q : unit -> LFU_FHCache M T -> Prop) :
  Learning c0 c -> (forall c', Learning c0 c' -> Q tt c') -> wp (stat yes g) c Q.
Proof. intros L HQ. unfold stat. apply wp_when; intros _; [apply wp_modify|]; apply HQ; [by apply lfh_learning_stat | done]. Qed.

Lemma learning_of c0 c : Learning c0 c ->
  lists c = lists c0 /\ fast c = fast c0 /\ m_maxSize c = m_maxSize c0 /\ m_flags c = set_curve true false (m_flags c0) /\ (m_threshold c <> 0)%Z.
Proof. by intros (g & th & -> & Hth). Qed.

(** An access moves nothing. *)
Lemma wp_learning_access cap c0 c d a :
  Rep cap c0 (Sp d [] Dynamic) -> Learning c0 c -> wp (run_access a) c (fun _ c' => Learning c0 c').
Proof.
  intros R L. destruct (learning_of _ _ L) as (Hl & Hf & Hm & Hfl & Hth). rewrite (rp_mode _ _ _ R) in Hfl.
  destruct a as [ac k|k v]; cbn [run_access sample_generator negb].
  - unfold find, flag. do 9 wp_step; [by rewrite Hfl|]. do 2 wp_step. rewrite Hfl. cbn [FH_ready mode_flags set_curve md]. cbn [find_from]. unfold flag.
    do 4 wp_step. change (bool_decide (Dynamic = Dynamic)) with true. cbn [negb andb fst snd]. do 4 wp_step. rewrite Hl. destruct (chm_find (m_map (lists c0)) k) as [x|] eqn:Hx.
    + assert (Hr := lfh_rep_find _ _ _ k R). cbn in Hr. rewrite Hx in Hr. destruct Hr as (a & Hxa & _ & fr & Ha).
      destruct (rep_hit _ _ _ k _ _ R eq_refl Ha) as (a' & b & pre & post & Hx' & _ & Hloc & _). rewrite Hx in Hx'. injection Hx' as ->.
      do 2 wp_step. rewrite Hfl. cbn [FH_construct mode_flags set_curve listNode]. do 2 wp_step. rewrite Hl, Hf, Hloc. do 2 wp_step. rewrite Hfl.
      cbn [curve_flag set_curve]. unfold curve_handle. do 4 wp_step; [by apply negb_true_iff, Z.eqb_neq|]. wp_step.
      case_match; apply (wp_learning_stat _ _ _ _ _ L); intros c' L'; do 2 wp_step; done.
    + wp_step. apply (wp_learning_stat _ _ _ _ _ L). intros c' L'. by do 2 wp_step.
  - unfold insert, refuses, flag. do 2 wp_step. apply (wp_learning_stat _ _ _ _ _ L). intros c' L'.
    destruct (learning_of _ _ L') as (_ & _ & _ & Hfl' & _). do 6 wp_step. rewrite Hfl'. cbn [curve_flag set_curve]. rewrite orb_true_r. by do 2 wp_step.
Qed.

Lemma wp_learning_accesses cap c0 c d l :
  Rep cap c0 (Sp d [] Dynamic) -> Learning c0 c -> wp (run_accesses l) c (fun _ c' => Learning c0 c').
Proof.
  intros R. revert c. induction l as [|a l IH]; intros c L; cbn [run_accesses]; [by wp_step|].
  wp_step. eapply wp_mono; [by eapply wp_learning_access|]. intros [] c1 L1. by apply IH.
Qed.

Lemma due_le cap i F : (0 <= cap * i < 2 ^ 64)%Z -> Qle_bool (inject_Z F) (due cap i) = true -> (100 * F <= 2 * (cap * i))%Z.
Proof. intros Hb Hq. apply Qle_bool_iff in Hq. revert Hq. unfold due. rewrite u64_small by done. unfold Qle. cbn. lia. Qed.

(** The walk has come between [l1] and [l2]. *)
Definition Walked c0 (l1 l2 : list ListNode) (FC_size : Z) (out_node : option positive) : Prop :=
  nodes (lists c0) = l1 ++ l2 /\ FC_size = Z.of_nat (length (home l1)) /\ out_node = address <$> head l2.

(** A size on the curve: that of the entries of the highest frequencies, at most
    9/10, or the whole. *)
Definition measured (cap : Z) (d : list (Z * (Z * Z))) (p : curve_data_node) : Prop :=
  size_ p = 1%Q \/ (0 <= size_ p <= 9 # 10)%Q /\ exists d1 d2, d = d1 ++ d2 /\ size_ p = (inject_Z (Z.of_nat (length d1)) / inject_Z cap)%Q /\
    forall x y, x ∈ d1 -> y ∈ d2 -> (freq y < freq x)%Z.

Section walk.
Context (cap : Z) (c0 : LFU_FHCache M T) (d : list (Z * (Z * Z))).
Context (R : Rep cap c0 (Sp d [] Dynamic)) (Hcap : (cap < 2 ^ 58)%Z) (Hfilled : (88 * cap < 100 * Z.of_nat (length d))%Z).
Context (A : nat -> list access) (should_stop : nat -> bool).

Lemma walk_length : length (home (nodes (lists c0))) = length d.
Proof using R. assert (Hd := rp_dyn _ _ _ R). cbn in Hd. rewrite <- Hd. unfold contents. by rewrite length_ents. Qed.

Lemma walked_bound l1 l2 FC out : Walked c0 l1 l2 FC out -> (0 <= FC <= cap)%Z /\ (l2 = [] -> FC = Z.of_nat (length d)).
Proof.
  intros (Hn & -> & _). assert (Hl := walk_length). rewrite Hn, home_app, length_app in Hl.
  assert (Hb := rp_bound _ _ _ R). assert (Hs := rp_size _ _ _ R). cbn in Hs. split; [lia|]. intros ->. rewrite <- Hl. unfold home at 3. cbn. lia.
Qed.

Lemma due_share i FC : (0 <= i <= 44)%Z -> (0 <= FC <= cap)%Z -> Qltb (due cap (i + 1)) (inject_Z FC) = false ->
  (0 <= inject_Z FC / inject_Z cap <= 9 # 10)%Q.
Proof.
  intros Hi HFC Hd. unfold Qltb in Hd. apply negb_false_iff, Qle_bool_iff in Hd. unfold due in Hd. rewrite u64_small in Hd by nia.
  destruct (decide (cap = 0%Z)) as [->|Hc].
  { assert (FC = 0%Z) as -> by lia. vm_compute. split; discriminate. }
  assert (Hcap0 : (0 < inject_Z cap)%Q) by (change 0%Q with (inject_Z 0); rewrite <- Zlt_Qlt; lia).
  split.
  - apply Qle_shift_div_l; [done|]. rewrite Qmult_0_l. change 0%Q with (inject_Z 0). rewrite <- Zle_Qle. lia.
  - apply Qle_shift_div_r; [done|]. eapply Qle_trans; [exact Hd|].
    assert (Hle : (inject_Z (cap * (i + 1)) <= inject_Z (45 * cap))%Q) by (rewrite <- Zle_Qle; nia).
    rewrite (inject_Z_mult 45) in Hle. change (inject_Z 45) with 45%Q in Hle. unfold Qdiv. change (/ 100)%Q with (1 # 100)%Q. lra.
Qed.

Lemma walked_measured i l1 l2 FC out hit miss : Walked c0 l1 l2 FC out -> (0 <= i <= 44)%Z -> Qltb (due cap (i + 1)) (inject_Z FC) = false ->
  measured cap d {| size_ := inject_Z FC / inject_Z cap; FC_hit_ := hit; miss_ := miss |}.
Proof.
  intros Hw Hi Hdue. right. split; [apply (due_share i); [done | by eapply walked_bound | done]|]. clear Hdue. destruct Hw as (Hn & -> & _).
  assert (Hd := rp_dyn _ _ _ R). cbn in Hd. unfold contents in Hd. rewrite Hn, ents_app in Hd.
  eexists _, _. split_and!; [by rewrite <- Hd | cbn; by rewrite length_ents |]. apply ents_lt.
  assert (Ho := wf_order _ _ (rp_wf _ _ _ R)). rewrite Hn in Ho. by apply StronglySorted_app in Ho as (Ho & _ & _).
Qed.

Lemma wp_curve_fill i fuel t l1 l2 FC out c :
  Learning c0 c -> Walked c0 l1 l2 FC out -> (0 <= i <= 44)%Z -> (length l2 < fuel)%nat ->
  wp (curve_fill (fun t => run_accesses (A t)) should_stop i fuel t FC out) c (fun r c' =>
    Learning c0 c' /\ exists l1' l2', Walked c0 l1' l2' r.1.2 r.2 /\ (length l2' <= length l2)%nat).
Proof.
  revert t l1 l2 FC out c. induction fuel as [|fuel IH]; intros t l1 l2 FC out c L Hw Hi Hf; [lia|]. cbn [curve_fill].
  wp_step. eapply wp_mono; [by eapply wp_learning_accesses|]. intros [] c1 L1. clear c L. do 2 wp_step.
  destruct (learning_of _ _ L1) as (Hl & _ & Hm & _). rewrite Hm, (rp_cap _ _ _ R). destruct (walked_bound _ _ _ _ Hw) as [HFC Hend].
  destruct (Qle_bool _ _) eqn:Eq; cbn [andb]; [|wp_step; split; [done|]; by exists l1, l2].
  destruct (should_stop t); cbn [negb]; [wp_step; split; [done|]; by exists l1, l2|].
  apply due_le in Eq; [|nia]. destruct Hw as (Hn & HFC' & ->). destruct l2 as [|b l2]; cbn [head fmap option_fmap option_map].
  { exfalso. specialize (Hend eq_refl). nia. }
  do 2 wp_step. rewrite Hl, (locate_at _ _ _ _ _ (rp_wf _ _ _ R) Hn).
  assert (Hw : forall out', out' = address <$> head l2 -> Walked c0 (l1 ++ [b]) l2 (u64 (FC + Z.of_nat (length (ring b)))) out').
  { intros out' ->. assert (Hlb : length (home (l1 ++ [b])) = (length (home l1) + length (ring b))%nat).
    { rewrite home_app, length_app. f_equal. rewrite <- (length_fmap fst), keys_cons, length_app. unfold home. cbn. lia. }
    split_and!; [by rewrite <- (assoc_L (++)) | | done]. rewrite Hlb, u64_small; [lia|].
    assert (Hlen := walk_length). rewrite Hn, cons_middle, (assoc_L (++)), home_app, length_app, Hlb in Hlen.
    assert (Hb := rp_bound _ _ _ R). assert (Hs := rp_size _ _ _ R). cbn in Hs. lia. }
  destruct l2 as [|b' l2]; [wp_step; split; [done|]; exists (l1 ++ [b]), []; split; [by apply Hw | cbn; lia]|].
  assert (Hb' : (fre b' <> 0)%Z).
  { assert (Hp := wf_pos _ _ (rp_wf _ _ _ R)). rewrite Hn in Hp. apply Forall_app in Hp as [_ Hp]. apply Forall_cons in Hp as [_ Hp].
    apply Forall_cons in Hp as [Hp _]. lia. }
  assert (L2 := learning_threshold _ _ _ L1 Hb'). do 4 wp_step. cbn [length] in Hf.
  case_match; [wp_step; split; [done|]; exists (l1 ++ [b]), (b' :: l2); split; [by apply Hw | cbn; lia]|].
  eapply wp_mono; [apply (IH _ (l1 ++ [b]) (b' :: l2)); [done | by apply Hw | done | cbn; lia]|].
  intros r c' [L' (l1' & l2' & Hw' & Hle)]. split; [done|]. exists l1', l2'. split; [done | cbn in *; lia].
Qed.

Lemma lfh_wp_curve_loop n i fuel t l1 l2 FC out c :
  Learning c0 c -> Walked c0 l1 l2 FC out -> (0 <= i)%Z -> (i + Z.of_nat n = 45)%Z -> (length l2 < fuel)%nat ->
  wp (curve_loop (fun t => run_accesses (A t)) should_stop n i fuel t FC out) c (fun curve c' =>
    Learning c0 c' /\ Forall (measured cap d) curve /\ (length curve <= n)%nat).
Proof.
  revert i t l1 l2 FC out c. induction n as [|n IH]; intros i t l1 l2 FC out c L Hw Hi Hn Hf; cbn [curve_loop]; [by wp_step|].
  wp_step. eapply wp_mono; [by eapply wp_learning_accesses|]. intros [] c1 L1. clear c L.
  case_match; [wp_step; split_and!; [done | done | cbn; lia]|]. wp_step.
  eapply wp_mono; [eapply wp_curve_fill; [exact L1 | exact Hw | lia | exact Hf]|]. clear Hw L1 c1. cbn beta.
  intros [[t1 FC1] out1] c2 [L2 (l1' & l2' & Hw & Hle)]. cbn [fst snd] in Hw. do 2 wp_step.
  assert (Hrest : wp (curve_loop (fun t => run_accesses (A t)) should_stop n (i + 1) fuel t1 FC1 out1) c2 (fun curve c' =>
    Learning c0 c' /\ Forall (measured cap d) curve /\ (length curve <= n)%nat)) by (eapply IH; [exact L2 | exact Hw | lia..]).
  destruct (learning_of _ _ L2) as (_ & _ & Hm & _). rewrite Hm, (rp_cap _ _ _ R).
  destruct (Qltb (due cap (i + 1)) (inject_Z FC1)) eqn:Hdue; [eapply wp_mono; [exact Hrest|]; intros curve c' (L' & Hc & Hlen); split_and!; [done | done | lia]|].
  do 2 wp_step. destruct (print_step2 (m_stat c2)).1 as [hit miss].
  case_match; [wp_step; split_and!; [done | repeat constructor | cbn; lia]|].
  wp_step. eapply wp_mono; [exact Hrest|]. intros curve c' (L' & Hc & Hlen). wp_step.
  split_and!; [done | | cbn; lia]. apply Forall_cons. split; [eapply (walked_measured i); [done | lia | done] | done].
Qed.
End walk.
End props.


(** ** Runs *)
Definition demo_accesses (t : nat) : list access := 
  match t with O => [Look 0 1; Put 9 90; Look 0 3] | S O => [Look 0 2; Look 0 9] | _ => [Look 0 1] end%Z.

Lemma rep_after cap ops c :
  (0 < cap < 2 ^ 64)%Z -> Forall op_ok ops -> after cap ops = Some c -> m_flags c = mode_flags Dynamic true ->
  exists d, Rep cap c (Sp d [] Dynamic) /\ contents (lists c) = d.
Proof.
  intros Hc Hok Ha Hfl. unfold after in Ha. destruct (new_LFU_FHCache cap) as [c0|] eqn:Hn; [|done]. cbn in Ha.
  assert (R0 := lfh_rep_new (M := gmap Z) (T := gmap Z Z) cap c0 Hc Hn). assert (Hr := run_follows cap ops c0 _ R0 Hok).
  destruct (run ops c0) as [[answers c']|e]; [|done]. injection Ha as ->. destruct Hr as ([d f m'] & _ & R).
  assert (m' = Dynamic) as ->. { assert (Hm := rp_mode _ _ _ R). rewrite Hfl in Hm. cbn in Hm. by destruct m'. }
  exists d. assert (Hd : contents (lists c) = d) by apply (rp_dyn _ _ _ R). split; [|done].
  assert (Hff := fast_nil_frz _ _ _ R (rp_fast _ _ _ R)). cbn in Hff. by subst f.
Qed.


(** A cache of which a quarter is filled, with a lookup between any two points:
    the pass walks off the end of the list. *)
Example learning_not_filled :
  match after 4 [Insert true 1 10]%Z with
  | Some c => get_curve (fun _ => run_accesses [Look 0 1]%Z) (fun _ => false) 5 [] c = Crash NullDeref
  | None => False
  end.
Proof. vm_compute. reflexivity. Qed.
