(* ===== verification/ShardCalls.v ===== *)
(** * What the controller's calls do to a shard

    [MonitorProps] follows a shard through the calls of the controller as three
    booleans: whether its frozen list has nodes, and the two flags.  Here this is
    what the methods of the FIFO and the LFU shards do, with the conditions under
    which a construction has something to freeze ([fills]) and the list can be cut
    at the ratio asked for ([cuts]). *)

From S2P Require Import Prelude Interfaces CacheSpec FHCache FHLinks FastHash FIFOFH FHSlots FIFOFHSpec Monitor MonitorProps FreqLists LFUFH LFUFHProps.
From Stdlib Require Import QArith Qround.
Local Close Scope Q_scope.

(** ** The LFU shard *)
Section lfu.
Context {M : Type -> Type} `{CHMLaws M} {T : Type} `{CLHTLaws T}.
Implicit Types (c : LFU_FHCache M T).

Definition lfu_shard c : shard := {|
  listed := bool_decide (fast c <> []); tier := LFUFH.tier_no_insert (LFUFH.m_flags c); ready := FH_ready (LFUFH.m_flags c) |}.

Lemma lfu_shard_of cap c sp : LFUFHProps.Rep cap c sp ->
  lfu_shard c = {| listed := bool_decide (fast c <> []); tier := bool_decide (md sp = Tier); ready := negb (bool_decide (md sp = Dynamic)) |}.
Proof. intros R. unfold lfu_shard. by rewrite (LFUFHProps.rp_mode _ _ _ R). Qed.

Lemma not_listed c : listed (lfu_shard c) = false <-> fast c = [].
Proof. cbn. destruct (fast c); [split; [done|]; intros _; by apply bool_decide_eq_false_2; intros [] | split; [|done]; intros Hb; by rewrite bool_decide_eq_true_2 in Hb]. Qed.

Lemma ents_nodes v l : ents v l <> [] -> l <> [].
Proof. by intros Hn ->. Qed.

End lfu.

(** ** The FIFO shard *)
Section fifo.
Context {M : Type -> Type} `{CHMLaws M} {T : Type} `{CLHTLaws T}.
Implicit Types (c : FIFO_FHCache M T) (dc fc : list slot) (F : gmap Z Z).

(** [fc] is what is in its frozen list. *)
Definition fifo_shard c fc : shard := {|
  listed := bool_decide (fc <> []); tier := FIFOFH.tier_no_insert (FIFOFH.m_flags c); ready := fast_hash_ready (FIFOFH.m_flags c) |}.

Lemma fifo_thawed c dc fc F : FIFOFHSpec.Rep c dc fc F -> frozen_on c = false -> fifo_shard c fc = thawed.
Proof.
  intros R Hoff. destruct (rp_tier _ _ _ _ R) as [Ht _]. destruct (rp_off _ _ _ _ R Hoff) as [_ ->].
  apply orb_false_elim in Hoff as [H1' H2']. unfold fifo_shard, thawed. by rewrite Ht, H1', H2'.
Qed.

(** The FIFO shard: [construct_tier] of one that is not frozen freezes its live
    entries; so does [construct_ratio] if it is not below [FC_RELAXATION], the
    list is longer and starts with a live entry; [deconstruct] resets the flags if
    the frozen list has nodes, and otherwise does nothing. *)
Theorem fifo_shard_calls c dc fc F : FIFOFHSpec.Rep c dc fc F ->
  (frozen_on c = false -> exists c', FIFOFH.construct_tier c = Ok (true, c') /\
    exec_construct_tier FIFO_FH (bool_decide (live dc <> [])) (fifo_shard c fc) = Some (fifo_shard c' (entries (live dc)))) /\
  (forall q k v dc' fuel l r, frozen_on c = false -> ratio_ok FIFO_FH q = true -> dc = FHSlots.Live k v :: dc' ->
    (FC_RELAXATION <= ratio_size q (FIFOFH.m_maxSize c))%Z -> cut_at (ratio_size q (FIFOFH.m_maxSize c) - FC_RELAXATION) 0 dc = Some (l, r) ->
    length dc < fuel -> (Z.of_nat (length dc) < 2 ^ 64)%Z ->
    exists c', FIFOFH.construct_ratio no_others fuel q c = Ok (true, c') /\
      exec_construct_ratio FIFO_FH (bool_decide (l <> [])) true q (fifo_shard c fc) = Some (fifo_shard c' (entries l))) /\
  (exists c' fc', FIFOFH.deconstruct c = Ok (tt, c') /\ fifo_shard c' fc' = exec_deconstruct (fifo_shard c fc) /\
    exists dc' F', FIFOFHSpec.Rep c' dc' fc' F').
Proof.
  assert (Hent : forall l : list (Z * Z), bool_decide (entries l <> []) = bool_decide (l <> [])).
  { intros l. apply bool_decide_ext. unfold entries. split; intros Hn He; apply Hn; [by rewrite He | by apply fmap_nil_inv in He]. }
  intros R. split_and!.
  - intros Hoff. rewrite (fifo_thawed c dc fc F R Hoff). destruct (rp_off _ _ _ _ R Hoff) as [-> ->].
    destruct (wp_elim _ _ _ (wp_construct_tier c dc R Hoff)) as (b & c' & Hc & -> & R' & Ht & _ & Hr). exists c'. split; [done|].
    unfold fifo_shard. destruct (rp_tier _ _ _ _ R') as [-> _]. by rewrite Ht, Hr, Hent.
  - intros q k v dc' fuel l r Hoff Hq -> HFC Hcut Hfuel H64. rewrite (fifo_thawed c _ fc F R Hoff). destruct (rp_off _ _ _ _ R Hoff) as [-> ->].
    assert (Hq' := Hq). unfold ratio_ok in Hq'. cbn [is_lfu] in Hq'. apply andb_true_iff in Hq' as [Hq1 Hq0].
    destruct (wp_elim _ _ _ (wp_construct_ratio c k v dc' fuel q l r R Hoff Hq1 Hq0 HFC Hcut Hfuel H64)) as (b & c' & Hc & -> & R' & Ht & Hon & _).
    exists c'. split; [done|]. unfold exec_construct_ratio. rewrite Hq. cbn. unfold fifo_shard. destruct (rp_tier _ _ _ _ R') as [-> _].
    unfold frozen_on in Hon. rewrite Ht in Hon |- *. cbn in Hon. by rewrite Hon, Hent.
  - destruct (decide (fc = [])) as [->|Hne].
    + destruct (wp_elim _ _ _ (wp_deconstruct_empty c dc F R)) as ([] & c' & Hd & ->). exists c, []. split_and!; [done | done | by exists dc, F].
    + destruct (wp_elim _ _ _ (wp_deconstruct c dc fc F R Hne)) as ([] & c' & Hd & R' & Hoff & _). exists c', []. split_and!; [done | | by exists (fc ++ dc), ∅].
      unfold exec_deconstruct. cbn [listed fifo_shard]. rewrite bool_decide_eq_true_2 by done. by eapply fifo_thawed.
Qed.
End fifo.

