(* ===== verification/RedisLRU.v ===== *)
(** * The Redis-style LRU cache ([cache/redis_lru.h])

    [RedisLRUCache] keeps no order: an entry has the time of its last lookup,
    and an eviction takes the longest idle entry of a pool of 16 candidates,
    which it fills from a few random keys first.  [RandomizedSet] has the keys
    the random ones are drawn from.

    The generator is the thread's [Random] (see [Util]); [clock i] is what the
    [i]-th call of [ustime] returns.  The [lru_object] of an entry is kept in
    the entry: nothing else points to it. *)

From S2P Require Import Prelude Interfaces BaseCache CacheSpec Util.
Local Open Scope Z_scope.

(** ** [RandomizedSet] *)
Module RandomizedSet.
(** [PositionMap] is a [std::unordered_map<TKey, int>]. *)
Record set := { PositionMap : gmap Z Z; vec : list Z }.

Definition empty : set := {| PositionMap := ∅; vec := [] |}.

Definition size (s : set) : Z := Z.of_nat (length (vec s)).

Definition insert (key : Z) (s : set) : bool * set :=
  match PositionMap s !! key with
  | Some _ => (false, s)
  | None => (true, {| PositionMap := <[key := size s]> (PositionMap s); vec := vec s ++ [key] |})
  end.

(** [vec.back()] and [vec[pos]] outside of the vector are undefined. *)
Definition remove (key : Z) (s : set) : res (bool * set) :=
  match PositionMap s !! key with
  | None => Ok (false, s)
  | Some pos =>
      match last (vec s), vec s !! Z.to_nat pos with
      | Some back, Some x =>
          let m := delete key (<[back := pos]> (PositionMap s)) in
          (* [std::swap(vec[pos], vec[vec.size() - 1]); vec.pop_back()] *)
          let v := removelast (<[Z.to_nat pos := back]> (<[pred (length (vec s)) := x]> (vec s))) in
          Ok (true, {| PositionMap := m; vec := v |})
      | _, _ => Crash OutOfRange
      end
  end.

(** [next / RAND_MAX * vec.size()], truncated; the quotient is exact here. *)
Definition RAND_MAX : Z := 2147483647.
Definition getRandom (next : Z) (s : set) : res Z :=
  match vec s !! Z.to_nat (next * size s / RAND_MAX) with
  | Some key => Ok key
  | None => Crash OutOfRange
  end.
End RandomizedSet.

(** ** [RedisLRUCache] *)
Definition LRU_BITS : Z := 24.
Definition LRU_CLOCK_MAX : Z := 2 ^ LRU_BITS - 1.
Definition LRU_CLOCK_RESOLUTION : Z := 100.
Definition EVICTION_POOL_SIZE : nat := 16.
Definition EVICTION_SAMPLE : nat := 5.

Record evictionPoolEntry := PE { idle : Z; key : Z }.
Record RedisValue := RV { m_value : Z; lru : Z }.

Section cache.
Context {M : Type -> Type} `{CHM M} (clock : nat -> Z).

Record RedisLRUCache := {
  n : Z;
  s : Z;
  EvictionPool : list nat;             (* the addresses of pool entries *)
  pool_entries : list evictionPoolEntry;
  m_map : M RedisValue;
  rs : RandomizedSet.set;
  stat : BaseStat;
  seed_ : Z;                           (* the thread's generator *)
  calls : nat                          (* of [ustime] *)
}.

Definition with_s (x : Z) (c : RedisLRUCache) : RedisLRUCache :=
  {| n := n c; s := x; EvictionPool := EvictionPool c; pool_entries := pool_entries c; m_map := m_map c; rs := rs c;
     stat := stat c; seed_ := seed_ c; calls := calls c |}.
Definition with_pool (p : list nat) (c : RedisLRUCache) : RedisLRUCache :=
  {| n := n c; s := s c; EvictionPool := p; pool_entries := pool_entries c; m_map := m_map c; rs := rs c;
     stat := stat c; seed_ := seed_ c; calls := calls c |}.
Definition with_entries (l : list evictionPoolEntry) (c : RedisLRUCache) : RedisLRUCache :=
  {| n := n c; s := s c; EvictionPool := EvictionPool c; pool_entries := l; m_map := m_map c; rs := rs c;
     stat := stat c; seed_ := seed_ c; calls := calls c |}.
Definition with_map (m : M RedisValue) (c : RedisLRUCache) : RedisLRUCache :=
  {| n := n c; s := s c; EvictionPool := EvictionPool c; pool_entries := pool_entries c; m_map := m; rs := rs c;
     stat := stat c; seed_ := seed_ c; calls := calls c |}.
Definition with_rs (r : RandomizedSet.set) (c : RedisLRUCache) : RedisLRUCache :=
  {| n := n c; s := s c; EvictionPool := EvictionPool c; pool_entries := pool_entries c; m_map := m_map c; rs := r;
     stat := stat c; seed_ := seed_ c; calls := calls c |}.
Definition with_stat (b : BaseStat) (c : RedisLRUCache) : RedisLRUCache :=
  {| n := n c; s := s c; EvictionPool := EvictionPool c; pool_entries := pool_entries c; m_map := m_map c; rs := rs c;
     stat := b; seed_ := seed_ c; calls := calls c |}.
Definition with_seed (x : Z) (c : RedisLRUCache) : RedisLRUCache :=
  {| n := n c; s := s c; EvictionPool := EvictionPool c; pool_entries := pool_entries c; m_map := m_map c; rs := rs c;
     stat := stat c; seed_ := x; calls := calls c |}.
Definition tick (c : RedisLRUCache) : RedisLRUCache :=
  {| n := n c; s := s c; EvictionPool := EvictionPool c; pool_entries := pool_entries c; m_map := m_map c; rs := rs c;
     stat := stat c; seed_ := seed_ c; calls := S (calls c) |}.

Abbreviation RC A := (SM RedisLRUCache A) (only parsing).

Definition of_res {A} (r : res A) : RC A := fun c => match r with Ok a => Ok (a, c) | Crash e => Crash e end.

Definition ustime : RC Z := i ← gets calls; modify tick;; mret (clock i).

(** [lru_object(key)], [lru = ustime()]: an [unsigned]. *)
Definition new_lru : RC Z := t ← ustime; mret (u32 t).

Definition new_RedisLRUCache (capacity seed : Z) (t : nat) : RedisLRUCache :=
  {| n := capacity; s := 0; EvictionPool := seq 0 EVICTION_POOL_SIZE; pool_entries := replicate EVICTION_POOL_SIZE (PE 0 0);
     m_map := chm_empty _; rs := RandomizedSet.empty; stat := {| hit_num := 0; miss_num := 0 |}; seed_ := seed; calls := t |}.

Definition size : RC Z := gets s.

(** The vectors of [rs] stay, and so does the pool. *)
Definition clear : RC unit :=
  m ← gets m_map;
  modify (with_map (chm_clear m));;
  modify (with_s 0).

(** [sample_generator()] draws from the generator of the thread; what it answers
    is [sample]. *)
Definition sample_generator : RC unit := modify (fun c => with_seed (Next (seed_ c)) c).

Definition find (sample : bool) (ac k : Z) : RC (bool * Z) :=
  m ← gets m_map;
  match chm_find m k with
  | None =>
      sample_generator;;
      modify (fun c => with_stat (count_find sample false (stat c)) c);;
      mret (false, ac)
  | Some hashAccessor =>
      t ← new_lru;
      modify (fun c => with_map (chm_assign (m_map c) k (RV (m_value hashAccessor) t)) c);;
      sample_generator;;
      modify (fun c => with_stat (count_find sample true (stat c)) c);;
      mret (true, m_value hashAccessor)
  end.

(** ** Eviction *)
Definition idle_time (lruclock lru : Z) : Z :=
  if lru <=? lruclock then (lruclock - lru) / LRU_CLOCK_RESOLUTION
  else (lruclock + u32 (LRU_CLOCK_MAX - lru)) / LRU_CLOCK_RESOLUTION.

Definition estimateObjectIdleTime (lru : Z) : RC Z := lruclock ← ustime; mret (idle_time lruclock lru).

(** [rs.getRandom()] with the thread's generator. *)
Definition getRandom : RC Z :=
  modify (fun c => with_seed (Next (seed_ c)) c);;
  c ← gets (fun c => c);
  of_res (RandomizedSet.getRandom (seed_ c) (rs c)).

(** [while((i < EVICTION_SAMPLE * 2) && (count < EVICTION_SAMPLE))], [i] turns left. *)
Fixpoint draw_samples (i : nat) (samples : list Z) : RC (list Z) :=
  match i with
  | O => mret samples
  | S i =>
      if (length samples <? EVICTION_SAMPLE)%nat then
        sampled_key ← getRandom;
        draw_samples i (if bool_decide (sampled_key ∈ samples) then samples else samples ++ [sampled_key])
      else mret samples
  end.

(** [*(EvictionPool[j])] *)
Definition get_slot (j : nat) : RC evictionPoolEntry :=
  c ← gets (fun c => c);
  of_res (match EvictionPool c !! j with
          | Some p => match pool_entries c !! p with Some e => Ok e | None => Crash UseAfterFree end
          | None => Crash OutOfRange
          end).
Definition set_slot (j : nat) (e : evictionPoolEntry) : RC unit :=
  c ← gets (fun c => c);
  p ← of_res (match EvictionPool c !! j with Some p => Ok p | None => Crash OutOfRange end);
  modify (fun c => with_entries (<[p := e]> (pool_entries c)) c).

(** [while(j < EVICTION_POOL_SIZE && EvictionPool[j]->key && EvictionPool[j]->idle < idle) j++] *)
Fixpoint find_slot (new_idle : Z) (turns j : nat) : RC nat :=
  match turns with
  | O => mret j
  | S turns =>
      e ← get_slot j;
      if negb (key e =? 0) && (idle e <? new_idle) then find_slot new_idle turns (S j) else mret j
  end.

(** [memmove(EvictionPool + j + 1, EvictionPool + j, EVICTION_POOL_SIZE - j - 1)] *)
Definition move_right (j : nat) (p : list nat) : list nat := take (S j) p ++ take (EVICTION_POOL_SIZE - j - 1) (drop j p).
(** [memmove(EvictionPool, EvictionPool + 1, j)] *)
Definition move_left (j : nat) (p : list nat) : list nat := take j (drop 1 p) ++ drop j p.

(** One sample. *)
Definition populate1 (sample : Z) : RC unit :=
  m ← gets m_map;
  match chm_find m sample with
  | None => mret tt
  | Some x =>
      new_idle ← estimateObjectIdleTime (lru x);
      if new_idle =? 0 then mret tt else
      j ← find_slot new_idle EVICTION_POOL_SIZE 0;
      first ← get_slot 0;
      last_ ← get_slot (EVICTION_POOL_SIZE - 1);
      if (j =? 0)%nat && negb (key first =? 0) && negb (key last_ =? 0) then mret tt else
      free ← (if (j <? EVICTION_POOL_SIZE)%nat then e ← get_slot j; mret (key e =? 0) else mret false);
      j ← (if (free : bool) then mret j
           else if key last_ =? 0 then modify (fun c => with_pool (move_right j (EvictionPool c)) c);; mret j
           else match j with
                | O => crashes OutOfRange
                | S j => modify (fun c => with_pool (move_left j (EvictionPool c)) c);; mret j
                end);
      set_slot j (PE new_idle sample)
  end.

Fixpoint populate (samples : list Z) : RC unit :=
  match samples with
  | [] => mret tt
  | x :: samples => populate1 x;; populate samples
  end.

Definition evictionPoolPopulate : RC unit :=
  samples ← draw_samples (EVICTION_SAMPLE * 2) [];
  populate samples.

(** [for (int k = EVICTION_POOL_SIZE - 1; k >= 0; k --)], [k] turns left. *)
Fixpoint evict_best (k : nat) : RC bool :=
  match k with
  | O => mret false
  | S k =>
      e ← get_slot k;
      if key e =? 0 then evict_best k else
      m ← gets m_map;
      match chm_find m (key e) with
      | None => set_slot k (PE 0 0);; evict_best k
      | Some _ =>
          modify (with_map (chm_erase m (key e)).2);;
          c ← gets (fun c => c);
          r ← of_res (RandomizedSet.remove (key e) (rs c));
          modify (with_rs r.2);;
          set_slot k (PE 0 0);;
          mret true
      end
  end.

Fixpoint performEvictions (fuel : nat) : RC bool :=
  match fuel with
  | O => crashes OutOfFuel
  | S fuel =>
      evictionPoolPopulate;;
      done ← evict_best EVICTION_POOL_SIZE;
      if (done : bool) then mret true else performEvictions fuel
  end.

Definition insert (fuel : nat) (k value : Z) : RC bool :=
  t ← new_lru;
  m ← gets m_map;
  let r := chm_insert m k (RV value t) in
  if negb r.1 then mret false else
  modify (with_map r.2);;
  modify (fun c => with_rs (RandomizedSet.insert k (rs c)).2 c);;
  c ← gets (fun c => c);
  if s c <? n c then modify (with_s (u64 (s c + 1)));; mret true
  else performEvictions fuel;; mret true.
End cache.

Arguments RedisLRUCache : clear implicits.
