(* ===== verification/RedisLRUProps.v ===== *)
(** * The Redis-style LRU cache: properties

    [redis_run_refines]: whatever the generator draws, an object answers every
    sequence of lookups and insertions as a bounded map that drops one entry,
    of its choice, when it is full; the eviction ends after two fillings of the
    pool at most. *)

From S2P Require Import Prelude Interfaces BaseCache CacheSpec Util RedisLRU.
Local Open Scope Z_scope.

(** ** [RandomizedSet] *)
Section set.
Implicit Types (x : RandomizedSet.set) (k p : Z) (i : nat).

(** The map gives every key of the vector its position. *)
Record SetOk x : Prop := {
  so_nodup : NoDup (RandomizedSet.vec x);
  so_pos : forall k p, RandomizedSet.PositionMap x !! k = Some p <-> 0 <= p /\ RandomizedSet.vec x !! Z.to_nat p = Some k
}.

Lemma set_ok_empty : SetOk RandomizedSet.empty.
Proof. split; cbn; [constructor|]. intros k p. rewrite lookup_empty, lookup_nil. naive_solver. Qed.

Lemma set_in x k : SetOk x -> is_Some (RandomizedSet.PositionMap x !! k) <-> k ∈ RandomizedSet.vec x.
Proof.
  intros [HN Hp]. split.
  - intros [p [_ Hv]%Hp]. by eapply list_elem_of_lookup_2.
  - intros [i Hi]%list_elem_of_lookup. exists (Z.of_nat i). apply Hp. split; [lia|]. by rewrite Nat2Z.id.
Qed.

Lemma set_insert_ok x k : SetOk x -> k ∉ RandomizedSet.vec x ->
  SetOk (RandomizedSet.insert k x).2 /\ RandomizedSet.vec (RandomizedSet.insert k x).2 = RandomizedSet.vec x ++ [k].
Proof.
  intros Hok Hk. assert (Hin := set_in x k Hok). unfold RandomizedSet.insert.
  destruct (RandomizedSet.PositionMap x !! k) as [p|] eqn:E; [exfalso; apply Hk, Hin; eauto|]. split; [|done].
  destruct Hok as [HN Hp]. unfold RandomizedSet.size. split; cbn.
  - apply NoDup_app. split_and!; [done | | apply NoDup_singleton]. intros j Hj ->%list_elem_of_singleton. done.
  - intros j q. destruct (decide (j = k)) as [->|Hj].
    + rewrite lookup_insert_eq. split.
      * intros [= <-]. split; [lia|]. rewrite Nat2Z.id. apply list_lookup_middle. done.
      * intros [Hq Hv]. apply lookup_app_Some in Hv as [Hv|[Hl Hv]]; [exfalso; apply Hk; by eapply list_elem_of_lookup_2|].
        apply list_lookup_singleton_Some in Hv as [Hv _]. f_equal. lia.
    + rewrite lookup_insert_ne, Hp by done. split; intros [Hq Hv]; (split; [done|]).
      * rewrite lookup_app_l; [done|]. by eapply lookup_lt_Some.
      * apply lookup_app_Some in Hv as [Hv|[Hl Hv]]; [done|]. apply list_lookup_singleton_Some in Hv as [_ Hv]. congruence.
Qed.

(** What [remove] leaves of a vector: the last element takes the place. *)
Lemma swap_pop (v : list Z) i k b :
  v !! i = Some k -> last v = Some b -> NoDup v ->
  let v' := removelast (<[i := b]> (<[pred (length v) := k]> v)) in
  v ≡ₚ k :: v' /\ forall j, v' !! j = if decide (j < pred (length v))%nat then (if decide (j = i) then Some b else v !! j) else None.
Proof.
  intros Hi Hb HN v'. destruct v as [|b' w _] using rev_ind; [done|]. rewrite last_snoc in Hb. injection Hb as ->.
  assert (Hlen : pred (length (w ++ [b])) = length w) by (rewrite length_app; cbn; lia). unfold v'. clear v'. rewrite Hlen.
  assert (Hins : forall y z, <[length w := y]> (w ++ [z]) = w ++ [y]) by (intros; by rewrite insert_app_r_alt, Nat.sub_diag).
  rewrite Hins. destruct (decide (i = length w)) as [->|Hne].
  - rewrite list_lookup_middle in Hi by done. injection Hi as <-. rewrite Hins, removelast_last. split.
    + by rewrite Permutation_app_comm.
    + intros j. case_decide; [rewrite decide_False by lia; by rewrite lookup_app_l | by apply lookup_ge_None_2; lia].
  - assert (Hlt : (i < length w)%nat) by (apply lookup_lt_Some in Hi; rewrite length_app in Hi; cbn in Hi; lia).
    rewrite lookup_app_l in Hi by done. rewrite insert_app_l, removelast_last by done. split.
    + rewrite Permutation_app_comm. cbn. assert (Hw := insert_take_drop w i b Hlt). rewrite Hw.
      rewrite <- (take_drop_middle w i k Hi) at 1. rewrite <- !Permutation_middle. by rewrite Permutation_swap.
    + intros j. case_decide; [|apply lookup_ge_None_2; rewrite length_insert; lia]. destruct (decide (j = i)) as [->|Hj].
      * by apply list_lookup_insert_eq.
      * rewrite list_lookup_insert_ne, lookup_app_l by done. done.
Qed.

Lemma set_remove_ok x k : SetOk x -> k ∈ RandomizedSet.vec x ->
  exists x', RandomizedSet.remove k x = Ok (true, x') /\ SetOk x' /\ RandomizedSet.vec x ≡ₚ k :: RandomizedSet.vec x'.
Proof.
  intros Hok Hk. assert (Hin := proj2 (set_in x k Hok) Hk). destruct Hin as [p Hp]. unfold RandomizedSet.remove. rewrite Hp.
  destruct Hok as [HN Hpos]. destruct (proj1 (Hpos k p) Hp) as [H0p Hv]. destruct (last (RandomizedSet.vec x)) as [b|] eqn:Eb.
  2: { apply last_None in Eb. rewrite Eb in Hv. done. }
  rewrite Hv. destruct (swap_pop _ _ _ _ Hv Eb HN) as [Hperm Hlook]. eexists. split; [done|]. split; [|exact Hperm].
  assert (HN' := HN). rewrite Hperm in HN'. apply NoDup_cons in HN' as [Hk' HN']. split; [exact HN'|]. cbn. intros j q.
  assert (Hlast : RandomizedSet.vec x !! pred (length (RandomizedSet.vec x)) = Some b) by (by rewrite last_lookup in Eb).
  assert (Huniq : forall i1 i2 y, RandomizedSet.vec x !! i1 = Some y -> RandomizedSet.vec x !! i2 = Some y -> i1 = i2) by (intros i1 i2 y H1 H2; exact (NoDup_lookup _ _ _ _ HN H1 H2)).
  destruct (decide (j = k)) as [->|Hj].
  { rewrite lookup_delete_eq. split; [done|]. intros [_ Hq]. exfalso. apply Hk'. by eapply list_elem_of_lookup_2. }
  rewrite lookup_delete_ne by done. rewrite Hlook. assert (Hlen : forall i y, RandomizedSet.vec x !! i = Some y -> (i < length (RandomizedSet.vec x))%nat) by (intros i y; apply lookup_lt_Some).
  destruct (decide (j = b)) as [->|Hjb].
  - rewrite lookup_insert_eq. split.
    + intros [= <-]. split; [done|]. assert (Hne : Z.to_nat p <> pred (length (RandomizedSet.vec x))) by (intros Hpe; rewrite Hpe in Hv; congruence).
      specialize (Hlen _ _ Hv). rewrite decide_True by lia. by rewrite decide_True.
    + intros [Hq Hl]. case_decide; [|done]. case_decide; [f_equal; lia|]. specialize (Huniq _ _ _ Hl Hlast). lia.
  - rewrite lookup_insert_ne, Hpos by done. split; intros [Hq Hl]; (split; [done|]).
    + assert (Z.to_nat q <> Z.to_nat p) by (intros He; rewrite He in Hl; congruence).
      assert (Z.to_nat q <> pred (length (RandomizedSet.vec x))) by (intros He; rewrite He in Hl; congruence).
      specialize (Hlen _ _ Hl). rewrite decide_True, decide_False by lia. done.
    + case_decide; [|done]. case_decide; [congruence | done].
Qed.

(** A draw is one of the keys. *)
Lemma set_random_ok x next : 0 < next < RM -> RandomizedSet.vec x <> [] ->
  exists k, RandomizedSet.getRandom next x = Ok k /\ k ∈ RandomizedSet.vec x.
Proof.
  intros Hn Hx. unfold RandomizedSet.getRandom, RandomizedSet.size, RandomizedSet.RAND_MAX. unfold RM in Hn.
  assert (Hl : 0 < Z.of_nat (length (RandomizedSet.vec x))) by (destruct (RandomizedSet.vec x); [done | cbn; lia]).
  assert (Hi : 0 <= next * Z.of_nat (length (RandomizedSet.vec x)) / 2147483647 < Z.of_nat (length (RandomizedSet.vec x))).
  { split; [apply Z.div_pos; nia | apply Z.div_lt_upper_bound; nia]. }
  destruct (lookup_lt_is_Some_2 (RandomizedSet.vec x) (Z.to_nat (next * Z.of_nat (length (RandomizedSet.vec x)) / 2147483647))) as [k Hk]; [lia|].
  rewrite Hk. exists k. split; [done|]. by eapply list_elem_of_lookup_2.
Qed.
End set.

(** ** The specification: a bounded map *)
Inductive op := Find (sample : bool) (ac k : Z) | Insert (k v : Z) | Size.
Inductive answer := Found (r : bool * Z) | Inserted (b : bool) | Count (x : Z).

Inductive spec_step (cap : Z) : op -> gmap Z Z -> answer -> gmap Z Z -> Prop :=
  | s_hit sample ac k v g : g !! k = Some v -> spec_step cap (Find sample ac k) g (Found (true, v)) g
  | s_miss sample ac k g : g !! k = None -> spec_step cap (Find sample ac k) g (Found (false, ac)) g
  | s_dup k v w g : g !! k = Some w -> spec_step cap (Insert k v) g (Inserted false) g
  | s_insert k v g : g !! k = None -> Z.of_nat (base.size g) < cap -> spec_step cap (Insert k v) g (Inserted true) (<[k := v]> g)
  | s_evict k v g k' w : g !! k = None -> cap <= Z.of_nat (base.size g) -> <[k := v]> g !! k' = Some w ->
      spec_step cap (Insert k v) g (Inserted true) (delete k' (<[k := v]> g))
  | s_size g : spec_step cap Size g (Count (Z.of_nat (base.size g))) g.

Inductive spec_run (cap : Z) : list op -> gmap Z Z -> list answer -> gmap Z Z -> Prop :=
  | r_end g : spec_run cap [] g [] g
  | r_call o ops g a g' rest g'' : spec_step cap o g a g' -> spec_run cap ops g' rest g'' -> spec_run cap (o :: ops) g (a :: rest) g''.

(** Key 0 marks a free slot of the pool. *)
Definition op_ok (o : op) : Prop := match o with Insert k _ => k <> 0 | _ => True end.

Section run.
Context {M : Type -> Type} `{CHM M} (clock : nat -> Z).

(** Two fillings of the pool for an eviction. *)
Definition run_op (o : op) : SM (RedisLRUCache M) answer :=
  match o with
  | Find sample ac k => r ← find clock sample ac k; mret (Found r)
  | Insert k v => b ← insert clock 2 k v; mret (Inserted b)
  | Size => x ← size; mret (Count x)
  end.

Fixpoint run (ops : list op) : SM (RedisLRUCache M) (list answer) :=
  match ops with
  | [] => mret []
  | o :: ops => a ← run_op o; rest ← run ops; mret (a :: rest)
  end.
End run.

(** ** Representation *)
Section cache.
Context {M : Type -> Type} `{CHMLaws M}.
Context (clock : nat -> Z) (Hclock : forall i, 2 ^ 32 + LRU_CLOCK_RESOLUTION <= clock i).
Implicit Types (c : RedisLRUCache M) (g : gmap Z Z).

Definition slot c (j : nat) : option evictionPoolEntry := p ← EvictionPool c !! j; pool_entries c !! p.

(** All but the pool and the counters. *)
Record Holds c g : Prop := {
  hd_set : SetOk (rs c);
  hd_map : forall k, m_value <$> chm_find (m_map c) k = g !! k;
  hd_keys : forall k, k ∈ RandomizedSet.vec (rs c) <-> is_Some (g !! k);
  hd_lru : forall k x, chm_find (m_map c) k = Some x -> 0 <= lru x < 2 ^ 32;
  hd_nonzero : g !! 0 = None;
  hd_seed : 0 < seed_ c < RM
}.

Record PoolOk c : Prop := {
  po_slots : length (EvictionPool c) = EVICTION_POOL_SIZE;
  po_entries : length (pool_entries c) = EVICTION_POOL_SIZE;
  po_range : Forall (fun p => (p < EVICTION_POOL_SIZE)%nat) (EvictionPool c)
}.

(** What an eviction leaves alone. *)
Definition same c c' : Prop := n c' = n c /\ s c' = s c /\ stat c' = stat c.

Lemma same_refl c : same c c.
Proof. done. Qed.
Lemma same_trans c1 c2 c3 : same c1 c2 -> same c2 c3 -> same c1 c3.
Proof. intros (?&?&?) (?&?&?). split_and!; congruence. Qed.

Definition has_live c g : Prop := exists j e, slot c j = Some e /\ is_Some (g !! key e).
Definition all_empty c : Prop := forall j e, slot c j = Some e -> key e = 0.

Lemma slot_get c j : PoolOk c -> (j < EVICTION_POOL_SIZE)%nat -> exists p e, EvictionPool c !! j = Some p /\ pool_entries c !! p = Some e.
Proof.
  intros [H1 H2 H3] Hj. destruct (lookup_lt_is_Some_2 (EvictionPool c) j) as [p Hp]; [lia|].
  assert (Hlt := Forall_lookup_1 _ _ _ _ H3 Hp). cbn in Hlt.
  destruct (lookup_lt_is_Some_2 (pool_entries c) p) as [e He]; [lia|]. eauto.
Qed.

Lemma wp_get_slot c j (Q : evictionPoolEntry -> RedisLRUCache M -> Prop) :
  PoolOk c -> (j < EVICTION_POOL_SIZE)%nat -> (forall e, slot c j = Some e -> Q e c) -> wp (get_slot j) c Q.
Proof.
  intros P Hj HQ. destruct (slot_get c j P Hj) as (p & e & Hp & He). unfold get_slot. do 2 wp_step. rewrite Hp, He.
  apply HQ. unfold slot. by rewrite Hp.
Qed.

Lemma wp_set_slot c j e (Q : unit -> RedisLRUCache M -> Prop) :
  PoolOk c -> (j < EVICTION_POOL_SIZE)%nat ->
  (forall p, EvictionPool c !! j = Some p -> (p < length (pool_entries c))%nat -> Q tt (with_entries (<[p := e]> (pool_entries c)) c)) ->
  wp (set_slot j e) c Q.
Proof.
  intros P Hj HQ. destruct (slot_get c j P Hj) as (p & e0 & Hp & He). unfold set_slot. do 3 wp_step. rewrite Hp. apply wp_modify.
  apply HQ; [done|]. by eapply lookup_lt_Some.
Qed.

Lemma pool_set c p e : PoolOk c -> PoolOk (with_entries (<[p := e]> (pool_entries c)) c).
Proof. intros [H1 H2 H3]. split; cbn; [done | by rewrite length_insert | done]. Qed.

Lemma slot_set c p e j : (p < length (pool_entries c))%nat ->
  slot (with_entries (<[p := e]> (pool_entries c)) c) j = if decide (EvictionPool c !! j = Some p) then Some e else slot c j.
Proof.
  intros Hp. unfold slot. cbn. destruct (EvictionPool c !! j) as [q|]; cbn; [|by rewrite decide_False].
  destruct (decide (Some q = Some p)) as [[= ->]|Hq]; [by apply list_lookup_insert_eq|]. apply list_lookup_insert_ne. congruence.
Qed.

(** ** Filling the pool *)
Lemma wp_getRandom c g (Q : Z -> RedisLRUCache M -> Prop) :
  Holds c g -> g <> ∅ ->
  (forall k sd, is_Some (g !! k) -> 0 < sd < RM -> Q k (with_seed sd c)) -> wp getRandom c Q.
Proof.
  intros Hd Hg HQ. unfold getRandom. do 4 wp_step. cbn [with_seed seed_ rs].
  destruct (Next_mod (seed_ c) (hd_seed _ _ Hd)) as [_ Hn].
  assert (Hv : RandomizedSet.vec (rs c) <> []).
  { intros Hv. apply Hg, map_empty. intros k. apply eq_None_not_Some. intros Hk%(hd_keys _ _ Hd). rewrite Hv in Hk. by apply elem_of_nil in Hk. }
  destruct (set_random_ok (rs c) (Next (seed_ c)) Hn Hv) as (k & Hk & Hin). unfold of_res, wp. rewrite Hk. apply HQ; [|done].
  by apply (hd_keys _ _ Hd).
Qed.

Lemma holds_seed c g sd : Holds c g -> 0 < sd < RM -> Holds (with_seed sd c) g.
Proof. intros [] Hs. by split. Qed.

Lemma wp_draw_samples c g i samples (Q : list Z -> RedisLRUCache M -> Prop) :
  Holds c g -> g <> ∅ -> Forall (fun k => is_Some (g !! k)) samples ->
  (forall samples' sd, Forall (fun k => is_Some (g !! k)) samples' -> (i <> O \/ samples <> [] -> samples' <> []) -> 0 < sd < RM ->
     Q samples' (with_seed sd c)) ->
  wp (draw_samples i samples) c Q.
Proof.
  intros Hd Hg. revert c samples Hd Q. induction i as [|i IH]; intros c samples Hd Q Hs HQ; cbn [draw_samples].
  - wp_step. assert (Hc : with_seed (seed_ c) c = c) by by destruct c. rewrite <- Hc. apply HQ; [done | naive_solver | apply Hd].
  - case_match.
    + wp_step. apply (wp_getRandom c g _ Hd Hg). intros k sd Hk Hsd. apply IH; [by apply holds_seed | |].
      * case_bool_decide; [done|]. apply Forall_app. by repeat constructor.
      * intros samples' sd' Hs' Hne Hsd'. apply (HQ samples' sd'); [done | | done]. intros _. apply Hne. right.
        case_bool_decide as Hin; [by intros ->; apply elem_of_nil in Hin | by destruct samples].
    + wp_step. assert (Hc : with_seed (seed_ c) c = c) by by destruct c. rewrite <- Hc. apply HQ; [done | | apply Hd].
      intros _ ->. done.
Qed.

Lemma wp_find_slot c new_idle turns j (Q : nat -> RedisLRUCache M -> Prop) :
  PoolOk c -> (turns + j = EVICTION_POOL_SIZE)%nat ->
  (forall j', (j' <= EVICTION_POOL_SIZE)%nat -> (all_empty c -> turns <> O -> j' = j) ->
     (turns <> O -> j' = EVICTION_POOL_SIZE -> forall e, slot c (EVICTION_POOL_SIZE - 1) = Some e -> key e <> 0) -> Q j' c) ->
  wp (find_slot new_idle turns j) c Q.
Proof.
  intros P. revert j Q. induction turns as [|turns IH]; intros j Q Hj HQ; cbn [find_slot].
  - wp_step. apply HQ; [lia | done | done].
  - wp_step. apply wp_get_slot; [done | lia |]. intros e He. destruct (Z.eqb_spec (key e) 0) as [Hk|Hk]; cbn [negb andb].
    + wp_step. apply HQ; [lia | done | lia].
    + case_match; [|wp_step; apply HQ; [lia | done | lia]]. apply IH; [lia|]. intros j' Hj' _ Hlast. apply HQ; [done | |].
      * intros Hall. exfalso. by apply Hk, (Hall j).
      * intros _ -> e' He'. destruct turns as [|turns]; [|by apply Hlast].
        assert (j = (EVICTION_POOL_SIZE - 1)%nat) as -> by lia. congruence.
Qed.

Lemma idle_positive i x : 0 <= x < 2 ^ 32 -> 1 <= idle_time (clock i) x.
Proof using Hclock.
  intros Hx. assert (Hc := Hclock i). unfold idle_time, LRU_CLOCK_RESOLUTION in *. rewrite (proj2 (Z.leb_le _ _)) by lia.
  apply Z.div_le_lower_bound; lia.
Qed.

Lemma holds_entries c g l : Holds c g -> Holds (with_entries l c) g.
Proof. intros []. by split. Qed.
Lemma holds_pool c g l : Holds c g -> Holds (with_pool l c) g.
Proof. intros []. by split. Qed.
Lemma holds_tick c g : Holds c g -> Holds (tick c) g.
Proof. intros []. by split. Qed.

Lemma pool_right c j : PoolOk c -> (j < EVICTION_POOL_SIZE)%nat -> PoolOk (with_pool (move_right j (EvictionPool c)) c).
Proof.
  intros [H1 H2 H3] Hj. unfold move_right. split; cbn; [|done|].
  - rewrite length_app, !length_take, length_drop, H1. unfold EVICTION_POOL_SIZE in *. lia.
  - apply Forall_app. split; [by apply Forall_take | by apply Forall_take, Forall_drop].
Qed.

Lemma pool_left c j : PoolOk c -> (j < EVICTION_POOL_SIZE)%nat -> PoolOk (with_pool (move_left j (EvictionPool c)) c).
Proof.
  intros [H1 H2 H3] Hj. unfold move_left. split; cbn; [|done|].
  - rewrite length_app, length_take, !length_drop, H1. unfold EVICTION_POOL_SIZE in *. lia.
  - apply Forall_app. split; [by apply Forall_take, Forall_drop | by apply Forall_drop].
Qed.

(** The last step of a filling: a live key in a slot. *)
Lemma wp_place c g j e (Q : unit -> RedisLRUCache M -> Prop) :
  Holds c g -> PoolOk c -> (j < EVICTION_POOL_SIZE)%nat -> is_Some (g !! key e) ->
  (forall c', Holds c' g -> PoolOk c' -> same c c' -> has_live c' g -> Q tt c') -> wp (set_slot j e) c Q.
Proof.
  intros Hd P Hj He HQ. apply wp_set_slot; [done | done |]. intros p Hp Hlt. apply HQ; [by apply holds_entries | by apply pool_set | done |].
  exists j, e. split; [|done]. by rewrite slot_set, decide_True.
Qed.

Lemma wp_populate1 c g x (Q : unit -> RedisLRUCache M -> Prop) :
  Holds c g -> PoolOk c -> is_Some (g !! x) ->
  (forall c', Holds c' g -> PoolOk c' -> same c c' -> has_live c' g \/ ((forall j, slot c' j = slot c j) /\ ~ all_empty c) -> Q tt c') ->
  wp (populate1 clock x) c Q.
Proof using Hclock H0.
  intros Hd P [v Hx] HQ. unfold populate1. do 2 wp_step. assert (Hm := hd_map _ _ Hd x). rewrite Hx in Hm.
  destruct (chm_find (m_map c) x) as [y|] eqn:Hy; [|done]. assert (Hlru := hd_lru _ _ Hd _ _ Hy).
  unfold estimateObjectIdleTime, ustime. wp_step. do 7 wp_step. assert (Hid := idle_positive (calls c) _ Hlru).
  rewrite (proj2 (Z.eqb_neq _ 0)) by lia. set (new_idle := idle_time _ _) in *.
  assert (Hd1 := holds_tick _ _ Hd). assert (P1 : PoolOk (tick c)) by (destruct P; by split). assert (Hsame : same c (tick c)) by done.
  assert (Hsl : forall j, slot (tick c) j = slot c j) by done. assert (Hemp : all_empty c <-> all_empty (tick c)) by done.
  revert Hd1 P1 Hsame Hsl Hemp. generalize (tick c) as c1. intros c1 Hd1 P1 Hsame Hsl Hemp. clear Hd.
  wp_step. apply wp_find_slot; [done | done |]. intros j Hj Hj0 Hj16. specialize (Hj16 ltac:(done)).
  wp_step. apply wp_get_slot; [done | unfold EVICTION_POOL_SIZE; lia |]. intros first Hfirst.
  wp_step. apply wp_get_slot; [done | unfold EVICTION_POOL_SIZE; lia |]. intros last_ Hlast.
  destruct ((j =? 0)%nat && negb (key first =? 0) && negb (key last_ =? 0)) eqn:Eskip.
  { wp_step. apply HQ; [done | done | done |]. right. split; [done|]. intros Hall%Hemp. apply Hall in Hfirst.
    apply andb_true_iff in Eskip as [[_ Ef]%andb_true_iff _]. apply negb_true_iff, Z.eqb_neq in Ef. done. }
  assert (Hplace : forall c2 j2, Holds c2 g -> PoolOk c2 -> same c1 c2 -> (j2 < EVICTION_POOL_SIZE)%nat -> wp (set_slot j2 (PE new_idle x)) c2 Q).
  { intros c2 j2 Hd2 P2 Hs2 Hj2. apply (wp_place c2 g); [done | done | done | by exists v |]. intros c' Hd' P' Hs' Hl'.
    apply HQ; [done | done | | by left]. eapply same_trans; [exact Hsame | by eapply same_trans]. }
  assert (Hcont : forall free : bool, (free = true -> (j < EVICTION_POOL_SIZE)%nat) -> (j = O -> free = false -> key first <> 0) -> wp
    (j ← (if free then mret j
          else if key last_ =? 0 then modify (fun c => with_pool (move_right j (EvictionPool c)) c);; mret j
          else match j with O => crashes OutOfRange | S j => modify (fun c => with_pool (move_left j (EvictionPool c)) c);; mret j end);
     set_slot j (PE new_idle x)) c1 Q).
  { intros free Hfree Hnf. wp_step. destruct free; [wp_step; apply Hplace; by auto|].
    destruct (Z.eqb_spec (key last_) 0) as [Hl|Hl].
    - assert (j <> EVICTION_POOL_SIZE) by (intros ->; by apply (Hj16 eq_refl last_)). do 3 wp_step.
      apply Hplace; [by apply holds_pool | apply pool_right; [done | lia] | done | lia].
    - destruct j as [|j]; [|do 3 wp_step; apply Hplace; [by apply holds_pool | apply pool_left; [done | lia] | done | lia]].
      exfalso. specialize (Hnf eq_refl eq_refl). cbn in Eskip. rewrite !(proj2 (Z.eqb_neq _ 0)) in Eskip by done. done. }
  wp_step. destruct (Nat.ltb_spec j EVICTION_POOL_SIZE) as [Hlt|Hge].
  - wp_step. apply wp_get_slot; [done | done |]. intros e He. wp_step. apply Hcont; [done|]. intros -> Hk%Z.eqb_neq. congruence.
  - wp_step. apply (Hcont false); [done|]. intros ->. unfold EVICTION_POOL_SIZE in Hge. lia.
Qed.

Lemma wp_populate c g samples (Q : unit -> RedisLRUCache M -> Prop) :
  Holds c g -> PoolOk c -> Forall (fun k => is_Some (g !! k)) samples ->
  (forall c', Holds c' g -> PoolOk c' -> same c c' -> (has_live c g \/ samples <> [] /\ all_empty c -> has_live c' g) -> Q tt c') ->
  wp (populate clock samples) c Q.
Proof using Hclock H0.
  intros Hd P HF. revert c Hd P. induction HF as [|x samples Hx HF IH]; intros c Hd P HQ; cbn [populate].
  - wp_step. apply HQ; [done | done | done |]. by intros [?|[? _]].
  - wp_step. apply (wp_populate1 c g); [done | done | done |]. intros c1 Hd1 P1 Hs1 Hc1. apply IH; [done | done |].
    intros c' Hd' P' Hs' Hl'. apply HQ; [done | done | by eapply same_trans |]. intros Hpre. apply Hl'. left.
    destruct Hc1 as [?|[Hsame Hne]]; [done|]. destruct Hpre as [(j & e & He & Hg)|[_ Hall]]; [|done]. exists j, e. by rewrite Hsame.
Qed.

(** ** Evicting *)
Definition Evicted cap_n cap_s st g c' : Prop :=
  exists k w, g !! k = Some w /\ Holds c' (delete k g) /\ PoolOk c' /\ n c' = cap_n /\ s c' = cap_s /\ stat c' = st.

Lemma holds_erase c g k w l : Holds c g -> g !! k = Some w ->
  exists x', RandomizedSet.remove k (rs c) = Ok (true, x') /\
    Holds (with_entries l (with_rs x' (with_map (chm_erase (m_map c) k).2 c))) (delete k g).
Proof.
  intros [H1 H2 H3 H4 H5 H6] Hk. destruct (set_remove_ok (rs c) k H1) as (x' & Hr & Hok & Hperm); [apply H3; eauto|].
  exists x'. split; [done|]. assert (HN := so_nodup _ H1). rewrite Hperm in HN. apply NoDup_cons in HN as [HkN _].
  split; cbn; try done.
  - intros j. rewrite chm_find_erase. destruct (decide (j = k)) as [->|Hj]; [by rewrite lookup_delete_eq|]. rewrite lookup_delete_ne by done. apply H2.
  - intros j. destruct (decide (j = k)) as [->|Hj]; [rewrite lookup_delete_eq; split; [done | by intros [??]]|].
    rewrite lookup_delete_ne by done. rewrite <- H3, Hperm, elem_of_cons. naive_solver.
  - intros j x. rewrite chm_find_erase. case_decide; [done|]. apply H4.
  - destruct (decide (0 = k)) as [<-|Hj]; [apply lookup_delete_eq | by rewrite lookup_delete_ne].
Qed.

Lemma wp_evict_best c g k (Q : bool -> RedisLRUCache M -> Prop) :
  Holds c g -> PoolOk c -> (k <= EVICTION_POOL_SIZE)%nat ->
  (forall c', Evicted (n c) (s c) (stat c) g c' -> Q true c') ->
  (forall c', Holds c' g -> PoolOk c' -> same c c' -> (forall j e, slot c' j = Some e -> (j < k)%nat -> key e = 0) ->
     (forall j e, (j < k)%nat -> slot c j = Some e -> g !! key e = None) -> Q false c') ->
  wp (evict_best k) c Q.
Proof using H0.
  enough (Hgen : forall k c, Holds c g -> PoolOk c -> (k <= EVICTION_POOL_SIZE)%nat ->
    wp (evict_best k) c (fun r c' => if r then Evicted (n c) (s c) (stat c) g c' else
      Holds c' g /\ PoolOk c' /\ same c c' /\ (forall j e, slot c' j = Some e -> (j < k)%nat -> key e = 0) /\
      (forall j e, (j < k)%nat -> slot c j = Some e -> g !! key e = None) /\
      (forall j e, slot c j = Some e -> key e = 0 -> forall e', slot c' j = Some e' -> key e' = 0))).
  { intros Hd P Hk HT HF. eapply wp_mono; [by apply Hgen|]. intros [] c'; [apply HT|]. intros (Hd' & P' & Hs & Hz & Hn & _). by apply HF. }
  clear c k Q. intros k. induction k as [|k IH]; intros c Hd P Hk; cbn [evict_best].
  { wp_step. split_and!; [done | done | done | lia | lia | naive_solver]. }
  wp_step. apply wp_get_slot; [done | lia |]. intros e He. destruct (Z.eqb_spec (key e) 0) as [Hz|Hz].
  { eapply wp_mono; [apply IH; [done | done | lia]|]. intros [] c'; [done|]. intros (Hd' & P' & Hs & Hzero & Hnone & Hmono). split_and!; try done.
    - intros j e' Hj Hlt. destruct (decide (j = k)) as [->|Hne]; [by eapply Hmono | eapply Hzero; [done | lia]].
    - intros j e' Hlt Hj. destruct (decide (j = k)) as [->|Hne]; [|apply (Hnone j); [lia | done]].
      rewrite He in Hj. injection Hj as <-. rewrite Hz. apply Hd. }
  do 2 wp_step. assert (Hm := hd_map _ _ Hd (key e)). destruct (chm_find (m_map c) (key e)) as [x|] eqn:Hx.
  - symmetry in Hm. cbn in Hm. destruct (holds_erase c g (key e) _ (pool_entries c) Hd Hm) as (x' & Hr & _).
    do 5 wp_step. unfold of_res at 1, wp at 1. cbn [with_map rs]. rewrite Hr. do 3 wp_step.
    apply wp_set_slot; [by destruct P | lia |]. intros p Hp Hlt. wp_step. exists (key e), (m_value x). split; [done|].
    destruct (holds_erase c g (key e) _ (<[p := PE 0 0]> (pool_entries c)) Hd Hm) as (x'' & Hr' & Hd'). rewrite Hr in Hr'. injection Hr' as <-.
    split_and!; [exact Hd' | | done | done | done]. apply (pool_set (with_rs x' (with_map _ c))). by destruct P.
  - wp_step. apply wp_set_slot; [done | lia |]. intros p Hp Hlt. set (c1 := with_entries _ c). assert (P1 : PoolOk c1) by by apply pool_set.
    eapply wp_mono; [apply (IH c1); [by apply holds_entries | done | lia]|]. intros [] c'; [done|].
    intros (Hd' & P' & Hs & Hzero & Hnone & Hmono).
    assert (Hsl : forall j, slot c1 j = if decide (EvictionPool c !! j = Some p) then Some (PE 0 0) else slot c j) by (intros j; by apply slot_set).
    split_and!; [done | done | done | | |].
    + intros j e' Hj Hjk. destruct (decide (j = k)) as [->|Hne]; [|eapply Hzero; [done | lia]].
      eapply Hmono; [by rewrite Hsl, decide_True | done | done].
    + intros j e' Hjk Hj. assert (Hje : EvictionPool c !! j = Some p -> e' = e).
      { intros Hq. unfold slot in Hj, He. rewrite Hq in Hj. rewrite Hp in He. cbn in Hj, He. congruence. }
      destruct (decide (EvictionPool c !! j = Some p)) as [Hq|Hq]; [rewrite (Hje Hq); by rewrite <- Hm|].
      destruct (decide (j = k)) as [->|Hne]; [done|]. apply (Hnone j); [lia|]. by rewrite Hsl, decide_False.
    + intros j e' Hj Hz' e'' Hj''. destruct (decide (EvictionPool c !! j = Some p)) as [Hq|Hq].
      * by apply (Hmono j (PE 0 0)); [rewrite Hsl, decide_True|..].
      * by apply (Hmono j e'); [rewrite Hsl, decide_False|..].
Qed.

(** A round evicts, or empties the pool of stale keys. *)
Lemma wp_round c g (Q : bool -> RedisLRUCache M -> Prop) :
  Holds c g -> PoolOk c -> g <> ∅ ->
  (forall c', Evicted (n c) (s c) (stat c) g c' -> Q true c') ->
  (~ all_empty c -> forall c', Holds c' g -> PoolOk c' -> same c c' -> all_empty c' -> Q false c') ->
  wp (evictionPoolPopulate clock;; evict_best EVICTION_POOL_SIZE) c Q.
Proof using Hclock H0.
  intros Hd P Hg HT HF. unfold evictionPoolPopulate. do 2 wp_step. apply (wp_draw_samples c g); [done | done | by constructor |].
  intros samples sd Hs Hne Hsd. specialize (Hne ltac:(by left)). assert (Hd1 := holds_seed _ _ _ Hd Hsd).
  assert (P1 : PoolOk (with_seed sd c)) by (by destruct P). apply (wp_populate _ g); [done | done | done |].
  intros c1 Hd2 P2 (Hs1 & Hs2 & Hs3) Hlive. apply (wp_evict_best _ g); [done | done | done | |].
  - intros c' He. apply HT. cbn in Hs1, Hs2, Hs3. by rewrite <- Hs1, <- Hs2, <- Hs3.
  - intros c' Hd' P' Hs' Hzero Hnone. apply HF; [|done | done | eapply same_trans; [|exact Hs']; done |].
    + intros Hall. destruct (Hlive ltac:(by right)) as (j & e & Hj & [v Hv]). assert (Hjl : (j < EVICTION_POOL_SIZE)%nat).
      { unfold slot in Hj. destruct (EvictionPool c1 !! j) eqn:E; [|done]. apply lookup_lt_Some in E. by rewrite (po_slots _ P2) in E. }
      rewrite (Hnone j e Hjl Hj) in Hv. done.
    + intros j e Hj. apply (Hzero j e Hj). unfold slot in Hj. destruct (EvictionPool c' !! j) eqn:E; [|done].
      apply lookup_lt_Some in E. by rewrite (po_slots _ P') in E.
Qed.

Lemma bind_assoc {S A B C} (m : SM S A) (k : A -> SM S B) (h : B -> SM S C) (s : S) :
  (x ← m; k x ≫= h) s = ((m ≫= k) ≫= h) s.
Proof. unfold mbind, SM_bind. by destruct (m s) as [[a s']|]. Qed.

Lemma wp_performEvictions fuel c g (Q : bool -> RedisLRUCache M -> Prop) :
  Holds c g -> PoolOk c -> g <> ∅ ->
  (forall c', Evicted (n c) (s c) (stat c) g c' -> Q true c') -> wp (performEvictions clock (S (S fuel))) c Q.
Proof using Hclock H0.
  intros Hd P Hg HT.
  assert (Hround : forall fuel c (Q : bool -> RedisLRUCache M -> Prop),
    wp (evictionPoolPopulate clock;; evict_best EVICTION_POOL_SIZE) c (fun done_ c' => wp (if (done_ : bool) then mret true else performEvictions clock fuel) c' Q) ->
    wp (performEvictions clock (S fuel)) c Q).
  { clear. intros fuel c Q Hw. cbn [performEvictions]. unfold wp at 1. rewrite bind_assoc. apply wp_bind. exact Hw. }
  apply Hround, (wp_round _ g); [done | done | done | intros c' He; by apply HT|]. intros _ c1 Hd1 P1 (Hs1 & Hs2 & Hs3) Hall.
  apply Hround, (wp_round _ g); [done | done | done | |by intros []]. intros c' He. apply HT. by rewrite <- Hs1, <- Hs2, <- Hs3.
Qed.

(** ** The methods *)
Record Rep (cap : Z) c g : Prop := {
  rp_holds : Holds c g;
  rp_pool : PoolOk c;
  rp_cap : n c = cap;
  rp_size : s c = Z.of_nat (base.size g);
  rp_bound : Z.of_nat (base.size g) <= cap < 2 ^ 31
}.

Lemma redis_wp_find cap c g sample ac k : Rep cap c g ->
  wp (find clock sample ac k) c (fun r c' => spec_step cap (Find sample ac k) g (Found r) g /\ Rep cap c' g).
Proof.
  intros [Hd P Hc Hs Hb]. unfold find. do 2 wp_step. assert (Hm := hd_map _ _ Hd k). destruct (chm_find (m_map c) k) as [x|] eqn:Hx.
  - unfold new_lru, ustime, sample_generator. do 14 wp_step. split; [by constructor|]. assert (Hn := proj2 (Next_mod (seed_ c) (hd_seed _ _ Hd))).
    destruct Hd as [H1 H2 H3 H4 H5 H6]. destruct P. split; cbn; try done.
    split; cbn; try done.
    + intros j. rewrite (chm_find_assign _ _ _ _ _ _ Hx). case_decide; [subst; by rewrite <- Hm | apply H2].
    + intros j y. rewrite (chm_find_assign _ _ _ _ _ _ Hx). case_decide; [|apply H4]. intros [= <-]. cbn. apply u32_range.
  - unfold sample_generator. do 5 wp_step. split; [by constructor|]. assert (Hn := proj2 (Next_mod (seed_ c) (hd_seed _ _ Hd))).
    apply (holds_seed _ _ _ Hd) in Hn. destruct Hn. destruct P. by split.
Qed.

Lemma holds_insert c g k v t : Holds c g -> g !! k = None -> k <> 0 -> 0 <= t < 2 ^ 32 -> chm_find (m_map c) k = None ->
  Holds (with_rs (RandomizedSet.insert k (rs c)).2 (with_map (chm_insert (m_map c) k (RV v t)).2 c)) (<[k := v]> g).
Proof.
  intros [H1 H2 H3 H4 H5 H6] Hk Hk0 Ht Hf.
  destruct (set_insert_ok (rs c) k H1) as [Hok Hvec]; [by intros [? ?]%H3; congruence|].
  split; cbn; try done.
  - intros j. rewrite (chm_find_insert _ _ _ _ _ Hf). case_decide; [subst; by rewrite lookup_insert_eq|]. rewrite lookup_insert_ne by done. apply H2.
  - intros j. rewrite Hvec, elem_of_app, list_elem_of_singleton, H3. destruct (decide (j = k)) as [->|Hj].
    + rewrite lookup_insert_eq. split; [eauto | by right].
    + rewrite lookup_insert_ne by done. naive_solver.
  - intros j y. rewrite (chm_find_insert _ _ _ _ _ Hf). case_decide; [|apply H4]. by intros [= <-].
  - by rewrite lookup_insert_ne.
Qed.

Lemma redis_wp_insert cap c g fuel k v : Rep cap c g -> k <> 0 ->
  wp (insert clock (S (S fuel)) k v) c (fun b c' => exists g', spec_step cap (Insert k v) g (Inserted b) g' /\ Rep cap c' g').
Proof using Hclock H0.
  intros [Hd P Hc Hs Hb] Hk. unfold insert, new_lru, ustime. do 10 wp_step. cbn [tick m_map].
  set (t := u32 _). assert (Ht : 0 <= t < 2 ^ 32) by apply u32_range. assert (Hm := hd_map _ _ Hd k). destruct (chm_find (m_map c) k) as [x|] eqn:Hx.
  { rewrite (chm_insert_dup _ _ _ _ _ Hx). cbn [fst negb]. wp_step. exists g. split; [by econstructor|]. destruct Hd, P. split; try done. }
  symmetry in Hm. cbn in Hm. rewrite (chm_insert_new _ _ _ _ Hx). cbn [negb]. do 4 wp_step. do 2 wp_step. cbn [with_map with_rs tick s n rs].
  assert (Hd' := holds_insert (tick c) g k v t (holds_tick _ _ Hd) Hm Hk Ht Hx). cbn [tick m_map rs] in Hd'.
  set (c1 := with_rs _ _) in *. assert (P1 : PoolOk c1) by (by destruct P). assert (Hsz : base.size (<[k := v]> g) = S (base.size g)) by by apply map_size_insert_None.
  destruct (Z.ltb_spec (s c) (n c)) as [Hlt|Hge].
  - do 2 wp_step. wp_step. exists (<[k := v]> g). split; [apply s_insert; [done | lia]|]. split; cbn.
    + destruct Hd'. by split.
    + by destruct P1.
    + done.
    + rewrite u64_small, Hsz; lia.
    + rewrite Hsz. lia.
  - wp_step. apply (wp_performEvictions _ _ (<[k := v]> g)); [done | done | apply insert_non_empty |].
    intros c' (k' & w & Hk' & Hd2 & P2 & Hn & Hs' & _). wp_step. exists (delete k' (<[k := v]> g)).
    assert (Hsz' : base.size (delete k' (<[k := v]> g)) = pred (base.size (<[k := v]> g))) by (apply map_size_delete_Some; eauto). rewrite Hsz in Hsz'. cbn in Hsz', Hn, Hs'.
    split; [apply (s_evict _ _ _ _ _ w); [done | lia | done]|]. split; [done | done | congruence | rewrite Hs', Hsz', Hs; done | lia].
Qed.

Lemma wp_run_op cap c g o : Rep cap c g -> op_ok o ->
  wp (run_op clock o) c (fun a c' => exists g', spec_step cap o g a g' /\ Rep cap c' g').
Proof using Hclock H0.
  intros R Ho. destruct o as [sample ac k|k v|]; cbn [run_op].
  - wp_step. eapply wp_mono; [by apply redis_wp_find|]. intros r c' [Hs R']. wp_step. by exists g.
  - wp_step. eapply wp_mono; [by apply (redis_wp_insert cap c g 0)|]. intros b c' (g' & Hs & R'). wp_step. by exists g'.
  - unfold size. do 3 wp_step. rewrite (rp_size _ _ _ R). exists g. split; [constructor | done].
Qed.

Lemma redis_rep_new cap seed t : 0 <= cap < 2 ^ 31 -> 0 < seed < RM -> Rep cap (new_RedisLRUCache cap seed t) ∅.
Proof.
  intros Hc Hs. split; [| |done | by rewrite map_size_empty | rewrite map_size_empty; cbn; lia].
  - split; cbn; [apply set_ok_empty | | | | apply lookup_empty | done].
    + intros k. by rewrite chm_find_empty, lookup_empty.
    + intros k. rewrite lookup_empty. split; [by intros ?%elem_of_nil | by intros [??]].
    + intros k x. by rewrite chm_find_empty.
  - split; [done | done |]. cbn. repeat constructor.
Qed.

(** C30: the Redis-style cache refines a bounded map.  On any machine whose
    clock shows more than [2^32] microseconds, from any seed of the generator but
    0 and [M], a new cache of any capacity runs every sequence of lookups and
    insertions of keys other than 0 without a crash or an endless loop: a lookup
    returns the value inserted last, an insertion into a full cache drops exactly
    one entry, and the size counter is the number of entries, at most the
    capacity.  No draw is out of range, although the pool of candidates holds
    stale keys and, after a few insertions, the same slot twice. *)
Theorem redis_run_refines (capacity seed : Z) (t : nat) (ops : list op) :
  0 <= capacity < 2 ^ 31 -> 0 < seed < RM -> Forall op_ok ops ->
  exists answers c g, run clock ops (new_RedisLRUCache (M := M) capacity seed t) = Ok (answers, c) /\
    spec_run capacity ops ∅ answers g /\ (forall k, m_value <$> chm_find (m_map c) k = g !! k) /\
    s c = Z.of_nat (base.size g) /\ s c <= capacity.
Proof using Hclock H0.
  intros Hc Hs Hok. enough (Hw : wp (run clock ops) (new_RedisLRUCache capacity seed t) (fun answers c => exists g, spec_run capacity ops ∅ answers g /\ Rep capacity c g)).
  { destruct (wp_elim _ _ _ Hw) as (answers & c & Hr & g & Hrun & [Hd _ _ Hsz Hb]). exists answers, c, g. split_and!; [done | done | apply Hd | done | lia]. }
  assert (R := redis_rep_new capacity seed t Hc Hs). revert R. generalize (new_RedisLRUCache (M := M) capacity seed t) as c. generalize (∅ : gmap Z Z) as g.
  induction Hok as [|o ops Ho Hok IH]; intros g c R; cbn [run]; [wp_step; exists g; split; [constructor | done]|].
  wp_step. eapply wp_mono; [by eapply wp_run_op|]. intros a c1 (g1 & Hst & R1). wp_step. eapply wp_mono; [by apply IH|].
  intros rest c2 (g2 & Hrun & R2). wp_step. exists g2. split; [by econstructor | done].
Qed.
End cache.

(** ** Idle times

    [lru] has the low 32 bits of a time of more than 64, so it wraps around
    about every 71 minutes; [LRU_CLOCK_MAX] is never used.  An entry looked up
    after the wrap is taken for idle longer than one looked up before. *)
Lemma redis_idle_wraps now t1 t2 :
  0 <= t1 < t2 -> t2 <= now -> u32 t2 + LRU_CLOCK_RESOLUTION <= u32 t1 ->
  idle_time now (u32 t1) < idle_time now (u32 t2).
Proof.
  intros Ht Hn Hw. assert (H1 := u32_range t1). assert (H2 := u32_range t2). unfold LRU_CLOCK_RESOLUTION in *.
  assert (H3 : u32 t1 <= t1) by (apply Z.mod_le; lia). assert (H4 : u32 t2 <= t2) by (apply Z.mod_le; lia).
  unfold idle_time, LRU_CLOCK_RESOLUTION. rewrite !(proj2 (Z.leb_le _ _)) by lia.
  apply Z.lt_le_trans with ((now - u32 t1) / 100 + 1); [lia|].
  replace ((now - u32 t1) / 100 + 1) with ((now - u32 t1 + 1 * 100) / 100) by (rewrite Z.div_add; lia). apply Z.div_le_mono; lia.
Qed.

(** ** Runs *)
Definition demo_clock (i : nat) : Z := 2 ^ 50 + 1000 * Z.of_nat i.

Definition demo_ops : list op := [Insert 1 10; Insert 2 20; Find true 0 1; Insert 3 30; Insert 2 21; Find true 0 3; Size].

Lemma redis_run_refines_witness :
  exists answers c g, run demo_clock demo_ops (new_RedisLRUCache (M := gmap Z) 2 42 0) = Ok (answers, c) /\
    spec_run 2 demo_ops ∅ answers g /\ (forall k, m_value <$> chm_find (m_map c) k = g !! k) /\
    s c = Z.of_nat (base.size g) /\ s c <= 2.
Proof.
  apply (redis_run_refines demo_clock); [intros i; unfold demo_clock, LRU_CLOCK_RESOLUTION; lia | lia | unfold RM; lia |].
  unfold demo_ops. repeat constructor; discriminate.
Defined.

(** The pool is an array of pointers, and [memmove] copies them: the entry
    that is moved stays where it was, too, and is overwritten there.  After six
    insertions five of the 16 entries are lost. *)
Example redis_pool_aliases :
  match run demo_clock [Insert 1 10; Insert 2 20; Insert 3 30; Insert 4 40; Insert 5 50; Insert 6 60] (new_RedisLRUCache (M := gmap Z) 3 42 0) with
  | Ok (_, c) => EvictionPool c = [0; 0; 0; 0; 1; 1; 1; 2; 3; 4; 5; 6; 7; 8; 9; 10]%nat
  | Crash _ => False
  end.
Proof. vm_compute. reflexivity. Qed.

(** [clear] empties neither the random keys nor the pool: in a cache that was
    filled with many keys and cleared, the draws find keys that are gone, and an
    eviction may take more fillings of the pool than two or three. *)
Example redis_clear_keeps_keys :
  let fill := Insert <$> (Z.of_nat <$> seq 1 60) in
  match run demo_clock ((fun f => f 7) <$> fill) (new_RedisLRUCache (M := gmap Z) 60 42 0) with
  | Ok (_, c) =>
      match clear c with
      | Ok (_, c) => length (RandomizedSet.vec (rs c)) = 60%nat /\
          (insert demo_clock 2 10 7;; performEvictions demo_clock 3) c = Crash OutOfFuel
      | Crash _ => False
      end
  | Crash _ => False
  end.
Proof. vm_compute. split; reflexivity. Qed.
