(* ===== verification/Machine.v ===== *)
(** * Threads as machines

    The components that run several threads at once are machines: an action is
    one atomic step of one thread, a run a sequence of actions in the order
    they take effect, so a theorem about all runs is one about all
    interleavings.  An action that its thread cannot take (it is elsewhere, or
    it waits) is [Disabled]; [Fault] is a crash; [Step] says what could be
    observed and the state after. *)

From S2P Require Import Prelude.

Inductive outcome (E S : Type) :=
  | Disabled
  | Fault (e : crash)
  | Step (events : list E) (s : S).
Arguments Disabled {E S}.
Arguments Fault {E S} e.
Arguments Step {E S} events s.

Section machine.
Context {A E S : Type} (step : A -> S -> outcome E S).
Implicit Types (s : S) (past evs : list E).

Fixpoint run (l : list A) (s : S) : outcome E S :=
  match l with
  | [] => Step [] s
  | a :: l =>
      match step a s with
      | Step evs s =>
          match run l s with
          | Step evs' s => Step (evs ++ evs') s
          | o => o
          end
      | o => o
      end
  end.

Lemma run_app l1 l2 s :
  run (l1 ++ l2) s =
  match run l1 s with
  | Step evs s => match run l2 s with Step evs' s => Step (evs ++ evs') s | o => o end
  | o => o
  end.
Proof.
  revert s. induction l1 as [|a l1 IH]; intros s; cbn; [by destruct (run l2 s)|].
  destruct (step a s) as [|e|evs s']; [done..|]. rewrite IH.
  destruct (run l1 s') as [|e|evs1 s1]; [done..|]. destruct (run l2 s1); [done..|]. by rewrite app_assoc.
Qed.

(** ** Invariants *)

(** [I] speaks of the state and of what was observed until then. *)
Definition preserves (I : list E -> S -> Prop) : Prop :=
  forall a past s, I past s ->
  match step a s with Disabled => True | Fault _ => False | Step evs s' => I (past ++ evs) s' end.

(** The same for the runs whose actions are all [ok]. *)
Definition preserves_on (ok : A -> Prop) (I : list E -> S -> Prop) : Prop :=
  forall a past s, ok a -> I past s ->
  match step a s with Disabled => True | Fault _ => False | Step evs s' => I (past ++ evs) s' end.

Lemma run_preserves_on ok I : preserves_on ok I -> forall l past s, Forall ok l -> I past s ->
  match run l s with Disabled => True | Fault _ => False | Step evs s' => I (past ++ evs) s' end.
Proof.
  intros HI l past s Hl. revert past s. induction Hl as [|a l Hok _ IH]; intros past s Hs; cbn; [by rewrite app_nil_r|].
  assert (Ha := HI a past s Hok Hs). destruct (step a s) as [|e|evs s1]; [done..|].
  assert (Hl := IH _ _ Ha). destruct (run l s1) as [|e|evs' s2]; [done..|]. by rewrite app_assoc.
Qed.

Lemma run_preserves I : preserves I -> forall l past s, I past s ->
  match run l s with Disabled => True | Fault _ => False | Step evs s' => I (past ++ evs) s' end.
Proof. intros HI l past s. apply (run_preserves_on (fun _ => True)); [|by apply Forall_true]. intros a past' s' _. apply HI. Qed.

Lemma run_invariant I l s evs s' : preserves I -> I [] s -> run l s = Step evs s' -> I evs s'.
Proof. intros HI Hs Hr. assert (Hl := run_preserves I HI l [] s Hs). by rewrite Hr in Hl. Qed.

Lemma run_never_faults I l s e : preserves I -> I [] s -> run l s = Fault e -> False.
Proof. intros HI Hs Hr. assert (Hl := run_preserves I HI l [] s Hs). by rewrite Hr in Hl. Qed.

(** ** Progress *)

(** Some schedule leads from [s] to a state in [Q]. *)
Definition can_reach (Q : S -> Prop) (s : S) : Prop := exists l evs s', run l s = Step evs s' /\ Q s'.

Lemma can_reach_here (Q : S -> Prop) s : Q s -> can_reach Q s.
Proof. intros HQ. by exists [], [], s. Qed.

Lemma can_reach_step (Q : S -> Prop) a s evs s' : step a s = Step evs s' -> can_reach Q s' -> can_reach Q s.
Proof.
  intros Ha (l & evs' & s'' & Hl & HQ). exists (a :: l), (evs ++ evs'), s''. cbn. by rewrite Ha, Hl.
Qed.

Lemma can_reach_trans (P Q : S -> Prop) s : can_reach P s -> (forall s', P s' -> can_reach Q s') -> can_reach Q s.
Proof.
  intros (l & evs & s' & Hl & HP) Hc. destruct (Hc s' HP) as (l' & evs' & s'' & Hl' & HQ).
  exists (l ++ l'), (evs ++ evs'), s''. by rewrite run_app, Hl, Hl'.
Qed.

Lemma can_reach_mono (P Q : S -> Prop) s : (forall s', P s' -> Q s') -> can_reach P s -> can_reach Q s.
Proof. intros Hm (l & evs & s' & Hl & HP). exists l, evs, s'. auto. Qed.

(** If the measure can be lowered as long as [Q] does not hold, [Q] can be
    reached. *)
Lemma can_reach_measure (I Q : S -> Prop) (measure : S -> nat) :
  (forall s, I s -> can_reach (fun s' => Q s' \/ I s' /\ measure s' < measure s) s) ->
  forall s, I s -> can_reach Q s.
Proof.
  intros Hdec s. induction s as [s IH] using (well_founded_induction (well_founded_ltof _ measure)). intros HI.
  apply (can_reach_trans _ _ _ (Hdec s HI)). intros s' [HQ|[HI' Hlt]]; [by apply can_reach_here | by apply IH].
Qed.
End machine.

(** A machine that can follow the steps of another reaches what it reaches. *)
Lemma can_reach_follow {A E S A' E' S'} (step : A -> S -> outcome E S) (step' : A' -> S' -> outcome E' S')
    (R : S -> S' -> Prop) (Q : S -> Prop) s s' :
  (forall a s evs s1 s', step a s = Step evs s1 -> R s s' -> exists a' evs' s1', step' a' s' = Step evs' s1' /\ R s1 s1') ->
  R s s' -> can_reach step Q s -> can_reach step' (fun s' => exists s, R s s' /\ Q s) s'.
Proof.
  intros Hsim HR (l & evs & s1 & Hl & HQ). revert s s' evs HR Hl. induction l as [|a l IH]; intros s s' evs HR Hl; cbn in Hl.
  - injection Hl as _ <-. apply can_reach_here. eauto.
  - destruct (step a s) as [| |evs0 s0] eqn:Ha; [done..|]. destruct (run step l s0) as [| |evs1 s2] eqn:Hl1; [done..|].
    injection Hl as _ <-. destruct (Hsim _ _ _ _ _ Ha HR) as (a' & evs' & s0' & Ha' & HR'). eapply can_reach_step; [exact Ha'|]. by eapply IH.
Qed.
