(* ===== verification/PageBuffer.v ===== *)
(** * The pages between the recovery threads ([ssdlogging/spdk_logging_recovery.h], [LogPageBuffer])

    A ring of 1024 page pointers between the threads that read the device and
    those that parse the pages, without a lock: counters tell which sequence
    numbers are handed out, written and read.  Each load, store or
    read-modify-write of an atomic and each access to [buffer_] is an action of
    its own (the atomics are sequentially consistent, [buffer_] is ordered by
    them), so a run is any interleaving of any number of writers and readers.
    The counters are [int64_t] and count pages; they do not wrap around. *)

From S2P Require Import Prelude Machine.
Local Open Scope Z_scope.

Definition size_ : Z := Z.shiftl 1 10.
Definition slot (seq : Z) : Z := Z.land seq (size_ - 1).

Section page_buffer.
(** What a page is; a [char *] is [None] if it is null. *)
Context {P : Type}.
Notation ptr := (option P).

(** Where a thread is in [GetWriteSeq], [Write] and [FinishWrite]; no entry
    when it is in none of them and holds no number. *)
Inductive writer_at :=
  | W_room (writableSeq : Z)                  (* the condition of the loop *)
  | W_stop (writableSeq : Z)                  (* its body *)
  | W_have (writableSeq : Z)                  (* GetWriteSeq has returned it *)
  | W_written (writableSeq : Z) (data : ptr)  (* Write has returned *)
  | W_store (writableSeq : Z) (data : ptr).   (* FinishWrite, before its store *)

(** Where a thread is in [Read]. *)
Inductive reader_at :=
  | R_check (readableSeq : Z)                 (* the condition of the first loop *)
  | R_stop (readableSeq : Z)                  (* stop_.load() *)
  | R_wrote (readableSeq : Z)                 (* Empty, lastWrote_.load() *)
  | R_empty (readableSeq wrote : Z)           (* Empty, lastRead_.load() *)
  | R_buffer (readableSeq : Z)                (* tmp = buffer_[...] *)
  | R_turn (readableSeq : Z) (tmp : ptr)      (* the condition of the second loop *)
  | R_store (readableSeq : Z) (tmp : ptr).    (* lastRead_.store *)

Record LogPageBuffer := {
  lastRead_ : Z; lastWrote_ : Z; lastDispatch_ : Z; writableSeq_ : Z; stop_ : bool;
  buffer_ : gmap Z ptr;  (* the slots written so far: the array is not initialised *)
  writers : gmap nat writer_at; readers : gmap nat reader_at
}.

Definition new_LogPageBuffer : LogPageBuffer := {|
  lastRead_ := -1; lastWrote_ := -1; lastDispatch_ := -1; writableSeq_ := 0; stop_ := false;
  buffer_ := ∅; writers := ∅; readers := ∅
|}.

Definition set_writers w s := {|
  lastRead_ := lastRead_ s; lastWrote_ := lastWrote_ s; lastDispatch_ := lastDispatch_ s; writableSeq_ := writableSeq_ s;
  stop_ := stop_ s; buffer_ := buffer_ s; writers := w; readers := readers s |}.
Definition set_readers r s := {|
  lastRead_ := lastRead_ s; lastWrote_ := lastWrote_ s; lastDispatch_ := lastDispatch_ s; writableSeq_ := writableSeq_ s;
  stop_ := stop_ s; buffer_ := buffer_ s; writers := writers s; readers := r |}.
Definition set_read n s := {|
  lastRead_ := n; lastWrote_ := lastWrote_ s; lastDispatch_ := lastDispatch_ s; writableSeq_ := writableSeq_ s;
  stop_ := stop_ s; buffer_ := buffer_ s; writers := writers s; readers := readers s |}.
Definition set_wrote n s := {|
  lastRead_ := lastRead_ s; lastWrote_ := n; lastDispatch_ := lastDispatch_ s; writableSeq_ := writableSeq_ s;
  stop_ := stop_ s; buffer_ := buffer_ s; writers := writers s; readers := readers s |}.
Definition set_dispatch n s := {|
  lastRead_ := lastRead_ s; lastWrote_ := lastWrote_ s; lastDispatch_ := n; writableSeq_ := writableSeq_ s;
  stop_ := stop_ s; buffer_ := buffer_ s; writers := writers s; readers := readers s |}.
Definition set_writable n s := {|
  lastRead_ := lastRead_ s; lastWrote_ := lastWrote_ s; lastDispatch_ := lastDispatch_ s; writableSeq_ := n;
  stop_ := stop_ s; buffer_ := buffer_ s; writers := writers s; readers := readers s |}.
Definition set_stop b s := {|
  lastRead_ := lastRead_ s; lastWrote_ := lastWrote_ s; lastDispatch_ := lastDispatch_ s; writableSeq_ := writableSeq_ s;
  stop_ := b; buffer_ := buffer_ s; writers := writers s; readers := readers s |}.
Definition set_buffer b s := {|
  lastRead_ := lastRead_ s; lastWrote_ := lastWrote_ s; lastDispatch_ := lastDispatch_ s; writableSeq_ := writableSeq_ s;
  stop_ := stop_ s; buffer_ := b; writers := writers s; readers := readers s |}.

Definition writer_goes (i : nat) (w : writer_at) (s : LogPageBuffer) := set_writers (<[i := w]> (writers s)) s.
Definition writer_done (i : nat) (s : LogPageBuffer) := set_writers (delete i (writers s)) s.
Definition reader_goes (j : nat) (r : reader_at) (s : LogPageBuffer) := set_readers (<[j := r]> (readers s)) s.
Definition reader_done (j : nat) (s : LogPageBuffer) := set_readers (delete j (readers s)) s.

(** ** What can be observed *)
Inductive event :=
  | Granted (i : nat) (writableSeq : Z)              (* GetWriteSeq returns *)
  | Unused (writableSeq : Z)                         (* a number that is never written *)
  | Finished (i : nat) (writableSeq : Z) (data : ptr) (* FinishWrite returns true *)
  | NotYet (i : nat)                                 (* FinishWrite returns false *)
  | Returned (j : nat) (readableSeq : Z) (tmp : ptr) (* Read returns a page *)
  | Ended (j : nat)                                  (* Read returns nullptr as all is stopped and read *)
  | Stopped.

Inductive action :=
  | GetWriteSeq (i : nat)            (* the call, with its fetch_add *)
  | Write (i : nat) (data : ptr)
  | FinishWrite (i : nat)            (* the call, with its load *)
  | Forget (i : nat)                 (* the caller does not use the number *)
  | Writer (i : nat)                 (* the next step of the call it is in *)
  | Read (j : nat)                   (* the call, with its fetch_add *)
  | Reader (j : nat)
  | Stop.

Definition GetWriteSeq_call (i : nat) (s : LogPageBuffer) : outcome event LogPageBuffer :=
  match writers s !! i with
  | Some _ => Disabled
  | None => Step [] (writer_goes i (W_room (writableSeq_ s)) (set_writable (writableSeq_ s + 1) s))
  end.

Definition Write_call (i : nat) (data : ptr) (s : LogPageBuffer) : outcome event LogPageBuffer :=
  match writers s !! i with
  | Some (W_have seq) => Step [] (writer_goes i (W_written seq data) (set_buffer (<[slot seq := data]> (buffer_ s)) s))
  | _ => Disabled
  end.

Definition FinishWrite_call (i : nat) (s : LogPageBuffer) : outcome event LogPageBuffer :=
  match writers s !! i with
  | Some (W_written seq data) =>
      if negb (seq - 1 =? lastWrote_ s) then Step [NotYet i] s
      else Step [] (writer_goes i (W_store seq data) s)
  | _ => Disabled
  end.

Definition writer_step (i : nat) (s : LogPageBuffer) : outcome event LogPageBuffer :=
  match writers s !! i with
  | Some (W_room seq) =>
      if size_ <? seq - lastRead_ s then Step [] (writer_goes i (W_stop seq) s)
      else Step [Granted i seq] (writer_goes i (W_have seq) s)
  | Some (W_stop seq) =>
      if stop_ s then Step [Unused seq] (writer_done i s) else Step [] (writer_goes i (W_room seq) s)
  | Some (W_store seq data) => Step [Finished i seq data] (writer_done i (set_wrote seq s))
  | _ => Disabled
  end.

Definition Read_call (j : nat) (s : LogPageBuffer) : outcome event LogPageBuffer :=
  match readers s !! j with
  | Some _ => Disabled
  | None => Step [] (reader_goes j (R_check (lastDispatch_ s + 1)) (set_dispatch (lastDispatch_ s + 1) s))
  end.

Definition reader_step (j : nat) (s : LogPageBuffer) : outcome event LogPageBuffer :=
  match readers s !! j with
  | None => Disabled
  | Some (R_check seq) => Step [] (reader_goes j (if lastWrote_ s <? seq then R_stop seq else R_buffer seq) s)
  | Some (R_stop seq) => Step [] (reader_goes j (if stop_ s then R_wrote seq else R_check seq) s)
  | Some (R_wrote seq) => Step [] (reader_goes j (R_empty seq (lastWrote_ s)) s)
  | Some (R_empty seq wrote) =>
      if wrote =? lastRead_ s then Step [Ended j] (reader_done j s) else Step [] (reader_goes j (R_check seq) s)
  | Some (R_buffer seq) =>
      match buffer_ s !! slot seq with
      | Some tmp => Step [] (reader_goes j (R_turn seq tmp) s)
      | None => Fault BadPointer
      end
  | Some (R_turn seq tmp) => Step [] (if negb (seq - 1 =? lastRead_ s) then s else reader_goes j (R_store seq tmp) s)
  | Some (R_store seq tmp) => Step [Returned j seq tmp] (reader_done j (set_read seq s))
  end.

Definition step (a : action) (s : LogPageBuffer) : outcome event LogPageBuffer :=
  match a with
  | GetWriteSeq i => GetWriteSeq_call i s
  | Write i data => Write_call i data s
  | FinishWrite i => FinishWrite_call i s
  | Forget i =>
      match writers s !! i with Some (W_have seq) => Step [Unused seq] (writer_done i s) | _ => Disabled end
  | Writer i => writer_step i s
  | Read j => Read_call j s
  | Reader j => reader_step j s
  | Stop => Step [Stopped] (set_stop true s)
  end.
End page_buffer.
Arguments LogPageBuffer : clear implicits.
Arguments writer_at : clear implicits.
Arguments reader_at : clear implicits.
Arguments event : clear implicits.
Arguments action : clear implicits.
