(* ===== verification/PageBufferProps.v ===== *)
(** * The page buffer is a bounded queue

    The invariant of [PageBuffer] and what follows for every interleaving: the
    pages come out in the order of their numbers, each once, as they were
    written, and no slot is overwritten before it is read. *)

From S2P Require Import Prelude Machine PageBuffer.
Local Open Scope Z_scope.

Section observed.
Context {P : Type}.
Notation ptr := (option P).

(** What a run finished writing, what it delivered, which numbers were lost. *)
Definition finished (evs : list (event P)) : list (Z * ptr) :=
  omap (fun e => match e with Finished _ seq data => Some (seq, data) | _ => None end) evs.
Definition delivered (evs : list (event P)) : list (Z * ptr) :=
  omap (fun e => match e with Returned _ seq tmp => Some (seq, tmp) | _ => None end) evs.
Definition unused (evs : list (event P)) : list Z :=
  omap (fun e => match e with Unused seq => Some seq | _ => None end) evs.
(** Nothing is finished after [Stop]: the owner stops the buffer when its
    writers are gone. *)
Definition quiet (evs : list (event P)) : Prop :=
  forall before after, evs = before ++ Stopped :: after -> finished after = [].

Definition wseq (w : writer_at P) : Z :=
  match w with W_room q | W_stop q | W_have q | W_written q _ | W_store q _ => q end.
Definition rseq (r : reader_at P) : Z :=
  match r with R_check q | R_stop q | R_wrote q | R_empty q _ | R_buffer q | R_turn q _ | R_store q _ => q end.

(** What a thread has established when it is there. *)
Definition writer_ok (s : LogPageBuffer P) (w : writer_at P) : Prop :=
  lastWrote_ s < wseq w < writableSeq_ s /\
  match w with
  | W_room _ | W_stop _ => True
  | W_have q => q - lastRead_ s <= size_
  | W_written q data => q - lastRead_ s <= size_ /\ buffer_ s !! slot q = Some data
  | W_store q data => q - lastRead_ s <= size_ /\ buffer_ s !! slot q = Some data /\ q = lastWrote_ s + 1
  end.

Definition reader_ok (past : list (event P)) (s : LogPageBuffer P) (r : reader_at P) : Prop :=
  lastRead_ s < rseq r <= lastDispatch_ s /\
  match r with
  | R_check _ | R_stop _ => True
  | R_wrote _ => Stopped ∈ past
  | R_empty _ wrote => Stopped ∈ past /\ wrote <= lastWrote_ s /\ (quiet past -> wrote = lastWrote_ s)
  | R_buffer q => q <= lastWrote_ s
  | R_turn q tmp => q <= lastWrote_ s /\ finished past !! Z.to_nat q = Some (q, tmp)
  | R_store q tmp => q <= lastWrote_ s /\ finished past !! Z.to_nat q = Some (q, tmp) /\ q = lastRead_ s + 1
  end.

Record Inv (past : list (event P)) (s : LogPageBuffer P) : Prop := {
  inv_wrote : lastWrote_ s = Z.of_nat (length (finished past)) - 1;
  inv_read : lastRead_ s = Z.of_nat (length (delivered past)) - 1;
  inv_prefix : delivered past = take (length (delivered past)) (finished past);
  inv_seqs : (finished past).*1 = seqZ 0 (Z.of_nat (length (finished past)));
  inv_order : lastRead_ s <= lastWrote_ s < writableSeq_ s;
  inv_dispatch : lastRead_ s <= lastDispatch_ s;
  inv_bound : lastWrote_ s - lastRead_ s <= size_;
  inv_stop : stop_ s = true -> Stopped ∈ past;
  inv_writers : forall i w, writers s !! i = Some w -> writer_ok s w;
  inv_own : forall i i' w w', writers s !! i = Some w -> writers s !! i' = Some w' -> wseq w = wseq w' -> i = i';
  inv_unused : forall q, q ∈ unused past -> lastWrote_ s < q /\ (forall i w, writers s !! i = Some w -> wseq w <> q) /\ q < writableSeq_ s;
  inv_readers : forall j r, readers s !! j = Some r -> reader_ok past s r;
  inv_turn : forall j j' r r', readers s !! j = Some r -> readers s !! j' = Some r' -> rseq r = rseq r' -> j = j';
  inv_buffer : forall q, lastRead_ s < q <= lastWrote_ s -> exists data, buffer_ s !! slot q = Some data /\ finished past !! Z.to_nat q = Some (q, data)
}.

Lemma slot_mod q : slot q = q mod 1024.
Proof. unfold slot. change (size_ - 1) with (Z.ones 10). rewrite Z.land_ones by lia. done. Qed.

(** Two numbers in the window have two slots. *)
Lemma slot_inj q q' : slot q = slot q' -> Z.abs (q - q') < size_ -> q = q'.
Proof.
  rewrite !slot_mod. change size_ with 1024. intros Hm Hd.
  assert (Hq := Z.div_mod q 1024 ltac:(done)). assert (Hq' := Z.div_mod q' 1024 ltac:(done)). nia.
Qed.

Lemma buffer_inv_new : Inv [] new_LogPageBuffer.
Proof.
  split; cbn; try done; try (intros * Hl; by apply lookup_empty_Some in Hl); [by intros q Hq%elem_of_nil |].
  intros q Hq. lia.
Qed.

(** ** Events that change nothing *)
Lemma finished_app (e1 e2 : list (event P)) : finished (e1 ++ e2) = finished e1 ++ finished e2.
Proof. apply omap_app. Qed.
Lemma delivered_app (e1 e2 : list (event P)) : delivered (e1 ++ e2) = delivered e1 ++ delivered e2.
Proof. apply omap_app. Qed.
Lemma unused_app (e1 e2 : list (event P)) : unused (e1 ++ e2) = unused e1 ++ unused e2.
Proof. apply omap_app. Qed.

Lemma quiet_app (e1 e2 : list (event P)) : quiet (e1 ++ e2) -> quiet e1.
Proof.
  intros Hq b a ->. assert (Hf := Hq b (a ++ e2)). rewrite <- app_assoc in Hf. cbn in Hf.
  rewrite finished_app in Hf. by destruct (app_eq_nil _ _ (Hf eq_refl)).
Qed.

Lemma reader_ok_events past e s r : finished e = [] -> reader_ok past s r -> reader_ok (past ++ e) s r.
Proof.
  intros He [Hq Hr]. split; [done|]. rewrite finished_app, He, app_nil_r.
  destruct r; try done; [by apply elem_of_app; left|].
  destruct Hr as (Hs & Hw & Hqt). split_and!; [by apply elem_of_app; left | done | intros H'%quiet_app; auto].
Qed.

Lemma inv_events past e s : finished e = [] -> delivered e = [] -> unused e = [] -> Inv past s -> Inv (past ++ e) s.
Proof.
  intros Hf Hd Hu I. assert (Hreaders := fun j r Hj => reader_ok_events past e s r Hf (inv_readers _ _ I j r Hj)).
  destruct I. split; rewrite ?finished_app, ?delivered_app, ?unused_app, ?Hf, ?Hd, ?Hu, ?app_nil_r; auto.
  intros Hs. apply elem_of_app. auto.
Qed.

(** ** Threads that move without changing what others see *)
Lemma inv_writer_goes past s i w w' :
  Inv past s -> writers s !! i = Some w -> wseq w' = wseq w -> writer_ok s w' -> Inv past (writer_goes i w' s).
Proof.
  intros I Hi Hq Hok. destruct I. split; cbn; auto.
  - intros i' x Hx. destruct (decide (i' = i)) as [->|Hne]; [rewrite lookup_insert_eq in Hx | rewrite lookup_insert_ne in Hx by done]; simplify_eq; [done|].
    by apply inv_writers0 in Hx.
  - intros i1 i2 x1 x2 H1 H2 He. apply lookup_insert_Some in H1 as [[<- <-]|[_ H1]], H2 as [[<- <-]|[_ H2]]; [done|..];
      (eapply inv_own0; [eassumption..|congruence]).
  - intros q Hin. destruct (inv_unused0 q Hin) as (Ha & Hb & Hc). split_and!; [done| |done].
    intros i' x Hx. apply lookup_insert_Some in Hx as [[<- <-]|[_ Hx]]; [rewrite Hq|]; by eapply Hb.
Qed.

Lemma inv_writer_done past s i : Inv past s -> Inv past (writer_done i s).
Proof.
  intros I. destruct I. split; cbn; auto.
  - intros i' x [_ Hx]%lookup_delete_Some. by apply (inv_writers0 i').
  - intros i1 i2 x1 x2 [_ H1]%lookup_delete_Some [_ H2]%lookup_delete_Some He. by eapply inv_own0.
  - intros q Hin. destruct (inv_unused0 q Hin) as (Ha & Hb & Hc). split_and!; [done| |done].
    intros i' x [_ Hx]%lookup_delete_Some. by eapply Hb.
Qed.

Lemma inv_reader_goes past s j r r' :
  Inv past s -> readers s !! j = Some r -> rseq r' = rseq r -> reader_ok past s r' -> Inv past (reader_goes j r' s).
Proof.
  intros I Hj Hq Hok. destruct I. split; cbn; auto.
  - intros j' x Hx. apply lookup_insert_Some in Hx as [[<- <-]|[_ Hx]]; [done|]. by apply (inv_readers0 j').
  - intros j1 j2 x1 x2 H1 H2 He. apply lookup_insert_Some in H1 as [[<- <-]|[_ H1]], H2 as [[<- <-]|[_ H2]]; [done|..];
      (eapply inv_turn0; [eassumption..|congruence]).
Qed.

Lemma inv_reader_done past s j : Inv past s -> Inv past (reader_done j s).
Proof.
  intros I. destruct I. split; cbn; auto.
  - intros j' x [_ Hx]%lookup_delete_Some. by apply (inv_readers0 j').
  - intros j1 j2 x1 x2 [_ H1]%lookup_delete_Some [_ H2]%lookup_delete_Some He. by eapply inv_turn0.
Qed.

(** A number that its holder gives up. *)
Lemma inv_forget past s i w : Inv past s -> writers s !! i = Some w -> Inv (past ++ [Unused (wseq w)]) (writer_done i s).
Proof.
  intros I Hi. assert (I' := inv_writer_done past s i I). destruct (inv_writers _ _ I i w Hi) as [Hw _].
  assert (Hreaders := fun j r Hj => reader_ok_events past [Unused (wseq w)] _ r eq_refl (inv_readers _ _ I' j r Hj)).
  destruct I'. split; rewrite ?finished_app, ?delivered_app, ?unused_app, ?app_nil_r; auto.
  - intros Hs. apply elem_of_app. auto.
  - intros q [Hin| ->%list_elem_of_singleton]%elem_of_app; [by apply inv_unused0|]. split_and!; [apply Hw| |apply Hw].
    intros i' w' Hi' He. cbn in Hi'. apply lookup_delete_Some in Hi' as [Hne Hi']. by destruct Hne, (inv_own _ _ I i' i w' w Hi' Hi He).
Qed.

(** ** The calls *)
Lemma inv_fetch_write past s i : Inv past s -> writers s !! i = None ->
  Inv past (writer_goes i (W_room (writableSeq_ s)) (set_writable (writableSeq_ s + 1) s)).
Proof.
  intros I Hi. destruct I. split; cbn; auto; [lia|..].
  - intros i' x Hx. apply lookup_insert_Some in Hx as [[<- <-]|[_ Hx]]; [split; cbn; lia|].
    destruct (inv_writers0 i' x Hx) as [Hq Hr]. split; [cbn; lia|]. by destruct x.
  - assert (Hnew : forall i' x, writers s !! i' = Some x -> wseq x <> writableSeq_ s).
    { intros i' x Hx. destruct (inv_writers0 i' x Hx). lia. }
    intros i1 i2 x1 x2 H1 H2 He. apply lookup_insert_Some in H1 as [[<- <-]|[_ H1]], H2 as [[<- <-]|[_ H2]]; [done|..];
      [by destruct (Hnew _ _ H2) | by destruct (Hnew _ _ H1) | by eapply inv_own0].
  - intros q Hin. destruct (inv_unused0 q Hin) as (Ha & Hb & Hc). split_and!; [done| |lia].
    intros i' x Hx. apply lookup_insert_Some in Hx as [[<- <-]|[_ Hx]]; [cbn; lia | by eapply Hb].
Qed.

Lemma inv_fetch_read past s j : Inv past s -> readers s !! j = None ->
  Inv past (reader_goes j (R_check (lastDispatch_ s + 1)) (set_dispatch (lastDispatch_ s + 1) s)).
Proof.
  intros I Hj. destruct I. split; cbn; auto; [lia|..].
  - intros j' x Hx. apply lookup_insert_Some in Hx as [[<- <-]|[_ Hx]]; [split; cbn; lia|].
    destruct (inv_readers0 j' x Hx) as [Hq Hr]. split; [cbn; lia|done].
  - assert (Hnew : forall j' x, readers s !! j' = Some x -> rseq x <> lastDispatch_ s + 1).
    { intros j' x Hx. destruct (inv_readers0 j' x Hx). lia. }
    intros j1 j2 x1 x2 H1 H2 He. apply lookup_insert_Some in H1 as [[<- <-]|[_ H1]], H2 as [[<- <-]|[_ H2]]; [done|..];
      [by destruct (Hnew _ _ H2) | by destruct (Hnew _ _ H1) | by eapply inv_turn0].
Qed.

(** [Write]: the slot holds no page that is finished and not yet read, and none of another writer. *)
Lemma inv_write past s i q data : Inv past s -> writers s !! i = Some (W_have q) ->
  Inv past (set_buffer (<[slot q := data]> (buffer_ s)) s) /\ <[slot q := data]> (buffer_ s) !! slot q = Some data.
Proof.
  intros I Hi. destruct I. destruct (inv_writers0 i _ Hi) as [Hq Hroom]. cbn in Hq, Hroom.
  assert (Hother : forall q', q' <> q -> lastRead_ s < q' <= lastRead_ s + size_ -> <[slot q := data]> (buffer_ s) !! slot q' = buffer_ s !! slot q').
  { intros q' Hne Hw. apply lookup_insert_ne. intros He%slot_inj; [by destruct Hne | lia]. }
  split; [|apply lookup_insert_eq]. split; cbn; auto.
  - intros i' x Hx. destruct (inv_writers0 i' x Hx) as [Hx1 Hx2]. split; [done|].
    assert (Hne : wseq x = q -> i' = i) by (intros He; by eapply inv_own0).
    destruct x as [| | |q' d'|q' d']; cbn in *; try done; rewrite Hother; try done; try lia;
      intros ->; specialize (Hne eq_refl); simplify_eq.
  - intros q' Hq'. rewrite Hother by lia. by apply inv_buffer0.
Qed.

(** [lastWrote_.store] *)
Lemma inv_finish past s i q data : Inv past s -> writers s !! i = Some (W_store q data) ->
  Inv (past ++ [Finished i q data]) (writer_done i (set_wrote q s)).
Proof.
  intros I Hi. destruct (inv_writers _ _ I i _ Hi) as [Hq (Hroom & Hbuf & ->)]. cbn in Hq.
  assert (Hown := fun i' w' Hi' He => inv_own _ _ I i' i w' _ Hi' Hi He). cbn in Hown.
  destruct I. set (n := length (finished past)) in *.
  assert (Hfin : finished (past ++ [Finished i (lastWrote_ s + 1) data]) = finished past ++ [(lastWrote_ s + 1, data)]) by apply finished_app.
  assert (Hpast : forall k x, finished past !! k = Some x -> (finished past ++ [(lastWrote_ s + 1, data)]) !! k = Some x).
  { intros k x Hk. by apply lookup_app_l_Some. }
  assert (Hnew : (finished past ++ [(lastWrote_ s + 1, data)]) !! Z.to_nat (lastWrote_ s + 1) = Some (lastWrote_ s + 1, data)).
  { rewrite lookup_app_r by lia. fold n. by replace (Z.to_nat (lastWrote_ s + 1) - n)%nat with 0%nat by lia. }
  split; cbn [lastRead_ lastWrote_ lastDispatch_ writableSeq_ stop_ buffer_ writers readers writer_done set_writers set_wrote];
    rewrite ?Hfin, ?delivered_app, ?unused_app, ?app_nil_r, ?length_app; cbn [length]; try lia; auto.
  - rewrite take_app_le; [done|]. fold n. lia.
  - rewrite fmap_app, inv_seqs0. fold n. cbn. rewrite Nat2Z.inj_add, seqZ_app by lia. apply (f_equal2 app); [done|]. rewrite Z.add_0_l. replace (lastWrote_ s + 1) with (Z.of_nat n) by lia. unfold seqZ. cbn. f_equal; lia.
  - intros Hs. apply elem_of_app. auto.
  - intros i' x [Hne Hx]%lookup_delete_Some. destruct (inv_writers0 i' x Hx) as [Hx1 Hx2].
    assert (wseq x <> lastWrote_ s + 1) by (intros He; by destruct Hne, (Hown i' x Hx He)).
    split; cbn; [lia|]. destruct x as [| | |q' d'|q' d']; cbn in *; try done. destruct Hx2 as (_ & _ & ->). done.
  - intros i1 i2 x1 x2 [_ H1]%lookup_delete_Some [_ H2]%lookup_delete_Some He. by eapply inv_own0.
  - intros q' Hin. destruct (inv_unused0 q' Hin) as (Ha & Hb & Hc). assert (Hne := Hb i _ Hi). cbn in Hne. split_and!; [lia| |done].
    intros i' x [_ Hx]%lookup_delete_Some. by eapply Hb.
  - intros j r Hj. destruct (inv_readers0 j r Hj) as [Hr1 Hr2]. split; [done|]. rewrite Hfin.
    destruct r as [| | |q' w| | |]; cbn in *; try done; try (intuition (auto; lia)); [by apply elem_of_app; left|].
    destruct Hr2 as (Hs & Hw & _). split_and!; [by apply elem_of_app; left | lia |]. intros Hquiet.
    apply list_elem_of_split in Hs as (b & a & ->). assert (Hf := Hquiet b (a ++ [Finished i (lastWrote_ s + 1) data])).
    rewrite <- app_assoc in Hf. cbn in Hf. rewrite finished_app in Hf. by destruct (app_eq_nil _ _ (Hf eq_refl)).
  - intros q' Hq'. destruct (decide (q' = lastWrote_ s + 1)) as [->|Hne]; [eauto|].
    destruct (inv_buffer0 q' ltac:(lia)) as (d & Hd1 & Hd2). eauto.
Qed.

(** [lastRead_.store] *)
Lemma inv_return past s j q tmp : Inv past s -> readers s !! j = Some (R_store q tmp) ->
  Inv (past ++ [Returned j q tmp]) (reader_done j (set_read q s)).
Proof.
  intros I Hj. destruct (inv_readers _ _ I j _ Hj) as [Hq (Hw & Hlook & ->)]. cbn in Hq.
  assert (Hown := fun j' r' Hj' He => inv_turn _ _ I j' j r' _ Hj' Hj He). cbn in Hown.
  destruct I. set (n := length (delivered past)) in *.
  assert (Hfin : finished (past ++ [Returned j (lastRead_ s + 1) tmp]) = finished past) by (rewrite finished_app; apply app_nil_r).
  replace (Z.to_nat (lastRead_ s + 1)) with n in Hlook by lia.
  split; cbn [lastRead_ lastWrote_ lastDispatch_ writableSeq_ stop_ buffer_ writers readers reader_done set_readers set_read];
    rewrite ?Hfin, ?delivered_app, ?unused_app, ?app_nil_r, ?length_app; cbn [length]; try lia; auto.
  - cbn. lia.
  - change (delivered [Returned j (lastRead_ s + 1) tmp]) with [(lastRead_ s + 1, tmp)]. cbn [length]. fold n. rewrite Nat.add_1_r.
    by rewrite (take_S_r _ n _ Hlook), <- inv_prefix0.
  - intros Hs. apply elem_of_app. auto.
  - intros i x Hx. destruct (inv_writers0 i x Hx) as [Hx1 Hx2]. split; [done|].
    destruct x; cbn in *; intuition lia.
  - intros j' x [Hne Hx]%lookup_delete_Some. destruct (inv_readers0 j' x Hx) as [Hx1 Hx2].
    assert (rseq x <> lastRead_ s + 1) by (intros He; by destruct Hne, (Hown j' x Hx He)).
    apply (reader_ok_events past [Returned j (lastRead_ s + 1) tmp]); [done|]. split; cbn; [lia|].
    destruct x as [| | |q' w| | |]; cbn in *; try done. destruct Hx2 as (_ & _ & ->). done.
  - intros j1 j2 x1 x2 [_ H1]%lookup_delete_Some [_ H2]%lookup_delete_Some He. by eapply inv_turn0.
  - intros q' Hq'. apply inv_buffer0. lia.
Qed.

Lemma inv_writer_step past s i : Inv past s ->
  match writer_step i s with Disabled => True | Fault _ => False | Step evs s' => Inv (past ++ evs) s' end.
Proof.
  intros I. unfold writer_step. destruct (writers s !! i) as [w|] eqn:Hi; [|done]. assert (Hw := inv_writers _ _ I i w Hi).
  destruct w as [q|q| | |q data]; try done.
  - destruct (Z.ltb_spec size_ (q - lastRead_ s)).
    + rewrite app_nil_r. by eapply inv_writer_goes; eauto.
    + apply inv_events; [done..|]. eapply inv_writer_goes; eauto. split; [apply Hw | done].
  - destruct (stop_ s); [by eapply (inv_forget past s i (W_stop q))|]. rewrite app_nil_r. by eapply inv_writer_goes; eauto.
  - by apply inv_finish.
Qed.

Lemma inv_reader_step past s j : Inv past s ->
  match reader_step j s with Disabled => True | Fault _ => False | Step evs s' => Inv (past ++ evs) s' end.
Proof.
  intros I. unfold reader_step. destruct (readers s !! j) as [r|] eqn:Hj; [|done]. destruct (inv_readers _ _ I j r Hj) as [Hq Hr].
  destruct r as [q|q|q|q w|q|q tmp|q tmp]; cbn in Hq, Hr; rewrite ?app_nil_r.
  - destruct (Z.ltb_spec (lastWrote_ s) q); (eapply inv_reader_goes; eauto; by split).
  - destruct (stop_ s) eqn:Hs; (eapply inv_reader_goes; eauto; split; [done|]); [by apply (inv_stop _ _ I) | done].
  - eapply inv_reader_goes; eauto. split; [done|]. cbn. split_and!; [done | lia | done].
  - destruct (w =? lastRead_ s); rewrite ?app_nil_r.
    + apply inv_events; [done..|]. by apply inv_reader_done.
    + eapply inv_reader_goes; eauto. by split.
  - destruct (inv_buffer _ _ I q ltac:(lia)) as (d & -> & Hf). rewrite app_nil_r. eapply inv_reader_goes; eauto. split; [done|]. cbn. split_and!; [lia|done].
  - destruct (Z.eqb_spec (q - 1) (lastRead_ s)); cbn; [|done]. eapply inv_reader_goes; eauto. split; [done|]. cbn. split_and!; [apply Hr..|lia].
  - by apply inv_return.
Qed.

Lemma inv_step : preserves step Inv.
Proof.
  intros a past s I. destruct a as [i|i data|i|i|i|j|j|]; cbn [step].
  - unfold GetWriteSeq_call. destruct (writers s !! i) eqn:Hi; [done|]. rewrite app_nil_r. by apply inv_fetch_write.
  - unfold Write_call. destruct (writers s !! i) as [[| |q| |]|] eqn:Hi; try done. rewrite app_nil_r.
    destruct (inv_write past s i q data I Hi) as [I' Hb]. destruct (inv_writers _ _ I i _ Hi) as [Hq Hroom].
    refine (inv_writer_goes _ _ i (W_have q) (W_written q data) I' Hi eq_refl _). split; [done|]. by split.
  - unfold FinishWrite_call. destruct (writers s !! i) as [[| | |q data|]|] eqn:Hi; try done.
    destruct (Z.eqb_spec (q - 1) (lastWrote_ s)); cbn [negb]; [|by apply inv_events]. rewrite app_nil_r.
    destruct (inv_writers _ _ I i _ Hi) as [Hq [Hroom Hb]]. eapply inv_writer_goes; eauto. split; [done|]. cbn. split_and!; [done..|lia].
  - destruct (writers s !! i) as [[| |q| |]|] eqn:Hi; try done. by eapply (inv_forget past s i (W_have q)).
  - by apply inv_writer_step.
  - unfold Read_call. destruct (readers s !! j) eqn:Hj; [done|]. rewrite app_nil_r. by apply inv_fetch_read.
  - by apply inv_reader_step.
  - apply (inv_events past [Stopped]) in I; [|done..]. destruct I. split; cbn; auto. intros _. apply elem_of_app. right. by left.
Qed.

(** What is observed at the end of a reader. *)
Definition ends_read (past : list (event P)) : Prop :=
  forall before j after, past = before ++ Ended j :: after -> quiet before -> delivered before = finished before.

Lemma ends_read_snoc past e : ends_read past ->
  (forall j, e = Ended j -> quiet past -> delivered past = finished past) -> ends_read (past ++ [e]).
Proof.
  intros He Hend b j a Heq Hq. destruct a as [|x a _] using rev_ind.
  - apply app_inj_tail in Heq as [-> ->]. by eapply Hend.
  - rewrite app_comm_cons, app_assoc in Heq. apply app_inj_tail in Heq as [-> _]. by eapply He.
Qed.

Lemma ends_read_step a past s : Inv past s -> ends_read past ->
  match step a s with Step evs _ => ends_read (past ++ evs) | _ => True end.
Proof.
  intros I He. destruct a as [i|i data|i|i|i|j|j|]; cbn [step];
    unfold GetWriteSeq_call, Write_call, FinishWrite_call, writer_step, Read_call, reader_step;
    repeat (case_match; try done); simplify_eq/=; rewrite ?app_nil_r; try done; try (by apply ends_read_snoc).
  apply ends_read_snoc; [done|]. intros j' _ Hq.
  match goal with Hj : readers s !! _ = Some (R_empty _ _) |- _ => destruct (inv_readers _ _ I _ _ Hj) as [_ (_ & _ & Hr)] end.
  specialize (Hr Hq). destruct I.
  match goal with Hw : (_ =? lastRead_ s) = true |- _ => apply Z.eqb_eq in Hw end.
  rewrite inv_prefix0, take_ge; [done|lia].
Qed.

(** ** Runs *)
Lemma run_inv acts evs s : run step acts new_LogPageBuffer = Step evs s -> Inv evs s.
Proof. apply (run_invariant step Inv); [apply inv_step | apply buffer_inv_new]. Qed.

Lemma run_ends_read acts evs s : run step acts new_LogPageBuffer = Step evs s -> ends_read evs.
Proof.
  intros Hr. apply (run_invariant step (fun past s => Inv past s /\ ends_read past)) in Hr; [by destruct Hr| |].
  - intros a past s' [I He]. assert (I' := inv_step a past s' I). assert (He' := ends_read_step a past s' I He).
    by destruct (step a s').
  - split; [apply buffer_inv_new|]. by intros [|] * [=].
Qed.

Lemma run_stopped (acts : list (action P)) (evs : list (event P)) s : run step acts new_LogPageBuffer = Step evs s -> Stopped ∈ evs -> stop_ s = true.
Proof.
  intros Hr. apply (run_invariant step (fun past s => Inv past s /\ (Stopped ∈ past -> stop_ s = true))) in Hr; [by destruct Hr| |].
  - intros a past s' [I Hs]. assert (I' := inv_step a past s' I). destruct (step a s') as [| |evs' s''] eqn:Ha; [done..|]. split; [done|]. revert Ha.
    destruct a as [i|i data|i|i|i|j|j|]; cbn [step];
      unfold GetWriteSeq_call, Write_call, FinishWrite_call, writer_step, Read_call, reader_step;
      repeat (case_match; try done); intros [= <- <-]; cbn; set_solver.
  - split; [apply buffer_inv_new | by intros Hin%elem_of_nil].
Qed.

(** ** The reader that is next *)

(** Until [Stop] every number handed out to a reader is with one. *)
Definition all_held (past : list (event P)) (s : LogPageBuffer P) : Prop :=
  Stopped ∉ past -> forall q, lastRead_ s < q <= lastDispatch_ s -> exists j r, readers s !! j = Some r /\ rseq r = q.

Lemma held_goes s j r r' q : readers s !! j = Some r -> rseq r' = rseq r ->
  (exists j r, readers s !! j = Some r /\ rseq r = q) -> exists j0 r0, <[j := r']> (readers s) !! j0 = Some r0 /\ rseq r0 = q.
Proof.
  intros Hj He (j0 & r0 & H0 & <-). destruct (decide (j0 = j)) as [->|Hne].
  - exists j, r'. rewrite lookup_insert_eq. simplify_eq. done.
  - exists j0, r0. by rewrite lookup_insert_ne.
Qed.

Lemma all_held_step a past s : Inv past s -> all_held past s ->
  match step a s with Step evs s' => all_held (past ++ evs) s' | _ => True end.
Proof.
  intros I Ha. assert (Hsame : forall evs s', lastRead_ s' = lastRead_ s -> lastDispatch_ s' = lastDispatch_ s -> readers s' = readers s -> all_held (past ++ evs) s').
  { intros evs s' H1 H2 H3 Hs q Hq. rewrite H3. rewrite H1, H2 in Hq. apply Ha; [|done]. intros Hin. apply Hs, elem_of_app. by left. }
  assert (Hgoes : forall j r r', readers s !! j = Some r -> rseq r' = rseq r -> all_held (past ++ []) (reader_goes j r' s)).
  { intros j r r' Hj He Hs q Hq. rewrite app_nil_r in Hs. eapply held_goes; eauto. }
  destruct a as [i|i data|i|i|i|j|j|]; cbn [step].
  6: { unfold Read_call. destruct (readers s !! j) eqn:Hj; [done|]. intros Hs q Hq. rewrite app_nil_r in Hs. cbn in *.
       destruct (decide (q = lastDispatch_ s + 1)) as [->|Hne].
       - exists j, (R_check (lastDispatch_ s + 1)). by rewrite lookup_insert_eq.
       - destruct (Ha Hs q ltac:(lia)) as (j0 & r0 & H0 & He). exists j0, r0. rewrite lookup_insert_ne by congruence. done. }
  6: { unfold reader_step. destruct (readers s !! j) as [r|] eqn:Hj; [|done]. destruct (inv_readers _ _ I j r Hj) as [Hq Hr].
       destruct r as [q|q|q|q w|q|q tmp|q tmp]; try (by eapply Hgoes).
       - eapply Hgoes; [done|]. by case_match.
       - eapply Hgoes; [done|]. by case_match.
       - destruct (w =? lastRead_ s); [|by eapply Hgoes]. intros Hs. destruct Hs. apply elem_of_app. left. by destruct Hr.
       - destruct (buffer_ s !! slot q); [by eapply Hgoes|done].
       - destruct (negb _); [by apply Hsame | by eapply Hgoes].
       - cbn in Hr. intros Hs q' Hq'. cbn in Hq'. assert (Hs' : Stopped ∉ past) by (intros Hin; apply Hs, elem_of_app; by left).
         destruct (Ha Hs' q' ltac:(lia)) as (j0 & r0 & H0 & He). exists j0, r0. split; [|done]. apply lookup_delete_Some. split; [|done].
         intros ->. simplify_eq/=. lia. }
  all: unfold GetWriteSeq_call, Write_call, FinishWrite_call, writer_step; repeat (case_match; try done); simplify_eq/=; by apply Hsame.
Qed.

(** The steps of the readers. *)
Definition reading_step (a : action P) (s : LogPageBuffer P) : outcome (event P) (LogPageBuffer P) :=
  match a with Read _ | Reader _ => step a s | _ => Disabled end.

Definition position (r : option (reader_at P)) : nat :=
  match r with Some (R_stop _) => 5 | Some (R_check _) => 4 | Some (R_buffer _) => 3 | Some (R_turn _ _) => 2 | Some (R_store _ _) => 1 | _ => 0 end.

(** The reader of the next number gets its page by its own steps. *)
Lemma next_delivered past s j r : Inv past s -> Stopped ∉ past -> lastRead_ s < lastWrote_ s ->
  readers s !! j = Some r -> rseq r = lastRead_ s + 1 -> can_reach reading_step (fun s' => lastRead_ s' = lastRead_ s + 1) s.
Proof.
  intros I Hs Hlt Hj Hr. remember (lastRead_ s) as n eqn:Hn0.
  set (J s := exists past r, Inv past s /\ Stopped ∉ past /\ lastRead_ s = n /\ n < lastWrote_ s /\ readers s !! j = Some r /\ rseq r = n + 1).
  apply (can_reach_measure reading_step J _ (fun s => position (readers s !! j))); [|by exists past, r].
  clear past s r I Hs Hlt Hj Hr Hn0. intros s (past & r & I & Hs & Hn & Hlt & Hj & Hr).
  assert (I' := inv_reader_step past s j I). destruct (inv_readers _ _ I j r Hj) as [_ Hr'].
  assert (Hstop := inv_stop _ _ I).
  assert (Hpos : forall r', position (readers (reader_goes j r' s) !! j) = position (Some r')) by (intros r'; cbn; by rewrite lookup_insert_eq).
  assert (HJ : forall r', reader_step j s = Step [] (reader_goes j r' s) -> rseq r' = n + 1 -> (position (Some r') < position (Some r))%nat ->
    Inv (past ++ []) (reader_goes j r' s) -> can_reach reading_step (fun s' => lastRead_ s' = n + 1 \/ J s' /\ (position (readers s' !! j) < position (readers s !! j))%nat) s).
  { intros r' Hst Hr0 Hlt0 I0. eapply (can_reach_step _ _ (Reader j)); [exact Hst|]. apply can_reach_here. right. rewrite Hpos, Hj. split; [|done].
    exists past, r'. rewrite app_nil_r in I0. split_and!; try done. apply lookup_insert_eq. }
  unfold reader_step in *. rewrite Hj in *.
  destruct r as [q|q|q|q w|q|q tmp|q tmp]; cbn in Hr, Hr'; subst q; try tauto.
  - rewrite (proj2 (Z.ltb_ge _ _)) in * by lia. apply (HJ (R_buffer (n + 1))); cbn; [done..|lia|done].
  - destruct (stop_ s); [by destruct (Hs (Hstop eq_refl))|]. apply (HJ (R_check (n + 1))); cbn; [done..|lia|done].
  - destruct (buffer_ s !! slot (n + 1)) as [tmp|]; [|done]. apply (HJ (R_turn (n + 1) tmp)); cbn; [done..|lia|done].
  - rewrite Hn in *. replace (n + 1 - 1) with n in * by lia. rewrite Z.eqb_refl in *. cbn [negb] in *.
    apply (HJ (R_store (n + 1) tmp)); cbn; [done..|lia|done].
  - eapply (can_reach_step _ _ (Reader j)); [cbn; unfold reader_step; by rewrite Hj|]. apply can_reach_here. by left.
Qed.

Lemma run_unused_blocks (acts : list (action P)) (evs : list (event P)) s q :
  run step acts new_LogPageBuffer = Step evs s -> q ∈ unused evs ->
  forall q' data, (q', data) ∈ finished evs \/ (q', data) ∈ delivered evs -> q' < q.
Proof.
  intros Hr%run_inv Hq q' data Hin. destruct (inv_unused _ _ Hr q Hq) as [Hlt _]. destruct Hr.
  assert (Hf : (q', data) ∈ finished evs).
  { destruct Hin as [|Hin]; [done|]. rewrite inv_prefix0 in Hin. eapply elem_of_prefix; [exact Hin|]. apply prefix_take. }
  apply (list_elem_of_fmap_2 fst) in Hf. cbn in Hf. rewrite inv_seqs0 in Hf. apply elem_of_seqZ in Hf. lia.
Qed.

Lemma run_delivers (acts : list (action P)) (evs : list (event P)) s : run step acts new_LogPageBuffer = Step evs s -> Stopped ∉ evs -> lastRead_ s < lastWrote_ s ->
  can_reach reading_step (fun s' => lastRead_ s' = lastRead_ s + 1) s.
Proof.
  intros Hr Hs Hlt. assert (HH : Inv evs s /\ all_held evs s).
  { apply (run_invariant step (fun past s => Inv past s /\ all_held past s)) in Hr; [done| |].
    - intros a past s' [I Ha]. assert (I' := inv_step a past s' I). assert (Ha' := all_held_step a past s' I Ha). by destruct (step a s').
    - split; [apply buffer_inv_new|]. intros _ q Hq. cbn in Hq. lia. }
  destruct HH as [I Ha]. destruct (decide (lastDispatch_ s = lastRead_ s)) as [Hd|Hd].
  - set (j := fresh (dom (readers s))). assert (Hj : readers s !! j = None) by (apply not_elem_of_dom, is_fresh).
    assert (I' := inv_fetch_read _ _ j I Hj). eapply (can_reach_step reading_step _ (Read j)); [cbn; unfold Read_call; by rewrite Hj|].
    apply (next_delivered evs _ j (R_check (lastDispatch_ s + 1)) I' Hs Hlt); cbn; [apply lookup_insert_eq | lia].
  - destruct (Ha Hs (lastRead_ s + 1)) as (j & r & Hj & Hq); [assert (Hdis := inv_dispatch _ _ I); lia|]. by eapply next_delivered.
Qed.
End observed.

(** ** Properties *)

(** C11: in every interleaving of any number of writers and readers, no access to
    the ring reads a slot that was never written, the pages are finished in the
    order of their numbers 0, 1, 2, ..., the pages delivered are the first of
    those finished, each once, in order and as they were written, and at most
    1024 pages are finished and not yet delivered. *)
Theorem page_buffer_fifo {P} (acts : list (action P)) :
  match run step acts new_LogPageBuffer with
  | Disabled => True
  | Fault _ => False
  | Step evs s =>
      delivered evs `prefix_of` finished evs /\ (finished evs).*1 = seqZ 0 (Z.of_nat (length (finished evs))) /\
      Z.of_nat (length (finished evs)) - Z.of_nat (length (delivered evs)) <= size_
  end.
Proof.
  destruct (run step acts new_LogPageBuffer) as [|e|evs s] eqn:Hr; [done| |].
  - apply (run_never_faults step Inv) in Hr; [done | apply inv_step | apply buffer_inv_new].
  - apply run_inv in Hr. destruct Hr. split_and!; [|done|lia]. rewrite inv_prefix0. apply prefix_take.
Qed.

(** [Read] tells a reader that there are no more pages only when there are
    none: if nothing is finished after [Stop], everything finished has been
    delivered by then. *)
Theorem page_buffer_end {P} (acts : list (action P)) before j after s :
  run step acts new_LogPageBuffer = Step (before ++ Ended j :: after) s -> quiet before -> delivered before = finished before.
Proof. intros Hr Hq. by eapply (run_ends_read acts _ s Hr). Qed.

(** A number that [GetWriteSeq] has handed out and that is not written
    blocks the buffer: in no run is its page, or a later one, ever finished or
    delivered. *)
Theorem page_buffer_unused_blocks {P} (acts : list (action P)) evs s q :
  run step acts new_LogPageBuffer = Step evs s -> q ∈ unused evs ->
  forall q' data, (q', data) ∈ finished evs \/ (q', data) ∈ delivered evs -> q' < q.
Proof. apply run_unused_blocks. Qed.

(** No deadlock: in whatever state an interleaving has left the buffer, a
    finished page that is not yet delivered can be delivered, by steps of the
    readers only. *)
Theorem page_buffer_delivers {P} (acts : list (action P)) evs s :
  run step acts new_LogPageBuffer = Step evs s -> Stopped ∉ evs -> lastRead_ s < lastWrote_ s ->
  can_reach reading_step (fun s' => lastRead_ s' = lastRead_ s + 1) s.
Proof. apply run_delivers. Qed.

(** ** A run: the second writer is done first and waits for the other *)
Definition sample : list (action nat) :=
  [GetWriteSeq 0; GetWriteSeq 1; Writer 1; Write 1 (Some 21%nat); FinishWrite 1; Read 0; Reader 0; Writer 0; Write 0 (Some 20%nat);
   FinishWrite 0; Writer 0; FinishWrite 1; Writer 1].
Definition sample_read : list (action nat) := [Reader 0; Reader 0; Reader 0; Reader 0; Reader 0].

Example sample_run :
  match run step (sample ++ sample_read) new_LogPageBuffer with
  | Step evs _ => evs
  | _ => []
  end = [Granted 1 1; NotYet 1; Granted 0 0; Finished 0 0 (Some 20%nat); Finished 1 1 (Some 21%nat); Returned 0 0 (Some 20%nat)].
Proof. vm_compute. reflexivity. Qed.

Lemma page_buffer_delivers_witness :
  match run step sample new_LogPageBuffer with
  | Step evs s => can_reach reading_step (fun s' => lastRead_ s' = lastRead_ s + 1) s
  | _ => False
  end.
Proof.
  destruct (run step sample new_LogPageBuffer) as [|e|evs s] eqn:Hr; [vm_compute in Hr; discriminate Hr..|].
  assert (Hr' := Hr). vm_compute in Hr'. injection Hr' as He Hs.
  apply (page_buffer_delivers sample evs s Hr); [|subst s; reflexivity].
  subst evs. set_solver.
Defined.

(** The end: one page, [Stop], and the reader that finds all of it read. *)
Definition sample_end : list (action nat) :=
  [GetWriteSeq 0; Writer 0; Write 0 (Some 20%nat); FinishWrite 0; Writer 0; Read 0; Reader 0; Reader 0; Reader 0; Reader 0;
   Stop; Read 0; Reader 0; Reader 0; Reader 0; Reader 0].

Lemma page_buffer_end_witness :
  let before := [Granted 0 0; Finished 0 0 (Some 20%nat); Returned 0 0 (Some 20%nat); Stopped] in
  (match run step sample_end new_LogPageBuffer with Step evs _ => evs = before ++ [Ended 0] | _ => False end) /\
  delivered before = finished before.
Proof.
  set (before := [Granted 0 0; Finished 0 0 (Some 20%nat); Returned 0 0 (Some 20%nat); Stopped]). split; [vm_compute; reflexivity|].
  destruct (run step sample_end new_LogPageBuffer) as [|e|evs s] eqn:Hr; [vm_compute in Hr; discriminate Hr..|].
  assert (Hr' := Hr). vm_compute in Hr'. injection Hr' as He Hs. clear Hs.
  apply (page_buffer_end sample_end before 0 [] s); [by rewrite Hr, <- He|].
  intros b a Heq. destruct b as [|x1 [|x2 [|x3 [|x4 b]]]]; injection Heq; intros; subst; try done.
  by destruct b.
Defined.

(** A number that is not used, and a writer that waits behind it. *)
Definition sample_unused : list (action nat) :=
  [GetWriteSeq 0; Writer 0; Forget 0; GetWriteSeq 0; Writer 0; Write 0 (Some 20%nat); FinishWrite 0; FinishWrite 0].

Lemma page_buffer_unused_blocks_witness :
  match run step sample_unused new_LogPageBuffer with
  | Step evs _ => 0 ∈ unused evs /\ forall q' data, (q', data) ∈ finished evs \/ (q', data) ∈ delivered evs -> q' < 0
  | _ => False
  end.
Proof.
  destruct (run step sample_unused new_LogPageBuffer) as [|e|evs s] eqn:Hr; [vm_compute in Hr; discriminate Hr..|].
  assert (Hq : 0 ∈ unused evs).
  { assert (Hr' := Hr). vm_compute in Hr'. injection Hr' as <- _. cbn. by left. }
  split; [done|]. exact (page_buffer_unused_blocks sample_unused evs s 0 Hr Hq).
Defined.
