(* ===== verification/Recovery.v ===== *)
(** * Reading a log back ([ssdlogging/spdk_logging_recovery.cc])

    [ReadFromSPDK] keeps up to [reader_num] reads of the device in flight and
    hands the pages to the page buffer in order, whatever the order in which
    they complete; [RecoveryServer] starts one such thread per log file.

    The thread is a machine whose shared state is the [LogPageBuffer]; an
    action is a step of the thread or an action of another thread on the
    buffer.  One action makes at most one access to the shared state.  The
    device is a parameter: [disk lpn] is the page it returns, and every poll of
    a request may find it completed or not. *)

From S2P Require Import Prelude Machine Util LogFormat PageBuffer.
Local Open Scope Z_scope.

(** One of the [reader_num] entries of [buffer], [completion_flags],
    [free_flags], [copy_finish] and [sequence]. *)
Record request := {
  buffer : list Z; completion_flag : bool; free_flag : bool; copy_finish : bool; sequence : Z
}.
Definition request0 : request :=
  {| buffer := zeros PAGESIZE; completion_flag := true; free_flag := true; copy_finish := false; sequence := -1 |}.

(** Where the thread is: at the head of [while (true)], in [GetWriteSeq] for
    the free entry [index], at entry [i] of the loop over the entries, before
    [FinishWrite] of that entry, in its store, or returned. *)
Inductive reader_pc :=
  | AtHead | InGetWriteSeq (index : nat) | AtEntry (i : nat) | AtFinish (i : nat) | InFinish (i : nat) | Returned_.
#[export] Instance reader_pc_eq_dec : EqDecision reader_pc.
Proof. solve_decision. Defined.

Record reading := {
  requests : list request; stop : bool; pending_req : Z; pc : reader_pc; page_buffer_ : LogPageBuffer (list Z)
}.
Definition set_pc p s := {|
  requests := requests s; stop := stop s; pending_req := pending_req s; pc := p; page_buffer_ := page_buffer_ s |}.
Definition set_requests r n s := {|
  requests := r; stop := stop s; pending_req := n; pc := pc s; page_buffer_ := page_buffer_ s |}.
Definition set_stopped b s := {|
  requests := requests s; stop := b; pending_req := pending_req s; pc := pc s; page_buffer_ := page_buffer_ s |}.
Definition set_pages b s := {|
  requests := requests s; stop := stop s; pending_req := pending_req s; pc := pc s; page_buffer_ := b |}.

Section read.
Context (disk : Z -> list Z).
Variables (start_lpn end_lpn logfile_seq first_seq : Z).

Definition start_reading (reader_num : nat) (pages : LogPageBuffer (list Z)) : reading := {|
  requests := replicate reader_num request0; stop := false; pending_req := 0; pc := AtHead; page_buffer_ := pages |}.

(** 1. find a free reader *)
Fixpoint free_index (l : list request) : option nat :=
  match l with
  | [] => None
  | r :: l => if free_flag r then Some 0%nat else S <$> free_index l
  end.

Definition lpn_of (seq : Z) : Z := u64 (start_lpn + (seq - first_seq)).

(** 2. send a read request: after [GetWriteSeq] *)
Definition send (index : nat) (seq : Z) (s : reading) : outcome (event (list Z)) reading :=
  match requests s !! index with
  | None => Fault OutOfRange
  | Some r =>
      if negb (completion_flag r && (sequence r =? -1)) then Fault AssertFail
      else if (end_lpn =? 0) || (lpn_of seq <=? end_lpn) then
        Step [] (set_pc (AtEntry 0) (set_requests (<[index := {|
          buffer := buffer r; completion_flag := false; free_flag := false; copy_finish := copy_finish r; sequence := seq |}]> (requests s))
          (pending_req s + 1) s))
      else
        match step (Forget index) (page_buffer_ s) with
        | Step evs pages => Step evs (set_pc (AtEntry 0) (set_stopped true (set_pages pages s)))
        | Disabled => Disabled
        | Fault e => Fault e
        end
  end.

(** The page that goes to the buffer, and whether the reader stops. *)
Definition page_for (page : list Z) : res (option (list Z) * bool) :=
  s ← load32 page 0;
  if (0 <? end_lpn) || (s =? logfile_seq) then
    assertR (s =? logfile_seq) ≫= fun _ => Ok (Some page, false)
  else assertR (end_lpn =? 0) ≫= fun _ => Ok (None, true).

(** 3. check completion, of entry [i]; [polled]: the device completes it. *)
Definition check_completion (polled : bool) (i : nat) (s : reading) : outcome (event (list Z)) reading :=
  match requests s !! i with
  | None => Step [] (set_pc AtHead s)
  | Some r =>
      if free_flag r then Step [] (set_pc (AtEntry (S i)) s) else
      let r := if negb (completion_flag r) && polled
               then {| buffer := disk (lpn_of (sequence r)); completion_flag := true; free_flag := false;
                       copy_finish := copy_finish r; sequence := sequence r |} else r in
      let s := set_requests (<[i := r]> (requests s)) (pending_req s) s in
      if completion_flag r && negb (copy_finish r) then
        if sequence r =? -1 then Fault AssertFail else
        match page_for (buffer r) with
        | Crash e => Fault e
        | Ok (data, ends) =>
            match step (Write i data) (page_buffer_ s) with
            | Step evs pages =>
                let r := {| buffer := buffer r; completion_flag := true; free_flag := false; copy_finish := true; sequence := sequence r |} in
                Step evs (set_pc (AtFinish i) (set_stopped (stop s || ends) (set_requests (<[i := r]> (requests s)) (pending_req s) (set_pages pages s))))
            | Disabled => Disabled
            | Fault e => Fault e
            end
        end
      else if completion_flag r && copy_finish r then Step [] (set_pc (AtFinish i) s)
      else Step [] (set_pc (AtEntry (S i)) s)
  end.

(** [if (!page_buffer_->FinishWrite(sequence[i])) continue;] *)
Definition finish (i : nat) (s : reading) : outcome (event (list Z)) reading :=
  match step (FinishWrite i) (page_buffer_ s) with
  | Step [] pages => Step [] (set_pc (InFinish i) (set_pages pages s))
  | Step evs pages => Step evs (set_pc (AtEntry (S i)) (set_pages pages s))
  | Disabled => Disabled
  | Fault e => Fault e
  end.

Definition finished_entry (i : nat) (s : reading) : outcome (event (list Z)) reading :=
  match requests s !! i, step (Writer i) (page_buffer_ s) with
  | Some r, Step evs pages =>
      Step evs (set_pc (AtEntry (S i)) (set_requests (<[i := {|
        buffer := buffer r; completion_flag := completion_flag r; free_flag := true; copy_finish := false; sequence := -1 |}]> (requests s))
        (pending_req s - 1) (set_pages pages s)))
  | _, Fault e => Fault e
  | _, _ => Disabled
  end.

Definition in_get_write_seq (index : nat) (s : reading) : outcome (event (list Z)) reading :=
  match step (Writer index) (page_buffer_ s) with
  | Step evs pages =>
      let s := set_pages pages s in
      match evs with
      | [Granted _ seq] =>
          match send index seq s with
          | Step evs' s => Step (evs ++ evs') s
          | o => o
          end
      | [Unused _] => Step evs (set_pc (AtEntry 0) s)
      | _ => Step evs s
      end
  | Disabled => Disabled
  | Fault e => Fault e
  end.

Definition at_head (s : reading) : outcome (event (list Z)) reading :=
  if stop s && (pending_req s =? 0) then Step [] (set_pc Returned_ s) else
  match free_index (requests s) with
  | Some index =>
      if stop s then Step [] (set_pc (AtEntry 0) s) else
      match step (GetWriteSeq index) (page_buffer_ s) with
      | Step evs pages => Step evs (set_pc (InGetWriteSeq index) (set_pages pages s))
      | Disabled => Disabled
      | Fault e => Fault e
      end
  | None => Step [] (set_pc (AtEntry 0) s)
  end.

Definition ReadFromSPDK (polled : bool) (s : reading) : outcome (event (list Z)) reading :=
  match pc s with
  | AtHead => at_head s
  | InGetWriteSeq index => in_get_write_seq index s
  | AtEntry i => check_completion polled i s
  | AtFinish i => finish i s
  | InFinish i => finished_entry i s
  | Returned_ => Disabled
  end.

Inductive action :=
  | Thread (polled : bool)
  | Read_ (j : nat) | Reader_ (j : nat).  (* the threads that parse *)

Definition read_step (a : action) (s : reading) : outcome (event (list Z)) reading :=
  let other a :=
    match step a (page_buffer_ s) with
    | Step evs pages => Step evs (set_pages pages s)
    | Disabled => Disabled
    | Fault e => Fault e
    end in
  match a with
  | Thread polled => ReadFromSPDK polled s
  | Read_ j => other (Read j)
  | Reader_ j => other (Reader j)
  end.
End read.

(** ** [RecoveryServer] *)

(** What it does: start a thread for [(start, end, log_num)], join it. *)
Definition phase : Type := Z * Z * Z.

(** [for (auto &t : read_threads) t.join();]: the joinable threads; [join] of
    any other throws. *)
Definition join_all (read_threads : list bool) : option (list bool) :=
  if forallb id read_threads then Some (replicate (length read_threads) false) else None.

(** [for (int i = 0; i < num - 1; i++)]; [Ok None]: [join] threw. *)
Fixpoint read_files (logs : list phase) (read_threads : list bool) : list phase * res (option (list bool)) :=
  match logs with
  | [] => ([], Ok (Some read_threads))
  | (start, e, log_num) :: logs =>
      if negb ((0 <? start) && (0 <? e)) then ([], Crash AssertFail) else
      match join_all (read_threads ++ [true]) with
      | Some threads => let '(ps, o) := read_files logs threads in ((start, e, log_num) :: ps, o)
      | None => ([(start, e, log_num)], Ok None)
      end
  end.

(** The threads started, and whether it got to the end ([Ok false]: an
    exception left the thread, which ends the process).  The last file is read
    with an end of 0. *)
Definition RecoveryServer (logs_ : list phase) : list phase * res bool :=
  match read_files (removelast logs_) [] with
  | (ps, Crash e) => (ps, Crash e)
  | (ps, Ok None) => (ps, Ok false)
  | (ps, Ok (Some threads)) =>
      match last logs_ with
      | None => (ps, Crash BadPointer)
      | Some (start, _, log_num) =>
          if negb (0 <? start) then (ps, Crash AssertFail) else
          (ps ++ [(start, 0, log_num)], Ok (match join_all (threads ++ [true]) with Some _ => true | None => false end))
      end
  end.
