(* ===== verification/RecoveryProps.v ===== *)
(** * The log is read back page by page, in order

    The invariant of the reading thread: the page buffer is as in
    [PageBufferProps], and every entry is where its writer is in the buffer.
    From it: what is handed over is the log file, and the thread can always
    get to its end. *)

From S2P Require Import Prelude Machine Util LogFormat LogRoundtrip PageBuffer PageBufferProps Recovery.
Local Open Scope Z_scope.

Section reading.
Context (disk : Z -> list Z).
Variables (start_lpn end_lpn logfile_seq : Z).
Notation lpn := (lpn_of start_lpn 0).
Notation page q := (page_for end_lpn logfile_seq (disk (lpn q))).
Notation read_step := (read_step disk start_lpn end_lpn logfile_seq 0).

(** The numbers that are read. *)
Definition in_range (q : Z) : bool := (end_lpn =? 0) || (lpn q <=? end_lpn).
Hypothesis pages_ok : forall q, 0 <= q -> (forall q', 0 <= q' <= q -> in_range q' = true) -> exists data ends, page q = Ok (data, ends).

Inductive local := Getting | Finishing | Storing | Elsewhere.
Definition local_of (p : reader_pc) (i : nat) : local :=
  match p with
  | InGetWriteSeq j => if decide (i = j) then Getting else Elsewhere
  | AtFinish j => if decide (i = j) then Finishing else Elsewhere
  | InFinish j => if decide (i = j) then Storing else Elsewhere
  | _ => Elsewhere
  end.
Definition entry_of (p : reader_pc) : option nat :=
  match p with InGetWriteSeq i | AtFinish i | InFinish i => Some i | _ => None end.

(** An entry and the writer of the page buffer that it is. *)
Definition entry_ok (stopped : bool) (l : local) (r : request) (w : option (writer_at (list Z))) : Prop :=
  if free_flag r then
    completion_flag r = true /\ copy_finish r = false /\ sequence r = -1 /\
    match l, w with
    | Elsewhere, None | Getting, Some (W_room _) | Getting, Some (W_stop _) => True
    | _, _ => False
    end
  else
    in_range (sequence r) = true /\ 0 <= sequence r /\
    if copy_finish r then
      completion_flag r = true /\ l <> Getting /\
      exists data ends, page (sequence r) = Ok (data, ends) /\ (ends = true -> stopped = true) /\
      w = Some (match l with Storing => W_store (sequence r) data | _ => W_written (sequence r) data end)
    else
      l = Elsewhere /\ w = Some (W_have (sequence r)) /\
      (completion_flag r = true -> buffer r = disk (lpn (sequence r))).

Definition in_flight (l : list request) : nat := length (filter (fun r => free_flag r = false) l).

Record RInv (past : list (event (list Z))) (s : reading) : Prop := {
  ri_pages : Inv past (page_buffer_ s);
  ri_running : stop_ (page_buffer_ s) = false;
  ri_entries : forall i r, requests s !! i = Some r -> entry_ok (stop s) (local_of (pc s) i) r (writers (page_buffer_ s) !! i);
  ri_writers : forall i w, writers (page_buffer_ s) !! i = Some w -> (i < length (requests s))%nat;
  ri_pc : forall i, entry_of (pc s) = Some i -> (i < length (requests s))%nat;
  ri_getting : forall i, pc s = InGetWriteSeq i -> stop s = false /\
    forall w, writers (page_buffer_ s) !! i = Some w -> wseq w = writableSeq_ (page_buffer_ s) - 1;
  ri_pending : pending_req s = Z.of_nat (in_flight (requests s));
  ri_data : forall q data, (q, data) ∈ finished past -> exists ends, page q = Ok (data, ends) /\ (ends = true -> stop s = true);
  ri_ranged : forall q, 0 <= q <= lastWrote_ (page_buffer_ s) -> in_range q = true;
  ri_held : forall q, lastWrote_ (page_buffer_ s) < q < writableSeq_ (page_buffer_ s) ->
    q ∈ unused past \/ exists i w, writers (page_buffer_ s) !! i = Some w /\ wseq w = q;
  ri_unused : unused past = [] \/ stop s = true /\ unused past = [writableSeq_ (page_buffer_ s) - 1] /\ in_range (writableSeq_ (page_buffer_ s) - 1) = false;
  ri_stop : stop s = true -> unused past <> [] \/
    (exists q data, (q, data) ∈ finished past /\ page q = Ok (data, true)) \/
    (exists i r data, requests s !! i = Some r /\ free_flag r = false /\ copy_finish r = true /\ page (sequence r) = Ok (data, true));
  ri_returned : pc s = Returned_ -> stop s = true /\ pending_req s = 0
}.

Lemma rinv_start n : RInv [] (start_reading n new_LogPageBuffer).
Proof.
  split; cbn; try done.
  - apply buffer_inv_new.
  - intros i r Hr. apply lookup_replicate in Hr as [-> _]. by split_and!.
  - unfold in_flight. rewrite filter_none; [done|]. by apply Forall_replicate.
  - by intros q data Hq%elem_of_nil.
  - intros q Hq. lia.
  - intros q Hq. lia.
  - by left.
Qed.

Lemma in_flight_insert (l : list request) i r r' : l !! i = Some r ->
  (in_flight (<[i := r']> l) + (if free_flag r then 0 else 1) = in_flight l + (if free_flag r' then 0 else 1))%nat.
Proof.
  intros Hr. assert (Hi := lookup_lt_Some _ _ _ Hr). rewrite insert_take_drop by done.
  assert (Hl : in_flight l = in_flight (take i l ++ r :: drop (S i) l)) by (by rewrite take_drop_middle).
  rewrite Hl. unfold in_flight. rewrite !filter_app, !length_app.
  rewrite !filter_cons. destruct (free_flag r), (free_flag r'); simpl; repeat case_decide; try done; simpl; lia.
Qed.

Lemma entry_ok_mono (b b' : bool) l r w : (b = true -> b' = true) -> entry_ok b l r w -> entry_ok b' l r w.
Proof.
  unfold entry_ok. intros Hb. destruct (free_flag r), (copy_finish r); try done. intros (Hr & Hq & Hc & Hl & d & e & Hp & He & Hw).
  split_and!; try done. exists d, e. auto.
Qed.

(** The thread is at no other entry. *)
Lemma local_elsewhere p i : (forall j, entry_of p = Some j -> i <> j) -> local_of p i = Elsewhere.
Proof. intros Hp. destruct p as [|j|j|j|j|]; try done; cbn; rewrite decide_False; auto. Qed.

(** Only entry [i] and its writer change, and only the place at [i]. *)
Lemma entries_change past s s' i r' :
  RInv past s -> (forall j, entry_of (pc s) = Some j -> j = i) -> (forall j, entry_of (pc s') = Some j -> j = i) ->
  requests s' = <[i := r']> (requests s) -> (stop s = true -> stop s' = true) ->
  (forall i', i' <> i -> writers (page_buffer_ s') !! i' = writers (page_buffer_ s) !! i') ->
  entry_ok (stop s') (local_of (pc s') i) r' (writers (page_buffer_ s') !! i) ->
  forall i' x, requests s' !! i' = Some x -> entry_ok (stop s') (local_of (pc s') i') x (writers (page_buffer_ s') !! i').
Proof.
  intros R Hp Hp' Hreq Hstop Hw Hok i' x Hx. rewrite Hreq in Hx. apply list_lookup_insert_Some in Hx as [(<- & <- & _)|[Hne Hx]]; [done|].
  assert (Hx' := ri_entries _ _ R i' x Hx). rewrite local_elsewhere in Hx' by (intros j Hj; apply Hp in Hj; congruence).
  rewrite local_elsewhere by (intros j Hj; apply Hp' in Hj; congruence). rewrite Hw by done. by eapply entry_ok_mono.
Qed.

(** The thread goes on and nothing else changes. *)
Lemma rinv_goes past s p : RInv past s -> entry_of (pc s) = None -> entry_of p = None ->
  (p = Returned_ -> stop s = true /\ pending_req s = 0) -> RInv past (set_pc p s).
Proof.
  intros R Hp Hp' Hret. destruct R. split; cbn; auto.
  - intros i r Hr. assert (He := ri_entries0 i r Hr). rewrite local_elsewhere in He by congruence. rewrite local_elsewhere by congruence. done.
  - intros i Hi. congruence.
  - intros i ->. done.
Qed.

(** Another thread reads pages. *)
Lemma rinv_other past evs s pages : RInv past s -> Inv (past ++ evs) pages ->
  writers pages = writers (page_buffer_ s) -> stop_ pages = stop_ (page_buffer_ s) ->
  lastWrote_ pages = lastWrote_ (page_buffer_ s) -> writableSeq_ pages = writableSeq_ (page_buffer_ s) ->
  finished evs = [] -> unused evs = [] -> RInv (past ++ evs) (set_pages pages s).
Proof.
  intros R HI Hw Hs Hl Hn Hf Hu. destruct R. split; cbn; rewrite ?finished_app, ?unused_app, ?Hf, ?Hu, ?app_nil_r, ?Hw, ?Hs, ?Hl, ?Hn; auto.
Qed.

Lemma rinv_others a past s : RInv past s ->
  match a with Thread _ => True | _ =>
  match read_step a s with Disabled => True | Fault _ => False | Step evs s' => RInv (past ++ evs) s' end end.
Proof.
  intros R. assert (HI := ri_pages _ _ R). destruct a as [|j|j]; [done| |]; cbn [Recovery.read_step].
  - assert (H' := inv_step (Read j) past _ HI). cbn [step] in *. unfold Read_call in *.
    destruct (readers (page_buffer_ s) !! j); [done|]. by apply rinv_other.
  - assert (H' := inv_step (Reader j) past _ HI). cbn [step] in *. unfold reader_step in *.
    repeat (case_match; try done); simplify_eq/=; by apply rinv_other.
Qed.

(** ** The steps of the thread *)
Notation good past o :=
  (match o with Disabled => True | Fault _ => False | Step evs s' => RInv (past ++ evs) s' end).

Lemma free_index_Some l i : free_index l = Some i -> exists r, l !! i = Some r /\ free_flag r = true.
Proof.
  revert i. induction l as [|r l IH]; intros i; cbn; [done|]. destruct (free_flag r) eqn:Hf.
  - intros [= <-]. by exists r.
  - destruct (free_index l) as [k|]; [|done]. intros [= <-]. by apply IH.
Qed.

Lemma rinv_at_head past s : RInv past s -> pc s = AtHead -> good past (at_head s).
Proof.
  intros R Hpc. unfold at_head. destruct (stop s) eqn:Hs; cbn [andb].
  - destruct (Z.eqb_spec (pending_req s) 0).
    { rewrite app_nil_r. apply rinv_goes; [done| by rewrite Hpc | done|done]. }
    assert (Hgo : good past (Step [] (set_pc (AtEntry 0) s))) by (rewrite app_nil_r; apply rinv_goes; by rewrite ?Hpc).
    by destruct (free_index (requests s)).
  - destruct (free_index (requests s)) as [i|] eqn:Hi; [|rewrite app_nil_r; apply rinv_goes; by rewrite ?Hpc].
    apply free_index_Some in Hi as (r & Hr & Hf). assert (He := ri_entries _ _ R i r Hr). rewrite Hpc in He. cbn in He.
    unfold entry_ok in He. rewrite Hf in He. destruct He as (Hc & Hcf & Hseq & Hw).
    assert (Hnone : writers (page_buffer_ s) !! i = None) by (by destruct (writers (page_buffer_ s) !! i)). clear Hw.
    assert (HI := inv_fetch_write _ _ i (ri_pages _ _ R) Hnone). cbn [step]. unfold GetWriteSeq_call. rewrite Hnone, app_nil_r.
    set (q := writableSeq_ (page_buffer_ s)) in *.
    assert (Hun : unused past = []) by (destruct (ri_unused _ _ R) as [|[? _]]; [done|congruence]).
    split; cbn [stop page_buffer_ set_pc set_pages requests pending_req pc].
    + done.
    + apply R.
    + eapply (entries_change past s (set_pc (InGetWriteSeq i) (set_pages _ s)) i r R); cbn; try congruence.
      * rewrite Hpc. done.
      * by rewrite list_insert_id.
      * intros i' Hne. by apply lookup_insert_ne.
      * rewrite lookup_insert_eq, decide_True by done. unfold entry_ok. rewrite Hf. by split_and!.
    + intros i' w Hw. cbn in Hw. apply lookup_insert_Some in Hw as [[<- _]|[_ Hw]]; [by eapply lookup_lt_Some | by eapply (ri_writers _ _ R)].
    + intros i' [= <-]. by eapply lookup_lt_Some.
    + intros i' [= <-]. split; [done|]. intros w. cbn. rewrite lookup_insert_eq. intros [= <-]. cbn. lia.
    + apply R.
    + apply R.
    + apply R.
    + intros q' Hq'. cbn in Hq'. right. destruct (decide (q' = q)) as [->|Hne].
      * exists i, (W_room q). cbn. by rewrite lookup_insert_eq.
      * destruct (ri_held _ _ R q' ltac:(lia)) as [Hin|(i' & w & Hw & He)]; [rewrite Hun in Hin; by apply elem_of_nil in Hin|].
        exists i', w. cbn. rewrite lookup_insert_ne by (intros ->; congruence). done.
    + by left.
    + congruence.
    + done.
Qed.

Lemma getting_entry past s i : RInv past s -> pc s = InGetWriteSeq i -> exists r q,
  requests s !! i = Some r /\ free_flag r = true /\ completion_flag r = true /\ copy_finish r = false /\ sequence r = -1 /\
  (writers (page_buffer_ s) !! i = Some (W_room q) \/ writers (page_buffer_ s) !! i = Some (W_stop q)) /\
  q = writableSeq_ (page_buffer_ s) - 1 /\ stop s = false /\ unused past = [] /\ 0 <= q.
Proof.
  intros R Hpc. assert (Hi := ri_pc _ _ R i). rewrite Hpc in Hi. specialize (Hi eq_refl).
  destruct (lookup_lt_is_Some_2 _ _ Hi) as [r Hr]. exists r. assert (He := ri_entries _ _ R i r Hr).
  rewrite Hpc in He. cbn in He. rewrite decide_True in He by done.
  destruct (ri_getting _ _ R i Hpc) as [Hs Hq]. unfold entry_ok in He. destruct (free_flag r).
  2: { destruct He as (_ & _ & He). destruct (copy_finish r); [by destruct He as (_ & [] & _)|by destruct He]. }
  destruct He as (Hc & Hf & Hseq & Hw).
  assert (Hun : unused past = []) by (destruct (ri_unused _ _ R) as [|[? _]]; [done|congruence]).
  destruct (writers (page_buffer_ s) !! i) as [w|] eqn:Hwi; [|done]. specialize (Hq w eq_refl).
  assert (H0 : 0 <= wseq w).
  { assert (HP := ri_pages _ _ R). destruct (inv_writers _ _ HP i w Hwi) as [Hw0 _]. destruct HP. lia. }
  destruct w as [q|q| | |]; try done; exists q; split_and!; auto.
Qed.

Lemma rinv_get_write_seq past s i : RInv past s -> pc s = InGetWriteSeq i ->
  good past (in_get_write_seq start_lpn end_lpn 0 i s).
Proof.
  intros R Hpc. destruct (getting_entry past s i R Hpc) as (r & q & Hr & Hfree & Hc & Hf & Hseq & Hw & Hq & Hs & Hun & H0).
  assert (HI := inv_writer_step past _ i (ri_pages _ _ R)). unfold in_get_write_seq. cbn [step] in *.
  (* the two places of the loop *)
  assert (Hloop : forall w', w' = W_room q \/ w' = W_stop q -> Inv (past ++ []) (writer_goes i w' (page_buffer_ s)) ->
    RInv (past ++ []) (set_pages (writer_goes i w' (page_buffer_ s)) s)).
  { clear HI. intros w' Hw' HI. rewrite app_nil_r in *. split; cbn [stop page_buffer_ set_pages requests pending_req pc]; try apply R; [done|..].
    - eapply (entries_change past s (set_pages _ s) i r R); cbn; try (rewrite Hpc; by intros j [= <-]).
      + by rewrite list_insert_id.
      + done.
      + intros i' Hne. by apply lookup_insert_ne.
      + rewrite lookup_insert_eq, Hpc. cbn. rewrite decide_True by done. unfold entry_ok. rewrite Hfree. destruct Hw' as [->| ->]; by split_and!.
    - intros i' w Hw0. cbn in Hw0. apply lookup_insert_Some in Hw0 as [[<- _]|[_ Hw0]]; [by eapply lookup_lt_Some | by eapply (ri_writers _ _ R)].
    - intros i' Hi'. rewrite Hpc in Hi'. injection Hi' as <-. split; [done|]. intros w. cbn. rewrite lookup_insert_eq. intros [= <-]. by destruct Hw' as [->| ->].
    - intros q' Hq'. cbn in Hq'. destruct (ri_held _ _ R q' Hq') as [|(i' & w & Hw0 & He)]; [by left|]. right.
      destruct (decide (i' = i)) as [->|Hne]; [|exists i', w; cbn; by rewrite lookup_insert_ne].
      exists i, w'. cbn. rewrite lookup_insert_eq. split; [done|]. destruct Hw as [Hw|Hw]; rewrite Hw in Hw0; injection Hw0 as <-; destruct Hw' as [->| ->]; done. }
  unfold writer_step in *. destruct Hw as [Hw|Hw]; rewrite Hw in *.
  2: { rewrite (ri_running _ _ R) in *. apply Hloop; [by left|done]. }
  destruct (Z.ltb_spec size_ (q - lastRead_ (page_buffer_ s))); [apply Hloop; [by right|done]|].
  unfold send. cbn [requests set_pages]. rewrite Hr, Hc, Hseq. cbn [Z.eqb negb andb Pos.eqb].
  fold (in_range q). destruct (in_range q) eqn:Hin.
  - rewrite app_nil_r. set (r' := Build_request _ _ _ _ _).
    assert (Hfin : finished (past ++ [Granted i q]) = finished past) by (rewrite finished_app; apply app_nil_r).
    assert (Hunu : unused (past ++ [Granted i q]) = unused past) by (rewrite unused_app; apply app_nil_r).
    assert (Hfl := in_flight_insert (requests s) i r r' Hr). rewrite Hfree in Hfl. cbn in Hfl.
    split; cbn [stop page_buffer_ set_pc set_pages set_requests requests pending_req pc]; try (by apply R); rewrite ?Hfin, ?Hunu.
    + done.
    + eapply (entries_change past s (set_pc (AtEntry 0) (set_requests (<[i := r']> (requests s)) (pending_req s + 1) (set_pages (writer_goes i (W_have q) (page_buffer_ s)) s))) i r' R); cbn; try done; [by rewrite Hpc; intros j [= <-] | intros i' Hne; by apply lookup_insert_ne |].
      rewrite lookup_insert_eq. subst r'. unfold entry_ok. cbn. rewrite Hf. by split_and!.
    + intros i' w Hw0. rewrite length_insert. cbn in Hw0. apply lookup_insert_Some in Hw0 as [[<- _]|[_ Hw0]]; [by eapply lookup_lt_Some | by eapply (ri_writers _ _ R)].
    + done.
    + done.
    + rewrite (ri_pending _ _ R). lia.
    + apply R.
    + intros q' Hq'. cbn in Hq'. destruct (ri_held _ _ R q' Hq') as [Hu|(i' & w & Hw0 & He)]; [by left|]. right.
      destruct (decide (i' = i)) as [->|Hne]; [|exists i', w; cbn; by rewrite lookup_insert_ne].
      exists i, (W_have q). cbn. rewrite lookup_insert_eq. split; [done|]. rewrite Hw in Hw0. by injection Hw0 as <-.
    + by left.
    + congruence.
    + done.
  - cbn [page_buffer_ set_pages step]. cbn [writers writer_goes set_writers]. rewrite lookup_insert_eq.
    assert (HI2 := inv_forget _ _ i (W_have q) HI ltac:(apply lookup_insert_eq)). rewrite <- app_assoc in HI2. cbn [wseq app] in *.
    assert (Hfin : finished (past ++ [Granted i q; Unused q]) = finished past) by (rewrite finished_app; apply app_nil_r).
    assert (Hunu : unused (past ++ [Granted i q; Unused q]) = [q]) by (by rewrite unused_app, Hun).
    assert (Hne_ : forall i' w, i' <> i -> delete i (<[i:=W_have q]> (writers (page_buffer_ s))) !! i' = Some w <-> writers (page_buffer_ s) !! i' = Some w).
    { intros i' w Hne. rewrite lookup_delete_ne, lookup_insert_ne by done. done. }
    split; cbn [stop page_buffer_ set_pc set_pages set_stopped set_requests requests pending_req pc]; try (by apply R);
      cbn [app]; rewrite ?Hfin, ?Hunu.
    + done.
    + eapply (entries_change past s (set_pc (AtEntry 0) (set_stopped true (set_pages (writer_done i (writer_goes i (W_have q) (page_buffer_ s))) s))) i r R); cbn; try done; [by rewrite Hpc; intros j [= <-] | by rewrite list_insert_id | |].
      * intros i' Hne. by rewrite lookup_delete_ne, lookup_insert_ne.
      * rewrite lookup_delete_eq. unfold entry_ok. rewrite Hfree. by split_and!.
    + intros i' w Hw0. cbn in Hw0. destruct (decide (i' = i)) as [->|Hne]; [by rewrite lookup_delete_eq in Hw0|].
      apply Hne_ in Hw0; [|done]. by eapply (ri_writers _ _ R).
    + done.
    + done.
    + intros q' d Hd. destruct (ri_data _ _ R q' d Hd) as (e & He & _). eauto.
    + intros q' Hq'. cbn in Hq'. destruct (decide (q' = q)) as [->|Hneq]; [left; cbn; by left|]. right.
      destruct (ri_held _ _ R q' Hq') as [Hu|(i' & w & Hw0 & He)]; [rewrite Hun in Hu; by apply elem_of_nil in Hu|].
      exists i', w. cbn. rewrite lookup_delete_ne, lookup_insert_ne; [done|..]; intros <-; rewrite Hw in Hw0; injection Hw0 as <-; by destruct Hneq.
    + right. cbn. rewrite Hq in *. done.
    + intros _. by left.
    + done.
Qed.

(** An entry in flight that does not leave its numbers changes, with its writer. *)
Lemma rinv_entry_goes past s i r r' p stopped pages :
  RInv past s -> requests s !! i = Some r -> (forall j, entry_of (pc s) = Some j -> j = i) ->
  (forall j, entry_of p = Some j -> j = i) -> (forall j, p <> InGetWriteSeq j) -> p <> Returned_ ->
  free_flag r = false -> free_flag r' = false -> sequence r' = sequence r -> (stop s = true -> stopped = true) ->
  (copy_finish r = true -> copy_finish r' = true) ->
  (forall i', i' <> i -> writers pages !! i' = writers (page_buffer_ s) !! i') ->
  (exists w w', writers (page_buffer_ s) !! i = Some w /\ writers pages !! i = Some w' /\ wseq w' = wseq w) ->
  stop_ pages = stop_ (page_buffer_ s) -> lastWrote_ pages = lastWrote_ (page_buffer_ s) -> writableSeq_ pages = writableSeq_ (page_buffer_ s) ->
  entry_ok stopped (local_of p i) r' (writers pages !! i) ->
  (stopped = stop s \/ copy_finish r' = true /\ exists data, page (sequence r') = Ok (data, true)) ->
  Inv past pages ->
  RInv past (set_pc p (set_stopped stopped (set_requests (<[i := r']> (requests s)) (pending_req s) (set_pages pages s)))).
Proof.
  intros R Hr Hp Hp' Hng Hnr Hf Hf' Hseq Hstop Hcopy Hother (w & w' & Hw & Hw' & Hww) Hs_ Hl Hn Hok Hst HI.
  assert (Hlen := lookup_lt_Some _ _ _ Hr). assert (Hfl := in_flight_insert (requests s) i r r' Hr). rewrite Hf, Hf' in Hfl.
  split; cbn [stop page_buffer_ set_pc set_pages set_stopped set_requests requests pending_req pc]; rewrite ?Hs_, ?Hl, ?Hn; try (by apply R).
  - exact HI.
  - by eapply (entries_change past s (set_pc p (set_stopped stopped (set_requests (<[i := r']> (requests s)) (pending_req s) (set_pages pages s)))) i r' R).
  - intros i' x Hx. rewrite length_insert. destruct (decide (i' = i)) as [->|Hne]; [done|]. rewrite Hother in Hx by done. by eapply (ri_writers _ _ R).
  - intros j Hj. rewrite length_insert. by rewrite (Hp' j Hj).
  - intros j Hj. by destruct (Hng j).
  - rewrite (ri_pending _ _ R). lia.
  - intros q d Hd. destruct (ri_data _ _ R q d Hd) as (e & He & Hee). eauto.
  - intros q Hq. destruct (ri_held _ _ R q Hq) as [|(i' & x & Hx & He)]; [by left|]. right.
    destruct (decide (i' = i)) as [->|Hne]; [exists i, w'; simplify_eq; eauto with congruence | exists i', x; by rewrite Hother].
  - destruct (ri_unused _ _ R) as [|(Hs & ? & ?)]; [by left | right; auto].
  - intros Hs'. destruct Hst as [->|(Hc' & d & Hd)].
    + destruct (ri_stop _ _ R Hs') as [|[|(i' & x & d & Hx & Hxf & Hxc & Hxp)]]; [by left | by right; left|]. right. right.
      destruct (decide (i' = i)) as [->|Hne]; [|exists i', x, d; by rewrite list_lookup_insert_ne].
      simplify_eq. exists i, r', d. rewrite list_lookup_insert_eq by done. rewrite Hseq. auto.
    + right. right. exists i, r', d. by rewrite list_lookup_insert_eq.
  - done.
Qed.

Lemma entry_writer past s i r : RInv past s -> entry_of (pc s) = None -> requests s !! i = Some r ->
  if free_flag r then writers (page_buffer_ s) !! i = None
  else exists w, writers (page_buffer_ s) !! i = Some w /\ wseq w = sequence r.
Proof.
  intros R Hp Hr. assert (He := ri_entries _ _ R i r Hr). rewrite local_elsewhere in He by congruence. unfold entry_ok in He.
  destruct (free_flag r); [destruct He as (_ & _ & _ & Hw); by destruct (writers (page_buffer_ s) !! i)|].
  destruct He as (_ & _ & He). destruct (copy_finish r); [destruct He as (_ & _ & d & e & _ & _ & ->) | destruct He as (_ & -> & _)]; by eexists.
Qed.

(** All numbers up to one in flight are in range. *)
Lemma ranged_upto past s i r : RInv past s -> entry_of (pc s) = None -> requests s !! i = Some r -> free_flag r = false ->
  forall q', 0 <= q' <= sequence r -> in_range q' = true.
Proof.
  intros R Hp Hr Hf q' Hq'. assert (Hw := entry_writer past s i r R Hp Hr). rewrite Hf in Hw. destruct Hw as (w & Hw & Hwr).
  assert (HP := ri_pages _ _ R). destruct (inv_writers _ _ HP i w Hw) as [Hrange _].
  destruct (decide (q' <= lastWrote_ (page_buffer_ s))); [apply (ri_ranged _ _ R); lia|].
  destruct (ri_held _ _ R q' ltac:(lia)) as [Hu|(j & w' & Hw' & Hq)].
  - destruct (ri_unused _ _ R) as [Hnil|(_ & Hone & _)]; [rewrite Hnil in Hu; by apply elem_of_nil in Hu|].
    destruct (inv_unused _ _ HP (writableSeq_ (page_buffer_ s) - 1)) as (_ & Hno & _); [rewrite Hone; by left|].
    rewrite Hone in Hu. apply list_elem_of_singleton in Hu. assert (Hne := Hno i w Hw). lia.
  - destruct (lookup_lt_is_Some_2 _ _ (ri_writers _ _ R j w' Hw')) as [r' Hr'].
    assert (Hw0 := entry_writer past s j r' R Hp Hr'). assert (He := ri_entries _ _ R j r' Hr'). unfold entry_ok in He.
    destruct (free_flag r'); [congruence|]. destruct Hw0 as (w0 & Hw0 & Hs0). rewrite Hw' in Hw0. injection Hw0 as <-.
    destruct He as [He _]. by replace q' with (sequence r') by lia.
Qed.

Lemma rinv_check_completion past s polled i : RInv past s -> pc s = AtEntry i ->
  good past (check_completion disk start_lpn end_lpn logfile_seq 0 polled i s).
Proof.
  intros R Hpc. unfold check_completion. destruct (requests s !! i) as [r|] eqn:Hr; [|rewrite app_nil_r; apply rinv_goes; by rewrite ?Hpc].
  assert (He := ri_entries _ _ R i r Hr). rewrite Hpc in He. cbn [local_of] in He. unfold entry_ok in He.
  destruct (free_flag r) eqn:Hf; [rewrite app_nil_r; apply rinv_goes; by rewrite ?Hpc|]. destruct He as (Hin & H0 & He).
  set (r1 := if negb (completion_flag r) && polled then _ else r).
  assert (H1 : free_flag r1 = false /\ sequence r1 = sequence r /\ copy_finish r1 = copy_finish r) by (unfold r1; by destruct (_ && polled)).
  destruct H1 as (Hf1 & Hseq1 & Hcf1).
  assert (Hself : forall pages, writers pages = writers (page_buffer_ s) -> forall w, writers (page_buffer_ s) !! i = Some w ->
    exists w0 w', writers (page_buffer_ s) !! i = Some w0 /\ writers pages !! i = Some w' /\ wseq w' = wseq w0).
  { intros pages Hp w Hw. exists w, w. by rewrite Hp. }
  assert (Heta : forall p l, set_pc p (set_requests l (pending_req s) s) = set_pc p (set_stopped (stop s) (set_requests l (pending_req s) (set_pages (page_buffer_ s) s)))) by (by destruct s).
  assert (Hpc' : forall j, entry_of (pc s) = Some j -> j = i) by (by rewrite Hpc).
  destruct (copy_finish r) eqn:Hcf.
  - destruct He as (Hc & _ & d & e & Hpage & Hends & Hw). assert (Hr1 : r1 = r) by (unfold r1; by rewrite Hc). rewrite Hr1, Hc, Hcf. cbn [andb negb].
    rewrite app_nil_r, Heta. eapply rinv_entry_goes; try done; try apply R; try apply Hr; try congruence; try (by eapply Hself); try (by left).
    + by intros j [= <-].
    + cbn. rewrite decide_True by done. unfold entry_ok. rewrite Hf, Hcf. split_and!; try done. by exists d, e.
  - destruct He as (_ & Hw & Hbuf). rewrite Hcf1. cbn [negb]. rewrite andb_true_r, andb_false_r. destruct (completion_flag r1) eqn:Hc1.
    + rewrite Hseq1. rewrite (proj2 (Z.eqb_neq _ _)) by lia.
      assert (Hb1 : buffer r1 = disk (lpn (sequence r))).
      { unfold r1 in Hc1 |- *. destruct (completion_flag r) eqn:Hcr; [by apply Hbuf|]. destruct polled; cbn in *; congruence. }
      rewrite Hb1. destruct (pages_ok (sequence r) H0 (ranged_upto past s i r R ltac:(by rewrite Hpc) Hr Hf)) as (d & e & Hpage). rewrite Hpage.
      assert (HW := inv_step (Write i d) past _ (ri_pages _ _ R)). cbn [page_buffer_ set_requests step] in *. unfold Write_call in *. rewrite Hw in *.
      set (pages := writer_goes i _ _) in *. rewrite app_nil_r in *. set (r2 := Build_request _ _ _ _ _). cbn [requests pending_req set_requests].
      rewrite list_insert_insert_eq.
      assert (Hst : set_pc (AtFinish i) (set_stopped (stop s || e) (set_requests (<[i:=r2]> (requests s)) (pending_req s) (set_pages pages (set_requests (<[i:=r1]> (requests s)) (pending_req s) s)))) =
        set_pc (AtFinish i) (set_stopped (stop s || e) (set_requests (<[i:=r2]> (requests s)) (pending_req s) (set_pages pages s)))) by (by destruct s).
      cbn [stop set_requests]. rewrite Hst. eapply rinv_entry_goes; try done; try apply Hr.
      * by intros j [= <-].
      * by intros ->.
      * intros i' Hne. by apply lookup_insert_ne.
      * exists (W_have (sequence r)), (W_written (sequence r) d). unfold pages. cbn. by rewrite lookup_insert_eq.
      * unfold pages. cbn [writers writer_goes set_writers local_of]. rewrite lookup_insert_eq, decide_True by done. unfold entry_ok, r2. cbn.
        split_and!; try done. exists d, e. split_and!; try done. intros ->. apply orb_true_r.
      * unfold r2. cbn. destruct e; [right; eauto | left; by rewrite orb_false_r].
    + rewrite app_nil_r, Heta. eapply rinv_entry_goes; try done; try apply R; try apply Hr; try congruence; try (by eapply Hself); try (by left).
      cbn. unfold entry_ok. rewrite Hf1, Hcf1, Hseq1. split_and!; try done. intros Hc. congruence.
Qed.

Lemma rinv_finish past s i : RInv past s -> pc s = AtFinish i -> good past (finish i s).
Proof.
  intros R Hpc. assert (Hi := ri_pc _ _ R i). rewrite Hpc in Hi. specialize (Hi eq_refl).
  destruct (lookup_lt_is_Some_2 _ _ Hi) as [r Hr]. assert (He := ri_entries _ _ R i r Hr).
  rewrite Hpc in He. cbn in He. rewrite decide_True in He by done. unfold entry_ok in He.
  destruct (free_flag r) eqn:Hf; [by destruct He as (_ & _ & _ & [])|]. destruct He as (Hin & H0 & He).
  destruct (copy_finish r) eqn:Hcf; [|by destruct He]. destruct He as (Hc & _ & d & e & Hpage & Hends & Hw).
  assert (HI := inv_step (FinishWrite i) past _ (ri_pages _ _ R)). unfold finish. cbn [step] in *. unfold FinishWrite_call in *. rewrite Hw in *.
  assert (Hpc' : forall j, entry_of (pc s) = Some j -> j = i) by (rewrite Hpc; by intros j [= <-]).
  destruct (negb _).
  - assert (R' : RInv past (set_pc (AtEntry (S i)) (set_stopped (stop s) (set_requests (<[i := r]> (requests s)) (pending_req s) (set_pages (page_buffer_ s) s))))).
    { eapply rinv_entry_goes; try done; try apply R; try apply Hr; try by left.
      - exists (W_written (sequence r) d), (W_written (sequence r) d). done.
      - cbn. unfold entry_ok. rewrite Hf, Hcf. split_and!; try done. exists d, e. done. }
    rewrite list_insert_id in R' by done.
    assert (Heta : set_pc (AtEntry (S i)) (set_stopped (stop s) (set_requests (requests s) (pending_req s) (set_pages (page_buffer_ s) s))) = set_pc (AtEntry (S i)) (set_pages (page_buffer_ s) s)) by (by destruct s).
    rewrite Heta in R'. destruct R'. split; rewrite ?finished_app, ?unused_app; cbn [finished unused omap list_omap]; rewrite ?app_nil_r; try done.
  - rewrite app_nil_r in *.
    assert (Heta : set_pc (InFinish i) (set_pages (writer_goes i (W_store (sequence r) d) (page_buffer_ s)) s) =
      set_pc (InFinish i) (set_stopped (stop s) (set_requests (<[i := r]> (requests s)) (pending_req s) (set_pages (writer_goes i (W_store (sequence r) d) (page_buffer_ s)) s)))).
    { rewrite list_insert_id by done. by destruct s. }
    rewrite Heta. eapply rinv_entry_goes; try done; try apply Hr; try by left.
    + by intros j [= <-].
    + intros i' Hne. by apply lookup_insert_ne.
    + exists (W_written (sequence r) d), (W_store (sequence r) d). cbn. by rewrite lookup_insert_eq.
    + cbn. rewrite lookup_insert_eq, decide_True by done. unfold entry_ok. rewrite Hf, Hcf. split_and!; try done. exists d, e. done.
Qed.

Lemma rinv_finished_entry past s i : RInv past s -> pc s = InFinish i -> good past (finished_entry i s).
Proof.
  intros R Hpc. assert (Hi := ri_pc _ _ R i). rewrite Hpc in Hi. specialize (Hi eq_refl).
  destruct (lookup_lt_is_Some_2 _ _ Hi) as [r Hr]. assert (He := ri_entries _ _ R i r Hr).
  rewrite Hpc in He. cbn in He. rewrite decide_True in He by done. unfold entry_ok in He.
  destruct (free_flag r) eqn:Hf; [by destruct He as (_ & _ & _ & [])|]. destruct He as (Hin & H0 & He).
  destruct (copy_finish r) eqn:Hcf; [|by destruct He]. destruct He as (Hc & _ & d & e & Hpage & Hends & Hw).
  set (q := sequence r) in *.
  assert (HI := inv_finish past _ i q d (ri_pages _ _ R) Hw). destruct (inv_writers _ _ (ri_pages _ _ R) i _ Hw) as [Hq (_ & _ & Hnext)]. cbn [wseq] in Hq.
  unfold finished_entry. rewrite Hr. cbn [step]. unfold writer_step. rewrite Hw, Hc. set (r' := Build_request _ _ _ _ _).
  assert (Hfl := in_flight_insert (requests s) i r r' Hr). rewrite Hf in Hfl. cbn in Hfl.
  assert (Hfin : finished (past ++ [Finished i q d]) = finished past ++ [(q, d)]) by (rewrite finished_app; done).
  assert (Hunu : unused (past ++ [Finished i q d]) = unused past) by (rewrite unused_app; apply app_nil_r).
  assert (Hpc' : forall j, entry_of (pc s) = Some j -> j = i) by (rewrite Hpc; by intros j [= <-]).
  split; cbn [stop page_buffer_ set_pc set_pages set_stopped set_requests requests pending_req pc]; rewrite ?Hfin, ?Hunu.
  - exact HI.
  - apply R.
  - eapply (entries_change past s (set_pc (AtEntry (S i)) (set_requests (<[i := r']> (requests s)) (pending_req s - 1) (set_pages (writer_done i (set_wrote q (page_buffer_ s))) s))) i r' R); try done.
    + intros i' Hne. by apply lookup_delete_ne.
    + cbn. rewrite lookup_delete_eq. by split_and!.
  - intros i' x Hx. rewrite length_insert. cbn in Hx. apply lookup_delete_Some in Hx as [_ Hx]. by eapply (ri_writers _ _ R).
  - done.
  - done.
  - rewrite (ri_pending _ _ R). lia.
  - intros q' d' [Hd|Hd]%elem_of_app; [by apply (ri_data _ _ R)|]. apply list_elem_of_singleton in Hd as [= -> ->]. by exists e.
  - intros q' Hq'. cbn in Hq'. destruct (decide (q' = q)) as [->|Hne]; [done|]. apply (ri_ranged _ _ R). lia.
  - intros q' Hq'. cbn in Hq'. destruct (ri_held _ _ R q' ltac:(lia)) as [|(i' & x & Hx & Hxe)]; [by left|]. right.
    exists i', x. cbn. rewrite lookup_delete_ne; [done|]. intros <-. rewrite Hw in Hx. injection Hx as <-. cbn in Hxe. lia.
  - apply R.
  - intros Hs. destruct (ri_stop _ _ R Hs) as [Hu|[(q' & d' & Hd & Hp)|(i' & x & d' & Hx & Hxf & Hxc & Hxp)]]; [by left| |].
    + right. left. exists q', d'. split; [|done]. apply elem_of_app. by left.
    + right. destruct (decide (i' = i)) as [->|Hne]; [|right; exists i', x, d'; by rewrite list_lookup_insert_ne].
      rewrite Hr in Hx. injection Hx as <-. left. exists q, d'. split; [|done]. apply elem_of_app. right. fold q in Hxp. rewrite Hpage in Hxp. injection Hxp as -> _. by left.
  - done.
Qed.

Lemma rinv_step : preserves read_step RInv.
Proof.
  intros a past s R. destruct a as [polled|j|j]; [|apply (rinv_others (Read_ j) past s R)|apply (rinv_others (Reader_ j) past s R)].
  cbn [Recovery.read_step]. unfold ReadFromSPDK. destruct (pc s) eqn:Hpc; [by apply rinv_at_head | by apply rinv_get_write_seq |
    by apply rinv_check_completion | by apply rinv_finish | by apply rinv_finished_entry | done].
Qed.

Lemma read_rinv n acts evs s : run read_step acts (start_reading n new_LogPageBuffer) = Step evs s -> RInv evs s.
Proof. apply (run_invariant read_step RInv); [apply rinv_step | apply rinv_start]. Qed.

Lemma read_no_fault n acts e : run read_step acts (start_reading n new_LogPageBuffer) = Fault e -> False.
Proof. apply (run_never_faults read_step RInv); [apply rinv_step | apply rinv_start]. Qed.

(** ** What has been read *)
Definition page_at (q : Z) : option (list Z) := match page q with Ok (data, _) => data | Crash _ => None end.

Lemma rinv_pages past s : RInv past s ->
  finished past = (fun q => (q, page_at q)) <$> seqZ 0 (Z.of_nat (length (finished past))).
Proof.
  intros R. assert (HP := inv_seqs _ _ (ri_pages _ _ R)). rewrite <- HP, <- list_fmap_compose.
  rewrite <- (list_fmap_id (finished past)) at 1. apply list_fmap_ext. intros k [q d] Hk.
  apply list_elem_of_lookup_2 in Hk. destruct (ri_data _ _ R q d Hk) as (e & He & _). unfold page_at. cbn. by rewrite He.
Qed.

(** Once it has returned, the thread holds no number. *)
Lemma rinv_returned past s : RInv past s -> pc s = Returned_ ->
  stop s = true /\ forall q, q < writableSeq_ (page_buffer_ s) -> q ∈ unused past \/ q <= lastWrote_ (page_buffer_ s).
Proof.
  intros R Hpc. destruct (ri_returned _ _ R Hpc) as [Hs H0]. split; [done|]. intros q Hq.
  destruct (decide (q <= lastWrote_ (page_buffer_ s))) as [|Hlt]; [by right|]. left.
  destruct (ri_held _ _ R q ltac:(lia)) as [|(i & w & Hw & He)]; [done|exfalso].
  destruct (lookup_lt_is_Some_2 _ _ (ri_writers _ _ R i w Hw)) as [r Hr]. assert (Hok := ri_entries _ _ R i r Hr).
  rewrite Hpc, Hw in Hok. cbn in Hok. unfold entry_ok in Hok. destruct (free_flag r) eqn:Hf; [by destruct Hok as (_ & _ & _ & [])|].
  rewrite (ri_pending _ _ R) in H0. unfold in_flight in H0. apply (Nat2Z.inj _ 0) in H0. apply length_zero_iff_nil in H0.
  assert (Hin : r ∈ filter (fun r => free_flag r = false) (requests s)) by (apply list_elem_of_filter; split; [done | by eapply list_elem_of_lookup_2]).
  rewrite H0 in Hin. by apply elem_of_nil in Hin.
Qed.

(** ** Every run is one of the page buffer *)
Notation buffer_goes s evs s' := (exists l, run step l (page_buffer_ s) = Step evs (page_buffer_ s')).

Lemma buffer_stays s s' : page_buffer_ s' = page_buffer_ s -> buffer_goes s [] s'.
Proof. intros ->. by exists []. Qed.

Lemma buffer_step a s evs s' : step a (page_buffer_ s) = Step evs (page_buffer_ s') -> buffer_goes s evs s'.
Proof. intros Ha. exists [a]. cbn [run]. rewrite Ha. by rewrite app_nil_r. Qed.

Lemma send_buffer i q s evs s' : send start_lpn end_lpn 0 i q s = Step evs s' ->
  evs = [] /\ page_buffer_ s' = page_buffer_ s \/ step (Forget i) (page_buffer_ s) = Step evs (page_buffer_ s').
Proof.
  unfold send. destruct (requests s !! i); [|done]. destruct (negb _); [done|]. destruct (_ || _); [intros [= <- <-]; by left|].
  destruct (step (Forget i) (page_buffer_ s)) eqn:Hf; [done..|]. intros [= <- <-]. by right.
Qed.

Lemma read_step_buffer a s evs s' : read_step a s = Step evs s' -> buffer_goes s evs s'.
Proof.
  destruct a as [polled|j|j]; cbn [Recovery.read_step].
  2,3: match goal with |- context [step ?a _] => destruct (step a (page_buffer_ s)) eqn:Ha; [done..|]; intros [= <- <-]; by apply (buffer_step a) end.
  unfold ReadFromSPDK. destruct (pc s) as [|i|i|i|i|].
  - unfold at_head. destruct (_ && _); [intros [= <- <-]; by apply buffer_stays|]. destruct (free_index _) as [i|]; [|intros [= <- <-]; by apply buffer_stays].
    destruct (stop s); [intros [= <- <-]; by apply buffer_stays|].
    destruct (step (GetWriteSeq i) (page_buffer_ s)) eqn:Ha; [done..|]. intros [= <- <-]. by apply (buffer_step (GetWriteSeq i)).
  - unfold in_get_write_seq. destruct (step (Writer i) (page_buffer_ s)) as [| |evs0 pages] eqn:Ha; [done..|].
    assert (Hdefault : forall s', page_buffer_ s' = pages -> buffer_goes s evs0 s') by (intros s0 <-; by apply (buffer_step (Writer i))).
    destruct evs0 as [|[i' q|q| | | | |] [|? ?]]; try (intros [= <- <-]; by apply Hdefault).
    destruct (send _ _ _ i q (set_pages pages s)) as [| |evs1 s1] eqn:Hs; [done..|]. intros [= <- <-].
    apply send_buffer in Hs as [[-> Hp]|Hs]; [by apply Hdefault|].
    exists [Writer i; Forget i]. cbn [run]. rewrite Ha. cbn [page_buffer_ set_pages] in Hs. rewrite Hs. by rewrite app_nil_r.
  - unfold check_completion. destruct (requests s !! i) as [r|]; [|intros [= <- <-]; by apply buffer_stays].
    destruct (free_flag r); [intros [= <- <-]; by apply buffer_stays|]. cbn zeta. match goal with |- context [<[i := ?x]> (requests s)] => generalize x; intros r1 end.
    destruct (_ && negb _); [|destruct (_ && _); intros [= <- <-]; by apply buffer_stays].
    destruct (_ =? _); [done|]. destruct (page_for _ _ _) as [[d e]|]; [|done]. cbn [page_buffer_ set_requests].
    destruct (step (Write i d) (page_buffer_ s)) eqn:Ha; [done..|]. intros [= <- <-]. by apply (buffer_step (Write i d)).
  - unfold finish. destruct (step (FinishWrite i) (page_buffer_ s)) as [| |evs0 pages] eqn:Ha; [done..|].
    destruct evs0; intros [= <- <-]; by apply (buffer_step (FinishWrite i)).
  - unfold finished_entry. destruct (requests s !! i); destruct (step (Writer i) (page_buffer_ s)) eqn:Ha; try done. intros [= <- <-]. by apply (buffer_step (Writer i)).
  - done.
Qed.

Lemma read_run_buffer acts s evs s' : run read_step acts s = Step evs s' -> buffer_goes s evs s'.
Proof.
  revert s evs. induction acts as [|a acts IH]; intros s evs; cbn; [intros [= <- <-]; by exists []|].
  destruct (read_step a s) as [| |evs0 s0] eqn:Ha; [done..|]. destruct (run read_step acts s0) as [| |evs1 s1] eqn:Hr; [done..|].
  intros [= <- <-]. destruct (read_step_buffer _ _ _ _ Ha) as [l1 H1]. destruct (IH _ _ Hr) as [l2 H2].
  exists (l1 ++ l2). by rewrite run_app, H1, H2.
Qed.
End reading.
