(* ===== verification/RecoveryLive.v ===== *)
(** * The reading of a log ends

    From every state the reading thread can get to its end if the device
    answers and the parsing threads read: each pass over the entries finishes
    the lowest number in flight, and room comes back in the page buffer. *)

From S2P Require Import Prelude Machine Util LogFormat PageBuffer PageBufferProps Recovery RecoveryProps.
Local Open Scope Z_scope.

Section live.
Context (disk : Z -> list Z).
Variables (start_lpn end_lpn logfile_seq : Z) (n : nat) (K : Z).
Notation lpn := (lpn_of start_lpn 0).
Notation page q := (page_for end_lpn logfile_seq (disk (lpn q))).
Notation read_step := (read_step disk start_lpn end_lpn logfile_seq 0).
Notation in_range := (in_range start_lpn end_lpn).
Notation RInv := (RInv disk start_lpn end_lpn logfile_seq).
Hypothesis pages_ok : forall q, 0 <= q -> (forall q', 0 <= q' <= q -> in_range q' = true) -> exists data ends, page q = Ok (data, ends).
(** The first number that ends the reading. *)
Hypothesis last_page : 0 <= K /\ (in_range K = false \/ exists data, page K = Ok (data, true)).
Hypothesis entries : (0 < n <= 1024)%nat.

Definition J (s : reading) : Prop := exists past, RInv past s /\ length (requests s) = n /\
  exists acts, run step acts new_LogPageBuffer = Step past (page_buffer_ s).

Lemma step_length a s evs s' : read_step a s = Step evs s' -> length (requests s') = length (requests s).
Proof.
  destruct a as [polled|j|j]; cbn [Recovery.read_step].
  2,3: match goal with |- context [step ?a _] => destruct (step a (page_buffer_ s)); [done..|]; by intros [= <- <-] end.
  unfold ReadFromSPDK, at_head, in_get_write_seq, check_completion, finish, finished_entry, send.
  repeat (case_match; try done); intros [= <- <-]; simplify_eq/=; by rewrite ?length_insert.
Qed.

Lemma J_step a s evs s' : J s -> read_step a s = Step evs s' -> J s'.
Proof.
  intros (past & R & Hn & acts & Hacts) Ha. exists (past ++ evs). assert (R' := rinv_step _ _ _ _ pages_ok a past s R). rewrite Ha in R'.
  split_and!; [done | by rewrite (step_length _ _ _ _ Ha) |].
  destruct (read_step_buffer _ _ _ _ a s evs s' Ha) as [l Hl]. exists (acts ++ l). by rewrite run_app, Hacts, Hl.
Qed.

Lemma J_start : J (start_reading n new_LogPageBuffer).
Proof. exists []. split_and!; [apply rinv_start | by cbn; rewrite length_replicate | by exists []]. Qed.

(** What is left to do. *)
Definition work (s : reading) : nat :=
  if stop s then Z.to_nat (pending_req s) else (n + 1 + Z.to_nat (K - lastWrote_ (page_buffer_ s)))%nat.

Lemma pending_le s past : RInv past s -> length (requests s) = n -> 0 <= pending_req s <= Z.of_nat n.
Proof.
  intros R <-. rewrite (ri_pending _ _ _ _ _ _ R). unfold in_flight. assert (H := length_filter (fun r => free_flag r = false) (requests s)). lia.
Qed.

Lemma before_last s past : RInv past s -> stop s = false -> lastWrote_ (page_buffer_ s) < K.
Proof.
  intros R Hs. destruct (decide (lastWrote_ (page_buffer_ s) < K)) as [|Hge]; [done|exfalso]. destruct last_page as [H0 [Hr|[d Hd]]].
  - rewrite (ri_ranged _ _ _ _ _ _ R K) in Hr by lia. done.
  - assert (HP := ri_pages _ _ _ _ _ _ R). assert (Hseq := inv_seqs _ _ HP). assert (Hw := inv_wrote _ _ HP).
    assert (Hin : K ∈ (finished past).*1) by (rewrite Hseq; apply elem_of_seqZ; lia).
    apply list_elem_of_fmap in Hin as ([q d'] & -> & Hin). cbn in Hd. destruct (ri_data _ _ _ _ _ _ R q d' Hin) as (e & He & Hst).
    rewrite Hd in He. injection He as _ <-. rewrite Hst in Hs; done.
Qed.

(** The lowest number in flight is with an entry from [i] on. *)
Definition low (s : reading) (i : nat) : Prop :=
  exists j r, (i <= j)%nat /\ requests s !! j = Some r /\ free_flag r = false /\ sequence r = lastWrote_ (page_buffer_ s) + 1.

Lemma low_exists past s : RInv past s -> entry_of (pc s) = None -> 0 < pending_req s -> low s 0.
Proof.
  intros R Hp Hpos. rewrite (ri_pending _ _ _ _ _ _ R) in Hpos. unfold in_flight in Hpos.
  destruct (filter (fun r => free_flag r = false) (requests s)) as [|r l] eqn:Hf; [done|].
  assert (Hr : r ∈ filter (fun r => free_flag r = false) (requests s)) by (rewrite Hf; by left).
  apply list_elem_of_filter in Hr as [Hfree Hr]. apply list_elem_of_lookup in Hr as [i Hr].
  assert (Hw := entry_writer _ _ _ _ past s i r R Hp Hr). rewrite Hfree in Hw. destruct Hw as (w & Hw & Hseq).
  assert (HP := ri_pages _ _ _ _ _ _ R). destruct (inv_writers _ _ HP i w Hw) as [Hrange _].
  destruct (ri_held _ _ _ _ _ _ R (lastWrote_ (page_buffer_ s) + 1) ltac:(lia)) as [Hu|(j & w' & Hw' & Hq)].
  - destruct (ri_unused _ _ _ _ _ _ R) as [Hnil|(_ & Hone & _)]; [rewrite Hnil in Hu; by apply elem_of_nil in Hu|].
    rewrite Hone in Hu. apply list_elem_of_singleton in Hu. destruct (inv_unused _ _ HP (writableSeq_ (page_buffer_ s) - 1)) as (_ & Hno & _); [rewrite Hone; by left|].
    assert (Hne := Hno i w Hw). lia.
  - destruct (lookup_lt_is_Some_2 _ _ (ri_writers _ _ _ _ _ _ R j w' Hw')) as [r' Hr'].
    assert (Hw0 := entry_writer _ _ _ _ past s j r' R Hp Hr'). exists j, r'. destruct (free_flag r'); [congruence|].
    destruct Hw0 as (w0 & Hw0 & Hs0). rewrite Hw' in Hw0. injection Hw0 as <-. split_and!; [lia|done|done|lia].
Qed.

(** ** One entry *)
Notation reach := (can_reach read_step).

Lemma reach_step (Q : reading -> Prop) a s evs s' : read_step a s = Step evs s' -> reach Q s' -> reach Q s.
Proof. apply can_reach_step. Qed.

(** [FinishWrite], of the lowest number or not. *)
Lemma finish_entry s i : J s -> pc s = AtFinish i \/ pc s = InFinish i ->
  reach (fun s' => J s' /\ pc s' = AtEntry (S i) /\ ((work s' < work s)%nat \/ work s' = work s /\ (low s i -> low s' (S i)))) s.
Proof.
  intros HJ Hpc.
  assert (Hin : forall s, J s -> pc s = InFinish i -> reach (fun s' => J s' /\ pc s' = AtEntry (S i) /\ (work s' < work s)%nat) s).
  { clear s HJ Hpc. intros s HJ Hpc. destruct (HJ) as (past & R & Hlen & _).
    assert (Hi := ri_pc _ _ _ _ _ _ R i). rewrite Hpc in Hi. specialize (Hi eq_refl). destruct (lookup_lt_is_Some_2 _ _ Hi) as [r Hr].
    assert (He := ri_entries _ _ _ _ _ _ R i r Hr). rewrite Hpc in He. cbn in He. rewrite decide_True in He by done. unfold entry_ok in He.
    destruct (free_flag r) eqn:Hf; [by destruct He as (_ & _ & _ & [])|]. destruct He as (_ & _ & He). destruct (copy_finish r); [|by destruct He].
    destruct He as (_ & _ & d & e & _ & _ & Hw). destruct (inv_writers _ _ (ri_pages _ _ _ _ _ _ R) i _ Hw) as [_ (_ & _ & Hnext)].
    assert (Hgo : read_step (Thread true) s = finished_entry i s) by (cbn; unfold ReadFromSPDK; by rewrite Hpc).
    assert (Hst : exists evs s', finished_entry i s = Step evs s' /\ pc s' = AtEntry (S i) /\ stop s' = stop s /\ pending_req s' = pending_req s - 1 /\
      lastWrote_ (page_buffer_ s') = sequence r).
    { unfold finished_entry. rewrite Hr. cbn [step]. unfold writer_step. rewrite Hw. by eexists _, _. }
    destruct Hst as (evs & s' & Hst & Hpc' & Hs & Hp & Hl). rewrite Hst in Hgo.
    eapply reach_step; [exact Hgo|]. apply can_reach_here. split_and!; [by eapply J_step | done|].
    assert (Hpl := pending_le s past R Hlen). unfold work. rewrite Hs, Hp, Hl. destruct (stop s) eqn:Hs0.
    - assert (Hfl := in_flight_insert (requests s) i r request0 Hr). rewrite Hf in Hfl. rewrite (ri_pending _ _ _ _ _ _ R) in *. cbn in Hfl. lia.
    - assert (Hb := before_last s past R Hs0). lia. }
  destruct Hpc as [Hpc|Hpc]; [|eapply can_reach_mono; [|by apply Hin]; intros s' (? & ? & ?); by auto].
  destruct (HJ) as (past & R & Hlen & _). assert (Hi := ri_pc _ _ _ _ _ _ R i). rewrite Hpc in Hi. specialize (Hi eq_refl).
  destruct (lookup_lt_is_Some_2 _ _ Hi) as [r Hr].
  assert (He := ri_entries _ _ _ _ _ _ R i r Hr). rewrite Hpc in He. cbn in He. rewrite decide_True in He by done. unfold entry_ok in He.
  destruct (free_flag r) eqn:Hf; [by destruct He as (_ & _ & _ & [])|]. destruct He as (_ & _ & He). destruct (copy_finish r); [|by destruct He].
  destruct He as (_ & _ & d & e & _ & _ & Hw).
  assert (Hgo : read_step (Thread true) s = finish i s) by (cbn; unfold ReadFromSPDK; by rewrite Hpc).
  unfold finish in Hgo. cbn [step] in Hgo. unfold FinishWrite_call in Hgo. rewrite Hw in Hgo.
  destruct (Z.eqb_spec (sequence r - 1) (lastWrote_ (page_buffer_ s))) as [Heq|Hne]; cbn [negb] in Hgo.
  - assert (HJ' := J_step _ _ _ _ HJ Hgo). eapply reach_step; [exact Hgo|].
    eapply can_reach_mono; [|by apply Hin]. intros s' (? & ? & Hlt). split_and!; [done..|]. left. revert Hlt. unfold work. by cbn.
  - assert (HJ' := J_step _ _ _ _ HJ Hgo). eapply reach_step; [exact Hgo|]. apply can_reach_here. split_and!; [done..|]. right. split; [done|].
    intros (j & r' & Hj & Hr' & Hf' & Hs'). exists j, r'. cbn. split_and!; try done. destruct (decide (j = i)) as [->|]; [|lia].
    rewrite Hr in Hr'. injection Hr' as <-. lia.
Qed.

Lemma check_entry s i : J s -> pc s = AtEntry i -> (i < n)%nat ->
  reach (fun s' => J s' /\ pc s' = AtEntry (S i) /\ ((work s' < work s)%nat \/ work s' = work s /\ (low s i -> low s' (S i)))) s.
Proof.
  intros HJ Hpc Hi. destruct (HJ) as (past & R & Hlen & _). rewrite <- Hlen in Hi. destruct (lookup_lt_is_Some_2 _ _ Hi) as [r Hr].
  assert (Hgo : read_step (Thread true) s = check_completion disk start_lpn end_lpn logfile_seq 0 true i s) by (cbn; unfold ReadFromSPDK; by rewrite Hpc).
  assert (Hgood := rinv_check_completion _ _ _ _ pages_ok past s true i R Hpc).
  destruct (free_flag r) eqn:Hf.
  { assert (Hc : read_step (Thread true) s = Step [] (set_pc (AtEntry (S i)) s)) by (rewrite Hgo; unfold check_completion; by rewrite Hr, Hf).
    assert (HJ' := J_step _ _ _ _ HJ Hc). eapply reach_step; [exact Hc|]. apply can_reach_here. split_and!; [done..|]. right. split; [done|].
    intros (j & r' & Hj & Hr' & Hf' & Hs'). exists j, r'. cbn. split_and!; try done. destruct (decide (j = i)) as [->|]; [congruence|lia]. }
  assert (Hst : exists evs s', check_completion disk start_lpn end_lpn logfile_seq 0 true i s = Step evs s' /\ pc s' = AtFinish i /\
    pending_req s' = pending_req s /\ lastWrote_ (page_buffer_ s') = lastWrote_ (page_buffer_ s) /\ (stop s = true -> stop s' = true) /\
    exists r', requests s' = <[i := r']> (requests s) /\ free_flag r' = false /\ sequence r' = sequence r).
  { clear Hgo. assert (He := ri_entries _ _ _ _ _ _ R i r Hr). rewrite local_elsewhere in He by (by rewrite Hpc). unfold entry_ok in He. rewrite Hf in He.
    destruct He as (_ & H0 & He). revert Hgood. unfold check_completion. rewrite Hr, Hf. cbn zeta. match goal with |- context [<[i := ?x]> (requests s)] => set (r1 := x) end.
    assert (H1 : free_flag r1 = false /\ sequence r1 = sequence r /\ copy_finish r1 = copy_finish r /\ completion_flag r1 = true).
    { unfold r1. destruct (completion_flag r) eqn:Hc; by cbn. }
    destruct H1 as (Hf1 & Hs1 & Hc1 & Hd1). rewrite Hd1, Hc1. destruct (copy_finish r); cbn [andb negb]; [intros _; eexists _, _; split; [done|]; cbn; eauto 10|].
    destruct He as (_ & Hw & _). rewrite Hs1, (proj2 (Z.eqb_neq _ _)) by lia. destruct (page_for end_lpn logfile_seq (buffer r1)) as [[d e]|]; [|done]. cbn [page_buffer_ set_requests step].
    unfold Write_call. rewrite Hw. intros _. eexists _, _. split; [done|]. cbn. rewrite list_insert_insert_eq. split_and!; try done; [by intros -> | eauto]. }
  destruct Hst as (evs & s' & Hst & Hpc' & Hp & Hl & Hs & r' & Hreq & Hf' & Hseq).
  rewrite Hst in Hgo. assert (HJ' := J_step _ _ _ _ HJ Hgo). eapply reach_step; [exact Hgo|].
  assert (Hwork : (work s' <= work s)%nat).
  { assert (Hpl := pending_le s past R Hlen). unfold work. rewrite Hp, Hl. destruct (stop s); [by rewrite Hs|]. destruct (stop s'); lia. }
  eapply can_reach_mono; [|apply (finish_entry s' i HJ'); by left]. intros s'' (HJ'' & Hpc'' & Hcase). split_and!; [done..|].
  destruct Hcase as [Hlt|[Heq Hlow]]; [left; lia|]. destruct (decide (work s' < work s)%nat); [left; lia|]. right. split; [lia|]. intros (j & x & Hj & Hx & Hxf & Hxs).
  apply Hlow. destruct (decide (j = i)) as [->|Hne].
  - exists i, r'. rewrite Hreq, list_lookup_insert_eq by done. rewrite Hl. rewrite Hr in Hx. injection Hx as <-. split_and!; [lia|done|done|lia].
  - exists j, x. rewrite Hreq, list_lookup_insert_ne, Hl by done. done.
Qed.

(** The rest of a pass. *)
Lemma pass s i w : J s -> pc s = AtEntry i -> (work s < w)%nat \/ work s = w /\ low s i ->
  reach (fun s' => J s' /\ pc s' = AtHead /\ (work s' < w)%nat) s.
Proof.
  remember (n - i)%nat as k eqn:Hk. revert s i Hk. induction k as [|k IH]; intros s i Hk HJ Hpc Hw.
  - destruct (HJ) as (past & R & Hlen & _). assert (Hnone : requests s !! i = None) by (apply lookup_ge_None; lia).
    assert (Hgo : read_step (Thread true) s = Step [] (set_pc AtHead s)) by (cbn; unfold ReadFromSPDK, check_completion; by rewrite Hpc, Hnone).
    assert (HJ' := J_step _ _ _ _ HJ Hgo). eapply reach_step; [exact Hgo|]. apply can_reach_here. split_and!; [done..|].
    destruct Hw as [Hw|(_ & j & r & Hj & Hr & _)]; [done|]. apply lookup_lt_Some in Hr. lia.
  - eapply can_reach_trans; [apply (check_entry s i HJ Hpc); lia|]. intros s' (HJ' & Hpc' & Hcase). apply (IH s' (S i)); [lia|done|done|].
    destruct Hcase as [Hlt|[Heq Hlow]]; [left|]; destruct Hw as [Hw|[Hw Hl]]; [lia..|left; lia|right; split; [lia|auto]].
Qed.

(** ** [GetWriteSeq] *)

(** The numbers handed out and not written are with the entries, so there are
    at most [n] of them. *)
Lemma few_in_flight s past i r q : RInv past s -> length (requests s) = n -> unused past = [] ->
  writers (page_buffer_ s) !! i = Some r -> wseq r = q -> q = writableSeq_ (page_buffer_ s) - 1 ->
  q - lastWrote_ (page_buffer_ s) <= Z.of_nat n.
Proof.
  intros R Hn Hu Hr Hrq Hq. set (a := lastWrote_ (page_buffer_ s)) in *.
  set (held := omap (fun i => wseq <$> writers (page_buffer_ s) !! i) (seq 0 n)).
  assert (Hsub : seqZ (a + 1) (q - a) ⊆+ held).
  { apply NoDup_submseteq; [apply NoDup_seqZ|]. intros x Hx%elem_of_seqZ.
    destruct (ri_held _ _ _ _ _ _ R x ltac:(lia)) as [Hin|(j & w & Hw & He)]; [rewrite Hu in Hin; by apply elem_of_nil in Hin|].
    apply list_elem_of_omap. exists j. split; [apply elem_of_seq; assert (H := ri_writers _ _ _ _ _ _ R j w Hw); lia|]. by rewrite Hw, <- He. }
  apply submseteq_length in Hsub. rewrite length_seqZ in Hsub.
  assert (Hlen : (length held <= length (seq 0 n))%nat) by (unfold held; generalize (seq 0 n); intros l; induction l as [|x l IH]; cbn; [done|case_match; cbn; lia]).
  rewrite length_seq in Hlen. lia.
Qed.

(** While the readers make room nothing of the thread's changes. *)
Definition same_thread (s0 : reading) (pages : LogPageBuffer (list Z)) (s : reading) : Prop :=
  J s /\ page_buffer_ s = pages /\ pc s = pc s0 /\ stop s = stop s0 /\ requests s = requests s0 /\ pending_req s = pending_req s0 /\
  writers pages = writers (page_buffer_ s0) /\ lastWrote_ pages = lastWrote_ (page_buffer_ s0).

Lemma readers_make_room s : J s -> lastRead_ (page_buffer_ s) < lastWrote_ (page_buffer_ s) ->
  reach (fun s' => same_thread s (page_buffer_ s') s' /\ lastRead_ (page_buffer_ s') = lastRead_ (page_buffer_ s) + 1) s.
Proof.
  intros HJ Hlt. destruct (HJ) as (past & R & Hlen & acts & Hacts).
  assert (Hs : Stopped ∉ past) by (intros Hin; apply (run_stopped acts _ _ Hacts) in Hin; rewrite (ri_running _ _ _ _ _ _ R) in Hin; done).
  assert (Hd := run_delivers acts past (page_buffer_ s) Hacts Hs Hlt).
  eapply can_reach_mono; [|eapply (can_reach_follow reading_step read_step (same_thread s)); [|by split_and!|exact Hd]].
  - intros s' (pages & (HJ' & <- & Hrest) & Hr). split; [exact (conj HJ' (conj eq_refl Hrest))|done].
  - intros a pages evs pages' s' Ha (HJ' & Hp & Hpc & Hst & Hreq & Hpend & Hw & Hl).
    assert (Hsame : writers pages' = writers pages /\ lastWrote_ pages' = lastWrote_ pages).
    { destruct a; cbn in Ha; try done; [unfold Read_call in Ha | unfold reader_step in Ha]; repeat (case_match; try done); simplify_eq; done. }
    destruct Hsame as [Hw' Hl'].
    assert (Hgo : exists b, read_step b s' = Step evs (set_pages pages' s')).
    { destruct a as [| | | | |j|j|]; try done; [exists (Read_ j) | exists (Reader_ j)]; cbn [Recovery.read_step reading_step] in *; by rewrite Hp, Ha. }
    destruct Hgo as [b Hb]. exists b, evs, (set_pages pages' s'). split; [exact Hb|]. split_and!; cbn; try congruence. by eapply J_step.
Qed.

(** The entry is in flight, or the thread has stopped. *)
Definition sent (w : nat) (s : reading) : Prop :=
  J s /\ pc s = AtEntry 0 /\ ((work s < w)%nat \/ work s = w /\ low s 0).

Lemma granted s i q : J s -> pc s = InGetWriteSeq i -> writers (page_buffer_ s) !! i = Some (W_room q) ->
  q - lastRead_ (page_buffer_ s) <= size_ -> reach (sent (work s)) s.
Proof.
  intros HJ Hpc Hw Hroom.
  destruct (HJ) as (past & R & Hlen & _). destruct (getting_entry _ _ _ _ past s i R Hpc) as (r & q' & Hr & Hfree & Hc & Hf & Hseq & _ & _ & Hs & _ & _).
  assert (Hgo : read_step (Thread true) s = in_get_write_seq start_lpn end_lpn 0 i s) by (cbn; unfold ReadFromSPDK; by rewrite Hpc).
  assert (Hst : exists evs s', in_get_write_seq start_lpn end_lpn 0 i s = Step evs s' /\ pc s' = AtEntry 0 /\ lastWrote_ (page_buffer_ s') = lastWrote_ (page_buffer_ s) /\
    (stop s' = true /\ pending_req s' = pending_req s \/ stop s' = false /\ pending_req s' = pending_req s + 1)).
  { unfold in_get_write_seq. cbn [step]. unfold writer_step. rewrite Hw, (proj2 (Z.ltb_ge _ _)) by lia. unfold send. cbn [requests set_pages].
    rewrite Hr, Hc, Hseq. cbn [Z.eqb negb andb Pos.eqb]. destruct (_ || _); [eexists _, _; split; [done|]; cbn; auto|].
    cbn [page_buffer_ set_pages step writers writer_goes set_writers]. rewrite lookup_insert_eq. eexists _, _. split; [done|]. cbn. auto. }
  destruct Hst as (evs & s' & Hst & Hpc' & Hl & Hcase). rewrite Hst in Hgo. assert (HJ' := J_step _ _ _ _ HJ Hgo).
  eapply reach_step; [exact Hgo|]. apply can_reach_here. split_and!; [done..|]. assert (Hpl := pending_le s past R Hlen).
  unfold work. rewrite Hs, Hl. destruct Hcase as [[-> ->]|[-> Hp]]; [left; lia|right]. split; [done|].
  destruct HJ' as (past' & R' & Hlen' & _). apply (low_exists past' s' R'); [by rewrite Hpc'|lia].
Qed.

Lemma spin i q : forall s, J s -> pc s = InGetWriteSeq i -> writers (page_buffer_ s) !! i = Some (W_room q) -> reach (sent (work s)) s.
Proof.
  intros s. remember (Z.to_nat (q - lastRead_ (page_buffer_ s))) as k eqn:Hk. revert s Hk.
  induction k as [k IH] using lt_wf_ind. intros s Hk HJ Hpc Hw.
  destruct (decide (q - lastRead_ (page_buffer_ s) <= size_)) as [Hle|Hgt]; [by eapply granted|].
  destruct (HJ) as (past & R & Hlen & _). destruct (getting_entry _ _ _ _ past s i R Hpc) as (r & q' & _ & _ & _ & _ & _ & Hw' & Hq & _ & Hun & _).
  assert (q' = q) as -> by (destruct Hw' as [Hw'|Hw']; rewrite Hw in Hw'; [by injection Hw'|done]).
  assert (Hfew := few_in_flight s past i _ q R Hlen Hun Hw eq_refl Hq). change size_ with 1024 in Hgt.
  eapply can_reach_trans; [apply (readers_make_room s HJ); lia|]. intros s' ((HJ' & _ & Hpc' & Hst' & _ & Hp' & Hw2 & Hl') & Hread).
  assert (Hwork : work s' = work s) by (unfold work; by rewrite Hst', Hp', Hl').
  rewrite <- Hwork. apply (IH (Z.to_nat (q - lastRead_ (page_buffer_ s')))); [lia|done|done|by rewrite Hpc'|by rewrite Hw2].
Qed.

Lemma get_write_seq s i : J s -> pc s = InGetWriteSeq i -> reach (sent (work s)) s.
Proof.
  intros HJ Hpc. destruct (HJ) as (past & R & _). destruct (getting_entry _ _ _ _ past s i R Hpc) as (r & q & _ & _ & _ & _ & _ & [Hw|Hw] & _); [by eapply spin|].
  assert (Hgo : read_step (Thread true) s = Step [] (set_pages (writer_goes i (W_room q) (page_buffer_ s)) s)).
  { cbn. unfold ReadFromSPDK, in_get_write_seq. rewrite Hpc. cbn [step]. unfold writer_step. by rewrite Hw, (ri_running _ _ _ _ _ _ R). }
  assert (HJ' := J_step _ _ _ _ HJ Hgo). eapply reach_step; [exact Hgo|]. apply (spin i q _ HJ'); [done|]. cbn. apply lookup_insert_eq.
Qed.

(** ** The loop *)
Lemma from_entry s i : J s -> pc s = AtEntry i -> reach (fun s' => J s' /\ pc s' = AtHead) s.
Proof.
  intros HJ Hpc. eapply can_reach_mono; [|apply (pass s i (S (work s)) HJ Hpc); left; lia]. intros s' (? & ? & _). done.
Qed.

Lemma to_head s : J s -> pc s <> Returned_ -> reach (fun s' => J s' /\ pc s' = AtHead) s.
Proof.
  intros HJ Hne. destruct (pc s) as [|i|i|i|i|] eqn:Hpc; [by apply can_reach_here|..|done].
  - eapply can_reach_trans; [by apply (get_write_seq s i HJ)|]. intros s' (HJ' & Hpc' & _). by eapply from_entry.
  - by eapply from_entry.
  - eapply can_reach_trans; [apply (finish_entry s i HJ); by left|]. intros s' (HJ' & Hpc' & _). by eapply from_entry.
  - eapply can_reach_trans; [apply (finish_entry s i HJ); by right|]. intros s' (HJ' & Hpc' & _). by eapply from_entry.
Qed.

Lemma all_busy l : free_index l = None -> in_flight l = length l.
Proof.
  unfold in_flight. induction l as [|r l IH]; [done|]. intros Hi. cbn in Hi. destruct (free_flag r) eqn:Hf; [done|].
  destruct (free_index l) eqn:Hi'; [done|]. rewrite filter_cons_True by done. cbn [length]. by rewrite IH.
Qed.

Lemma turn s : J s -> pc s = AtHead -> reach (fun s' => pc s' = Returned_ \/ (J s' /\ pc s' = AtHead) /\ (work s' < work s)%nat) s.
Proof.
  intros HJ Hpc. destruct (HJ) as (past & R & Hlen & _).
  assert (Hgo : read_step (Thread true) s = at_head s) by (cbn; unfold ReadFromSPDK; by rewrite Hpc).
  assert (Hpass : forall s1, J s1 -> pc s1 = AtEntry 0 -> (work s1 < work s)%nat \/ work s1 = work s /\ low s1 0 ->
    reach (fun s' => pc s' = Returned_ \/ (J s' /\ pc s' = AtHead) /\ (work s' < work s)%nat) s1).
  { intros s1 HJ1 Hpc1 Hw. eapply can_reach_mono; [|by apply (pass s1 0 (work s))]. intros s' (? & ? & ?). by right. }
  unfold at_head in Hgo. assert (Hpend := pending_le s past R Hlen). destruct (stop s && (pending_req s =? 0)) eqn:Hend.
  { eapply reach_step; [exact Hgo|]. apply can_reach_here. by left. }
  assert (Hdirect : 0 < pending_req s -> read_step (Thread true) s = Step [] (set_pc (AtEntry 0) s) ->
    reach (fun s' => pc s' = Returned_ \/ (J s' /\ pc s' = AtHead) /\ (work s' < work s)%nat) s).
  { intros Hpos Hst. assert (HJ' := J_step _ _ _ _ HJ Hst). eapply reach_step; [exact Hst|]. apply Hpass; [done..|]. right. split; [done|].
    destruct HJ' as (past' & R' & _). by apply (low_exists past' _ R'). }
  destruct (stop s) eqn:Hs.
  - cbn in Hend. apply Z.eqb_neq in Hend. apply Hdirect; [lia|]. rewrite Hgo. by destruct (free_index (requests s)).
  - destruct (free_index (requests s)) as [i|] eqn:Hi.
    2: { apply Hdirect; [|done]. rewrite (ri_pending _ _ _ _ _ _ R), (all_busy _ Hi). lia. }
    destruct (step (GetWriteSeq i) (page_buffer_ s)) as [| |evs pages] eqn:Hget.
    + apply free_index_Some in Hi as (r & Hr & Hf). assert (Hw := entry_writer _ _ _ _ past s i r R ltac:(by rewrite Hpc) Hr). rewrite Hf in Hw.
      cbn in Hget. unfold GetWriteSeq_call in Hget. by rewrite Hw in Hget.
    + cbn in Hget. unfold GetWriteSeq_call in Hget. by destruct (writers (page_buffer_ s) !! i).
    + assert (HJ' := J_step _ _ _ _ HJ Hgo). eapply reach_step; [exact Hgo|]. set (s1 := set_pc _ _) in *.
      assert (Hw1 : work s1 = work s).
      { unfold work. cbn. cbn in Hget. unfold GetWriteSeq_call in Hget. destruct (writers (page_buffer_ s) !! i); [done|]. by injection Hget as _ <-. }
      eapply can_reach_trans; [by apply (get_write_seq s1 i HJ')|]. intros s2 (HJ2 & Hpc2 & Hcase). apply Hpass; [done..|]. by rewrite <- Hw1.
Qed.

Lemma reading_ends s : J s -> reach (fun s' => pc s' = Returned_) s.
Proof.
  intros HJ. destruct (decide (pc s = Returned_)) as [Hr|Hr]; [by apply can_reach_here|].
  apply (can_reach_trans _ _ _ _ (to_head s HJ Hr)). intros s' Hs'.
  apply (can_reach_measure read_step (fun s => J s /\ pc s = AtHead) _ work); [|done]. intros s0 [HJ0 Hp0]. by apply turn.
Qed.
End live.
