(* ===== verification/RecoverySpec.v ===== *)
(** * Recovery from the device to the entries

    What [ReadFromSPDK] promises for a log file whose end is known and for the
    last one, whose end is where the sequence number changes; with
    [ProcessData] behind it what was logged is what comes out; what
    [RecoveryServer] does with more than one log file. *)

From S2P Require Import Prelude Machine Util LogFormat LogRoundtrip PageBuffer PageBufferProps Recovery RecoveryProps RecoveryLive.
Local Open Scope Z_scope.

(** The log file [logfile_seq] lies in the pages from [start_lpn] to
    [end_lpn]. *)
Record closed_log (disk : Z -> list Z) (start_lpn end_lpn logfile_seq : Z) : Prop := {
  closed_range : 0 < start_lpn <= end_lpn;
  closed_end : end_lpn < 2 ^ 64 - 1;
  closed_pages : forall lpn, start_lpn <= lpn <= end_lpn -> load32 (disk lpn) 0 = Ok logfile_seq
}.

(** It has [n] pages from [start_lpn] on, and the next is of another file. *)
Record open_log (disk : Z -> list Z) (start_lpn logfile_seq n : Z) : Prop := {
  open_range : 0 < start_lpn /\ 0 <= n /\ start_lpn + n < 2 ^ 64;
  open_disk : forall lpn, exists v, load32 (disk lpn) 0 = Ok v;
  open_pages : forall lpn, start_lpn <= lpn < start_lpn + n -> load32 (disk lpn) 0 = Ok logfile_seq;
  open_end : load32 (disk (start_lpn + n)) 0 <> Ok logfile_seq
}.

Lemma lpn_small start q : 0 <= start + q < 2 ^ 64 -> lpn_of start 0 q = start + q.
Proof. intros Hq. unfold lpn_of. rewrite Z.sub_0_r. by apply u64_small. Qed.

Section closed.
Context (disk : Z -> list Z) (start_lpn end_lpn logfile_seq : Z) (L : closed_log disk start_lpn end_lpn logfile_seq).
Notation page q := (page_for end_lpn logfile_seq (disk (lpn_of start_lpn 0 q))).
Definition closed_last : Z := end_lpn - start_lpn + 1.

Lemma closed_in_range q : 0 <= q <= closed_last -> in_range start_lpn end_lpn q = (q <? closed_last).
Proof.
  unfold closed_last. intros Hq. destruct L as [[H1 H2] H3 _]. unfold in_range. rewrite lpn_small by lia.
  rewrite (proj2 (Z.eqb_neq _ _)) by lia. cbn. apply eq_true_iff_eq. rewrite Z.leb_le, Z.ltb_lt. lia.
Qed.

Lemma closed_upto q : 0 <= q -> (forall q', 0 <= q' <= q -> in_range start_lpn end_lpn q' = true) -> q < closed_last.
Proof.
  intros Hq Hin. destruct (decide (q < closed_last)) as [|Hge]; [done|]. assert (Hl : 0 <= closed_last) by (unfold closed_last; destruct L; lia).
  assert (Hx := Hin closed_last ltac:(lia)). rewrite closed_in_range, Z.ltb_irrefl in Hx by lia. done.
Qed.

Lemma closed_page q : 0 <= q < closed_last -> page q = Ok (Some (disk (start_lpn + q)), false).
Proof.
  unfold closed_last. intros Hq. destruct L as [[H1 H2] H3 Hp]. rewrite lpn_small by lia. unfold page_for. rewrite Hp by lia.
  cbn [mbind res_bind]. by rewrite (proj2 (Z.ltb_lt _ _)), Z.eqb_refl by lia.
Qed.

Lemma closed_ok q : 0 <= q -> (forall q', 0 <= q' <= q -> in_range start_lpn end_lpn q' = true) -> exists data ends, page q = Ok (data, ends).
Proof. intros H0 Hq. assert (Hl := closed_upto q H0 Hq). rewrite closed_page by lia. eauto. Qed.

Lemma closed_count past s : RInv disk start_lpn end_lpn logfile_seq past s -> Z.of_nat (length (finished past)) <= closed_last.
Proof.
  intros R. assert (Hw := inv_wrote _ _ (ri_pages _ _ _ _ _ _ R)). destruct (decide (length (finished past) = 0)%nat) as [->|]; [unfold closed_last; destruct L; lia|].
  assert (Hx := closed_upto (lastWrote_ (page_buffer_ s)) ltac:(lia) ltac:(intros; apply (ri_ranged _ _ _ _ _ _ R); lia)). lia.
Qed.
Lemma closed_finished past s : RInv disk start_lpn end_lpn logfile_seq past s ->
  finished past = (fun k => (k, Some (disk (start_lpn + k)))) <$> seqZ 0 (Z.of_nat (length (finished past))).
Proof.
  intros R. rewrite (rinv_pages _ _ _ _ _ _ R) at 1. apply list_fmap_ext. intros i k Hk%lookup_seqZ. unfold page_at.
  assert (Hc := closed_count past s R). by rewrite closed_page by lia.
Qed.

(** At the end all pages are finished and one number is left over. *)
Lemma closed_returned past s : RInv disk start_lpn end_lpn logfile_seq past s -> pc s = Returned_ ->
  Z.of_nat (length (finished past)) = closed_last /\ closed_last ∈ unused past.
Proof.
  intros R Hret. destruct (rinv_returned _ _ _ _ _ _ R Hret) as [Hs Hheld]. assert (HP := ri_pages _ _ _ _ _ _ R).
  assert (Hw := inv_wrote _ _ HP). assert (Hc := closed_count past s R). set (m := Z.of_nat (length (finished past))) in *.
  destruct (ri_unused _ _ _ _ _ _ R) as [Hnil|(_ & Hone & Hout)]; [exfalso|].
  - destruct (ri_stop _ _ _ _ _ _ R Hs) as [Hx|[(q & d & Hq & Hp)|(i & r & d & Hi & Hfree & _ & Hp)]]; [done| |].
    + rewrite (closed_finished past s R) in Hq. apply list_elem_of_fmap in Hq as (k & [= -> ->] & Hk%elem_of_seqZ). by rewrite closed_page in Hp by lia.
    + assert (He := entry_writer _ _ _ _ _ _ i r R ltac:(by rewrite Hret) Hi). rewrite Hfree in He. destruct He as (w & Hwi & Hwq).
      destruct (inv_writers _ _ HP i w Hwi) as [Hrange _]. destruct (Hheld (wseq w) ltac:(lia)) as [Hin|Hle]; [rewrite Hnil in Hin; by apply elem_of_nil in Hin|lia].
  - assert (Hu : writableSeq_ (page_buffer_ s) - 1 ∈ unused past) by (rewrite Hone; by left).
    destruct (inv_unused _ _ HP _ Hu) as (H1 & _ & _).
    assert (Hm : writableSeq_ (page_buffer_ s) - 1 = m).
    { destruct (Hheld m) as [Hin|Hle]; [|rewrite Hone in Hin; by apply list_elem_of_singleton in Hin|]; lia. }
    rewrite Hm in Hout. rewrite closed_in_range in Hout by (destruct L; unfold closed_last in *; lia). apply Z.ltb_ge in Hout.
    assert (Heq : m = closed_last) by lia. split; [done|]. by rewrite <- Heq, <- Hm.
Qed.
End closed.

Section open.
Context (disk : Z -> list Z) (start_lpn logfile_seq n : Z) (L : open_log disk start_lpn logfile_seq n).
Notation page q := (page_for 0 logfile_seq (disk (lpn_of start_lpn 0 q))).

Lemma open_ok q : exists data ends, page q = Ok (data, ends).
Proof.
  destruct (open_disk _ _ _ _ L (lpn_of start_lpn 0 q)) as [v Hv]. unfold page_for. rewrite Hv. cbn.
  destruct (v =? logfile_seq) eqn:He; cbn; rewrite ?He; cbn; eauto.
Qed.

Lemma open_page q : 0 <= q < n -> page q = Ok (Some (disk (start_lpn + q)), false).
Proof.
  intros Hq. destruct L as [(H1 & H2 & H3) _ Hp _]. rewrite lpn_small by lia. unfold page_for. rewrite Hp by lia. cbn. by rewrite Z.eqb_refl.
Qed.

Lemma open_last : page n = Ok (None, true).
Proof.
  destruct L as [(H1 & H2 & H3) Hd _ He]. rewrite lpn_small by lia. destruct (Hd (start_lpn + n)) as [v Hv]. unfold page_for.
  rewrite Hv in He |- *. cbn. rewrite (proj2 (Z.eqb_neq _ _)) by congruence. done.
Qed.

(** Only the last page ends the reading. *)
Lemma open_ends q data : 0 <= q -> page q = Ok (data, true) -> n <= q.
Proof. intros H0 Hp. destruct (decide (q < n)); [|lia]. by rewrite open_page in Hp by lia. Qed.
End open.

(** ** The pages of a file are those of its log *)
Section headers.
Context (T : Z -> Prop).
Definition has_header (pg : list Z) : Prop := exists t, load32 pg 0 = Ok t /\ T t.

Lemma data_headers left d S left' S' : Data T left d S left' S' -> forall p, At p S -> LogFormat.left p = left ->
  exists p', At p' S' /\ LogFormat.left p' = left' /\ (Forall has_header (pages p') -> Forall has_header (pages p)).
Proof.
  induction 1 as [left d S Hl | left d h S left' S' Hl Hh HD IH]; intros p HA Hp.
  - exists (advance (len d) p). split; [apply (at_advance p d S HA); lia|]. cbn. split; [lia|done].
  - assert (Ht : len (takeZ left d) = left) by (rewrite len_takeZ; lia).
    destruct (at_next p (takeZ left d) h S T HA ltac:(lia) Hh) as (pg & q & Hpg & HA' & Hhead).
    destruct (IH (fresh_page pg q) HA' eq_refl) as (p' & HA2 & Hl2 & HF). exists p'. split_and!; [done..|].
    intros Hf. rewrite Hpg. constructor; [done|]. by apply HF.
Qed.

Lemma stream_headers left S ds : Stream T left S ds -> forall p, At p S -> LogFormat.left p = left -> Forall has_header (pages p).
Proof.
  induction 1 as [left Hl | left h S ds Hl Hh HS IH | left d S left' S' ds Hl Hd HD HS IH]; intros p HA Hp.
  - rewrite (at_end p _ HA); [constructor|]. rewrite len_zeros; lia.
  - destruct (at_next p (zeros left) h S T HA) as (pg & q & Hpg & HA' & Hhead); [rewrite len_zeros; lia|done|].
    rewrite Hpg. constructor; [done|]. by apply (IH (fresh_page pg q)).
  - assert (HA1 := at_advance p (EncodeFixed32 kLittleEndian (len d)) S HA). change (len (EncodeFixed32 kLittleEndian (len d))) with 4 in HA1.
    destruct (data_headers _ _ _ _ _ HD (advance 4 p) (HA1 ltac:(lia))) as (p' & HA2 & Hl2 & HF); [cbn; lia|].
    apply HF. by apply IH.
Qed.

Lemma log_headers log ds : len log mod PAGESIZE = 0 -> Next_pages T log ds -> Forall has_header (to_pages log).
Proof.
  intros Hm HN. destruct (to_pages_ok log Hm) as [Hc Hp]. destruct HN as [[-> ->] | (h & S & -> & Hh & HS)]; [constructor|].
  assert (Hh4 : len h = 4) by (by destruct Hh). destruct (to_pages (h ++ S)) as [|pg q] eqn:Hpages.
  { apply (f_equal len) in Hc. rewrite len_app in Hc. cbn in Hc. assert (H0 := len_nonneg S). change (len (@nil Z)) with 0 in Hc. lia. }
  (* the place before the first page *)
  apply Forall_cons in Hp as [Hpg Hq].
  assert (HA : At {| page := zeros PAGESIZE; pos := PAGESIZE; left := 0; pages := pg :: q |} (h ++ S)).
  { split; cbn [page pos left pages]; [done | by constructor | done..|]. rewrite <- Hc. done. }
  destruct (at_next _ [] h S T HA eq_refl Hh) as (pg' & q' & Heq & HA' & Hhead). cbn in Heq. injection Heq as <- <-.
  constructor; [done|]. by apply (stream_headers _ _ _ HS (fresh_page pg q)).
Qed.
End headers.

(** What the parsing thread reads until it gets a null pointer. *)
Fixpoint pages_read (l : list (option (list Z))) : list (list Z) :=
  match l with Some pg :: l => pg :: pages_read l | _ => [] end.

Lemma pages_read_app ps l : pages_read ((Some <$> ps) ++ l) = ps ++ pages_read l.
Proof. induction ps as [|p ps IH]; cbn; [done|by rewrite IH]. Qed.

(** ** Properties *)

(** C12: reading a log file whose end is known hands over exactly its pages, in
    order, in every interleaving with the parsing threads and whenever the
    device completes which request: no assertion fails, what is handed over is
    a prefix of the file, what is delivered a prefix of that, and when the
    thread returns it is the whole file. *)
Theorem read_closed_log disk start_lpn end_lpn logfile_seq (reader_num : nat) acts :
  closed_log disk start_lpn end_lpn logfile_seq ->
  match run (read_step disk start_lpn end_lpn logfile_seq 0) acts (start_reading reader_num new_LogPageBuffer) with
  | Disabled => True
  | Fault _ => False
  | Step evs s =>
      let file := (fun k => (k, Some (disk (start_lpn + k)))) <$> seqZ 0 (end_lpn - start_lpn + 1) in
      finished evs `prefix_of` file /\ delivered evs `prefix_of` finished evs /\ (pc s = Returned_ -> finished evs = file)
  end.
Proof.
  intros L. destruct (run _ acts _) as [|e|evs s] eqn:Hr; [done|by apply read_no_fault in Hr; [|intros; by eapply closed_ok]|].
  apply read_rinv in Hr; [|intros; by eapply closed_ok]. rename Hr into R.
  assert (Hcount := closed_count _ _ _ _ L _ _ R). assert (Hf := closed_finished _ _ _ _ L _ _ R). unfold closed_last in Hcount.
  set (n := Z.of_nat (length (finished evs))) in *. cbn zeta. split_and!.
  - rewrite Hf. replace (end_lpn - start_lpn + 1) with (n + (end_lpn - start_lpn + 1 - n)) by lia. rewrite seqZ_app, fmap_app by lia. by apply prefix_app_r.
  - rewrite (inv_prefix _ _ (ri_pages _ _ _ _ _ _ R)). apply prefix_take.
  - intros Hret. destruct (closed_returned _ _ _ _ L _ _ R Hret) as [Hn _]. fold n in Hn. rewrite Hf, Hn. done.
Qed.

(** The pages of the last log file and the null pointer that ends it. *)
Definition open_file (disk : Z -> list Z) (start_lpn n : Z) : list (Z * option (list Z)) :=
  ((fun k => (k, Some (disk (start_lpn + k)))) <$> seqZ 0 n) ++ [(n, None)].

Lemma open_finished disk start_lpn logfile_seq n past s : open_log disk start_lpn logfile_seq n ->
  RInv disk start_lpn 0 logfile_seq past s -> exists rest, finished past `prefix_of` open_file disk start_lpn n ++ rest /\
  (n < Z.of_nat (length (finished past)) -> open_file disk start_lpn n `prefix_of` finished past).
Proof.
  intros L R. set (m := Z.of_nat (length (finished past))). set (out := fun q => (q, page_at disk start_lpn 0 logfile_seq q)).
  assert (Hn : 0 <= n) by (destruct L; lia).
  assert (Hf : finished past = out <$> seqZ 0 m) by apply (rinv_pages _ _ _ _ _ _ R).
  assert (Ho : open_file disk start_lpn n = out <$> seqZ 0 (n + 1)).
  { rewrite seqZ_app, fmap_app by lia. unfold open_file. f_equal.
    - apply list_fmap_ext. intros i k Hk%lookup_seqZ. unfold out, page_at. rewrite (open_page _ _ _ _ L) by lia. done.
    - assert (Hout : out n = (n, None)) by (unfold out, page_at; by rewrite (open_last _ _ _ _ L)). by rewrite <- Hout. }
  exists (out <$> seqZ (n + 1) m). rewrite Ho, Hf, <- fmap_app. rewrite <- (Z.add_0_l (n + 1)) at 2. rewrite <- seqZ_app by lia. split.
  - replace (n + 1 + m) with (m + (n + 1)) by lia. rewrite (seqZ_app 0 m), fmap_app by lia. by apply prefix_app_r.
  - intros Hm. replace m with (n + 1 + (m - (n + 1))) by lia. rewrite (seqZ_app 0 (n + 1)), fmap_app by lia. by apply prefix_app_r.
Qed.

(** Reading the last log file, whose end is not known, hands over its pages
    in order and then a null pointer, whatever lies behind it on the device: no
    assertion fails, what is handed over before that agrees with the file, and
    when the thread returns it has all been handed over. *)
Theorem read_open_log disk start_lpn logfile_seq n (reader_num : nat) acts :
  open_log disk start_lpn logfile_seq n ->
  match run (read_step disk start_lpn 0 logfile_seq 0) acts (start_reading reader_num new_LogPageBuffer) with
  | Disabled => True
  | Fault _ => False
  | Step evs s =>
      let file := open_file disk start_lpn n in
      (finished evs `prefix_of` file \/ file `prefix_of` finished evs) /\ delivered evs `prefix_of` finished evs /\
      (pc s = Returned_ -> file `prefix_of` finished evs)
  end.
Proof.
  intros L. assert (Hok : forall q, 0 <= q -> (forall q', 0 <= q' <= q -> in_range start_lpn 0 q' = true) ->
    exists data ends, page_for 0 logfile_seq (disk (lpn_of start_lpn 0 q)) = Ok (data, ends)) by (intros; by eapply open_ok).
  destruct (run _ acts _) as [|e|evs s] eqn:Hr; [done|by apply read_no_fault in Hr|].
  apply read_rinv in Hr; [|done]. rename Hr into R. destruct (open_finished _ _ _ _ _ _ L R) as (rest & Hpre & Hall).
  assert (HP := ri_pages _ _ _ _ _ _ R). cbn zeta. split_and!.
  - eapply prefix_weak_total; [exact Hpre|]. by apply prefix_app_r.
  - rewrite (inv_prefix _ _ HP). apply prefix_take.
  - intros Hret. apply Hall. destruct (rinv_returned _ _ _ _ _ _ R Hret) as [Hs Hheld]. assert (Hw := inv_wrote _ _ HP).
    assert (Hnil : unused evs = []) by (by destruct (ri_unused _ _ _ _ _ _ R) as [|(_ & _ & Hout)]).
    destruct (ri_stop _ _ _ _ _ _ R Hs) as [Hu|[(q & d & Hq & Hp)|(i & r & d & Hi & Hfree & _ & Hp)]]; [done| |].
    + rewrite (rinv_pages _ _ _ _ _ _ R) in Hq. apply list_elem_of_fmap in Hq as (k & [= -> ->] & Hk%elem_of_seqZ).
      apply (open_ends _ _ _ _ L) in Hp; lia.
    + assert (He := entry_writer _ _ _ _ _ _ i r R ltac:(by rewrite Hret) Hi). rewrite Hfree in He. destruct He as (w & Hwi & Hwq).
      destruct (inv_writers _ _ HP i w Hwi) as [Hrange _]. destruct (Hheld (wseq w) ltac:(lia)) as [Hin|Hle]; [rewrite Hnil in Hin; by apply elem_of_nil in Hin|lia].
Qed.

(** C10: end to end: if the device holds the pages of the batches logged to the
    last log file and a page of another file behind them, then whenever a
    parsing thread has been given the null pointer, [ProcessData] on the pages
    read until then has recovered every entry logged, in order and byte for
    byte, with the tag of the file. *)
Theorem recovery_roundtrip disk start_lpn logfile_seq batches log (reader_num : nat) acts evs s q :
  Forall batch_ok batches -> Forall (fun b => b.1 = logfile_seq) batches -> write_batches batches = Ok log ->
  0 < start_lpn -> start_lpn + len (to_pages log) < 2 ^ 64 ->
  (forall lpn, len (disk lpn) = PAGESIZE) ->
  (forall k pg, to_pages log !! k = Some pg -> disk (start_lpn + Z.of_nat k) = pg) ->
  load32 (disk (start_lpn + len (to_pages log))) 0 <> Ok logfile_seq ->
  run (read_step disk start_lpn 0 logfile_seq 0) acts (start_reading reader_num new_LogPageBuffer) = Step evs s ->
  (q, None) ∈ delivered evs ->
  exists es, ProcessData (pages_read (delivered evs).*2) = Ok es /\ data_ <$> es = concat (snd <$> batches) /\
    Forall (fun e => log_tag_seq e = logfile_seq) es.
Proof.
  intros Hb Htag Hlog Hstart Hfit Hdisk Hpages Hnext Hr Hq.
  destruct (write_batches_ok (eq logfile_seq) batches Hb) as (log' & Hw & Hm & HN).
  { eapply Forall_impl; [exact Htag|]. by intros b ->. }
  rewrite Hlog in Hw. injection Hw as <-. set (n := len (to_pages log)) in *.
  assert (Hhead := log_headers (eq logfile_seq) log _ Hm HN). rewrite Forall_lookup in Hhead.
  assert (L : open_log disk start_lpn logfile_seq n).
  { split; [assert (H0 := len_nonneg (to_pages log)); lia| | |done].
    - intros lpn. assert (Hl := Hdisk lpn). unfold load32. rewrite dropZ_0. rewrite <- (takeZ_dropZ 4 (disk lpn)).
      assert (Ht : len (takeZ 4 (disk lpn)) = 4) by (apply len_takeZ; rewrite Hl, page_size; lia). rewrite decode_app by done.
      unfold len in Ht. destruct (takeZ 4 (disk lpn)) as [|b0 [|b1 [|b2 [|b3 [|]]]]]; cbn in Ht; try lia. by eexists.
    - intros lpn Hlpn. destruct (lookup_lt_is_Some_2 (to_pages log) (Z.to_nat (lpn - start_lpn))) as [pg Hpg]; [unfold n, len in *; lia|].
      assert (Hd := Hpages _ _ Hpg). replace (start_lpn + _) with lpn in Hd by lia. rewrite Hd. destruct (Hhead _ _ Hpg) as (t & Ht & <-). done. }
  assert (Hopen := read_open_log disk start_lpn logfile_seq n reader_num acts L). rewrite Hr in Hopen. cbn zeta in Hopen.
  destruct Hopen as (Hfile & Hdel & _).
  assert (HF : open_file disk start_lpn n `prefix_of` delivered evs).
  { assert (Hcases : delivered evs `prefix_of` open_file disk start_lpn n \/ open_file disk start_lpn n `prefix_of` delivered evs).
    { destruct Hfile as [Hf|Hf]; [left; by etrans|]. by apply (prefix_weak_total _ _ (finished evs)). }
    destruct Hcases as [Hp|]; [|done]. destruct Hp as [k Hk]. unfold open_file in Hk. destruct k as [|x k _] using rev_ind; [rewrite app_nil_r in Hk; exists []; by rewrite app_nil_r|].
    rewrite app_assoc in Hk. apply app_inj_tail in Hk as [Hk _].
    assert (Hin : (q, None) ∈ (fun k => (k, Some (disk (start_lpn + k)))) <$> seqZ 0 n) by (rewrite Hk; apply elem_of_app; by left).
    apply list_elem_of_fmap in Hin as (? & [=] & _). }
  destruct HF as [rest Hrest]. rewrite Hrest. unfold open_file. rewrite !fmap_app, <- list_fmap_compose. cbn [fmap list_fmap snd].
  assert (Hps : ((snd : Z * option (list Z) -> _) ∘ (fun k => (k, Some (disk (start_lpn + k))))) <$> seqZ 0 n = Some <$> to_pages log).
  { apply list_eq. intros i. rewrite !list_lookup_fmap. destruct (to_pages log !! i) as [pg|] eqn:Hi.
    - assert (Hlt := lookup_lt_Some _ _ _ Hi). rewrite (proj2 (lookup_seqZ 0 n i (Z.of_nat i))) by (unfold n, len; lia). cbn. by rewrite (Hpages _ _ Hi).
    - apply lookup_ge_None in Hi. rewrite (proj2 (lookup_ge_None _ _)); [done|]. rewrite length_seqZ. unfold n, len. lia. }
  rewrite Hps, <- app_assoc, pages_read_app. cbn [pages_read app]. rewrite app_nil_r.
  destruct (next_pages_read _ _ _ Hm HN) as (es & He & Hd & HT). exists es. split_and!; [done..|].
  eapply Forall_impl; [exact HT|]. by intros e <-.
Qed.

(** C13: the reading ends: with at most 1024 requests in flight, from whatever
    state an interleaving has left it in, the thread can return, for a file
    with a known end as for the last one, if the device answers and the parsing
    threads go on reading. *)
Theorem reading_can_end disk start_lpn end_lpn logfile_seq n (reader_num : nat) acts evs s :
  closed_log disk start_lpn end_lpn logfile_seq \/ end_lpn = 0 /\ open_log disk start_lpn logfile_seq n ->
  (0 < reader_num <= 1024)%nat ->
  run (read_step disk start_lpn end_lpn logfile_seq 0) acts (start_reading reader_num new_LogPageBuffer) = Step evs s ->
  can_reach (read_step disk start_lpn end_lpn logfile_seq 0) (fun s' => pc s' = Returned_) s.
Proof.
  intros HL Hn Hr.
  assert (Hok : forall q, 0 <= q -> (forall q', 0 <= q' <= q -> in_range start_lpn end_lpn q' = true) ->
    exists data ends, page_for end_lpn logfile_seq (disk (lpn_of start_lpn 0 q)) = Ok (data, ends)).
  { intros q H0 Hin. destruct HL as [L|[-> L]]; [by eapply closed_ok | by eapply open_ok]. }
  assert (HK : exists K, 0 <= K /\ (in_range start_lpn end_lpn K = false \/ exists data, page_for end_lpn logfile_seq (disk (lpn_of start_lpn 0 K)) = Ok (data, true))).
  { destruct HL as [L|[-> L]].
    - exists (closed_last start_lpn end_lpn). assert (H0 := closed_range _ _ _ _ L). unfold closed_last in *. split; [lia|]. left.
      rewrite (closed_in_range _ _ _ _ L) by (unfold closed_last; lia). apply Z.ltb_ge. unfold closed_last. lia.
    - exists n. split; [by destruct L as [(_ & ? & _) _ _ _]|]. right. exists None. apply (open_last _ _ _ _ L). }
  destruct HK as [K HK]. apply (reading_ends disk start_lpn end_lpn logfile_seq reader_num K Hok HK Hn).
  apply (run_invariant _ (fun _ s => J disk start_lpn end_lpn logfile_seq reader_num s)) in Hr; [done| |by apply J_start].
  intros a past s0 HJ. destruct (read_step _ _ _ _ _ a s0) as [|e|evs' s'] eqn:Ha; [done| |by eapply J_step].
  destruct HJ as (past' & R & _). assert (Hgood := rinv_step _ _ _ _ Hok a past' s0 R). by rewrite Ha in Hgood.
Qed.

(** C14: the reading of a file with a known end takes one number more than the
    file has pages and never writes it, so nothing can be read through the
    same page buffer afterwards: whatever threads do to it from then on, no
    page with a later number is ever finished or delivered. *)
Theorem second_log_blocks disk start_lpn end_lpn logfile_seq (reader_num : nat) acts evs s later evs' pages :
  closed_log disk start_lpn end_lpn logfile_seq ->
  run (read_step disk start_lpn end_lpn logfile_seq 0) acts (start_reading reader_num new_LogPageBuffer) = Step evs s ->
  pc s = Returned_ -> run step later (page_buffer_ s) = Step evs' pages ->
  forall q data, (q, data) ∈ finished (evs ++ evs') \/ (q, data) ∈ delivered (evs ++ evs') -> q < end_lpn - start_lpn + 1.
Proof.
  intros L Hr Hret Hlater.
  assert (Hu : closed_last start_lpn end_lpn ∈ unused evs).
  { apply (closed_returned disk _ _ logfile_seq L evs s); [|done]. eapply read_rinv; [|exact Hr]. by apply closed_ok. }
  destruct (read_run_buffer _ _ _ _ _ _ _ _ Hr) as [l Hl].
  assert (Hrun : run step (l ++ later) new_LogPageBuffer = Step (evs ++ evs') pages) by (rewrite run_app; cbn [start_reading page_buffer_] in Hl; by rewrite Hl, Hlater).
  apply (run_unused_blocks (l ++ later) _ _ _ Hrun). rewrite unused_app. apply elem_of_app. by left.
Qed.

(** [RecoveryServer] gets to its end only with a single log file: with none
    it reads past [logs_], and with more the second pass over [read_threads]
    joins the first thread again, whose exception ends the process after two
    files. *)
Theorem recovery_server_single (logs_ : list phase) :
  Forall (fun l : phase => 0 < l.1.1 /\ 0 < l.1.2) logs_ ->
  RecoveryServer logs_ =
    match logs_ with
    | [] => ([], Crash BadPointer)
    | [(start, _, seq)] => ([(start, 0, seq)], Ok true)
    | [l; (start, _, seq)] => ([l; (start, 0, seq)], Ok false)
    | l1 :: l2 :: _ => ([l1; l2], Ok false)
    end.
Proof.
  intros Hl. destruct logs_ as [|[[s1 e1] q1] [|[[s2 e2] q2] [|l3 logs]]]; [done|..];
    repeat match goal with H : Forall _ (_ :: _) |- _ => apply Forall_cons in H as [[? ?] ?] end; cbn in *;
    unfold RecoveryServer; cbn [removelast last read_files app]; rewrite ?(proj2 (Z.ltb_lt 0 _)) by done; done.
Qed.

(** ** A device with a log of two pages, and one with a logged batch *)
Definition sample_disk (lpn : Z) : list Z := EncodeFixed32 kLittleEndian (if lpn <? 3 then 7 else 9) ++ zeros (PAGESIZE - 4).

Lemma sample_header lpn : load32 (sample_disk lpn) 0 = Ok (if lpn <? 3 then 7 else 9).
Proof. unfold sample_disk. by destruct (lpn <? 3). Qed.

Lemma sample_closed : closed_log sample_disk 1 2 7.
Proof. split; [lia..|]. intros lpn Hl. rewrite sample_header. by rewrite (proj2 (Z.ltb_lt _ _)) by lia. Qed.

Lemma sample_open : open_log sample_disk 1 7 2.
Proof.
  split; [lia|..].
  - intros lpn. rewrite sample_header. eauto.
  - intros lpn Hl. rewrite sample_header. by rewrite (proj2 (Z.ltb_lt _ _)) by lia.
  - rewrite sample_header. done.
Qed.

(** The second request is answered before the first. *)
Definition sample_reading : list action := replicate 9 (Thread false) ++ replicate 15 (Thread true).

Example sample_closed_run :
  match run (read_step sample_disk 1 2 7 0) sample_reading (start_reading 3 new_LogPageBuffer) with
  | Step evs s => pc s = Returned_ /\ (finished evs).*1 = [0; 1] /\ unused evs = [2]
  | _ => False
  end.
Proof. vm_compute. repeat split. Qed.

Lemma read_closed_log_witness :
  match run (read_step sample_disk 1 2 7 0) sample_reading (start_reading 3 new_LogPageBuffer) with
  | Disabled => True
  | Fault _ => False
  | Step evs s =>
      let file := (fun k => (k, Some (sample_disk (1 + k)))) <$> seqZ 0 (2 - 1 + 1) in
      finished evs `prefix_of` file /\ delivered evs `prefix_of` finished evs /\ (pc s = Returned_ -> finished evs = file)
  end.
Proof. apply (read_closed_log sample_disk 1 2 7 3 sample_reading sample_closed). Defined.

Lemma read_open_log_witness :
  match run (read_step sample_disk 1 0 7 0) sample_reading (start_reading 3 new_LogPageBuffer) with
  | Disabled => True
  | Fault _ => False
  | Step evs s =>
      let file := open_file sample_disk 1 2 in
      (finished evs `prefix_of` file \/ file `prefix_of` finished evs) /\ delivered evs `prefix_of` finished evs /\
      (pc s = Returned_ -> file `prefix_of` finished evs)
  end.
Proof. apply (read_open_log sample_disk 1 7 2 3 sample_reading sample_open). Defined.

Lemma reading_can_end_witness :
  match run (read_step sample_disk 1 2 7 0) (replicate 9 (Thread false)) (start_reading 3 new_LogPageBuffer) with
  | Step evs s => can_reach (read_step sample_disk 1 2 7 0) (fun s' => pc s' = Returned_) s
  | _ => False
  end.
Proof.
  destruct (run (read_step sample_disk 1 2 7 0) (replicate 9 (Thread false)) (start_reading 3 new_LogPageBuffer)) as [|e|evs s] eqn:Hr;
    [vm_compute in Hr; discriminate Hr..|].
  apply (reading_can_end sample_disk 1 2 7 2 3 (replicate 9 (Thread false)) evs s); [left; exact sample_closed | lia | exact Hr].
Defined.

(** A reader for the next log file tries, and waits for ever. *)
Definition sample_later : list (PageBuffer.action (list Z)) :=
  [GetWriteSeq 0; Writer 0; Write 0 (Some (zeros PAGESIZE)); FinishWrite 0; FinishWrite 0; Read 0; Reader 0].

Lemma second_log_blocks_witness :
  match run (read_step sample_disk 1 2 7 0) sample_reading (start_reading 3 new_LogPageBuffer) with
  | Step evs s =>
      match run step sample_later (page_buffer_ s) with
      | Step evs' pages => forall q data, (q, data) ∈ finished (evs ++ evs') \/ (q, data) ∈ delivered (evs ++ evs') -> q < 2 - 1 + 1
      | _ => False
      end
  | _ => False
  end.
Proof.
  destruct (run (read_step sample_disk 1 2 7 0) sample_reading (start_reading 3 new_LogPageBuffer)) as [|e|evs s] eqn:Hr;
    [vm_compute in Hr; discriminate Hr..|].
  destruct (run step sample_later (page_buffer_ s)) as [|e|evs' pages] eqn:Hl.
  1,2: vm_compute in Hr; injection Hr as _ <-; vm_compute in Hl; discriminate Hl.
  apply (second_log_blocks sample_disk 1 2 7 3 sample_reading evs s sample_later evs' pages sample_closed Hr); [|exact Hl].
  vm_compute in Hr. injection Hr as _ <-. reflexivity.
Defined.

Lemma recovery_server_single_witness :
  Forall (fun l : phase => 0 < l.1.1 /\ 0 < l.1.2) [(1, 2, 7); (3, 5, 8)] /\
  RecoveryServer [(1, 2, 7); (3, 5, 8)] = ([(1, 2, 7); (3, 0, 8)], Ok false).
Proof.
  assert (H : Forall (fun l : phase => 0 < l.1.1 /\ 0 < l.1.2) [(1, 2, 7); (3, 5, 8)]) by (repeat constructor; cbn; lia).
  split; [exact H|]. exact (recovery_server_single _ H).
Defined.

Definition sample_batches : list (Z * list (list Z)) := [(7, [[1; 2; 3]; [4]])].
Definition sample_log : list Z := match write_batches sample_batches with Ok log => log | Crash _ => [] end.
Definition logged_disk (lpn : Z) : list Z := if lpn =? 1 then sample_log else zeros PAGESIZE.
Definition sample_recovery : list action :=
  replicate 9 (Thread false) ++ replicate 10 (Thread true) ++
  [Read_ 0; Reader_ 0; Reader_ 0; Reader_ 0; Reader_ 0; Read_ 0; Reader_ 0; Reader_ 0; Reader_ 0; Reader_ 0].

Lemma recovery_roundtrip_witness :
  match run (read_step logged_disk 1 0 7 0) sample_recovery (start_reading 2 new_LogPageBuffer) with
  | Step evs s => exists es, ProcessData (pages_read (delivered evs).*2) = Ok es /\ data_ <$> es = [[1; 2; 3]; [4]] /\
      Forall (fun e => log_tag_seq e = 7) es
  | _ => False
  end.
Proof.
  destruct (run (read_step logged_disk 1 0 7 0) sample_recovery (start_reading 2 new_LogPageBuffer)) as [|e|evs s] eqn:Hr;
    [vm_compute in Hr; discriminate Hr..|].
  assert (Hq : (1, None) ∈ delivered evs).
  { assert (Hr' := Hr). vm_compute in Hr'. injection Hr' as <- _. cbn. right. left. }
  apply (recovery_roundtrip logged_disk 1 7 sample_batches sample_log 2 sample_recovery evs s 1);
    [| |reflexivity|lia|vm_compute; reflexivity| | |vm_compute; discriminate|exact Hr|exact Hq].
  - repeat constructor; vm_compute; discriminate.
  - repeat constructor.
  - intros lpn. unfold logged_disk. destruct (lpn =? 1); vm_compute; reflexivity.
  - intros k pg Hk. assert (Hlen := lookup_lt_Some _ _ _ Hk). change (length (to_pages sample_log)) with 1%nat in Hlen.
    destruct k as [|k]; [|lia]. revert Hk. vm_compute. by intros [= <-].
Defined.
