(* ===== verification/SPDKPipeline.v ===== *)
(** * The writes in flight ([ssdlogging/spdk_logging_server.cc], [Server])

    Clients push requests on a lock-free stack ([AddLog]).  Each server thread
    has [pipeline_num] slots: into a free one it takes the whole stack, lays the
    batch out in the buffer of the slot, claims pages of the device with a
    fetch-and-add on [current_offset], submits the write, and goes on; a slot
    whose write has completed hands its requests to the completion queue.

    The machine takes one action per access to something threads share; [MemCopy],
    which works on requests and a buffer that are the server's own, reads
    [logfile_seq_] in one.  What [AddLog] and [CreateWAL] do to the list of log
    files is in [LogServer].  The device reads a buffer when it executes the command, at any time after the
    submission and in any order ([Device]).  Requests are on the [heap] from
    [AddLog] to the [delete] of the thread that takes them from the completion
    queue; an access to one that is gone is a [UseAfterFree].  The completion
    queue is a class of another repository: [handed] is the requests given to it
    and not yet taken out, in whatever order it does that.  A command that fails
    ends the process and is left out; so are the times, but for the choice
    whether a server has been idle for 30 seconds, when it ends. *)

From S2P Require Import Prelude Util LogFormat LogServer Machine.
Local Open Scope Z_scope.

(** [LoggingRequest]; its number among the calls is only for the statement of
    what happens to its data. *)
Record LoggingRequest := { data_ : list Z; prev : option nat; call : nat }.
Definition with_prev p r := {| data_ := data_ r; prev := p; call := call r |}.

(** [leaders[i]] and [completion_flag[i]]. *)
Record slot := { leader : option nat; completion_flag : bool }.

(** What was submitted to a queue pair: where it is to be written; [completed]
    once the device has executed it. *)
Record command := { lsn : Z; sector_num : Z; completed : bool }.

(** Where a server thread is. *)
Inductive server_at :=
  | V_top                                (* the loop, up to the choice of a slot *)
  | V_exchange (i : nat)
  | V_copy (i : nat)                     (* MemCopy *)
  | V_offset (i : nat) (size : Z)        (* SPDKWrite: the fetch-and-add *)
  | V_wrap (i : nat) (size lpn : Z)      (* current_offset > MAX_LPN_FOR_LOGGING *)
  | V_reset (i : nat) (size lpn : Z)     (* current_offset = LOGGING_START_LPN *)
  | V_submit (i : nat) (size lpn : Z)
  | V_poll (i : nat)                     (* 3. check completion *)
  | V_release (i : nat) (head : option nat)
  | V_idle
  | V_done.
Record server := { at_ : server_at; slots : list slot }.
Definition goes (p : server_at) sv := {| at_ := p; slots := slots sv |}.
Definition set_slot (i : nat) (x : slot) sv := {| at_ := at_ sv; slots := <[i := x]> (slots sv) |}.

Record pipeline := {
  submission_queue : option nat; current_offset : Z; logfile_seq_ : Z; stop_ : bool;
  heap : gmap nat LoggingRequest; buffer : gmap nat (list Z); qpairs : gmap nat (list command); disk : gmap Z (list Z);
  handed : gset nat; clients : gmap nat (nat * option nat); servers : list server; calls : nat
}.

Inductive event :=
  | Called (n : nat) (d : list Z)
  | Taken (lpn page_num : Z)   (* pages of the device, for a batch *)
  | Completed (n : nat)
  | Returned (n : nat).

#[global] Instance event_eq_dec : EqDecision event.
Proof. solve_decision. Defined.

Inductive action :=
  | AddLog (t a : nat) (d : list Z)   (* thread [t] calls it; its request is at [a] *)
  | Client (t : nat) (choice : bool)
  | Server (serverid : nat) (choice : bool)
  | Device (q j : nat)                (* executes command [j] of a queue pair *)
  | GetCompletedRequest (a : nat)
  | CreateWAL (seq : Z)               (* its store to [logfile_seq_] *)
  | Stop.

Definition set_submission x s := {| submission_queue := x; current_offset := current_offset s; logfile_seq_ := logfile_seq_ s; stop_ := stop_ s;
  heap := heap s; buffer := buffer s; qpairs := qpairs s; disk := disk s; handed := handed s; clients := clients s; servers := servers s; calls := calls s |}.
Definition set_offset x s := {| submission_queue := submission_queue s; current_offset := x; logfile_seq_ := logfile_seq_ s; stop_ := stop_ s;
  heap := heap s; buffer := buffer s; qpairs := qpairs s; disk := disk s; handed := handed s; clients := clients s; servers := servers s; calls := calls s |}.
Definition set_seq x s := {| submission_queue := submission_queue s; current_offset := current_offset s; logfile_seq_ := x; stop_ := stop_ s;
  heap := heap s; buffer := buffer s; qpairs := qpairs s; disk := disk s; handed := handed s; clients := clients s; servers := servers s; calls := calls s |}.
Definition set_stop x s := {| submission_queue := submission_queue s; current_offset := current_offset s; logfile_seq_ := logfile_seq_ s; stop_ := x;
  heap := heap s; buffer := buffer s; qpairs := qpairs s; disk := disk s; handed := handed s; clients := clients s; servers := servers s; calls := calls s |}.
Definition set_heap x s := {| submission_queue := submission_queue s; current_offset := current_offset s; logfile_seq_ := logfile_seq_ s; stop_ := stop_ s;
  heap := x; buffer := buffer s; qpairs := qpairs s; disk := disk s; handed := handed s; clients := clients s; servers := servers s; calls := calls s |}.
Definition set_buffer x s := {| submission_queue := submission_queue s; current_offset := current_offset s; logfile_seq_ := logfile_seq_ s; stop_ := stop_ s;
  heap := heap s; buffer := x; qpairs := qpairs s; disk := disk s; handed := handed s; clients := clients s; servers := servers s; calls := calls s |}.
Definition set_qpairs x s := {| submission_queue := submission_queue s; current_offset := current_offset s; logfile_seq_ := logfile_seq_ s; stop_ := stop_ s;
  heap := heap s; buffer := buffer s; qpairs := x; disk := disk s; handed := handed s; clients := clients s; servers := servers s; calls := calls s |}.
Definition set_disk x s := {| submission_queue := submission_queue s; current_offset := current_offset s; logfile_seq_ := logfile_seq_ s; stop_ := stop_ s;
  heap := heap s; buffer := buffer s; qpairs := qpairs s; disk := x; handed := handed s; clients := clients s; servers := servers s; calls := calls s |}.
Definition set_handed x s := {| submission_queue := submission_queue s; current_offset := current_offset s; logfile_seq_ := logfile_seq_ s; stop_ := stop_ s;
  heap := heap s; buffer := buffer s; qpairs := qpairs s; disk := disk s; handed := x; clients := clients s; servers := servers s; calls := calls s |}.
Definition set_clients x s := {| submission_queue := submission_queue s; current_offset := current_offset s; logfile_seq_ := logfile_seq_ s; stop_ := stop_ s;
  heap := heap s; buffer := buffer s; qpairs := qpairs s; disk := disk s; handed := handed s; clients := x; servers := servers s; calls := calls s |}.
Definition set_servers x s := {| submission_queue := submission_queue s; current_offset := current_offset s; logfile_seq_ := logfile_seq_ s; stop_ := stop_ s;
  heap := heap s; buffer := buffer s; qpairs := qpairs s; disk := disk s; handed := handed s; clients := clients s; servers := x; calls := calls s |}.
Definition set_calls x s := {| submission_queue := submission_queue s; current_offset := current_offset s; logfile_seq_ := logfile_seq_ s; stop_ := stop_ s;
  heap := heap s; buffer := buffer s; qpairs := qpairs s; disk := disk s; handed := handed s; clients := clients s; servers := servers s; calls := x |}.

(** The server threads as they start, and the rest after the constructor. The
    lines of the constructor that start them are commented out, and nothing else
    of the repository starts them: [new_pipeline] has the threads that those
    lines would start, [server_num] of them with [logs_num_/server_num] slots
    each. *)
Definition new_server (pipeline_num : nat) : server :=
  {| at_ := V_top; slots := replicate pipeline_num {| leader := None; completion_flag := true |} |}.
Definition new_pipeline (start : Z) (server_num pipeline_num : nat) : pipeline := {|
  submission_queue := None; current_offset := start; logfile_seq_ := 0; stop_ := false;
  heap := ∅; buffer := ∅; qpairs := ∅; disk := ∅; handed := ∅; clients := ∅;
  servers := replicate server_num (new_server pipeline_num); calls := 0 |}.

Notation out := (outcome event pipeline).
Definition access (a : nat) (s : pipeline) (k : LoggingRequest -> out) : out :=
  match heap s !! a with Some r => k r | None => Fault UseAfterFree end.
Definition store (a : nat) (r : LoggingRequest) (s : pipeline) : pipeline := set_heap (<[a := r]> (heap s)) s.
Definition check (b : bool) (k : out) : out := if b then k else Fault AssertFail.

(** *** The clients *)
Definition AddLog_call (t a : nat) (d : list Z) (s : pipeline) : out :=
  match clients s !! t, heap s !! a with
  | None, None =>
      Step [Called (calls s) d] (set_clients (<[t := (a, submission_queue s)]> (clients s))
        (store a {| data_ := d; prev := None; call := calls s |} (set_calls (S (calls s)) s)))
  | _, _ => Disabled
  end.

(** The loop: [req->prev = newest_req], then the exchange, which may fail. *)
Definition AddLog_push (t : nat) (choice : bool) (s : pipeline) : out :=
  match clients s !! t with
  | None => Disabled
  | Some (req, newest_req) =>
      access req s (fun r =>
        let s := store req (with_prev newest_req r) s in
        if decide (submission_queue s = newest_req) then
          if choice then Step [] (set_submission (Some req) (set_clients (delete t (clients s)) s)) else Step [] s
        else Step [] (set_clients (<[t := (req, submission_queue s)]> (clients s)) s))
  end.

(** *** The device *)
Section device.
Context (sector_size : Z).

(** A range of bytes in sectors. *)
Definition sectors (bs : list Z) : list (list Z) := reshape (replicate (Z.to_nat (len bs / sector_size)) (Z.to_nat sector_size)) bs.

Definition Device_step (q j : nat) (s : pipeline) : out :=
  match qpairs s !! q with
  | None => Disabled
  | Some cs =>
      match cs !! j with
      | Some c =>
          if completed c then Disabled else
          let bs := takeZ (sector_num c * sector_size) (default [] (buffer s !! q)) in
          let c' := {| lsn := lsn c; sector_num := sector_num c; completed := true |} in
          Step [] (set_qpairs (<[q := <[j := c']> cs]> (qpairs s)) (set_disk (map_seqZ (lsn c) (sectors bs) ∪ disk s) s))
      | None => Disabled
      end
  end.

(** *** The servers *)
Context (pipeline_num : nat).

(** [log_num + serverid * pipeline_num] *)
Definition queue_id (serverid i : nat) : nat := i + serverid * pipeline_num.
Definition queue (q : nat) (s : pipeline) : list command := default [] (qpairs s !! q).

(** 1.: the first slot without a leader. *)
Definition select_leader (l : list slot) : option nat := fst <$> list_find (fun x => leader x = None) l.

(** The data of the requests linked from [head] on. *)
Fixpoint batch (fuel : nat) (h : gmap nat LoggingRequest) (head : option nat) : res (list (list Z)) :=
  match head with
  | None => Ok []
  | Some a =>
      match fuel with
      | O => Crash OutOfFuel
      | S fuel =>
          match h !! a with
          | None => Crash UseAfterFree
          | Some r => ds ← batch fuel h (prev r); Ok (data_ r :: ds)
          end
      end
  end.

Definition at_server (sid : nat) (sv : server) (s : pipeline) : pipeline := set_servers (<[sid := sv]> (servers s)) s.

Definition top (sid : nat) (sv : server) (s : pipeline) : out :=
  if stop_ s then Step [] (at_server sid (goes V_done sv) s)
  else Step [] (at_server sid (goes (match select_leader (slots sv) with Some i => V_exchange i | None => V_poll 0 end) sv) s).

Definition exchange (sid : nat) (sv : server) (i : nat) (s : pipeline) : out :=
  let s' := set_submission None s in
  match submission_queue s, slots sv !! i with
  | None, _ => Step [] (at_server sid (goes (V_poll 0) sv) s')
  | Some a, Some x => Step [] (at_server sid (goes (V_copy i) (set_slot i {| leader := Some a; completion_flag := completion_flag x |} sv)) s')
  | Some _, None => Fault OutOfRange
  end.

(** [MemCopy] into [buffer[queue_id]]. *)
Definition copy (sid : nat) (sv : server) (i : nat) (s : pipeline) : out :=
  match slots sv !! i with
  | None => Fault OutOfRange
  | Some x =>
      match ds ← batch (S (size (heap s))) (heap s) (leader x); MemCopy (logfile_seq_ s) ds with
      | Crash e => Fault e
      | Ok bs =>
          let q := queue_id sid i in
          let b := bs ++ dropZ (len bs) (default [] (buffer s !! q)) in
          Step [] (at_server sid (goes (V_offset i (len bs)) sv) (set_buffer (<[q := b]> (buffer s)) s))
      end
  end.

(** [SPDKWrite], up to the claim of the pages. *)
Definition claim (sid : nat) (sv : server) (i : nat) (size : Z) (s : pipeline) : out :=
  check (size mod PAGESIZE =? 0)
    (let page_num := size / PAGESIZE in
     Step [Taken (current_offset s) page_num]
       (at_server sid (goes (V_wrap i size (current_offset s)) sv) (set_offset (u64 (current_offset s + page_num)) s))).

Definition submit (sid : nat) (sv : server) (i : nat) (size lpn : Z) (s : pipeline) : out :=
  match slots sv !! i with
  | None => Fault OutOfRange
  | Some x =>
      let q := queue_id sid i in
      let c := {| lsn := u64 (lpn * (PAGESIZE / sector_size)); sector_num := size / sector_size; completed := false |} in
      check (0 <? sector_num c) (check (completion_flag x)
        (Step [] (at_server sid (goes (V_poll 0) (set_slot i {| leader := leader x; completion_flag := false |} sv))
          (set_qpairs (<[q := queue q s ++ [c]]> (qpairs s)) s))))
  end.

(** [spdk_nvme_qpair_process_completions] and the test of the flag. *)
Definition poll (sid : nat) (sv : server) (i : nat) (s : pipeline) : out :=
  match slots sv !! i with
  | None => Step [] (at_server sid (goes V_idle sv) s)  (* i = pipeline_num *)
  | Some x =>
      match leader x with
      | None => Step [] (at_server sid (goes (V_poll (S i)) sv) s)
      | Some head =>
          let q := queue_id sid i in
          let flag := completion_flag x || existsb completed (queue q s) in
          let s := set_qpairs (<[q := filter (fun c => completed c = false) (queue q s)]> (qpairs s)) s in
          if flag then Step [] (at_server sid (goes (V_release i (Some head)) (set_slot i {| leader := None; completion_flag := true |} sv)) s)
          else Step [] (at_server sid (goes (V_poll (S i)) sv) s)
      end
  end.

(** The loop over the batch; what is written into the completion queue is the
    consumer's from then on. *)
Definition release (sid : nat) (sv : server) (i : nat) (head : option nat) (s : pipeline) : out :=
  match head with
  | None => Step [] (at_server sid (goes (V_poll (S i)) sv) s)
  | Some a =>
      access a s (fun r =>
        Step [Completed (call r)] (at_server sid (goes (V_release i (prev r)) sv)
          (set_handed ({[a]} ∪ handed s) (store a (with_prev None r) s))))
  end.

Definition server_step (sid : nat) (choice : bool) (s : pipeline) : out :=
  match servers s !! sid with
  | None => Disabled
  | Some sv =>
      match at_ sv with
      | V_top => top sid sv s
      | V_exchange i => exchange sid sv i s
      | V_copy i => copy sid sv i s
      | V_offset i size => claim sid sv i size s
      | V_wrap i size lpn =>
          Step [] (at_server sid (goes (if MAX_LPN_FOR_LOGGING <? current_offset s then V_reset i size lpn else V_submit i size lpn) sv) s)
      | V_reset i size lpn => Step [] (at_server sid (goes (V_submit i size lpn) sv) (set_offset LOGGING_START_LPN s))
      | V_submit i size lpn => submit sid sv i size lpn s
      | V_poll i => poll sid sv i s
      | V_release i head => release sid sv i head s
      | V_idle => Step [] (at_server sid (goes (if choice then V_done else V_top) sv) s)
      | V_done => Disabled
      end
  end.

(** [GetCompletedRequest], of a request the queue has: its [delete]. *)
Definition consume (a : nat) (s : pipeline) : out :=
  if decide (a ∈ handed s) then
    access a s (fun r => Step [Returned (call r)] (set_handed (handed s ∖ {[a]}) (set_heap (delete a (heap s)) s)))
  else Disabled.

Definition step (x : action) (s : pipeline) : out :=
  match x with
  | AddLog t a d => AddLog_call t a d s
  | Client t choice => AddLog_push t choice s
  | Server sid choice => server_step sid choice s
  | Device q j => Device_step q j s
  | GetCompletedRequest a => consume a s
  | CreateWAL seq => Step [] (set_seq (u32 seq) s)
  | Stop => Step [] (set_stop true s)
  end.
End device.
