(* ===== verification/SPDKPipelineInv.v ===== *)
(** * The invariant of the writes in flight

    Every request has a role: it is private to a client, on the stack, in the
    batch of a slot, with a server that hands it over, or handed over.  Every
    page of the device that was claimed belongs to the slot whose batch is on its
    way there, or to nobody once that batch is on the device.  [keeps] says what
    a step leaves alone; the state of a slot or a server that depends on that
    only is kept ([keeps_slot], [keeps_server]). *)

From S2P Require Import Prelude Util LogFormat LogRoundtrip LogServer Machine SPDKPipeline.
Local Open Scope Z_scope.

(** ** What [MemCopy] answers *)
Lemma copy_requests_result sq reqs w k s : 0 <= sq < 2 ^ 32 -> Filled w k s -> 1 <= k -> reqs <> [] \/ left_in_page w < PAGESIZE ->
  copy_requests sq reqs w = Crash AssertFail \/
  exists w' k' s', copy_requests sq reqs w = Ok w' /\ Filled w' k' s' /\ 1 <= k' /\ left_in_page w' < PAGESIZE.
Proof.
  intros Hs. revert w k s. induction reqs as [|d reqs IH]; intros w k s HF Hk Hl; cbn [copy_requests].
  - right. exists w, k, s. split_and!; [done..|]. by destruct Hl.
  - destruct (Z.ltb_spec (offset w + len d + 4) room) as [Hr|Hr].
    + destruct (copy_request_ok (fun _ => True) sq Hs I d w k s HF Hr) as (b1 & l1 & k1 & -> & Hl1 & Hk1 & _ & HF1 & _).
      cbn [mbind res_bind]. apply (IH _ _ _ HF1); [lia | by right].
    + left. unfold copy_request. fold room. by rewrite (proj2 (Z.ltb_ge _ _) Hr).
Qed.

Lemma MemCopy_result sq reqs : 0 <= sq < 2 ^ 32 -> reqs <> [] ->
  MemCopy sq reqs = Crash AssertFail \/ exists bs, MemCopy sq reqs = Ok bs /\ 0 < len bs <= MAX_BUFFER_SIZE /\ len bs mod PAGESIZE = 0.
Proof.
  intros Hs Hne. destruct (copy_requests_result sq reqs _ 1 0 Hs filled_start ltac:(done) (or_introl Hne)) as [Hc|(w & k & s & Hc & HF & Hk & Hl)];
    [left; by rewrite mem_copy_pad, Hc|]. right. destruct (pad_page_buf _ _ _ HF) as [Hb Hm].
  assert (Hok : MemCopy sq reqs = Ok (buf (pad_page w))) by (rewrite mem_copy_pad, Hc; cbn [mbind res_bind]; by rewrite Hm).
  eexists. split; [done|]. destruct (mem_copy_fits _ _ _ Hs Hok) as [H1 H2]. split; [|done]. split; [|done].
  rewrite Hb, len_app. destruct HF as [H3 H4 _ _]. unfold offset in H3. assert (H5 := len_nonneg (zeros (if left_in_page w <? PAGESIZE then left_in_page w else 0))).
  rewrite page_size in *. lia.
Qed.

(** ** Linked requests *)
Fixpoint chain (h : gmap nat LoggingRequest) (p : option nat) (l : list nat) : Prop :=
  match l with
  | [] => p = None
  | a :: l => p = Some a /\ exists r, h !! a = Some r /\ chain h (prev r) l
  end.
Definition datas (h : gmap nat LoggingRequest) (l : list nat) : list (list Z) := (fun a => default [] (data_ <$> h !! a)) <$> l.

Lemma chain_fun h p l l' : chain h p l -> chain h p l' -> l = l'.
Proof.
  revert p l'. induction l as [|a l IH]; intros p [|b l']; cbn [chain]; [done|by intros -> [? _]|by intros [-> _]|].
  intros (-> & r & Hr & Hl) ([= <-] & r' & Hr' & Hl'). simplify_eq. f_equal. by eapply IH.
Qed.

Lemma chain_none h p l : chain h p l -> p = None <-> l = [].
Proof. destruct l; cbn; [by intros ->|]. by intros [-> _]. Qed.

Lemma chain_ext h h' p l : (forall a, a ∈ l -> h' !! a = h !! a) -> chain h p l -> chain h' p l /\ datas h' l = datas h l.
Proof.
  revert p. induction l as [|a l IH]; intros p He; cbn [chain]; [done|]. intros (-> & r & Hr & Hl).
  destruct (IH (prev r)) as [H1 H2]; [intros b Hb; apply He; by right | done|]. assert (Ha : h' !! a = h !! a) by (apply He; left).
  split; [|unfold datas in *; cbn; rewrite Ha; by f_equal]. split; [done|]. exists r. by rewrite Ha.
Qed.

Lemma chain_elem h p l a : chain h p l -> a ∈ l -> is_Some (h !! a).
Proof.
  revert p. induction l as [|b l IH]; intros p; cbn [chain]; [by intros _ ?%elem_of_nil|]. intros (_ & r & Hr & Hl) [->|Ha]%elem_of_cons; eauto.
Qed.

Lemma chain_batch h p l fuel : chain h p l -> (length l < fuel)%nat -> batch fuel h p = Ok (datas h l).
Proof.
  revert p fuel. induction l as [|a l IH]; intros p [|fuel]; cbn [chain length]; [lia|by intros ->|lia|].
  intros (-> & r & Hr & Hl) Hf. cbn [batch]. rewrite Hr, (IH (prev r)) by (done || lia). unfold datas. cbn. by rewrite Hr.
Qed.

Lemma nodup_size h l : NoDup l -> (forall a, a ∈ l -> is_Some (h !! a)) -> (length l <= size (h : gmap nat LoggingRequest))%nat.
Proof.
  intros Hn He. rewrite <- size_dom, <- (size_list_to_set (C:=gset nat) l) by done. apply subseteq_size.
  intros a Ha%elem_of_list_to_set. by apply elem_of_dom, He.
Qed.

(** ** Roles and owners *)
Inductive role := R_client (t : nat) | R_queue | R_slot (sid i : nat) | R_release (sid : nat) | R_handed.
#[global] Instance role_eq_dec : EqDecision role.
Proof. solve_decision. Defined.

Record ghost := { roles : gmap nat role; own : Z -> option (nat * nat) }.
Implicit Types (past evs : list event) (s : pipeline) (g : ghost).

(** No batch was given pages beyond the end of the log area. *)
Definition roomy past : Prop := forall lpn n, Taken lpn n ∈ past -> lpn + n <= MAX_LPN_FOR_LOGGING.

Lemma roomy_app past evs : roomy (past ++ evs) -> roomy past.
Proof. intros H lpn n Hin. apply H, elem_of_app. by left. Qed.
Lemma roomy_snoc past e : (forall lpn n, e <> Taken lpn n) -> roomy past -> roomy (past ++ [e]).
Proof. intros He H lpn n [Hin|Hin%list_elem_of_singleton]%elem_of_app; [by apply H | by destruct (He lpn n)]. Qed.

Definition linked (h : gmap nat LoggingRequest) g (ρ : role) (p : option nat) (l : list nat) : Prop :=
  chain h p l /\ NoDup l /\ forall a, a ∈ l -> roles g !! a = Some ρ.

Definition completions past : list nat := omap (fun e => match e with Completed n => Some n | _ => None end) past.
Lemma completions_app p e : completions (p ++ e) = completions p ++ completions e.
Proof. apply omap_app. Qed.
Lemma completed_elem n past : n ∈ completions past <-> Completed n ∈ past.
Proof.
  unfold completions. rewrite list_elem_of_omap. split; [|intros; by exists (Completed n)]. intros ([] & Hin & Heq); by simplify_eq.
Qed.

(** The slot a server works on. *)
Definition busy (p : server_at) : option nat :=
  match p with V_copy i | V_offset i _ | V_wrap i _ _ | V_reset i _ _ | V_submit i _ _ => Some i | _ => None end.

Section invariant.
Context (sector_size : Z) (pipeline_num : nat).

(** Sectors of a page. *)
Notation K := (PAGESIZE / sector_size).
Notation queue_id := (queue_id pipeline_num).

(** The bytes [bs] are on the device from page [lpn] on. *)
Definition on_disk s (lpn : Z) (bs : list Z) : Prop :=
  forall j c, sectors sector_size bs !! j = Some c -> disk s !! (lpn * K + Z.of_nat j) = Some c.

(** The buffer of queue [q] has the batch [l], in [size] bytes. *)
Definition layout s (q : nat) (l : list nat) (size : Z) : Prop :=
  exists sq bs, MemCopy sq (datas (heap s) l) = Ok bs /\ size = len bs /\ 0 < size <= MAX_BUFFER_SIZE /\ size mod PAGESIZE = 0 /\
    takeZ size (default [] (buffer s !! q)) = bs.

Definition owns s g (k : nat * nat) (lpn n : Z) : Prop :=
  LOGGING_START_LPN <= lpn /\ lpn + n <= current_offset s /\ forall p, lpn <= p < lpn + n -> own g p = Some k.

(** The data [d] is on the device, in pages that are in nobody's way. *)
Definition stored s g (d : list Z) : Prop :=
  exists lpn sq ds bs, MemCopy sq ds = Ok bs /\ d ∈ ds /\ len bs mod PAGESIZE = 0 /\ on_disk s lpn bs /\
    LOGGING_START_LPN <= lpn /\ lpn + len bs / PAGESIZE <= current_offset s /\ forall p, lpn <= p < lpn + len bs / PAGESIZE -> own g p = None.

Definition in_flight past s g (sid i : nat) (l : list nat) : Prop :=
  exists lpn size b, layout s (queue_id sid i) l size /\
    queue (queue_id sid i) s = [{| lsn := u64 (lpn * K); sector_num := size / sector_size; completed := b |}] /\
    (roomy past -> owns s g (sid, i) lpn (size / PAGESIZE) /\
       (b = true -> on_disk s lpn (takeZ size (default [] (buffer s !! queue_id sid i))))).

Definition slot_ok past s g (sid : nat) (p : server_at) (i : nat) (x : slot) : Prop :=
  exists l, linked (heap s) g (R_slot sid i) (leader x) l /\
    (leader x = None \/ busy p = Some i -> completion_flag x = true /\ queue (queue_id sid i) s = []) /\
    (leader x <> None -> busy p <> Some i -> completion_flag x = false /\ in_flight past s g sid i l).

(** The slot [i] holds a batch that is laid out. *)
Definition laid_out s g (sid : nat) sv (i : nat) (size : Z) : Prop :=
  exists x l, slots sv !! i = Some x /\ leader x <> None /\ linked (heap s) g (R_slot sid i) (leader x) l /\ layout s (queue_id sid i) l size.

Definition pc_ok past s g (sid : nat) sv : Prop :=
  match at_ sv with
  | V_exchange i => exists x, slots sv !! i = Some x /\ leader x = None
  | V_copy i => exists x, slots sv !! i = Some x /\ leader x <> None
  | V_offset i size => laid_out s g sid sv i size
  | V_wrap i size lpn | V_submit i size lpn => laid_out s g sid sv i size /\ (roomy past -> owns s g (sid, i) lpn (size / PAGESIZE))
  | V_reset i size lpn => laid_out s g sid sv i size /\ (roomy past -> False)
  | V_release i head => exists l, linked (heap s) g (R_release sid) head l /\
      forall a r, a ∈ l -> heap s !! a = Some r -> roomy past -> stored s g (data_ r)
  | _ => True
  end.

Definition server_ok past s g (sid : nat) sv : Prop :=
  length (slots sv) = pipeline_num /\ (forall i x, slots sv !! i = Some x -> slot_ok past s g sid (at_ sv) i x) /\ pc_ok past s g sid sv.

Record Inv past s g : Prop := {
  inv_seq : 0 <= logfile_seq_ s < 2 ^ 32;
  inv_dom : forall a, is_Some (heap s !! a) <-> is_Some (roles g !! a);
  inv_queue : exists l, linked (heap s) g R_queue (submission_queue s) l;
  inv_clients : forall t a p, clients s !! t = Some (a, p) -> roles g !! a = Some (R_client t);
  inv_servers : forall sid sv, servers s !! sid = Some sv -> server_ok past s g sid sv;
  inv_handed : forall a, a ∈ handed s -> roles g !! a = Some R_handed;
  inv_qpairs : forall q, queue q s <> [] -> exists sid sv i x, servers s !! sid = Some sv /\ slots sv !! i = Some x /\ q = queue_id sid i;
  inv_calls : forall a r, heap s !! a = Some r -> (call r < calls s)%nat /\ Called (call r) (data_ r) ∈ past;
  inv_inj : forall a a' r r', heap s !! a = Some r -> heap s !! a' = Some r' -> call r = call r' -> a = a';
  inv_completed : forall n, Completed n ∈ past -> (n < calls s)%nat /\
    (forall a r, heap s !! a = Some r -> call r = n -> roles g !! a = Some R_handed) /\
    exists d, Called n d ∈ past /\ (roomy past -> stored s g d);
  inv_once : NoDup (completions past);
  inv_offset : roomy past -> LOGGING_START_LPN <= current_offset s <= MAX_LPN_FOR_LOGGING /\ forall p, current_offset s <= p -> own g p = None
}.

(** ** What a step leaves alone *)
Record keeps (Rs : role -> Prop) past s g past' s' g' : Prop := {
  k_room : roomy past' -> roomy past;
  k_cell : forall a ρ, Rs ρ -> roles g !! a = Some ρ -> roles g' !! a = Some ρ /\ heap s' !! a = heap s !! a;
  k_slot : forall sid i, Rs (R_slot sid i) -> (i < pipeline_num)%nat ->
    buffer s' !! queue_id sid i = buffer s !! queue_id sid i /\ queue (queue_id sid i) s' = queue (queue_id sid i) s;
  k_own : roomy past' -> forall sid i p, Rs (R_slot sid i) -> own g p = Some (sid, i) -> own g' p = Some (sid, i);
  k_free : roomy past' -> forall p, p < current_offset s -> own g p = None -> own g' p = None;
  k_offset : roomy past' -> current_offset s <= current_offset s';
  k_disk : roomy past' -> forall p x, LOGGING_START_LPN <= p < current_offset s ->
    own g p = None \/ (exists sid i, Rs (R_slot sid i) /\ own g p = Some (sid, i)) -> p * K <= x < (p + 1) * K -> disk s' !! x = disk s !! x
}.

Context (Hsec : 0 < sector_size) (Hdiv : (sector_size | PAGESIZE)).

Lemma sector_page : K * sector_size = PAGESIZE /\ 0 < K <= PAGESIZE.
Proof.
  destruct Hdiv as [m Hm]. rewrite Hm, Z.div_mul by lia. split; [done|]. rewrite page_size in Hm. nia.
Qed.

Lemma sectors_length bs : 0 <= len bs -> length (sectors sector_size bs) = Z.to_nat (len bs / sector_size).
Proof. intros _. unfold sectors. by rewrite length_reshape, length_replicate. Qed.

(** A sector of pages is in one of them. *)
Lemma sector_of_page lpn n j : 0 <= j < n * K -> exists p, lpn <= p < lpn + n /\ p * K <= lpn * K + j < (p + 1) * K.
Proof.
  intros Hj. destruct sector_page as [_ HK]. exists (lpn + j / K). assert (H := Z.div_mod j K ltac:(lia)).
  assert (0 <= j mod K < K) by (apply Z.mod_pos_bound; lia). assert (0 <= j / K) by (apply Z.div_pos; lia).
  assert (j / K < n) by (apply Z.div_lt_upper_bound; lia). split; [lia|]. nia.
Qed.

Lemma pages_sectors size : 0 <= size -> size mod PAGESIZE = 0 -> size / sector_size = size / PAGESIZE * K.
Proof.
  intros H0 Hm. destruct sector_page as [HK HK0]. assert (Hs := Z.div_mod size PAGESIZE ltac:(done)). rewrite Hm, Z.add_0_r in Hs.
  rewrite Hs at 1. rewrite <- HK at 1. replace (K * sector_size * (size / PAGESIZE)) with (size / PAGESIZE * K * sector_size) by lia. by rewrite Z.div_mul by lia.
Qed.

Lemma on_disk_ext s s' lpn bs : len bs mod PAGESIZE = 0 ->
  (forall p x, lpn <= p < lpn + len bs / PAGESIZE -> p * K <= x < (p + 1) * K -> disk s' !! x = disk s !! x) ->
  on_disk s lpn bs -> on_disk s' lpn bs.
Proof.
  intros Hm He Hd j c Hj. rewrite <- (Hd j c Hj). assert (Hl := lookup_lt_Some _ _ _ Hj). rewrite sectors_length in Hl by apply len_nonneg.
  rewrite (pages_sectors (len bs)) in Hl by (apply len_nonneg || done).
  destruct (sector_of_page lpn (len bs / PAGESIZE) (Z.of_nat j)) as (p & Hp & Hx); [lia|]. by apply (He p).
Qed.

(** ** What depends on what is kept is kept *)
Section keeps.
Context {Rs : role -> Prop} {past s g past' s' g'} (HK : keeps Rs past s g past' s' g').

Lemma keeps_linked ρ p l : Rs ρ -> linked (heap s) g ρ p l -> linked (heap s') g' ρ p l /\ datas (heap s') l = datas (heap s) l.
Proof.
  intros Hρ (Hc & Hn & Hr). destruct (chain_ext (heap s) (heap s') p l) as [Hc' Hd]; [|done|].
  - intros a Ha. by apply (k_cell _ _ _ _ _ _ _ HK a ρ Hρ), Hr.
  - split; [|done]. split_and!; [done..|]. intros a Ha. by apply (k_cell _ _ _ _ _ _ _ HK a ρ Hρ), Hr.
Qed.

Lemma keeps_stored d : roomy past' -> stored s g d -> stored s' g' d.
Proof.
  intros Hr (lpn & sq & ds & bs & Hm & Hd & Hp & Ho & H1 & H2 & Hown). assert (Hoff := k_offset _ _ _ _ _ _ _ HK Hr).
  exists lpn, sq, ds, bs. split_and!; [done|done|done| |done|lia|].
  - eapply on_disk_ext; [done| |exact Ho]. intros p x Hpp Hx. eapply (k_disk _ _ _ _ _ _ _ HK Hr p x); [lia | left; by apply Hown | done].
  - intros p Hpp. apply (k_free _ _ _ _ _ _ _ HK Hr); [lia | by apply Hown].
Qed.

Lemma keeps_owns sid i lpn n : roomy past' -> Rs (R_slot sid i) -> owns s g (sid, i) lpn n -> owns s' g' (sid, i) lpn n.
Proof.
  intros Hr HR (H1 & H2 & Ho). assert (Hoff := k_offset _ _ _ _ _ _ _ HK Hr). split_and!; [done|lia|]. intros p Hp.
  apply (k_own _ _ _ _ _ _ _ HK Hr _ _ _ HR). by apply Ho.
Qed.

Lemma keeps_layout sid i l p size : Rs (R_slot sid i) -> (i < pipeline_num)%nat -> linked (heap s) g (R_slot sid i) p l ->
  layout s (queue_id sid i) l size -> layout s' (queue_id sid i) l size.
Proof.
  intros HR Hi Hl (sq & bs & Hm & H1 & H2 & H3 & H4). destruct (keeps_linked _ _ _ HR Hl) as [_ Hd]. exists sq, bs. rewrite Hd.
  destruct (k_slot _ _ _ _ _ _ _ HK sid i HR Hi) as [-> _]. done.
Qed.

Lemma keeps_in_flight sid i l p : Rs (R_slot sid i) -> (i < pipeline_num)%nat -> linked (heap s) g (R_slot sid i) p l ->
  in_flight past s g sid i l -> in_flight past' s' g' sid i l.
Proof.
  intros HR Hi Hl (lpn & size & b & Hlay & Hq & Ho). destruct (k_slot _ _ _ _ _ _ _ HK sid i HR Hi) as [Hb Hqq].
  exists lpn, size, b. split; [by eapply keeps_layout|]. split; [by rewrite Hqq|]. intros Hr. destruct (Ho (k_room _ _ _ _ _ _ _ HK Hr)) as [Hown Hd].
  split; [by apply keeps_owns|]. intros Hb1. rewrite Hb. destruct Hlay as (sq & bs & Hm & -> & Hsz & Hp & Ht). rewrite Ht in *.
  eapply on_disk_ext; [done| |by apply Hd]. intros q x Hq2 Hx. destruct Hown as (H1 & H2 & Hown).
  eapply (k_disk _ _ _ _ _ _ _ HK Hr q x); [lia | right; exists sid, i; auto | done].
Qed.

Lemma keeps_slot sid p p' i x : Rs (R_slot sid i) -> (i < pipeline_num)%nat -> (busy p = Some i <-> busy p' = Some i) ->
  slot_ok past s g sid p i x -> slot_ok past' s' g' sid p' i x.
Proof.
  intros HR Hi Hb (l & Hl & H1 & H2). destruct (k_slot _ _ _ _ _ _ _ HK sid i HR Hi) as [_ Hq]. exists l.
  split; [by apply keeps_linked|]. rewrite Hq. split; [rewrite <- Hb; done|]. intros Hx Hp. destruct H2 as [H2 H3]; [done|by rewrite Hb|].
  split; [done|]. by eapply keeps_in_flight.
Qed.

Lemma keeps_laid_out sid sv i size : Rs (R_slot sid i) -> length (slots sv) = pipeline_num ->
  laid_out s g sid sv i size -> laid_out s' g' sid sv i size.
Proof.
  intros HR Hlen (x & l & Hx & Hne & Hl & Hlay). exists x, l. apply lookup_lt_Some in Hx as Hi. rewrite Hlen in Hi.
  split_and!; [done|done|by apply keeps_linked|by eapply keeps_layout].
Qed.

Lemma keeps_release sid head l : Rs (R_release sid) -> linked (heap s) g (R_release sid) head l ->
  (forall a r, a ∈ l -> heap s !! a = Some r -> roomy past -> stored s g (data_ r)) ->
  linked (heap s') g' (R_release sid) head l /\ forall a r, a ∈ l -> heap s' !! a = Some r -> roomy past' -> stored s' g' (data_ r).
Proof.
  intros HR Hl Hst. split; [by apply keeps_linked|]. intros a r Ha Hr Hroom. apply keeps_stored; [done|].
  destruct Hl as (_ & _ & Hro). destruct (k_cell _ _ _ _ _ _ _ HK a _ HR (Hro a Ha)) as [_ Hc].
  apply (Hst a r Ha); [by rewrite <- Hc | by apply (k_room _ _ _ _ _ _ _ HK)].
Qed.

Lemma keeps_pc sid sv : length (slots sv) = pipeline_num -> (forall i, busy (at_ sv) = Some i -> Rs (R_slot sid i)) -> Rs (R_release sid) ->
  pc_ok past s g sid sv -> pc_ok past' s' g' sid sv.
Proof.
  intros Hlen HR Hrel. assert (Hroom := k_room _ _ _ _ _ _ _ HK). unfold pc_ok in *.
  destruct (at_ sv) as [| | |i size|i size lpn|i size lpn|i size lpn| |i head| |]; cbn [busy] in HR; try done; try (specialize (HR i eq_refl)).
  - by apply keeps_laid_out.
  - intros [H1 H2]. split; [by apply keeps_laid_out|]. intros Hr. apply keeps_owns; auto.
  - intros [H1 H2]. split; [by apply keeps_laid_out|]. auto.
  - intros [H1 H2]. split; [by apply keeps_laid_out|]. intros Hr. apply keeps_owns; auto.
  - intros (l & Hl & Hst). exists l. by apply keeps_release.
Qed.

Lemma keeps_server sid sv : (forall i, Rs (R_slot sid i)) -> Rs (R_release sid) -> server_ok past s g sid sv -> server_ok past' s' g' sid sv.
Proof.
  intros HR Hrel (Hlen & Hsl & Hpc). split_and!; [done| |by apply keeps_pc]. intros i x Hx. apply lookup_lt_Some in Hx as Hi.
  eapply keeps_slot; [apply HR | lia | done | by apply Hsl].
Qed.
End keeps.
End invariant.
