(* ===== verification/SPDKPipelineSteps.v ===== *)
(** * The writes in flight: every step keeps the invariant *)

From S2P Require Import Prelude Util LogFormat LogRoundtrip LogServer Machine SPDKPipeline SPDKPipelineInv.
Local Open Scope Z_scope.

Section steps.
Context (sector_size : Z) (pipeline_num : nat) (Hsec : 0 < sector_size) (Hdiv : (sector_size | PAGESIZE)).
Implicit Types (past evs : list event) (s : pipeline) (g : ghost).

Notation K := (PAGESIZE / sector_size).
Notation qid := (queue_id pipeline_num).
Notation Inv := (Inv sector_size pipeline_num).
Notation keeps := (keeps sector_size pipeline_num).
Notation server_ok := (server_ok sector_size pipeline_num).
Notation slot_ok := (slot_ok sector_size pipeline_num).
Notation stored := (stored sector_size).
Notation step := (step sector_size pipeline_num).

(** [MemCopy]'s assertion: the batch that waited is too big for it. *)
Definition too_big s (e : crash) : Prop :=
  e = AssertFail /\ exists sid sv i x ds, servers s !! sid = Some sv /\ at_ sv = V_copy i /\ slots sv !! i = Some x /\
    batch (S (size (heap s))) (heap s) (leader x) = Ok ds /\ MemCopy (logfile_seq_ s) ds = Crash AssertFail.

Definition step_ok past s (o : outcome event pipeline) : Prop :=
  match o with
  | Disabled => True
  | Fault e => too_big s e
  | Step evs s' => exists g', Inv (past ++ evs) s' g'
  end.

Lemma queue_id_inj sid i sid' i' : (i < pipeline_num)%nat -> (i' < pipeline_num)%nat -> qid sid i = qid sid' i' -> sid = sid' /\ i = i'.
Proof. unfold queue_id. intros. assert (sid = sid') by nia. split; [done|]. nia. Qed.

Lemma queue_insert q q' cs s : queue q' (set_qpairs (<[q := cs]> (qpairs s)) s) = if decide (q = q') then cs else queue q' s.
Proof. unfold queue. cbn. destruct (decide (q = q')) as [->|]; [by rewrite lookup_insert_eq | by rewrite lookup_insert_ne]. Qed.

(** A step that changes nothing of what is kept. *)
Lemma keeps_same Rs past past' s s' g : (roomy past' -> roomy past) -> heap s' = heap s -> buffer s' = buffer s -> qpairs s' = qpairs s -> disk s' = disk s ->
  current_offset s' = current_offset s -> keeps Rs past s g past' s' g.
Proof.
  intros Hr Hh Hb Hq Hd Ho. split; try done; intros; rewrite ?Hh, ?Hb, ?Hd, ?Ho; try done. unfold queue. by rewrite Hq.
Qed.

(** The other servers are kept, so only the one that steps is looked at. *)
Lemma servers_step {Rs past s g past' s' g' sid sv'} : Inv past s g -> keeps Rs past s g past' s' g' ->
  servers s' = <[sid := sv']> (servers s) -> (forall sid' i, sid' <> sid -> Rs (R_slot sid' i) /\ Rs (R_release sid')) ->
  server_ok past' s' g' sid sv' -> forall sid0 sv0, servers s' !! sid0 = Some sv0 -> server_ok past' s' g' sid0 sv0.
Proof.
  intros I HK Hs HR Hok sid0 sv0 H0. rewrite Hs in H0. destruct (decide (sid0 = sid)) as [->|Hne].
  - assert (Hlt := lookup_lt_Some _ _ _ H0). rewrite length_insert in Hlt. rewrite list_lookup_insert_eq in H0 by done. by injection H0 as <-.
  - rewrite list_lookup_insert_ne in H0 by done. eapply keeps_server; [done|done|exact HK|..]; [intros i; by apply HR | by apply (HR sid0 0%nat) |].
    by apply (inv_servers _ _ _ _ _ I).
Qed.

Lemma servers_kept {Rs past s g past' s' g'} : Inv past s g -> keeps Rs past s g past' s' g' -> servers s' = servers s ->
  (forall sid i, Rs (R_slot sid i) /\ Rs (R_release sid)) -> forall sid sv, servers s' !! sid = Some sv -> server_ok past' s' g' sid sv.
Proof.
  intros I HK Hs HR sid sv H0. rewrite Hs in H0. eapply keeps_server; [done|done|exact HK|..]; [intros i; apply HR | apply (HR sid 0%nat) |].
  by apply (inv_servers _ _ _ _ _ I).
Qed.

(** Steps after which every request is one there was. *)
Lemma inv_requests {Rs past s g evs s' g'} : Inv past s g -> keeps Rs past s g (past ++ evs) s' g' ->
  (forall sid sv, servers s' !! sid = Some sv -> server_ok (past ++ evs) s' g' sid sv) ->
  0 <= logfile_seq_ s' < 2 ^ 32 -> calls s' = calls s ->
  (forall a r, heap s' !! a = Some r -> exists r0, heap s !! a = Some r0 /\ call r = call r0 /\ data_ r = data_ r0) ->
  (forall a, is_Some (heap s' !! a) <-> is_Some (roles g' !! a)) ->
  (exists l, linked (heap s') g' R_queue (submission_queue s') l) ->
  (forall t a p, clients s' !! t = Some (a, p) -> roles g' !! a = Some (R_client t)) ->
  (forall a, a ∈ handed s' -> roles g' !! a = Some R_handed) ->
  (forall a, is_Some (heap s' !! a) -> roles g !! a = Some R_handed -> roles g' !! a = Some R_handed) ->
  (forall q, queue q s' <> [] -> exists sid sv i x, servers s' !! sid = Some sv /\ slots sv !! i = Some x /\ q = qid sid i) ->
  (forall n, Completed n ∈ evs -> Completed n ∉ past /\ exists a r, heap s !! a = Some r /\ call r = n /\ roles g' !! a = Some R_handed /\
     (roomy past -> stored s g (data_ r))) -> NoDup (completions evs) ->
  (roomy (past ++ evs) -> LOGGING_START_LPN <= current_offset s' <= MAX_LPN_FOR_LOGGING /\ forall p, current_offset s' <= p -> own g' p = None) ->
  Inv (past ++ evs) s' g'.
Proof.
  intros I HK Hsv Hseq Hca Hcells Hdom Hsub Hcl Hha Hro Hq Hev Hnd Hoff. split; try done.
  - intros a r Hr. destruct (Hcells a r Hr) as (r0 & Hr0 & -> & ->). rewrite Hca. destruct (inv_calls _ _ _ _ _ I a r0 Hr0) as [H1 H2]. split; [done|]. apply elem_of_app. by left.
  - intros a a' r r' Hr Hr' Hc. destruct (Hcells a r Hr) as (r0 & Hr0 & Hc0 & _), (Hcells a' r' Hr') as (r0' & Hr0' & Hc0' & _).
    eapply (inv_inj _ _ _ _ _ I); [done..|congruence].
  - rewrite Hca. intros n [Hn|Hn]%elem_of_app.
    + destruct (inv_completed _ _ _ _ _ I n Hn) as (H1 & H2 & d & H3 & H4). split_and!; [done| |].
      * intros a r Ha Hc. destruct (Hcells a r Ha) as (r0 & Hr0 & Hc0 & _). apply Hro; [by eexists|]. apply (H2 a r0); congruence.
      * exists d. split; [apply elem_of_app; by left|]. intros Hr. eapply keeps_stored; [done|done|exact HK|done|]. apply H4. by eapply roomy_app.
    + destruct (Hev n Hn) as (_ & a & r & Ha & Hc & Hh & Hst). destruct (inv_calls _ _ _ _ _ I a r Ha) as [H1 H2]. rewrite Hc in H1, H2. split_and!; [done| |].
      * intros a' r' Ha' Hc'. destruct (Hcells a' r' Ha') as (r0 & Hr0 & Hc0 & _). by rewrite (inv_inj _ _ _ _ _ I a' a r0 r Hr0 Ha) by congruence.
      * exists (data_ r). split; [apply elem_of_app; by left|]. intros Hr. eapply keeps_stored; [done|done|exact HK|done|]. apply Hst. by eapply roomy_app.
  - rewrite completions_app. apply NoDup_app. split_and!; [apply (inv_once _ _ _ _ _ I)| |done].
    intros n Hn1 Hn2. apply completed_elem in Hn1, Hn2. by destruct (Hev n Hn2).
Qed.

(** Steps that leave the requests where they are, but may give them to somebody
    else. *)
Lemma inv_moves {Rs past s g evs s' g'} : Inv past s g -> keeps Rs past s g (past ++ evs) s' g' ->
  (forall sid sv, servers s' !! sid = Some sv -> server_ok (past ++ evs) s' g' sid sv) ->
  heap s' = heap s -> clients s' = clients s -> handed s' = handed s -> calls s' = calls s ->
  0 <= logfile_seq_ s' < 2 ^ 32 ->
  (exists l, linked (heap s') g' R_queue (submission_queue s') l) ->
  (forall a, is_Some (roles g !! a) <-> is_Some (roles g' !! a)) ->
  (forall a ρ, (exists t, ρ = R_client t) \/ ρ = R_handed -> roles g !! a = Some ρ -> roles g' !! a = Some ρ) ->
  (forall n, Completed n ∉ evs) ->
  (forall q, queue q s' <> [] -> exists sid sv i x, servers s' !! sid = Some sv /\ slots sv !! i = Some x /\ q = qid sid i) ->
  (roomy (past ++ evs) -> LOGGING_START_LPN <= current_offset s' <= MAX_LPN_FOR_LOGGING /\ forall p, current_offset s' <= p -> own g' p = None) ->
  Inv (past ++ evs) s' g'.
Proof.
  intros I HK Hsv Hh Hcl Hha Hca Hseq Hsub Hdom Hro Hev Hq Hoff. eapply (inv_requests I HK); try done.
  - intros a r Hr. exists r. by rewrite <- Hh.
  - intros a. rewrite Hh, <- Hdom. apply (inv_dom _ _ _ _ _ I).
  - intros t a p Ht. rewrite Hcl in Ht. apply Hro; [by left; eexists|]. by eapply (inv_clients _ _ _ _ _ I).
  - intros a Ha. rewrite Hha in Ha. apply Hro; [by right|]. by apply (inv_handed _ _ _ _ _ I).
  - intros a _. apply Hro. by right.
  - intros n Hn. by destruct (Hev n).
  - destruct (completions evs) as [|n l] eqn:E; [constructor|]. destruct (Hev n). apply completed_elem. rewrite E. by left.
Qed.

(** Steps that touch no request. *)
Lemma inv_light {Rs past s g evs s' g'} : Inv past s g -> keeps Rs past s g (past ++ evs) s' g' ->
  (forall sid sv, servers s' !! sid = Some sv -> server_ok (past ++ evs) s' g' sid sv) ->
  heap s' = heap s -> submission_queue s' = submission_queue s -> clients s' = clients s -> handed s' = handed s -> calls s' = calls s ->
  0 <= logfile_seq_ s' < 2 ^ 32 -> roles g' = roles g -> (forall n, Completed n ∉ evs) ->
  (forall q, queue q s' <> [] -> exists sid sv i x, servers s' !! sid = Some sv /\ slots sv !! i = Some x /\ q = qid sid i) ->
  (roomy (past ++ evs) -> LOGGING_START_LPN <= current_offset s' <= MAX_LPN_FOR_LOGGING /\ forall p, current_offset s' <= p -> own g' p = None) ->
  Inv (past ++ evs) s' g'.
Proof.
  intros I HK Hsv Hh Hsub Hcl Hha Hca Hseq Hro Hev Hq Hoff. eapply (inv_moves I HK); try done; try (intros; by rewrite Hro).
  destruct (inv_queue _ _ _ _ _ I) as (l & H1 & H2 & H3). exists l. rewrite Hh, Hsub. split_and!; [done..|]. by rewrite Hro.
Qed.

(** The queue pairs of the slots, after a step of server [sid]. *)
Lemma qpairs_step {past s g sid sv sv' s'} : Inv past s g -> servers s !! sid = Some sv -> servers s' = <[sid := sv']> (servers s) ->
  length (slots sv') = length (slots sv) ->
  (forall q, queue q s' <> [] -> queue q s <> [] \/ exists i x, slots sv' !! i = Some x /\ q = qid sid i) ->
  forall q, queue q s' <> [] -> exists sid sv i x, servers s' !! sid = Some sv /\ slots sv !! i = Some x /\ q = qid sid i.
Proof.
  intros I Hsv Hs Hlen Hq q Hqq. assert (Hlt := lookup_lt_Some _ _ _ Hsv). rewrite Hs.
  destruct (Hq q Hqq) as [Hold|(i & x & Hx & ->)]; [|exists sid, sv', i, x; by rewrite list_lookup_insert_eq].
  destruct (inv_qpairs _ _ _ _ _ I q Hold) as (sid' & sv0 & i & x & H1 & H2 & ->).
  destruct (decide (sid' = sid)) as [->|Hne]; [|exists sid', sv0, i, x; by rewrite list_lookup_insert_ne].
  simplify_eq. destruct (lookup_lt_is_Some_2 (slots sv') i) as [x' Hx']; [rewrite Hlen; by eapply lookup_lt_Some|].
  exists sid, sv', i, x'. by rewrite list_lookup_insert_eq.
Qed.

(** *** Steps of a server that only change where it is *)
Lemma inv_goes {past s g sid sv p} : Inv past s g -> servers s !! sid = Some sv -> busy p = busy (at_ sv) ->
  (pc_ok sector_size pipeline_num past s g sid (goes p sv)) -> Inv (past ++ []) (at_server sid (goes p sv) s) g.
Proof.
  intros I Hsv Hb Hpc. assert (HK : keeps (fun _ => True) past s g (past ++ []) (at_server sid (goes p sv) s) g).
  { apply keeps_same; [by rewrite app_nil_r|done..]. }
  destruct (inv_servers _ _ _ _ _ I sid sv Hsv) as (Hlen & Hsl & _).
  eapply inv_light; [exact I|exact HK| |done..|apply (inv_seq _ _ _ _ _ I)|done|set_solver| |].
  - eapply (servers_step I HK); [done|done|]. split_and!; [done| |].
    + intros i x Hx. assert (Hi := lookup_lt_Some _ _ _ Hx). cbn in Hi. apply (keeps_slot _ _ Hsec Hdiv HK sid (at_ sv)); [done|lia|cbn; by rewrite Hb|]. by apply Hsl.
    + eapply (keeps_pc _ _ Hsec Hdiv HK sid (goes p sv)); done.
  - eapply (qpairs_step I Hsv); [done|done|by left].
  - rewrite app_nil_r. apply (inv_offset _ _ _ _ _ I).
Qed.

Lemma top_ok past s g sid sv : Inv past s g -> servers s !! sid = Some sv -> at_ sv = V_top -> step_ok past s (top sid sv s).
Proof.
  intros I Hsv Ha. unfold top. destruct (stop_ s); [exists g; apply inv_goes; [done..|by rewrite Ha|done]|].
  exists g. apply inv_goes; [done|done| |].
  - rewrite Ha. by destruct (select_leader _).
  - unfold select_leader. destruct (list_find _ _) as [[i x]|] eqn:E; [|done]. cbn. apply list_find_Some in E as (H1 & H2 & _). eauto.
Qed.

Lemma wrap_ok past s g sid sv i size lpn : Inv past s g -> servers s !! sid = Some sv -> at_ sv = V_wrap i size lpn ->
  step_ok past s (Step [] (at_server sid (goes (if MAX_LPN_FOR_LOGGING <? current_offset s then V_reset i size lpn else V_submit i size lpn) sv) s)).
Proof.
  intros I Hsv Ha. exists g. destruct (inv_servers _ _ _ _ _ I sid sv Hsv) as (_ & _ & Hpc). unfold pc_ok in Hpc. rewrite Ha in Hpc. destruct Hpc as [H1 H2].
  apply inv_goes; [done|done| |].
  - rewrite Ha. by destruct (_ <? _).
  - destruct (Z.ltb_spec MAX_LPN_FOR_LOGGING (current_offset s)) as [Hlt|Hge]; (split; [exact H1|]); [|done].
    intros Hr. destruct (inv_offset _ _ _ _ _ I Hr) as [[_ ?] _]. lia.
Qed.

Lemma idle_ok past s g sid sv choice : Inv past s g -> servers s !! sid = Some sv -> at_ sv = V_idle ->
  step_ok past s (Step [] (at_server sid (goes (if (choice : bool) then V_done else V_top) sv) s)).
Proof. intros I Hsv Ha. exists g. apply inv_goes; [done|done| |]; destruct choice; by rewrite ?Ha. Qed.

(** *** [SPDKWrite] *)
Lemma laid_out_slot {past s g sid sv i size} : Inv past s g -> servers s !! sid = Some sv -> busy (at_ sv) = Some i -> laid_out pipeline_num s g sid sv i size ->
  exists x l, slots sv !! i = Some x /\ (i < pipeline_num)%nat /\ leader x <> None /\ linked (heap s) g (R_slot sid i) (leader x) l /\
    layout s (qid sid i) l size /\ completion_flag x = true /\ queue (qid sid i) s = [].
Proof.
  intros I Hsv Hb (x & l & Hx & Hne & Hl & Hlay). destruct (inv_servers _ _ _ _ _ I sid sv Hsv) as (Hlen & Hsl & _).
  destruct (Hsl i x Hx) as (l' & _ & Hbusy & _). destruct Hbusy as [Hf Hq]; [by right|]. exists x, l. apply lookup_lt_Some in Hx as Hi. rewrite Hlen in Hi. done.
Qed.

Lemma claim_ok past s g sid sv i size : Inv past s g -> servers s !! sid = Some sv -> at_ sv = V_offset i size ->
  step_ok past s (claim sid sv i size s).
Proof.
  intros I Hsv Ha. destruct (inv_servers _ _ _ _ _ I sid sv Hsv) as (Hlen & Hsl & Hpc). assert (Hlo := Hpc). unfold pc_ok in Hlo. rewrite Ha in Hlo.
  destruct (laid_out_slot I Hsv ltac:(by rewrite Ha) Hlo) as (x & l & Hx & Hi & _ & _ & (sq & bs & _ & _ & Hsz & Hm & _) & _).
  unfold claim, check. rewrite (proj2 (Z.eqb_eq _ _) Hm). set (n := size / PAGESIZE). set (o := current_offset s).
  assert (Hn : 0 <= n) by (apply Z.div_pos; done || lia).
  set (g' := {| roles := roles g; own := fun p => if bool_decide (o <= p < o + n) then Some (sid, i) else own g p |}).
  set (sv' := goes (V_wrap i size o) sv). set (s' := at_server sid sv' (set_offset (u64 (o + n)) s)). set (past' := past ++ [Taken o n]).
  assert (Hroom : roomy past' -> roomy past /\ LOGGING_START_LPN <= o /\ o + n <= MAX_LPN_FOR_LOGGING /\ u64 (o + n) = o + n /\ forall p, o <= p -> own g p = None).
  { intros Hr. assert (Hr0 := roomy_app _ _ Hr). destruct (inv_offset _ _ _ _ _ I Hr0) as [[H1 H2] H3]. assert (H4 : o + n <= MAX_LPN_FOR_LOGGING) by (apply Hr; set_solver).
    change LOGGING_START_LPN with 1 in *. change MAX_LPN_FOR_LOGGING with 2097152 in *. split_and!; [done..| |done]. apply u64_small. lia. }
  assert (HK : keeps (fun _ => True) past s g past' s' g').
  { split; try done.
    - by intros [Hr _]%Hroom.
    - intros (_ & _ & _ & _ & Hown)%Hroom sid' i' p _ Hp. cbn. case_bool_decide; [|done]. by rewrite Hown in Hp by lia.
    - intros _ p Hp Hnone. cbn. rewrite bool_decide_false; [done|]. fold o in Hp. lia.
    - intros (_ & _ & _ & Hu & _)%Hroom. cbn. rewrite Hu. fold o. lia. }
  exists g'. eapply (inv_light I HK); [|done..|apply (inv_seq _ _ _ _ _ I)|done|set_solver| |].
  - eapply (servers_step I HK); [done|done|]. split_and!; [done| |].
    + intros j y Hy. assert (Hj := lookup_lt_Some _ _ _ Hy). cbn in Hj. apply (keeps_slot _ _ Hsec Hdiv HK sid (at_ sv)); [done|lia|by rewrite Ha|]. by apply Hsl.
    + split; [by apply (keeps_laid_out _ _ HK sid sv)|]. intros (_ & H1 & H2 & Hu & Hown)%Hroom. split_and!; [done|cbn; by rewrite Hu|]. intros p Hp. cbn. by rewrite bool_decide_true.
  - eapply (qpairs_step I Hsv); [done|done|by left].
  - intros (_ & H1 & H2 & Hu & Hown)%Hroom. cbn. rewrite Hu. split; [lia|]. intros p Hp. rewrite bool_decide_false by lia. apply Hown. lia.
Qed.

Lemma reset_ok past s g sid sv i size lpn : Inv past s g -> servers s !! sid = Some sv -> at_ sv = V_reset i size lpn ->
  step_ok past s (Step [] (at_server sid (goes (V_submit i size lpn) sv) (set_offset LOGGING_START_LPN s))).
Proof.
  intros I Hsv Ha. destruct (inv_servers _ _ _ _ _ I sid sv Hsv) as (Hlen & Hsl & Hpc). assert (Hlo := Hpc). unfold pc_ok in Hlo. rewrite Ha in Hlo. destruct Hlo as [Hlo Hno].
  set (s' := at_server sid (goes (V_submit i size lpn) sv) (set_offset LOGGING_START_LPN s)).
  assert (HK : keeps (fun _ => True) past s g (past ++ []) s' g).
  { rewrite app_nil_r. by split. }
  exists g. eapply (inv_light I HK); [|done..|apply (inv_seq _ _ _ _ _ I)|done|set_solver| |].
  - eapply (servers_step I HK); [done|done|]. split_and!; [done| |].
    + intros j y Hy. assert (Hj := lookup_lt_Some _ _ _ Hy). cbn in Hj. apply (keeps_slot _ _ Hsec Hdiv HK sid (at_ sv)); [done|lia|by rewrite Ha|]. by apply Hsl.
    + split; [by apply (keeps_laid_out _ _ HK sid sv)|]. rewrite app_nil_r. by intros H%Hno.
  - eapply (qpairs_step I Hsv); [done|done|by left].
  - rewrite app_nil_r. by intros H%Hno.
Qed.

(** A step of the server on its slot [i] and its queue and buffer only. *)
Notation not_slot sid i := (fun ρ => ρ <> R_slot sid i).

Lemma lookup_set_slot i x sv j y : slots (set_slot i x sv) !! j = Some y -> i = j /\ y = x \/ i <> j /\ slots sv !! j = Some y.
Proof. cbn. intros [(-> & -> & _)|[? ?]]%list_lookup_insert_Some; auto. Qed.

Lemma submit_ok past s g sid sv i size lpn : Inv past s g -> servers s !! sid = Some sv -> at_ sv = V_submit i size lpn ->
  step_ok past s (submit sector_size pipeline_num sid sv i size lpn s).
Proof.
  intros I Hsv Ha. destruct (inv_servers _ _ _ _ _ I sid sv Hsv) as (Hlen & Hsl & Hpc). unfold pc_ok in Hpc. rewrite Ha in Hpc. destruct Hpc as [Hlo Hown].
  destruct (laid_out_slot I Hsv ltac:(by rewrite Ha) Hlo) as (x & l & Hx & Hi & Hne & Hl & Hlay & Hf & Hq).
  assert (Hsz : 0 < size / sector_size).
  { destruct Hlay as (sq & bs & _ & _ & Hs & Hm & _). rewrite (pages_sectors _ Hsec Hdiv) by (lia || done). destruct (sector_page _ Hsec Hdiv).
    assert (0 < size / PAGESIZE); [|nia]. assert (He := Z.div_mod size PAGESIZE ltac:(done)). rewrite page_size in *. lia. }
  unfold submit, check. rewrite Hx, Hf, Hq. cbn [sector_num app]. rewrite (proj2 (Z.ltb_lt _ _) Hsz).
  set (c := {| lsn := u64 (lpn * K); sector_num := size / sector_size; completed := false |}).
  set (sv' := goes (V_poll 0) (set_slot i {| leader := leader x; completion_flag := false |} sv)).
  set (s' := at_server sid sv' (set_qpairs (<[qid sid i := [c]]> (qpairs s)) s)).
  assert (Hqq : forall q, queue q s' = if decide (qid sid i = q) then [c] else queue q s) by (intros q; apply (queue_insert (qid sid i) q [c] s)).
  assert (HK : keeps (not_slot sid i) past s g (past ++ []) s' g).
  { rewrite app_nil_r. split; try done. intros sid' j HR Hj. split; [done|]. rewrite Hqq, decide_False; [done|]. intros [-> ->]%queue_id_inj; done. }
  exists g. eapply (inv_light I HK); [|done..|apply (inv_seq _ _ _ _ _ I)|done|set_solver| |].
  - eapply (servers_step I HK); [done|intros; split; congruence|]. split_and!; [cbn; by rewrite length_insert| |done].
    intros j y [[<- ->]|[Hij Hy]]%lookup_set_slot.
    + exists l. split; [done|]. cbn. split; [by intros [?|?]|]. intros _ _. split; [done|]. exists lpn, size, false. split; [done|].
      rewrite Hqq, decide_True by done. split; [done|]. rewrite app_nil_r. intros Hr. split; [by apply Hown|done].
    + assert (Hj := lookup_lt_Some _ _ _ Hy). apply (keeps_slot _ _ Hsec Hdiv HK sid (at_ sv)); [congruence|lia| |by apply Hsl].
      rewrite Ha. cbn. split; congruence.
  - eapply (qpairs_step I Hsv); [done|cbn; by rewrite length_insert|]. intros q. rewrite Hqq. case_decide as Hd; [|by left]. intros _. right.
    exists i, {| leader := leader x; completion_flag := false |}. split; [|done]. cbn. by rewrite list_lookup_insert_eq by lia.
  - rewrite app_nil_r. apply (inv_offset _ _ _ _ _ I).
Qed.

Lemma batch_linked {s g ρ p l past} : Inv past s g -> linked (heap s) g ρ p l -> batch (S (size (heap s))) (heap s) p = Ok (datas (heap s) l).
Proof.
  intros I (Hc & Hn & _). apply chain_batch; [done|]. assert (Hsz := nodup_size (heap s) l Hn (fun a => chain_elem _ _ _ a Hc)). lia.
Qed.

Lemma copy_ok past s g sid sv i : Inv past s g -> servers s !! sid = Some sv -> at_ sv = V_copy i -> step_ok past s (copy pipeline_num sid sv i s).
Proof.
  intros I Hsv Ha. destruct (inv_servers _ _ _ _ _ I sid sv Hsv) as (Hlen & Hsl & Hpc). unfold pc_ok in Hpc. rewrite Ha in Hpc. destruct Hpc as (x & Hx & Hne).
  destruct (Hsl i x Hx) as (l & Hl & _ & _). assert (Hi := lookup_lt_Some _ _ _ Hx). rewrite Hlen in Hi.
  assert (Hb := batch_linked I Hl). assert (Hds : datas (heap s) l <> []).
  { destruct l; [|done]. destruct Hl as [Hc _]. by apply (chain_none _ _ _) in Hc as [_ ?%(fun f => f eq_refl)]. }
  unfold copy. rewrite Hx, Hb. cbn [mbind res_bind]. destruct (MemCopy_result _ _ (inv_seq _ _ _ _ _ I) Hds) as [Hm|(bs & Hm & Hsz & Hmod)]; rewrite Hm.
  { split; [done|]. by exists sid, sv, i, x, (datas (heap s) l). }
  set (b := bs ++ _). set (s' := at_server sid (goes (V_offset i (len bs)) sv) (set_buffer (<[qid sid i := b]> (buffer s)) s)).
  assert (HK : keeps (not_slot sid i) past s g (past ++ []) s' g).
  { rewrite app_nil_r. split; try done. intros sid' j HR Hj. split; [|done]. cbn. rewrite lookup_insert_ne; [done|]. intros [-> ->]%queue_id_inj; done. }
  exists g. eapply (inv_light I HK); [|done..|apply (inv_seq _ _ _ _ _ I)|done|set_solver| |].
  - eapply (servers_step I HK); [done|intros; split; congruence|]. split_and!; [done| |].
    + intros j y Hy. cbn in Hy. assert (Hj := lookup_lt_Some _ _ _ Hy). destruct (decide (j = i)) as [->|Hji].
      * destruct (Hsl i y Hy) as (l' & Hl' & H1 & H2). exists l'. split; [done|]. split; [intros _; apply H1; right; by rewrite Ha|]. cbn. congruence.
      * apply (keeps_slot _ _ Hsec Hdiv HK sid (at_ sv)); [congruence|lia|by rewrite Ha|by apply Hsl].
    + exists x, l. split_and!; [done|done|done|]. exists (logfile_seq_ s), bs. split_and!; try done; try lia. cbn. rewrite lookup_insert_eq. cbn. by apply takeZ_app.
  - eapply (qpairs_step I Hsv); [done|done|by left].
  - rewrite app_nil_r. apply (inv_offset _ _ _ _ _ I).
Qed.

(** *** Batches change hands *)
Definition relabel (ρ1 ρ2 : role) (o : Z -> option (nat * nat)) g : ghost :=
  {| roles := (fun ρ => if decide (ρ = ρ1) then ρ2 else ρ) <$> roles g; own := o |}.

Lemma relabel_dom ρ1 ρ2 o g a : is_Some (roles g !! a) <-> is_Some (roles (relabel ρ1 ρ2 o g) !! a).
Proof. cbn. by rewrite lookup_fmap, fmap_is_Some. Qed.
Lemma relabel_other ρ1 ρ2 o g a ρ : ρ <> ρ1 -> roles g !! a = Some ρ -> roles (relabel ρ1 ρ2 o g) !! a = Some ρ.
Proof. intros Hne Ha. cbn. rewrite lookup_fmap, Ha. cbn. by rewrite decide_False. Qed.
Lemma relabel_linked ρ1 ρ2 o h g p l : linked h g ρ1 p l -> linked h (relabel ρ1 ρ2 o g) ρ2 p l.
Proof. intros (H1 & H2 & H3). split_and!; [done..|]. intros a Ha. cbn. rewrite lookup_fmap, (H3 a Ha). cbn. by rewrite decide_True. Qed.
Lemma relabel_linked_other ρ1 ρ2 o ρ h g p l : ρ <> ρ1 -> linked h g ρ p l -> linked h (relabel ρ1 ρ2 o g) ρ p l.
Proof. intros Hne (H1 & H2 & H3). split_and!; [done..|]. intros a Ha. by apply relabel_other, H3. Qed.

Lemma exchange_ok past s g sid sv i : Inv past s g -> servers s !! sid = Some sv -> at_ sv = V_exchange i -> step_ok past s (exchange sid sv i s).
Proof.
  intros I Hsv Ha. destruct (inv_servers _ _ _ _ _ I sid sv Hsv) as (Hlen & Hsl & Hpc). unfold pc_ok in Hpc. rewrite Ha in Hpc. destruct Hpc as (x & Hx & Hnone).
  unfold exchange. destruct (submission_queue s) as [a|] eqn:Hsub.
  2:{ exists g. replace (set_submission None s) with s by (rewrite <- Hsub; by destruct s). apply inv_goes; [done..|by rewrite Ha|done]. }
  rewrite Hx. destruct (inv_queue _ _ _ _ _ I) as (l & Hl). destruct (Hsl i x Hx) as (l0 & _ & Hidle & _). destruct Hidle as [Hf Hq]; [by left|].
  set (g' := relabel R_queue (R_slot sid i) (own g) g). set (x' := {| leader := Some a; completion_flag := completion_flag x |}).
  set (s' := at_server sid (goes (V_copy i) (set_slot i x' sv)) (set_submission None s)).
  assert (HK : keeps (fun ρ => ρ <> R_slot sid i /\ ρ <> R_queue) past s g (past ++ []) s' g').
  { rewrite app_nil_r. split; try done. intros b ρ [_ HR] Hb. split; [by apply relabel_other|done]. }
  exists g'. eapply (inv_moves I HK); [|done..|apply (inv_seq _ _ _ _ _ I)| |apply relabel_dom| |set_solver| |].
  - eapply (servers_step I HK); [done|intros; repeat split; congruence|]. split_and!; [cbn; by rewrite length_insert| |].
    + intros j y [[<- ->]|[Hij Hy]]%lookup_set_slot.
      * exists l. rewrite Hsub in Hl. split; [by apply relabel_linked|]. split; [done|]. cbn. congruence.
      * assert (Hj := lookup_lt_Some _ _ _ Hy). apply (keeps_slot _ _ Hsec Hdiv HK sid (at_ sv)); [split; congruence|lia| |by apply Hsl].
        rewrite Ha. cbn. split; congruence.
    + exists x'. split; [|done]. cbn. rewrite list_lookup_insert_eq; [done|]. by eapply lookup_lt_Some.
  - exists []. split_and!; [done|constructor|set_solver].
  - intros b ρ HR. apply relabel_other. destruct HR as [[t ->]| ->]; done.
  - eapply (qpairs_step I Hsv); [done|cbn; by rewrite length_insert|by left].
  - rewrite app_nil_r. apply (inv_offset _ _ _ _ _ I).
Qed.

(** A write that is not completed leaves the slot as it is. *)
Lemma poll_wait_ok past s g sid sv i cs : Inv past s g -> servers s !! sid = Some sv -> at_ sv = V_poll i -> queue (qid sid i) s = cs -> cs <> [] ->
  step_ok past s (Step [] (at_server sid (goes (V_poll (S i)) sv) (set_qpairs (<[qid sid i := cs]> (qpairs s)) s))).
Proof.
  intros I Hsv Ha Hcs Hne. destruct (inv_servers _ _ _ _ _ I sid sv Hsv) as (Hlen & Hsl & Hpc).
  set (s' := at_server sid _ _). assert (Hqq : forall q, queue q s' = queue q s).
  { intros q. etrans; [apply (queue_insert (qid sid i) q cs s)|]. case_decide; congruence. }
  assert (HK : keeps (fun _ => True) past s g (past ++ []) s' g) by (rewrite app_nil_r; split; try done; intros; by rewrite Hqq).
  exists g. eapply (inv_light I HK); [|done..|apply (inv_seq _ _ _ _ _ I)|done|set_solver| |].
  - eapply (servers_step I HK); [done|done|]. split_and!; [done| |done].
    intros j y Hy. assert (Hj := lookup_lt_Some _ _ _ Hy). cbn in Hj. apply (keeps_slot _ _ Hsec Hdiv HK sid (at_ sv)); [done|lia|by rewrite Ha|by apply Hsl].
  - eapply (qpairs_step I Hsv); [done|done|]. intros q. rewrite Hqq. by left.
  - rewrite app_nil_r. apply (inv_offset _ _ _ _ _ I).
Qed.

(** A completed write: the batch is on the device, its pages are nobody's. *)
Lemma in_flight_stored past s g sid i l lpn size o : layout s (qid sid i) l size -> roomy past ->
  owns s g (sid, i) lpn (size / PAGESIZE) -> on_disk sector_size s lpn (takeZ size (default [] (buffer s !! qid sid i))) ->
  (forall p, own g p = Some (sid, i) -> o p = None) ->
  forall a r s' ρ ρ', a ∈ l -> heap s !! a = Some r -> disk s' = disk s -> current_offset s' = current_offset s -> stored s' (relabel ρ ρ' o g) (data_ r).
Proof.
  intros (sq & bs & Hm & -> & Hsz & Hmod & Ht) Hr (H1 & H2 & Hown) Hd Ho a r s' ρ ρ' Ha Hra Hdisk Hoff. rewrite Ht in Hd.
  exists lpn, sq, (datas (heap s) l), bs. rewrite Hoff. split_and!; [done| |done| |done|done|].
  - apply list_elem_of_fmap. exists a. by rewrite Hra.
  - intros j c Hj. rewrite Hdisk. by apply Hd.
  - intros p Hp. by apply Ho, Hown.
Qed.

Lemma poll_done_ok past s g sid sv i x head c : Inv past s g -> servers s !! sid = Some sv -> at_ sv = V_poll i -> slots sv !! i = Some x ->
  leader x = Some head -> queue (qid sid i) s = [c] -> completed c = true ->
  step_ok past s (Step [] (at_server sid (goes (V_release i (Some head)) (set_slot i {| leader := None; completion_flag := true |} sv))
    (set_qpairs (<[qid sid i := []]> (qpairs s)) s))).
Proof.
  intros I Hsv Ha Hx Hlead Hqc Hdone. destruct (inv_servers _ _ _ _ _ I sid sv Hsv) as (Hlen & Hsl & _).
  destruct (Hsl i x Hx) as (l & Hl & _ & Hfl). destruct Hfl as [_ (lpn & size & b & Hlay & Hq & Hown)]; [by rewrite Hlead|by rewrite Ha|].
  rewrite Hqc in Hq. injection Hq as ->. cbn in Hdone. subst b.
  set (o := fun p => if bool_decide (own g p = Some (sid, i)) then None else own g p). set (g' := relabel (R_slot sid i) (R_release sid) o g).
  set (s' := at_server sid _ _). assert (Hqq : forall q, queue q s' = if decide (qid sid i = q) then [] else queue q s) by (intros q; apply (queue_insert (qid sid i) q [] s)).
  assert (HK : keeps (fun ρ => ρ <> R_slot sid i /\ ρ <> R_release sid) past s g (past ++ []) s' g').
  { rewrite app_nil_r. split; try done.
    - intros a ρ [HR _] Hρ. split; [by apply relabel_other|done].
    - intros sid' j [HR _] Hj. split; [done|]. rewrite Hqq, decide_False; [done|]. intros [-> ->]%queue_id_inj; done || by apply lookup_lt_Some in Hx; lia.
    - intros _ sid' j p [HR _] Hp. cbn. unfold o. rewrite bool_decide_false; [done|]. congruence.
    - intros _ p _ Hp. cbn. unfold o. by case_bool_decide. }
  exists g'. eapply (inv_moves I HK); [|done..|apply (inv_seq _ _ _ _ _ I)| |apply relabel_dom| |set_solver| |].
  - eapply (servers_step I HK); [done|intros; repeat split; congruence|]. split_and!; [cbn; by rewrite length_insert| |].
    + intros j y [[<- ->]|[Hij Hy]]%lookup_set_slot.
      * exists []. split; [split_and!; [done|constructor|set_solver]|]. split; [|done]. intros _. by rewrite Hqq, decide_True.
      * assert (Hj := lookup_lt_Some _ _ _ Hy). apply (keeps_slot _ _ Hsec Hdiv HK sid (at_ sv)); [split; congruence|lia|by rewrite Ha|by apply Hsl].
    + exists l. rewrite Hlead in Hl. split; [by apply relabel_linked|]. rewrite app_nil_r. intros a r Hal Hr Hroom. destruct (Hown Hroom) as [Ho Hd].
      eapply (in_flight_stored past s g sid i l lpn size o); try done; [by apply Hd|]. intros p Hp. unfold o. by rewrite bool_decide_true.
  - destruct (inv_queue _ _ _ _ _ I) as (lq & Hlq). exists lq. by apply relabel_linked_other.
  - intros a ρ HR. apply relabel_other. destruct HR as [[t ->]| ->]; done.
  - eapply (qpairs_step I Hsv); [done|cbn; by rewrite length_insert|]. intros q. rewrite Hqq. case_decide; [done|by left].
  - rewrite app_nil_r. intros Hr. destruct (inv_offset _ _ _ _ _ I Hr) as [H1 H2]. split; [done|]. intros p Hp. cbn. unfold o. case_bool_decide; auto.
Qed.

Lemma poll_ok past s g sid sv i : Inv past s g -> servers s !! sid = Some sv -> at_ sv = V_poll i -> step_ok past s (poll pipeline_num sid sv i s).
Proof.
  intros I Hsv Ha. destruct (inv_servers _ _ _ _ _ I sid sv Hsv) as (Hlen & Hsl & _). unfold poll.
  destruct (slots sv !! i) as [x|] eqn:Hx; [|exists g; apply inv_goes; by rewrite ?Ha].
  destruct (leader x) as [head|] eqn:Hlead; [|exists g; apply inv_goes; by rewrite ?Ha].
  destruct (Hsl i x Hx) as (l & _ & _ & Hfl). destruct Hfl as [Hf (lpn & size & b & _ & Hq & _)]; [by rewrite Hlead|by rewrite Ha|].
  rewrite Hf, Hq. destruct b; cbn [orb existsb completed].
  - eapply poll_done_ok; done.
  - by eapply poll_wait_ok.
Qed.

Lemma release_ok past s g sid sv i head : Inv past s g -> servers s !! sid = Some sv -> at_ sv = V_release i head -> step_ok past s (release sid sv i head s).
Proof.
  intros I Hsv Ha. destruct (inv_servers _ _ _ _ _ I sid sv Hsv) as (Hlen & Hsl & Hpc). unfold pc_ok in Hpc. rewrite Ha in Hpc.
  destruct Hpc as (l & (Hc & Hnd & Hro) & Hst). destruct head as [a|]; [|exists g; apply inv_goes; by rewrite ?Ha].
  destruct l as [|a0 l]; [done|]. destruct Hc as ([= <-] & r & Hr & Hc). apply NoDup_cons in Hnd as [Hal Hnd].
  assert (Hra : roles g !! a = Some (R_release sid)) by (apply Hro; by left).
  unfold release, access. rewrite Hr. set (g' := {| roles := <[a := R_handed]> (roles g); own := own g |}). set (s' := at_server sid _ _).
  assert (HK : keeps (fun ρ => ρ <> R_release sid) past s g (past ++ [Completed (call r)]) s' g').
  { split; try done; [by apply roomy_app|]. intros b ρ HR Hb. cbn. rewrite !lookup_insert_ne by congruence. done. }
  assert (Hne : forall b, b ∈ l -> a <> b) by (intros b Hb ->; done).
  exists g'. eapply (inv_requests I HK).
  - eapply (servers_step I HK); [done|intros; repeat split; congruence|]. split_and!; [done| |].
    + intros j y Hy. assert (Hj := lookup_lt_Some _ _ _ Hy). cbn in Hj. apply (keeps_slot _ _ Hsec Hdiv HK sid (at_ sv)); [done|lia|by rewrite Ha|by apply Hsl].
    + exists l. split; [split_and!|].
      * eapply chain_ext; [|exact Hc]. intros b Hb. cbn. by rewrite lookup_insert_ne by auto.
      * done.
      * intros b Hb. cbn. rewrite lookup_insert_ne by auto. apply Hro. by right.
      * intros b rb Hb Hrb Hroom. cbn in Hrb. rewrite lookup_insert_ne in Hrb by auto. eapply keeps_stored; [done|done|exact HK|done|].
        apply (Hst b); [by right|done|by eapply roomy_app].
  - apply (inv_seq _ _ _ _ _ I).
  - done.
  - intros b rb Hb. cbn in Hb. apply lookup_insert_Some in Hb as [[<- <-]|[_ Hb]]; [by exists r|by exists rb].
  - intros b. cbn. destruct (decide (b = a)) as [->|Hba]; [rewrite !lookup_insert_eq; split; by eexists|]. rewrite !lookup_insert_ne by done. apply (inv_dom _ _ _ _ _ I).
  - destruct (inv_queue _ _ _ _ _ I) as (lq & Hlq). exists lq. eapply keeps_linked in Hlq; [exact (proj1 Hlq)|exact HK|done].
  - intros t b p Ht. assert (Hb := inv_clients _ _ _ _ _ I t b p Ht). cbn. rewrite lookup_insert_ne; [done|]. congruence.
  - intros b [->%elem_of_singleton|Hb]%elem_of_union; cbn; [by rewrite lookup_insert_eq|]. assert (Hb' := inv_handed _ _ _ _ _ I b Hb).
    rewrite lookup_insert_ne; [done|]. congruence.
  - intros b _ Hb. cbn. rewrite lookup_insert_ne; [done|]. congruence.
  - eapply (qpairs_step I Hsv); [done|done|by left].
  - intros n Hn%list_elem_of_singleton. injection Hn as ->. split.
    + intros Hp. destruct (inv_completed _ _ _ _ _ I _ Hp) as (_ & Hh & _). specialize (Hh a r Hr eq_refl). congruence.
    + exists a, r. split_and!; [done|done|cbn; by rewrite lookup_insert_eq|]. apply (Hst a); [by left|done].
  - by apply NoDup_singleton.
  - intros Hroom%roomy_app. apply (inv_offset _ _ _ _ _ I Hroom).
Qed.

(** *** The device *)
Lemma device_ok past s g q j : Inv past s g -> step_ok past s (Device_step sector_size q j s).
Proof.
  intros I. unfold Device_step. destruct (qpairs s !! q) as [cs|] eqn:Hq; [|done]. destruct (cs !! j) as [c|] eqn:Hj; [|done].
  destruct (completed c) eqn:Hc; [done|]. assert (Hqs : queue q s = cs) by (unfold queue; by rewrite Hq).
  destruct (inv_qpairs _ _ _ _ _ I q) as (sid & sv & i & x & Hsv & Hx & ->); [rewrite Hqs; by intros ->|].
  destruct (inv_servers _ _ _ _ _ I sid sv Hsv) as (Hlen & Hsl & Hpc). destruct (Hsl i x Hx) as (l & Hl & Hidle & Hfl).
  assert (Hi := lookup_lt_Some _ _ _ Hx). rewrite Hlen in Hi.
  destruct (decide (leader x = None \/ busy (at_ sv) = Some i)) as [Hd|Hd].
  { destruct (Hidle Hd) as [_ He]. rewrite Hqs in He. rewrite He in Hj. by destruct j. }
  destruct Hfl as [Hf (lpn & size & b & Hlay & Hqc & Hown)]; [intros E; apply Hd; by left|intros E; apply Hd; by right|]. rewrite Hqs in Hqc. clear Hqs. subst cs.
  destruct j as [|j]; [|done]. injection Hj as <-. cbn in Hc. subst b. cbn [completed lsn sector_num insert list_insert].
  destruct Hlay as (sq & bs & Hm & -> & Hsz & Hmod & Ht).
  assert (Hbs : takeZ (len bs / sector_size * sector_size) (default [] (buffer s !! qid sid i)) = bs).
  { rewrite (pages_sectors _ Hsec Hdiv) by (lia || done). destruct (sector_page _ Hsec Hdiv) as [HK _].
    replace (len bs / PAGESIZE * K * sector_size) with (PAGESIZE * (len bs / PAGESIZE)) by (transitivity (len bs / PAGESIZE * (K * sector_size)); [rewrite HK|]; lia).
    assert (He := Z.div_mod (len bs) PAGESIZE ltac:(done)). rewrite Hmod, Z.add_0_r in He. by rewrite <- He. }
  rewrite Hbs. set (c := {| lsn := u64 (lpn * K); sector_num := len bs / sector_size; completed := true |}).
  set (s' := set_qpairs _ _). assert (Hqq : forall q, queue q s' = if decide (qid sid i = q) then [c] else queue q s).
  { intros q. unfold queue. cbn. destruct (decide (qid sid i = q)) as [->|]; [by rewrite lookup_insert_eq | by rewrite lookup_insert_ne]. }
  assert (Hu : roomy past -> u64 (lpn * K) = lpn * K).
  { intros Hr. destruct (Hown Hr) as [(H1 & H2 & _) _], (inv_offset _ _ _ _ _ I Hr) as [[_ H3] _], (sector_page _ Hsec Hdiv) as [_ HK].
    assert (0 <= len bs / PAGESIZE) by (apply Z.div_pos; done || lia).
    change LOGGING_START_LPN with 1 in *. change MAX_LPN_FOR_LOGGING with 2097152 in *. rewrite page_size in HK. apply u64_small. rewrite page_size. nia. }
  assert (Hlb : length (sectors sector_size bs) = Z.to_nat (len bs / PAGESIZE * K)).
  { rewrite sectors_length by (apply len_nonneg || done). by rewrite (pages_sectors _ Hsec Hdiv) by (lia || done). }
  assert (HK : keeps (not_slot sid i) past s g (past ++ []) s' g).
  { rewrite app_nil_r. split; try done.
    - intros sid' k HR Hk. split; [done|]. rewrite Hqq, decide_False; [done|]. intros [-> ->]%queue_id_inj; done.
    - intros Hr p y Hp Ho Hy. cbn. rewrite lookup_union_r; [done|]. apply lookup_map_seqZ_None. rewrite Hlb, Hu by done.
      destruct (Hown Hr) as [(H1 & H2 & H3) _]. destruct (sector_page _ Hsec Hdiv) as [_ HK].
      assert (Hn : ~ lpn <= p < lpn + len bs / PAGESIZE).
      { intros Hin. specialize (H3 p Hin). destruct Ho as [Ho|(sid' & i' & HR & Ho)]; congruence. }
      assert (0 <= len bs / PAGESIZE) by (apply Z.div_pos; done || lia). rewrite Z2Nat.id by nia. nia. }
  exists g. eapply (inv_light I HK); [|done..|apply (inv_seq _ _ _ _ _ I)|done|set_solver| |].
  - intros sid0 sv0 H0. cbn in H0. destruct (decide (sid0 = sid)) as [->|Hne].
    2:{ eapply keeps_server; [done|done|exact HK|intros; congruence|done|]. by apply (inv_servers _ _ _ _ _ I). }
    rewrite Hsv in H0. injection H0 as <-. split_and!; [done| |].
    + intros k y Hy. assert (Hk := lookup_lt_Some _ _ _ Hy). destruct (decide (k = i)) as [->|Hki]; [|apply (keeps_slot _ _ Hsec Hdiv HK sid (at_ sv)); [congruence|lia|done|by apply Hsl]].
      rewrite Hx in Hy. injection Hy as <-. exists l. split; [done|]. split; [done|]. intros _ _. split; [done|]. exists lpn, (len bs), true.
      split; [by exists sq, bs|]. split; [by rewrite Hqq, decide_True|]. rewrite app_nil_r. intros Hr. destruct (Hown Hr) as [Ho _]. split; [exact Ho|]. intros _.
      cbn [buffer s' set_qpairs set_disk]. change (buffer s') with (buffer s). rewrite Ht. intros k y Hk'. cbn. apply lookup_union_Some_l. rewrite Hu by done. by apply lookup_map_seqZ_Some_inv.
    + apply (keeps_pc _ _ Hsec Hdiv HK); [done| |done|done]. intros k Hk [= ->]. apply Hd. by right.
  - intros q. rewrite Hqq. case_decide as Hd'; [intros _|by apply (inv_qpairs _ _ _ _ _ I)]. exists sid, sv, i, x. done.
  - rewrite app_nil_r. apply (inv_offset _ _ _ _ _ I).
Qed.

(** *** The clients *)
Lemma stop_ok past s g : Inv past s g -> step_ok past s (Step [] (set_stop true s)).
Proof.
  intros I. assert (HK : keeps (fun _ => True) past s g (past ++ []) (set_stop true s) g) by (apply keeps_same; [by rewrite app_nil_r|done..]).
  exists g. eapply (inv_light I HK); [by apply (servers_kept I HK)|done..|apply (inv_seq _ _ _ _ _ I)|done|set_solver|apply (inv_qpairs _ _ _ _ _ I)|].
  rewrite app_nil_r. apply (inv_offset _ _ _ _ _ I).
Qed.

Lemma wal_ok past s g n : Inv past s g -> step_ok past s (Step [] (set_seq (u32 n) s)).
Proof.
  intros I. assert (HK : keeps (fun _ => True) past s g (past ++ []) (set_seq (u32 n) s) g) by (apply keeps_same; [by rewrite app_nil_r|done..]).
  exists g. eapply (inv_light I HK); [by apply (servers_kept I HK)|done..|apply u32_range|done|set_solver|apply (inv_qpairs _ _ _ _ _ I)|].
  rewrite app_nil_r. apply (inv_offset _ _ _ _ _ I).
Qed.

Lemma log_call_ok past s g t a d : Inv past s g -> step_ok past s (AddLog_call t a d s).
Proof.
  intros I. unfold AddLog_call. destruct (clients s !! t) as [?|] eqn:Ht; [done|]. destruct (heap s !! a) as [?|] eqn:Ha; [done|].
  assert (Hra : roles g !! a = None) by (apply eq_None_not_Some; rewrite <- (inv_dom _ _ _ _ _ I); by rewrite Ha).
  set (g' := {| roles := <[a := R_client t]> (roles g); own := own g |}). set (s' := set_clients _ _). set (past' := past ++ [Called (calls s) d]).
  assert (HK : keeps (fun _ => True) past s g past' s' g').
  { split; try done; [by apply roomy_app|]. intros b ρ _ Hb. cbn. rewrite !lookup_insert_ne by congruence. done. }
  exists g'. split.
  - apply (inv_seq _ _ _ _ _ I).
  - intros b. cbn. destruct (decide (b = a)) as [->|Hba]; [rewrite !lookup_insert_eq; split; by eexists|]. rewrite !lookup_insert_ne by done. apply (inv_dom _ _ _ _ _ I).
  - destruct (inv_queue _ _ _ _ _ I) as (lq & Hlq). exists lq. eapply keeps_linked in Hlq; [exact (proj1 Hlq)|exact HK|done].
  - intros t' b p Hb. cbn in Hb |- *. destruct (decide (t = t')) as [<-|Hne].
    + rewrite lookup_insert_eq in Hb. injection Hb as <- _. by rewrite lookup_insert_eq.
    + rewrite lookup_insert_ne in Hb by done. assert (Hb' := inv_clients _ _ _ _ _ I t' b p Hb). rewrite lookup_insert_ne; congruence.
  - by apply (servers_kept I HK).
  - intros b Hb. assert (Hb' := inv_handed _ _ _ _ _ I b Hb). cbn. rewrite lookup_insert_ne; congruence.
  - apply (inv_qpairs _ _ _ _ _ I).
  - intros b r Hb. cbn in Hb |- *. destruct (decide (a = b)) as [<-|Hne].
    + rewrite lookup_insert_eq in Hb. injection Hb as <-. split; [cbn; lia|]. apply elem_of_app. right. by left.
    + rewrite lookup_insert_ne in Hb by done. destruct (inv_calls _ _ _ _ _ I b r Hb). split; [lia|]. apply elem_of_app. by left.
  - assert (Hnew : forall b r, heap s' !! b = Some r -> b = a /\ call r = calls s \/ b <> a /\ heap s !! b = Some r).
    { intros b r Hb. cbn in Hb. destruct (decide (a = b)) as [<-|Hne]; [rewrite lookup_insert_eq in Hb; injection Hb as <-; by left|].
      rewrite lookup_insert_ne in Hb by done. right. split; congruence. }
    intros b b' r r' [[-> H1]|[_ H1]]%Hnew [[-> H2]|[_ H2]]%Hnew Hc; [done| | |by eapply (inv_inj _ _ _ _ _ I)].
    + destruct (inv_calls _ _ _ _ _ I b' r' H2). lia.
    + destruct (inv_calls _ _ _ _ _ I b r H1). lia.
  - intros n Hn. apply elem_of_app in Hn as [Hn|Hn%list_elem_of_singleton]; [|done].
    destruct (inv_completed _ _ _ _ _ I n Hn) as (H1 & H2 & d' & H3 & H4). split_and!; [cbn; lia| |].
    + intros b r Hb Hc. cbn in Hb |- *. destruct (decide (a = b)) as [<-|Hne]; [rewrite lookup_insert_eq in Hb; injection Hb as <-; cbn in Hc; lia|].
      rewrite lookup_insert_ne in Hb by done. rewrite lookup_insert_ne by done. by eapply H2.
    + exists d'. split; [apply elem_of_app; by left|]. intros Hr. eapply keeps_stored; [done|done|exact HK|done|]. apply H4. by eapply roomy_app.
  - unfold past'. rewrite completions_app, app_nil_r. apply (inv_once _ _ _ _ _ I).
  - intros Hr%roomy_app. apply (inv_offset _ _ _ _ _ I Hr).
Qed.

(** The turns of the loop of [AddLog]: the request is the client's own until the
    exchange succeeds. *)
Lemma push_ok past s g t choice : Inv past s g -> step_ok past s (AddLog_push t choice s).
Proof.
  intros I. unfold AddLog_push. destruct (clients s !! t) as [[a p]|] eqn:Ht; [|done].
  assert (Hra := inv_clients _ _ _ _ _ I t a p Ht). unfold access.
  destruct (heap s !! a) as [r|] eqn:Ha; [|exfalso; assert (Hs : is_Some (heap s !! a)) by (apply (inv_dom _ _ _ _ _ I); by eexists); rewrite Ha in Hs; by destruct Hs].
  set (r' := with_prev p r). destruct (inv_queue _ _ _ _ _ I) as (lq & Hlq).
  assert (Hcells : forall b x, <[a := r']> (heap s) !! b = Some x -> exists x0, heap s !! b = Some x0 /\ call x = call x0 /\ data_ x = data_ x0).
  { intros b x Hb. destruct (decide (a = b)) as [<-|Hne]; [rewrite lookup_insert_eq in Hb; injection Hb as <-; by exists r|].
    rewrite lookup_insert_ne in Hb by done. by exists x. }
  assert (Hdom : forall b m, is_Some (<[a := r']> (heap s) !! b) <-> is_Some (<[a := m]> (roles g) !! b)).
  { intros b m. destruct (decide (a = b)) as [<-|Hne]; [rewrite !lookup_insert_eq; split; by eexists|]. rewrite !lookup_insert_ne by done. apply (inv_dom _ _ _ _ _ I). }
  assert (HKS : forall g' s', own g' = own g -> (forall b ρ, ρ <> R_client t -> roles g !! b = Some ρ -> roles g' !! b = Some ρ) ->
    heap s' = <[a := r']> (heap s) -> buffer s' = buffer s -> qpairs s' = qpairs s -> disk s' = disk s -> current_offset s' = current_offset s ->
    keeps (fun ρ => ρ <> R_client t) past s g (past ++ []) s' g').
  { intros g' s' Hown Hro Hh Hb Hq Hd Ho. rewrite app_nil_r. split; try done; intros; rewrite ?Hown, ?Hb, ?Hd, ?Ho; try done; [|unfold queue; by rewrite Hq].
    split; [by apply Hro|]. rewrite Hh, lookup_insert_ne; [done|]. congruence. }
  assert (Hhanded : forall b, b ∈ handed s -> a <> b) by (intros b Hb ->; assert (Hb' := inv_handed _ _ _ _ _ I b Hb); congruence).
  assert (Hself : roles g = <[a := R_client t]> (roles g)) by (symmetry; by apply insert_id).
  assert (Hnil : NoDup (completions [])) by constructor.
  case_decide as Hsub; [destruct choice|].
  - set (g' := {| roles := <[a := R_queue]> (roles g); own := own g |}). exists g'.
    set (s' := set_submission _ _). assert (HK : keeps (fun ρ => ρ <> R_client t) past s g (past ++ []) s' g').
    { apply HKS; try done. intros b ρ Hne Hb. cbn. rewrite lookup_insert_ne; congruence. }
    eapply (inv_requests I HK); [apply (servers_kept I HK); [done|by split]|apply (inv_seq _ _ _ _ _ I)|done|exact Hcells|intros b; apply Hdom| | | | |apply (inv_qpairs _ _ _ _ _ I)|set_solver|done|].
    + assert (Hal : a ∉ lq) by (intros Hin; destruct Hlq as (_ & _ & Hro); specialize (Hro a Hin); congruence).
      exists (a :: lq). destruct (keeps_linked _ _ HK R_queue (submission_queue s) lq) as [(H1 & H2 & H3) _]; [done|exact Hlq|]. split_and!.
      * split; [done|]. exists r'. split; [cbn; by rewrite lookup_insert_eq|]. cbn in Hsub. change (prev r') with p. by rewrite <- Hsub.
      * by constructor.
      * intros b [->|Hb]%elem_of_cons; [cbn; by rewrite lookup_insert_eq|by apply H3].
    + intros t' b q Hb. cbn in Hb |- *. apply lookup_delete_Some in Hb as [Hne Hb]. assert (Hb' := inv_clients _ _ _ _ _ I t' b q Hb).
      rewrite lookup_insert_ne; congruence.
    + intros b Hb. cbn. rewrite lookup_insert_ne by auto. by apply (inv_handed _ _ _ _ _ I).
    + intros b _ Hb. cbn. rewrite lookup_insert_ne; congruence.
    + rewrite app_nil_r. apply (inv_offset _ _ _ _ _ I).
  - exists g. assert (HK := HKS g (store a r' s) eq_refl ltac:(done) eq_refl eq_refl eq_refl eq_refl eq_refl).
    eapply (inv_requests I HK); [apply (servers_kept I HK); [done|by split]|apply (inv_seq _ _ _ _ _ I)|done|exact Hcells|rewrite Hself; intros b; apply Hdom| |apply (inv_clients _ _ _ _ _ I)|apply (inv_handed _ _ _ _ _ I)|done|apply (inv_qpairs _ _ _ _ _ I)|set_solver|done|].
    + exists lq. by apply (keeps_linked _ _ HK).
    + rewrite app_nil_r. apply (inv_offset _ _ _ _ _ I).
  - exists g. set (s' := set_clients _ _). assert (HK := HKS g s' eq_refl ltac:(done) eq_refl eq_refl eq_refl eq_refl eq_refl).
    eapply (inv_requests I HK); [apply (servers_kept I HK); [done|by split]|apply (inv_seq _ _ _ _ _ I)|done|exact Hcells|rewrite Hself; intros b; apply Hdom| | |apply (inv_handed _ _ _ _ _ I)|done|apply (inv_qpairs _ _ _ _ _ I)|set_solver|done|].
    + exists lq. by apply (keeps_linked _ _ HK).
    + intros t' b q Hb. cbn in Hb. destruct (decide (t = t')) as [<-|Hne]; [rewrite lookup_insert_eq in Hb; by injection Hb as <- _|].
      rewrite lookup_insert_ne in Hb by done. by eapply (inv_clients _ _ _ _ _ I).
    + rewrite app_nil_r. apply (inv_offset _ _ _ _ _ I).
Qed.

Lemma consume_ok past s g a : Inv past s g -> step_ok past s (consume a s).
Proof.
  intros I. unfold consume, access. case_decide as Hin; [|done]. assert (Hra := inv_handed _ _ _ _ _ I a Hin).
  destruct (heap s !! a) as [r|] eqn:Ha; [|exfalso; assert (Hs : is_Some (heap s !! a)) by (apply (inv_dom _ _ _ _ _ I); by eexists); rewrite Ha in Hs; by destruct Hs].
  set (g' := {| roles := delete a (roles g); own := own g |}). set (s' := set_handed _ _). set (past' := past ++ [Returned (call r)]).
  assert (HK : keeps (fun ρ => ρ <> R_handed) past s g past' s' g').
  { split; try done; [by apply roomy_app|]. intros b ρ HR Hb. cbn. rewrite !lookup_delete_ne by congruence. done. }
  exists g'. eapply (inv_requests I HK); [apply (servers_kept I HK); [done|by split]|apply (inv_seq _ _ _ _ _ I)|done| | | | | | |apply (inv_qpairs _ _ _ _ _ I)|set_solver|constructor|].
  - intros b x Hb. cbn in Hb. apply lookup_delete_Some in Hb as [_ Hb]. by exists x.
  - intros b. cbn. destruct (decide (a = b)) as [<-|Hne]; [rewrite !lookup_delete_eq; split; by intros []|]. rewrite !lookup_delete_ne by done. apply (inv_dom _ _ _ _ _ I).
  - destruct (inv_queue _ _ _ _ _ I) as (lq & Hlq). exists lq. by apply (keeps_linked _ _ HK).
  - intros t b p Hb. assert (Hb' := inv_clients _ _ _ _ _ I t b p Hb). cbn. rewrite lookup_delete_ne; congruence.
  - intros b [Hb Hne%not_elem_of_singleton]%elem_of_difference. cbn. rewrite lookup_delete_ne by done. by apply (inv_handed _ _ _ _ _ I).
  - intros b Hb Hh. cbn in Hb |- *. rewrite lookup_delete_ne; [done|]. intros <-. rewrite lookup_delete_eq in Hb. by destruct Hb.
  - intros Hr%roomy_app. apply (inv_offset _ _ _ _ _ I Hr).
Qed.

Lemma step_keeps x past s g : Inv past s g -> step_ok past s (step x s).
Proof.
  intros I. destruct x as [t a d|t choice|sid choice|q j|a|n|]; cbn [SPDKPipeline.step].
  - by eapply log_call_ok.
  - by eapply push_ok.
  - unfold server_step. destruct (servers s !! sid) as [sv|] eqn:Hsv; [|done].
    destruct (at_ sv) eqn:Ha; [by eapply top_ok|by eapply exchange_ok|by eapply copy_ok|by eapply claim_ok|by eapply wrap_ok|by eapply reset_ok|
      by eapply submit_ok|by eapply poll_ok|by eapply release_ok|by eapply idle_ok|done].
  - by eapply device_ok.
  - by eapply consume_ok.
  - by eapply wal_ok.
  - by eapply stop_ok.
Qed.
End steps.
