(* ===== verification/SPDKPipelineSpec.v ===== *)
(** * What the writes in flight promise

    Every schedule of clients, servers, the device and the consumer is a run of
    the machine of [SPDKPipeline].  A request is acknowledged once its batch is
    on the device, once, and stays there; the only assertion that can fail is
    the one about the size of a batch.  When the log area wraps around, two
    batches can be given the same pages. *)

From S2P Require Import Prelude Util LogFormat LogRoundtrip LogServer Machine SPDKPipeline SPDKPipelineInv SPDKPipelineSteps.
Local Open Scope Z_scope.

(** Reading back [n] sectors from [lsn] on. *)
Definition read_sectors (s : pipeline) (lsn n : Z) : list Z := mjoin ((fun j => default [] (disk s !! (lsn + j))) <$> seqZ 0 n).

Section runs.
Context (sector_size : Z) (pipeline_num : nat) (Hsec : 0 < sector_size) (Hdiv : (sector_size | PAGESIZE)).
Notation step := (step sector_size pipeline_num).
Notation K := (PAGESIZE / sector_size).
Implicit Types (past evs : list event) (s : pipeline).

Lemma sectors_join bs : len bs mod sector_size = 0 -> mjoin (sectors sector_size bs) = bs.
Proof.
  intros Hm. unfold sectors. apply join_reshape. rewrite sum_list_replicate. unfold len in *. assert (He := Z.div_mod (Z.of_nat (length bs)) sector_size ltac:(lia)).
  assert (0 <= Z.of_nat (length bs) / sector_size) by (apply Z.div_pos; lia). apply Nat2Z.inj. rewrite Nat2Z.inj_mul, !Z2Nat.id by lia. lia.
Qed.

Lemma on_disk_read s lpn bs : len bs mod PAGESIZE = 0 -> on_disk sector_size s lpn bs -> read_sectors s (lpn * K) (len bs / sector_size) = bs.
Proof.
  intros Hm Hd. assert (Hms : len bs mod sector_size = 0).
  { apply Z.mod_divide; [lia|]. etrans; [exact Hdiv|]. by apply Z.mod_divide. }
  rewrite <- (sectors_join bs Hms) at 2. unfold read_sectors. f_equal. apply list_eq. intros j. rewrite list_lookup_fmap.
  assert (Hn : 0 <= len bs / sector_size) by (apply Z.div_pos; [apply len_nonneg|done]).
  destruct (sectors sector_size bs !! j) as [c|] eqn:Hj.
  - assert (Hlt := lookup_lt_Some _ _ _ Hj). rewrite sectors_length in Hlt by apply len_nonneg.
    rewrite lookup_seqZ_lt by lia. cbn [fmap option_fmap option_map]. rewrite Z.add_0_l. by rewrite (Hd j c Hj).
  - apply lookup_ge_None in Hj. rewrite sectors_length in Hj by apply len_nonneg. by rewrite lookup_seqZ_ge by lia.
Qed.

Lemma pipeline_inv_new server_num : Inv sector_size pipeline_num [] (new_pipeline LOGGING_START_LPN server_num pipeline_num) {| roles := ∅; own := fun _ => None |}.
Proof.
  split; cbn; try done.
  - intros a. rewrite !lookup_empty. split; by intros [].
  - exists []. split_and!; [done|constructor|set_solver].
  - intros sid sv [-> _]%lookup_replicate. split_and!; [cbn; by rewrite length_replicate| |done]. intros i x [-> _]%lookup_replicate.
    exists []. split; [split_and!; [done|constructor|set_solver]|]. by split.
  - intros n Hn. by apply elem_of_nil in Hn.
  - constructor.
Qed.

Lemma run_keeps l past s g : Inv sector_size pipeline_num past s g ->
  match run step l s with
  | Disabled => True
  | Fault e => exists l1 evs s1, l1 `prefix_of` l /\ run step l1 s = Step evs s1 /\ too_big s1 e
  | Step evs s' => exists g', Inv sector_size pipeline_num (past ++ evs) s' g'
  end.
Proof.
  revert past s g. induction l as [|a l IH]; intros past s g I; cbn [run]; [exists g; by rewrite app_nil_r|].
  assert (Hs := step_keeps _ _ Hsec Hdiv a past s g I). destruct (step a s) as [|e|evs s1] eqn:Ha; [done| |].
  - exists [], [], s. split_and!; [apply prefix_nil|done|exact Hs].
  - destruct Hs as [g1 I1]. specialize (IH _ _ _ I1). destruct (run step l s1) as [|e|evs' s2] eqn:Hl; [done| |by rewrite app_assoc].
    destruct IH as (l1 & evs1 & s2 & Hp & Hr & Hb). exists (a :: l1), (evs ++ evs1), s2. split_and!; [by apply prefix_cons|cbn [run]; by rewrite Ha, Hr|done].
Qed.

Lemma pipeline_run_inv {l server_num evs s} : run step l (new_pipeline LOGGING_START_LPN server_num pipeline_num) = Step evs s ->
  exists g, Inv sector_size pipeline_num evs s g.
Proof. intros Hr. assert (H := run_keeps l [] _ _ (pipeline_inv_new server_num)). by rewrite Hr in H. Qed.
End runs.

(** C15: As long as the log area has room, the bytes of every request that was
    acknowledged are on the device, in the pages of its batch: other writes,
    whatever is in flight and in whatever order the device executes it, do not
    touch them, and the buffer was not reused too early. *)
Theorem pipeline_durable sector_size server_num pipeline_num l evs s n :
  0 < sector_size -> (sector_size | PAGESIZE) ->
  run (step sector_size pipeline_num) l (new_pipeline LOGGING_START_LPN server_num pipeline_num) = Step evs s ->
  (forall lpn k, Taken lpn k ∈ evs -> lpn + k <= MAX_LPN_FOR_LOGGING) -> Completed n ∈ evs ->
  exists d lpn seq ds bs, Called n d ∈ evs /\ d ∈ ds /\ MemCopy seq ds = Ok bs /\
    read_sectors s (lpn * (PAGESIZE / sector_size)) (len bs / sector_size) = bs.
Proof.
  intros Hsec Hdiv Hr Hroom Hn. destruct (pipeline_run_inv _ _ Hsec Hdiv Hr) as [g I].
  destruct (inv_completed _ _ _ _ _ I n Hn) as (_ & _ & d & Hd & Hst). destruct (Hst Hroom) as (lpn & sq & ds & bs & Hm & Hin & Hp & Ho & _).
  exists d, lpn, sq, ds, bs. split_and!; [done..|]. by apply on_disk_read.
Qed.

(** Every request is acknowledged at most once, with its data as the client gave
    it. *)
Theorem pipeline_acknowledges_once sector_size server_num pipeline_num l evs s :
  0 < sector_size -> (sector_size | PAGESIZE) ->
  run (step sector_size pipeline_num) l (new_pipeline LOGGING_START_LPN server_num pipeline_num) = Step evs s ->
  NoDup (completions evs) /\ forall n, Completed n ∈ evs -> exists d, Called n d ∈ evs.
Proof.
  intros Hsec Hdiv Hr. destruct (pipeline_run_inv _ _ Hsec Hdiv Hr) as [g I]. split; [apply (inv_once _ _ _ _ _ I)|].
  intros n Hn. destruct (inv_completed _ _ _ _ _ I n Hn) as (_ & _ & d & Hd & _). by exists d.
Qed.

(** A batch that [MemCopy] refuses has more than 1,000,000 bytes. *)
Lemma MemCopy_refuses sq ds e : 0 <= sq < 2 ^ 32 -> MemCopy sq ds = Crash e -> 1000000 < payload ds.
Proof.
  intros Hs Hc. destruct (Z.lt_ge_cases 1000000 (payload ds)) as [|Hle]; [done|]. exfalso.
  destruct (copy_requests_ok (fun _ => True) sq Hs I ds _ _ _ filled_start Hle) as (bs & l & k & Hok & _ & HF & _).
  rewrite mem_copy_pad, Hok in Hc. cbn [mbind res_bind] in Hc. destruct (pad_page_buf _ _ _ HF) as [_ Hm]. by rewrite Hm in Hc.
Qed.

(** C16: No schedule crashes, however many clients, servers and writes in flight
    there are, but for one reason: when a server takes the queue, more than
    1,000,000 bytes wait in it.  In particular no request is used after the
    consumer has deleted it. *)
Theorem pipeline_fails_only_when_full sector_size server_num pipeline_num l e :
  0 < sector_size -> (sector_size | PAGESIZE) ->
  run (step sector_size pipeline_num) l (new_pipeline LOGGING_START_LPN server_num pipeline_num) = Fault e ->
  e = AssertFail /\ exists l1 evs s sid sv i x ds, l1 `prefix_of` l /\
    run (step sector_size pipeline_num) l1 (new_pipeline LOGGING_START_LPN server_num pipeline_num) = Step evs s /\
    servers s !! sid = Some sv /\ at_ sv = V_copy i /\ slots sv !! i = Some x /\
    batch (S (size (heap s))) (heap s) (leader x) = Ok ds /\ 1000000 < payload ds.
Proof.
  intros Hsec Hdiv Hr. assert (H := run_keeps _ _ Hsec Hdiv l [] _ _ (pipeline_inv_new sector_size pipeline_num Hsec Hdiv server_num)). rewrite Hr in H.
  destruct H as (l1 & evs & s & Hp & Hl1 & He & sid & sv & i & x & ds & H1 & H2 & H3 & H4 & H5). split; [done|].
  destruct (pipeline_run_inv _ _ Hsec Hdiv Hl1) as [g I]. exists l1, evs, s, sid, sv, i, x, ds. split_and!; [done..|].
  by apply (MemCopy_refuses (logfile_seq_ s) ds AssertFail (inv_seq _ _ _ _ _ I)).
Qed.

(** Once the servers have ended, which each does when no server has taken
    anything for 30 seconds, nothing is acknowledged any more: neither what is in
    flight nor what is logged later. *)
Theorem ended_servers_acknowledge_nothing sector_size pipeline_num l s evs s' :
  Forall (fun sv => at_ sv = V_done) (servers s) -> run (step sector_size pipeline_num) l s = Step evs s' -> completions evs = [].
Proof.
  revert s evs. induction l as [|a l IH]; intros s evs Hd Hr; cbn [run] in Hr; [by injection Hr as <- _|].
  destruct (step _ _ a s) as [|e|evs1 s1] eqn:Ha; [done..|]. destruct (run _ l s1) as [|e|evs2 s2] eqn:Hl; [done..|]. injection Hr as <- <-.
  rewrite completions_app. assert (Hs : servers s1 = servers s /\ completions evs1 = []).
  { destruct a as [t b d|t choice|sid choice|q j|b|n|]; cbn [step] in Ha; unfold AddLog_call, AddLog_push, server_step, Device_step, consume, access in Ha.
    3:{ destruct (servers s !! sid) as [sv|] eqn:Hsv; [|done]. rewrite Forall_lookup in Hd. by rewrite (Hd _ _ Hsv) in Ha. }
    all: repeat case_match; by simplify_eq. }
  destruct Hs as [Hs ->]. apply (IH s1 evs2); [by rewrite Hs|done].
Qed.

(** ** Runs *)

(** A client's call, up to the exchange. *)
Definition logs (t a : nat) (d : list Z) : list action := [AddLog t a d; Client t true].

(** Two requests in a batch, a third while it is in flight, in the second slot;
    the device executes the second write first. *)
Definition demo : list action :=
  logs 0 10 [1; 2] ++ logs 1 11 [3] ++ replicate 6 (Server 0 false) ++ logs 0 12 [4; 5; 6] ++ replicate 2 (Server 0 false) ++ [Server 0 false] ++
  replicate 7 (Server 0 false) ++ [Device 1 0] ++ replicate 8 (Server 0 false) ++ [Device 0 0] ++ replicate 12 (Server 0 false) ++ [GetCompletedRequest 12].
Definition demo_result : list event * pipeline :=
  match run (step 512 2) demo (new_pipeline LOGGING_START_LPN 1 2) with Step e s => (e, s) | _ => ([], new_pipeline 0 0 0) end.

(** Two servers claim the last pages, both see the end of the area, both reset
    the offset, the second when the first has already gone on: page 1 is given
    to the batches of the requests 2 and 3, and what was acknowledged is
    overwritten. *)
Definition wrap : list action :=
  logs 0 10 [1] ++ replicate 4 (Server 0 false) ++ logs 0 11 [2] ++ replicate 4 (Server 1 false) ++ [Server 0 false; Server 1 false] ++
  (* server 1 resets, writes, and takes the next request *)
  replicate 2 (Server 1 false) ++ [Device 1 0] ++ replicate 5 (Server 1 false) ++ logs 0 12 [7] ++ replicate 6 (Server 1 false) ++ [Device 1 0] ++ replicate 2 (Server 1 false) ++
  (* server 0 resets *)
  replicate 2 (Server 0 false) ++ [Device 0 0] ++ replicate 5 (Server 0 false) ++ logs 0 13 [8] ++ replicate 6 (Server 0 false) ++ [Device 0 0].
Definition wrap_result : list event * pipeline :=
  match run (step 4096 1) wrap (new_pipeline MAX_LPN_FOR_LOGGING 2 1) with Step e s => (e, s) | _ => ([], new_pipeline 0 0 0) end.
Definition page_of (d : list Z) : list Z := match MemCopy 0 [d] with Ok bs => bs | Crash _ => [] end.

(** The wrap-around is a race: request 2 is acknowledged, and then its page is
    given to request 3, whose write leaves nothing of it on the device. *)
Theorem wrap_race_overwrites :
  run (step 4096 1) wrap (new_pipeline MAX_LPN_FOR_LOGGING 2 1) = Step wrap_result.1 wrap_result.2 /\
  Called 2 [7] ∈ wrap_result.1 /\ Completed 2 ∈ wrap_result.1 /\ omap (fun e => match e with Taken lpn _ => Some lpn | _ => None end) wrap_result.1 = [2097152; 2097153; 1; 1] /\
  disk wrap_result.2 !! 1 = Some (page_of [8]) /\ map_Forall (fun _ p => p <> page_of [7]) (disk wrap_result.2).
Proof.
  split; [by vm_compute|]. split; [apply (bool_decide_unpack _); by vm_compute|]. split; [apply (bool_decide_unpack _); by vm_compute|].
  split; [by vm_compute|]. split; [by vm_compute|]. apply (bool_decide_unpack _). by vm_compute.
Qed.

(** A queue with more than a buffer holds. *)
Lemma too_much d : 1047548 <= len d -> run (step 4096 1) (logs 0 10 d ++ replicate 3 (Server 0 false)) (new_pipeline LOGGING_START_LPN 1 1) = Fault AssertFail.
Proof.
  intros Hd. set (s0 := new_pipeline LOGGING_START_LPN 1 1).
  set (s1 := {| submission_queue := None; current_offset := 1; logfile_seq_ := 0; stop_ := false; heap := {[ 10%nat := {| data_ := d; prev := None; call := 0 |} ]};
    buffer := ∅; qpairs := ∅; disk := ∅; handed := ∅; clients := ∅;
    servers := [{| at_ := V_copy 0; slots := [{| leader := Some 10%nat; completion_flag := true |}] |}]; calls := 1 |}).
  change (logs 0 10 d ++ replicate 3 (Server 0 false)) with ((logs 0 10 d ++ replicate 2 (Server 0 false)) ++ [Server 0 false]).
  rewrite run_app. replace (run _ (logs 0 10 d ++ _) s0) with (Step [Called 0 d] s1) by reflexivity.
  cbn [run step server_step servers lookup list_lookup at_ s1]. unfold copy. cbn [slots lookup list_lookup leader heap].
  replace (batch _ _ _) with (Ok [d]) by reflexivity. cbn [mbind res_bind]. unfold MemCopy. cbn [copy_requests]. unfold copy_request, offset. cbn [buf].
  change (MAX_BUFFER_SIZE - 4 * (MAX_BUFFER_SIZE / PAGESIZE)) with 1047552. assert (Hb : (len (@nil Z) + len d + 4 <? 1047552) = false) by (apply Z.ltb_ge; change (len (@nil Z)) with 0; lia).
  by rewrite Hb.
Qed.

Lemma pipeline_durable_witness :
  run (step 512 2) demo (new_pipeline LOGGING_START_LPN 1 2) = Step demo_result.1 demo_result.2 /\
  exists d lpn seq ds bs, Called 0 d ∈ demo_result.1 /\ d ∈ ds /\ MemCopy seq ds = Ok bs /\ read_sectors demo_result.2 (lpn * 8) (len bs / 512) = bs.
Proof.
  assert (Hr : run (step 512 2) demo (new_pipeline LOGGING_START_LPN 1 2) = Step demo_result.1 demo_result.2) by (by vm_compute). split; [exact Hr|].
  apply (pipeline_durable 512 1 2 demo demo_result.1 demo_result.2 0); [done|by exists 8|exact Hr| |].
  - assert (He : forallb (fun e => match e with Taken lpn k => lpn + k <=? MAX_LPN_FOR_LOGGING | _ => true end) demo_result.1 = true) by (by vm_compute).
    rewrite forallb_forall in He. intros lpn k Hin. apply list_elem_of_In in Hin. apply He in Hin. by apply Z.leb_le.
  - apply (bool_decide_unpack _). by vm_compute.
Defined.

Lemma pipeline_acknowledges_once_witness :
  run (step 512 2) demo (new_pipeline LOGGING_START_LPN 1 2) = Step demo_result.1 demo_result.2 /\
  NoDup (completions demo_result.1) /\ forall n, Completed n ∈ demo_result.1 -> exists d, Called n d ∈ demo_result.1.
Proof.
  assert (Hr : run (step 512 2) demo (new_pipeline LOGGING_START_LPN 1 2) = Step demo_result.1 demo_result.2) by (by vm_compute). split; [exact Hr|].
  apply (pipeline_acknowledges_once 512 1 2 demo demo_result.1 demo_result.2); [done|by exists 8|exact Hr].
Defined.

Definition large : list Z := replicate (Z.to_nat 1047548) 0.
Lemma pipeline_fails_only_when_full_witness : len large = 1047548 /\
  AssertFail = AssertFail /\ exists l1 evs s sid sv i x ds, l1 `prefix_of` logs 0 10 large ++ replicate 3 (Server 0 false) /\
    run (step 4096 1) l1 (new_pipeline LOGGING_START_LPN 1 1) = Step evs s /\
    servers s !! sid = Some sv /\ at_ sv = V_copy i /\ slots sv !! i = Some x /\
    batch (S (size (heap s))) (heap s) (leader x) = Ok ds /\ 1000000 < payload ds.
Proof.
  assert (Hl : len large = 1047548) by (unfold len, large; rewrite length_replicate; lia). split; [exact Hl|].
  apply (pipeline_fails_only_when_full 4096 1 1 (logs 0 10 large ++ replicate 3 (Server 0 false)) AssertFail); [done|by exists 1|].
  apply too_much. lia.
Defined.

(** A server that ends while a write is in flight. *)
Definition ended : pipeline :=
  match run (step 512 1) (logs 0 10 [1] ++ replicate 8 (Server 0 false) ++ [Server 0 true]) (new_pipeline LOGGING_START_LPN 1 1) with Step _ s => s | _ => new_pipeline 0 0 0 end.
Lemma ended_servers_acknowledge_nothing_witness : queue 0 ended <> [] /\ completions [Called 1 [2]] = [].
Proof.
  split; [vm_compute; discriminate|].
  apply (ended_servers_acknowledge_nothing 512 1 (AddLog 0 11 [2] :: Device 0 0 :: replicate 1 Stop) ended [Called 1 [2]]
    (match run (step 512 1) (AddLog 0 11 [2] :: Device 0 0 :: replicate 1 Stop) ended with Step _ s => s | _ => ended end)).
  - repeat constructor.
  - by vm_compute.
Defined.
