(* ===== verification/LogWriter.v ===== *)
(** * The log writers ([ssdlogging/abstract_log_writer.h], [fs_log_writer], [spdk_log_writer])

    A log writer collects what is appended in a buffer of 1 MB and writes it
    out in one piece.  [AbstractLogWriter] is the interface the group-commit
    server uses, [LogWriterLaws] what it promises; the two implementations keep
    it.  The system calls and SPDK are not modelled: a write succeeds, as it is
    asserted to.  [FSLogWriter] has a file of its own, at the end of which a write
    puts the buffer.  All [SPDKLogWriter]s write to namespace 0, each at its own
    [current_offset]: [issued] is the write commands it has given, with their
    sectors; what they make of the namespace together is in
    [GroupCommitDevice].  The time statistics are left out, but for the number of
    syncs. *)

From S2P Require Import Prelude LogFormat.
Local Open Scope Z_scope.

(** ** The interface *)
Class AbstractLogWriter (W : Type) := {
  AppendData : list Z -> W -> res W;
  Sync : W -> res W;
  GetWrittenSize : W -> Z;
  GetSyncNum : W -> Z;
  ResetStat : W -> W;
  current_buffer_offset : W -> Z;
  appended : W -> list Z;  (* the bytes in [buffer], up to the offset *)
  durable : W -> list Z    (* what its syncs have written, in order *)
}.

Class LogWriterLaws (W : Type) `{AbstractLogWriter W} := {
  writer_ok : W -> Prop;
  AppendData_ok w data : writer_ok w -> len (appended w) + len data < MAX_BUFFER_SIZE ->
    exists w', AppendData data w = Ok w' /\ writer_ok w' /\ appended w' = appended w ++ data /\ durable w' = durable w;
  AppendData_full w data : writer_ok w -> MAX_BUFFER_SIZE <= len (appended w) + len data -> AppendData data w = Crash AssertFail;
  ResetStat_ok w : writer_ok w -> writer_ok (ResetStat w) /\ appended (ResetStat w) = appended w /\ durable (ResetStat w) = durable w /\
    GetWrittenSize (ResetStat w) = 0 /\ GetSyncNum (ResetStat w) = 0;
  Sync_ok w : writer_ok w -> exists w' padding, Sync w = Ok w' /\ writer_ok w' /\ appended w' = [] /\
    durable w' = durable w ++ appended w ++ padding
}.

(** ** [FSLogWriter] *)
Record FSLogWriter := { fs_buffer : list Z; file : list Z; fs_written : Z; fs_syncs : Z }.
Definition new_FSLogWriter : FSLogWriter := {| fs_buffer := []; file := []; fs_written := 0; fs_syncs := 0 |}.

Definition FS_AppendData (data : list Z) (w : FSLogWriter) : res FSLogWriter :=
  assertR (len (fs_buffer w) + len data <? MAX_BUFFER_SIZE) ≫= fun _ =>
  Ok {| fs_buffer := fs_buffer w ++ data; file := file w; fs_written := fs_written w; fs_syncs := fs_syncs w |}.

Definition FS_Sync (w : FSLogWriter) : res FSLogWriter :=
  Ok {| fs_buffer := []; file := file w ++ fs_buffer w; fs_written := u64 (fs_written w + len (fs_buffer w)); fs_syncs := fs_syncs w + 1 |}.

Definition FS_ResetStat (w : FSLogWriter) : FSLogWriter :=
  {| fs_buffer := fs_buffer w; file := file w; fs_written := 0; fs_syncs := 0 |}.

#[export] Instance FS_writer : AbstractLogWriter FSLogWriter := {|
  AppendData := FS_AppendData; Sync := FS_Sync; GetWrittenSize := fs_written; GetSyncNum := fs_syncs; ResetStat := FS_ResetStat;
  current_buffer_offset w := len (fs_buffer w); appended := fs_buffer; durable := file |}.

(** ** [SPDKLogWriter] *)

(** [spdk_buffer] is the whole buffer: what is written is rounded up to
    [write_align], with what the buffer held there before.  [start_offset] and
    [current_offset] count sectors. *)
Definition write_align : Z := 4096.
Record SPDKLogWriter := {
  spdk_buffer : list Z; spdk_offset : Z; sector_size : Z; start_offset : Z; current_offset : Z;
  issued : list (Z * list Z); spdk_written : Z; spdk_syncs : Z
}.
Definition new_SPDKLogWriter (sector start : Z) : SPDKLogWriter := {|
  spdk_buffer := zeros MAX_BUFFER_SIZE; spdk_offset := 0; sector_size := sector; start_offset := start; current_offset := start;
  issued := []; spdk_written := 0; spdk_syncs := 0 |}.

Definition SPDK_AppendData (data : list Z) (w : SPDKLogWriter) : res SPDKLogWriter :=
  assertR (spdk_offset w + len data <? MAX_BUFFER_SIZE) ≫= fun _ =>
  Ok {| spdk_buffer := takeZ (spdk_offset w) (spdk_buffer w) ++ data ++ dropZ (spdk_offset w + len data) (spdk_buffer w);
        spdk_offset := spdk_offset w + len data; sector_size := sector_size w; start_offset := start_offset w; current_offset := current_offset w;
        issued := issued w; spdk_written := spdk_written w; spdk_syncs := spdk_syncs w |}.

Definition aligned (offset : Z) : Z := if offset mod write_align =? 0 then offset else (offset / write_align + 1) * write_align.

Definition SPDK_Sync (w : SPDKLogWriter) : res SPDKLogWriter :=
  if sector_size w =? 0 then Crash DivideByZero else
  let offset := aligned (spdk_offset w) in
  let sector_num := offset / sector_size w in
  Ok {| spdk_buffer := spdk_buffer w; spdk_offset := 0; sector_size := sector_size w; start_offset := start_offset w;
        current_offset := u64 (current_offset w + sector_num);
        issued := issued w ++ [(current_offset w, takeZ (sector_num * sector_size w) (spdk_buffer w))];
        spdk_written := u64 (spdk_written w + offset); spdk_syncs := spdk_syncs w + 1 |}.

Definition SPDK_ResetStat (w : SPDKLogWriter) : SPDKLogWriter := {|
  spdk_buffer := spdk_buffer w; spdk_offset := spdk_offset w; sector_size := sector_size w; start_offset := start_offset w;
  current_offset := current_offset w; issued := issued w; spdk_written := 0; spdk_syncs := 0 |}.

(** The bytes of the commands. *)
Definition spdk_bytes (w : SPDKLogWriter) : list Z := concat (issued w).*2.

#[export] Instance SPDK_writer : AbstractLogWriter SPDKLogWriter := {|
  AppendData := SPDK_AppendData; Sync := SPDK_Sync; GetWrittenSize := spdk_written; GetSyncNum := spdk_syncs; ResetStat := SPDK_ResetStat;
  current_buffer_offset := spdk_offset; appended w := takeZ (spdk_offset w) (spdk_buffer w); durable := spdk_bytes |}.

(** ** Both keep the promises *)
#[export] Program Instance FS_laws : LogWriterLaws FSLogWriter := {| writer_ok _ := True |}.
Next Obligation.
  intros w data _ Hl. cbn in *. unfold FS_AppendData. rewrite (proj2 (Z.ltb_lt _ _) Hl). by eexists.
Qed.
Next Obligation.
  intros w data _ Hl. cbn in *. unfold FS_AppendData. by rewrite (proj2 (Z.ltb_ge _ _) Hl).
Qed.
Next Obligation. done. Qed.
Next Obligation.
  intros w _. exists {| fs_buffer := []; file := file w ++ fs_buffer w; fs_written := u64 (fs_written w + len (fs_buffer w)); fs_syncs := fs_syncs w + 1 |}, [].
  cbn. by rewrite app_nil_r.
Qed.

(** The sector size divides 4096. *)
Definition spdk_ok (w : SPDKLogWriter) : Prop :=
  0 < sector_size w /\ write_align mod sector_size w = 0 /\ len (spdk_buffer w) = MAX_BUFFER_SIZE /\ 0 <= spdk_offset w < MAX_BUFFER_SIZE.

Lemma aligned_ok offset : 0 <= offset <= MAX_BUFFER_SIZE -> offset <= aligned offset <= MAX_BUFFER_SIZE /\ aligned offset mod write_align = 0.
Proof.
  unfold aligned. change MAX_BUFFER_SIZE with (256 * write_align). intros H. assert (Hd := Z.div_mod offset write_align ltac:(done)).
  assert (Hm := Z.mod_pos_bound offset write_align ltac:(done)). destruct (Z.eqb_spec (offset mod write_align) 0); [lia|].
  assert (offset / write_align < 256) by (apply Z.div_lt_upper_bound; [done|unfold write_align in *; lia]).
  split; [unfold write_align in *; lia|apply Z.mod_mul; done].
Qed.

Lemma spdk_append w data : spdk_ok w -> len (takeZ (spdk_offset w) (spdk_buffer w)) + len data < MAX_BUFFER_SIZE ->
  exists w', SPDK_AppendData data w = Ok w' /\ spdk_ok w' /\
    takeZ (spdk_offset w') (spdk_buffer w') = takeZ (spdk_offset w) (spdk_buffer w) ++ data /\ spdk_bytes w' = spdk_bytes w.
Proof.
  intros (H1 & H2 & H3 & H4) Hl. assert (Hlen : len (takeZ (spdk_offset w) (spdk_buffer w)) = spdk_offset w) by (apply len_takeZ; lia).
  rewrite Hlen in Hl. assert (H0 := len_nonneg data). unfold SPDK_AppendData. rewrite (proj2 (Z.ltb_lt _ _) Hl). cbn [assertR mbind res_bind].
  eexists. split; [done|]. split; [|cbn; split; [|done]].
  - unfold spdk_ok. cbn. rewrite !len_app, Hlen, len_dropZ by lia. split_and!; [done..|lia|lia|lia].
  - rewrite (app_assoc (takeZ _ _)). apply takeZ_app. rewrite len_app. lia.
Qed.

Lemma spdk_sync w : spdk_ok w -> exists w' padding, SPDK_Sync w = Ok w' /\ spdk_ok w' /\ takeZ (spdk_offset w') (spdk_buffer w') = [] /\
  spdk_bytes w' = spdk_bytes w ++ takeZ (spdk_offset w) (spdk_buffer w) ++ padding.
Proof.
  intros (H1 & H2 & H3 & H4). unfold SPDK_Sync. rewrite (proj2 (Z.eqb_neq _ _)) by lia.
  destruct (aligned_ok (spdk_offset w) ltac:(lia)) as [Hr Hm]. set (offset := aligned (spdk_offset w)) in *.
  assert (Hdiv : offset / sector_size w * sector_size w = offset).
  { assert (offset mod sector_size w = 0) as Hmod.
    { apply Z.mod_divide in Hm as [a ->]; [|done]. apply Z.mod_divide in H2 as [b ->]; [|lia]. rewrite Z.mul_assoc. apply Z.mod_mul. lia. }
    assert (Hd := Z.div_mod offset (sector_size w) ltac:(lia)). lia. }
  eexists _, (dropZ (spdk_offset w) (takeZ offset (spdk_buffer w))). split; [done|]. unfold spdk_bytes. cbn [spdk_buffer spdk_offset sector_size issued]. rewrite Hdiv. split_and!.
  - split_and!; done.
  - done.
  - rewrite fmap_app, concat_app. cbn [fmap list_fmap concat snd]. rewrite app_nil_r. f_equal.
    rewrite <- (takeZ_dropZ (spdk_offset w) (takeZ offset (spdk_buffer w))) at 1. f_equal.
    unfold takeZ. rewrite take_take. f_equal. lia.
Qed.

(** The command a sync gives: whole sectors at [current_offset]. *)
Lemma spdk_sync_command w w' : spdk_ok w -> SPDK_Sync w = Ok w' ->
  exists n data, issued w' = issued w ++ [(current_offset w, data)] /\ 0 <= n /\ len data = n * sector_size w /\ len data <= MAX_BUFFER_SIZE /\
    takeZ (spdk_offset w) data = takeZ (spdk_offset w) (spdk_buffer w) /\
    current_offset w' = u64 (current_offset w + n) /\ sector_size w' = sector_size w /\ start_offset w' = start_offset w /\ spdk_syncs w' = spdk_syncs w + 1.
Proof.
  intros (H1 & H2 & H3 & H4). unfold SPDK_Sync. rewrite (proj2 (Z.eqb_neq _ _)) by lia. intros [= <-].
  destruct (aligned_ok (spdk_offset w) ltac:(lia)) as [Hr Hm]. set (offset := aligned (spdk_offset w)) in *.
  assert (Hn : 0 <= offset / sector_size w) by (apply Z.div_pos; lia). assert (Hle := Z.mul_div_le offset (sector_size w) H1).
  assert (Hdiv : offset / sector_size w * sector_size w = offset).
  { apply Z.mod_divide in Hm as [a ->]; [|done]. apply Z.mod_divide in H2 as [b ->]; [|lia]. rewrite Z.mul_assoc, Z.div_mul by lia. lia. }
  exists (offset / sector_size w), (takeZ (offset / sector_size w * sector_size w) (spdk_buffer w)).
  cbn [issued current_offset sector_size start_offset spdk_syncs]. rewrite (len_takeZ (offset / sector_size w * sector_size w)) by lia.
  split_and!; [done | done | done | lia | | done..].
  - rewrite Hdiv. unfold takeZ. rewrite take_take. f_equal. lia.
Qed.

#[export] Program Instance SPDK_laws : LogWriterLaws SPDKLogWriter := {| writer_ok := spdk_ok |}.
Next Obligation. intros w data. apply spdk_append. Qed.
Next Obligation.
  intros w data (H1 & H2 & H3 & H4) Hl. cbn in *. rewrite len_takeZ in Hl by lia. unfold SPDK_AppendData. by rewrite (proj2 (Z.ltb_ge _ _) Hl).
Qed.
Next Obligation. done. Qed.
Next Obligation. intros w. apply spdk_sync. Qed.
