(* ===== verification/GroupCommit.v ===== *)
(** * The group-commit logging server ([ssdlogging/ssdlogging_server])

    Threads that call [AddLog] push a [Writer] on a lock-free list; the server
    thread pops the whole list when a log is free and makes its head the
    leader, which writes and syncs the data of all of the group and wakes the
    others.  [Writer]s live on the stacks of their threads: they are in [heap]
    from the call to its return, and an access to one that is gone is a
    [UseAfterFree].

    The machine takes one action per access to an atomic, per [Writer] that is
    visited and per call of a log writer; a critical section of a [StateMutex]
    is one action, since no thread that holds it can be interrupted by another
    that wants it.  What the source leaves to time (how long a thread spins and
    yields, [compare_exchange_weak] that fails for no reason, spurious wakeups)
    is left to the action.  The atomics are taken as sequentially consistent. *)

From S2P Require Import Prelude Machine LogWriter.
Local Open Scope Z_scope.

Definition MAX_LOGS_NUM : Z := 50.

(** [State] *)
Definition STATE_INIT : Z := 1.
Definition STATE_GROUP_LEADER : Z := 2.
Definition STATE_COMPLETED : Z := 4.
Definition STATE_LOCKED_WAITING : Z := 8.
(** What [AddLog] waits for, and [(state & goal_mask) != 0]. *)
Definition goal_mask : Z := Z.lor STATE_GROUP_LEADER STATE_COMPLETED.
Definition at_goal (state : Z) : bool := negb (Z.land state goal_mask =? 0).

(** [Writer]; its number among the calls is only for the statement of what
    happens to its data.  The times are not modelled. *)
Record Writer := {
  data : list Z; log_num : Z; link_older : option nat; write_group : option nat; state : Z; made_waitable : bool; call : nat
}.
Definition new_Writer (n : nat) (d : list Z) : Writer :=
  {| data := d; log_num := -1; link_older := None; write_group := None; state := STATE_INIT; made_waitable := false; call := n |}.
Definition with_state st w := {| data := data w; log_num := log_num w; link_older := link_older w; write_group := write_group w;
  state := st; made_waitable := made_waitable w; call := call w |}.
Definition with_older p w := {| data := data w; log_num := log_num w; link_older := p; write_group := write_group w;
  state := state w; made_waitable := made_waitable w; call := call w |}.
Definition with_log_num k w := {| data := data w; log_num := k; link_older := link_older w; write_group := write_group w;
  state := state w; made_waitable := made_waitable w; call := call w |}.
Definition with_group g w := {| data := data w; log_num := log_num w; link_older := link_older w; write_group := Some g;
  state := state w; made_waitable := made_waitable w; call := call w |}.
(** [CreateMutex] *)
Definition CreateMutex w := {| data := data w; log_num := log_num w; link_older := link_older w; write_group := write_group w;
  state := state w; made_waitable := true; call := call w |}.

(** Where [SetState] is. *)
Inductive set_at := S_load | S_cas (state : Z) | S_lock.

(** Where a thread in [AddLog] is; [a] is the address of its [Writer]. *)
Inductive thread_at :=
  | T_link (a : nat)                            (* AddToLink: newest_writer->load *)
  | T_cas (a : nat) (writers : option nat)      (* its loop *)
  | T_spin (a : nat) (tries : nat)              (* AwaitState: 1. *)
  | T_yield (a : nat)                           (* 2. *)
  | T_long (a : nat)                            (* 3., CreateMutex and the load *)
  | T_lockcas (a : nat) (state : Z)             (* the compare_exchange_strong *)
  | T_check (a : nat)                           (* the predicate, under the mutex *)
  | T_sleep (a : nat)                           (* in wait *)
  | T_awake (a : nat)                           (* if (w.state == STATE_COMPLETED) *)
  | T_lead (a : nat)                            (* assert(w.state == ...) *)
  | T_make (a : nat)                            (* MakeGroup *)
  | T_group (a : nat) (w : option nat) (last_writer size : nat)  (* its loop *)
  | T_write (a : nat) (w : option nat)          (* WriteToLog, its loop *)
  | T_sync (a : nat)
  | T_finish (a : nat)                          (* FinishGroup, its assertions *)
  | T_free (a : nat)                            (* log_free_[...].store(false) *)
  | T_older (a : nat) (head : option nat)       (* its loop *)
  | T_set (a head : nat) (tmp : option nat) (at_ : set_at).

(** Where the server thread is. *)
Inductive server_at :=
  | V_top | V_leader (i : nat) | V_assert (i : nat) | V_exchange (log_num : nat) | V_log (log_num leader : nat)
  | V_set (leader : nat) (at_ : set_at) | V_unfree (log_num : nat) | V_stop | V_done.

Inductive event :=
  | Called (n : nat) (d : list Z)
  | Appended (n : nat) (log_num : nat) (d : list Z)
  | Synced (log_num : nat)
  | Returned (n : nat).

Inductive action :=
  | AddLog (t a : nat) (d : list Z)  (* thread [t] calls it; its Writer is at [a] *)
  | Thread (t : nat) (choice : bool)
  | Spurious (t : nat)
  | Server (choice : bool)
  | Stop.

Section server.
Context {W : Type} `{AbstractLogWriter W}.

Record LoggingServer := {
  logs_ : list W; newest_writer_ : option nat; log_free_ : list bool; stop_ : bool;
  heap : gmap nat Writer; threads : gmap nat thread_at; server_ : server_at; calls : nat
}.

(** After the constructor. *)
Definition new_LoggingServer (logs : list W) : LoggingServer := {|
  logs_ := logs; newest_writer_ := None; log_free_ := replicate (length logs) false; stop_ := false;
  heap := ∅; threads := ∅; server_ := V_top; calls := 0 |}.

Definition set_logs x s := {| logs_ := x; newest_writer_ := newest_writer_ s; log_free_ := log_free_ s; stop_ := stop_ s;
  heap := heap s; threads := threads s; server_ := server_ s; calls := calls s |}.
Definition set_newest x s := {| logs_ := logs_ s; newest_writer_ := x; log_free_ := log_free_ s; stop_ := stop_ s;
  heap := heap s; threads := threads s; server_ := server_ s; calls := calls s |}.
Definition set_free x s := {| logs_ := logs_ s; newest_writer_ := newest_writer_ s; log_free_ := x; stop_ := stop_ s;
  heap := heap s; threads := threads s; server_ := server_ s; calls := calls s |}.
Definition set_stop x s := {| logs_ := logs_ s; newest_writer_ := newest_writer_ s; log_free_ := log_free_ s; stop_ := x;
  heap := heap s; threads := threads s; server_ := server_ s; calls := calls s |}.
Definition set_heap x s := {| logs_ := logs_ s; newest_writer_ := newest_writer_ s; log_free_ := log_free_ s; stop_ := stop_ s;
  heap := x; threads := threads s; server_ := server_ s; calls := calls s |}.
Definition set_threads x s := {| logs_ := logs_ s; newest_writer_ := newest_writer_ s; log_free_ := log_free_ s; stop_ := stop_ s;
  heap := heap s; threads := x; server_ := server_ s; calls := calls s |}.
Definition set_server x s := {| logs_ := logs_ s; newest_writer_ := newest_writer_ s; log_free_ := log_free_ s; stop_ := stop_ s;
  heap := heap s; threads := threads s; server_ := x; calls := calls s |}.
Definition set_calls x s := {| logs_ := logs_ s; newest_writer_ := newest_writer_ s; log_free_ := log_free_ s; stop_ := stop_ s;
  heap := heap s; threads := threads s; server_ := server_ s; calls := x |}.

(** [ResetStat], and the sums of [PrintStatistics]. *)
Definition LoggingServer_ResetStat s := set_logs (ResetStat <$> logs_ s) s.
Definition PrintStatistics s : Z * Z :=
  (foldl (fun n log => u64 (n + GetSyncNum log)) 0 (logs_ s), foldl (fun n log => u64 (n + GetWrittenSize log)) 0 (logs_ s)).

Notation out := (outcome event LoggingServer).
Definition goes (t : nat) (p : thread_at) (s : LoggingServer) : LoggingServer := set_threads (<[t := p]> (threads s)) s.
Definition store (a : nat) (w : Writer) (s : LoggingServer) : LoggingServer := set_heap (<[a := w]> (heap s)) s.
(** An access to a [Writer]. *)
Definition access (a : nat) (s : LoggingServer) (k : Writer -> out) : out :=
  match heap s !! a with Some w => k w | None => Fault UseAfterFree end.
Definition check (b : bool) (k : out) : out := if b then k else Fault AssertFail.

(** [assert(log_free_[log_num].load()); assert(log_num >= 0 && log_num < logs_num_)],
    in bounds or not *)
Definition log_taken (k : Z) (s : LoggingServer) (next : out) : out :=
  if k <? 0 then Fault OutOfRange else
  match log_free_ s !! Z.to_nat k with
  | Some b => check b next
  | None => Fault OutOfRange
  end.

(** One step of [SetState(a, new_state)]; [again] and [done] say where the
    caller is next. *)
Definition SetState (a : nat) (new_state : Z) (at_ : set_at) (again : set_at -> LoggingServer -> LoggingServer)
    (done : LoggingServer -> LoggingServer) (s : LoggingServer) : out :=
  access a s (fun w =>
    match at_ with
    | S_load =>
        check (negb (state w =? STATE_COMPLETED))
          (Step [] (again (if state w =? STATE_LOCKED_WAITING then S_lock else S_cas (state w)) s))
    | S_cas st =>
        if state w =? st then Step [] (done (store a (with_state new_state w) s))
        else check (state w =? STATE_LOCKED_WAITING) (Step [] (again S_lock s))
    | S_lock =>
        check (made_waitable w) (check (negb (state w =? new_state))
          (let s := store a (with_state new_state w) s in
           (* notify_one: the owner, if it is in wait, looks at the predicate again *)
           let wake p := match p with T_sleep b => if decide (b = a) then T_check b else p | _ => p end in
           Step [] (done (set_threads (wake <$> threads s) s))))
    end).

(** [AddLog], up to the list. *)
Definition AddLog_call (t a : nat) (d : list Z) (s : LoggingServer) : out :=
  match threads s !! t, heap s !! a with
  | None, None =>
      Step [Called (calls s) d] (goes t (T_link a) (store a (new_Writer (calls s) d) (set_calls (S (calls s)) s)))
  | _, _ => Disabled
  end.

(** [AddToLink] *)
Definition AddToLink (t a : nat) (writers : option nat) (choice : bool) (s : LoggingServer) : out :=
  access a s (fun w =>
    let s := store a (with_older writers w) s in
    if decide (newest_writer_ s = writers) then
      if choice then Step [] (goes t (T_spin a 0) (set_newest (Some a) s))
      else Step [] (goes t (T_cas a writers) s)  (* the weak exchange may fail *)
    else Step [] (goes t (T_cas a (newest_writer_ s)) s)).

(** [AwaitState(w, STATE_GROUP_LEADER | STATE_COMPLETED)]: the busy wait of 200
    turns, the turns with [yield] if there are any, the long wait. *)
Definition await_spin (t a tries : nat) (s : LoggingServer) : out :=
  access a s (fun w =>
    if at_goal (state w) then Step [] (goes t (T_awake a) s)
    else Step [] (goes t (if (S tries <? 200)%nat then T_spin a (S tries) else T_yield a) s)).
Definition await_yield (t a : nat) (choice : bool) (s : LoggingServer) : out :=
  access a s (fun w =>
    if choice && at_goal (state w) then Step [] (goes t (T_awake a) s)
    else Step [] (goes t (if choice then T_yield a else T_long a) s)).
Definition await_long (t a : nat) (s : LoggingServer) : out :=
  access a s (fun w =>
    let s := store a (CreateMutex w) s in
    check (negb (state w =? STATE_LOCKED_WAITING))
      (Step [] (goes t (if at_goal (state w) then T_awake a else T_lockcas a (state w)) s))).
Definition await_lockcas (t a : nat) (st : Z) (s : LoggingServer) : out :=
  access a s (fun w =>
    if state w =? st then Step [] (goes t (T_check a) (store a (with_state STATE_LOCKED_WAITING w) s))
    else check (at_goal (state w)) (Step [] (goes t (T_awake a) s))).
Definition await_check (t a : nat) (s : LoggingServer) : out :=
  access a s (fun w =>
    check (made_waitable w)
      (if state w =? STATE_LOCKED_WAITING then Step [] (goes t (T_sleep a) s)
       else check (at_goal (state w)) (Step [] (goes t (T_awake a) s)))).

(** The call returns, and its [Writer] is gone. *)
Definition returns (t a : nat) (s : LoggingServer) : out :=
  access a s (fun w => Step [Returned (call w)] (set_heap (delete a (heap s)) (set_threads (delete t (threads s)) s))).

(** [MakeGroup] *)
Definition MakeGroup (t a : nat) (s : LoggingServer) : out :=
  access a s (fun w =>
    log_taken (log_num w) s
      (check ((0 <=? log_num w) && (log_num w <? Z.of_nat (length (logs_ s))))
        (Step [] (goes t (T_group a (link_older w) a 1) (store a (with_group a w) s))))).
Definition make_group_loop (t a : nat) (w : option nat) (last_writer size : nat) (s : LoggingServer) : out :=
  match w with
  | Some b =>
      if decide (b = a) then Step [] (goes t (T_write a (Some a)) s)
      else access b s (fun wb => Step [] (goes t (T_group a (link_older wb) b (S size)) (store b (with_group a wb) s)))
  | None => Step [] (goes t (T_write a (Some a)) s)
  end.

(** [WriteToLog] *)
Definition WriteToLog (t a : nat) (w : option nat) (s : LoggingServer) : out :=
  match w with
  | None => Step [] (goes t (T_sync a) s)
  | Some b =>
      access a s (fun leader => access b s (fun wb =>
        match logs_ s !! Z.to_nat (log_num leader) with
        | None => Fault OutOfRange
        | Some log =>
            match AppendData (data wb) log with
            | Ok log =>
                Step [Appended (call wb) (Z.to_nat (log_num leader)) (data wb)]
                  (goes t (T_write a (link_older wb)) (set_logs (<[Z.to_nat (log_num leader) := log]> (logs_ s)) s))
            | Crash e => Fault e
            end
        end))
  end.
Definition sync_log (t a : nat) (s : LoggingServer) : out :=
  access a s (fun leader =>
    match logs_ s !! Z.to_nat (log_num leader) with
    | None => Fault OutOfRange
    | Some log =>
        match Sync log with
        | Ok log => Step [Synced (Z.to_nat (log_num leader))] (goes t (T_finish a) (set_logs (<[Z.to_nat (log_num leader) := log]> (logs_ s)) s))
        | Crash e => Fault e
        end
    end).

(** [FinishGroup] *)
Definition finish_free (t a : nat) (s : LoggingServer) : out :=
  access a s (fun w => Step [] (goes t (T_older a (link_older w)) (set_free (<[Z.to_nat (log_num w) := false]> (log_free_ s)) s))).
Definition finish_loop (t a : nat) (head : option nat) (s : LoggingServer) : out :=
  match head with
  | None => returns t a s
  | Some h => access h s (fun wh => Step [] (goes t (T_set a h (link_older wh) S_load) s))
  end.

Definition thread_step (t : nat) (choice : bool) (s : LoggingServer) : out :=
  match threads s !! t with
  | None => Disabled
  | Some (T_link a) => access a s (fun w => check (state w =? STATE_INIT) (Step [] (goes t (T_cas a (newest_writer_ s)) s)))
  | Some (T_cas a writers) => AddToLink t a writers choice s
  | Some (T_spin a tries) => await_spin t a tries s
  | Some (T_yield a) => await_yield t a choice s
  | Some (T_long a) => await_long t a s
  | Some (T_lockcas a st) => await_lockcas t a st s
  | Some (T_check a) => await_check t a s
  | Some (T_sleep a) => Disabled
  | Some (T_awake a) => access a s (fun w => if state w =? STATE_COMPLETED then returns t a s else Step [] (goes t (T_lead a) s))
  | Some (T_lead a) => access a s (fun w => check (state w =? STATE_GROUP_LEADER) (Step [] (goes t (T_make a) s)))
  | Some (T_make a) => MakeGroup t a s
  | Some (T_group a w last_writer size) => make_group_loop t a w last_writer size s
  | Some (T_write a w) => WriteToLog t a w s
  | Some (T_sync a) => sync_log t a s
  | Some (T_finish a) => access a s (fun w => log_taken (log_num w) s (Step [] (goes t (T_free a) s)))
  | Some (T_free a) => finish_free t a s
  | Some (T_older a head) => finish_loop t a head s
  | Some (T_set a h tmp at_) =>
      SetState h STATE_COMPLETED at_ (fun at_ => goes t (T_set a h tmp at_)) (goes t (T_older a tmp)) s
  end.

(** [Server], with [GetLeader]. *)
Definition server_step (choice : bool) (s : LoggingServer) : out :=
  match server_ s with
  | V_top => Step [] (set_server (match newest_writer_ s with Some _ => V_leader 0 | None => V_stop end) s)
  | V_leader i =>
      match log_free_ s !! i with
      | None => Step [] (set_server V_stop s)
      | Some b =>
          if negb b && choice then Step [] (set_server (V_assert i) (set_free (<[i := true]> (log_free_ s)) s))
          else Step [] (set_server (V_leader (S i)) s)
      end
  | V_assert i => log_taken (Z.of_nat i) s (Step [] (set_server (V_exchange i) s))
  | V_exchange k =>
      Step [] (set_server (match newest_writer_ s with Some head => V_log k head | None => V_unfree k end) (set_newest None s))
  | V_log k leader => access leader s (fun w => Step [] (set_server (V_set leader S_load) (store leader (with_log_num (Z.of_nat k) w) s)))
  | V_set leader at_ => SetState leader STATE_GROUP_LEADER at_ (fun at_ => set_server (V_set leader at_)) (set_server V_stop) s
  | V_unfree k => Step [] (set_server V_stop (set_free (<[k := false]> (log_free_ s)) s))
  | V_stop => Step [] (set_server (if stop_ s then V_done else V_top) s)
  | V_done => Disabled
  end.

Definition step (x : action) (s : LoggingServer) : out :=
  match x with
  | AddLog t a d => AddLog_call t a d s
  | Thread t choice => thread_step t choice s
  | Spurious t =>
      match threads s !! t with
      | Some (T_sleep a) => Step [] (goes t (T_check a) s)
      | _ => Disabled
      end
  | Server choice => server_step choice s
  | Stop => Step [] (set_stop true s)
  end.
End server.
Arguments LoggingServer : clear implicits.

(** The constructor, for a directory and for a device with sectors of [sector]
    bytes: each log has 1024*1024 of them. *)
Definition fs_server (num : Z) : res (LoggingServer FSLogWriter) :=
  assertR ((num <? MAX_LOGS_NUM) && (0 <? num)) ≫= fun _ => Ok (new_LoggingServer (replicate (Z.to_nat num) new_FSLogWriter)).
Definition spdk_server (sector num : Z) : res (LoggingServer SPDKLogWriter) :=
  assertR ((num <? MAX_LOGS_NUM) && (0 <? num)) ≫= fun _ =>
  Ok (new_LoggingServer ((fun i => new_SPDKLogWriter sector (1024 * 1024 * Z.of_nat i)) <$> seq 0 (Z.to_nat num))).
