(* ===== verification/GroupCommitInv.v ===== *)
(** * The invariant of the group commit

    Every [Writer] has a role: it is still private to its thread, waits in the
    list, with the server or in a leader's group, leads, or is completed.  The
    three kinds of lists are linked through [link_older], disjoint, and their
    members wait; a taken log has one holder.  What a cell of the heap must
    satisfy ([cell_ok]) is stated per [Writer], from the place of the thread
    that owns it. *)

From S2P Require Import Prelude Machine LogFormat LogWriter GroupCommit.
Local Open Scope Z_scope.

Inductive queue := Stk | Srv | Grp (leader : nat).
#[export] Instance queue_eq_dec : EqDecision queue.
Proof. solve_decision. Defined.
Inductive role := Priv | Wait (q : queue) | Lead | Done.
#[export] Instance role_eq_dec : EqDecision role.
Proof. solve_decision. Defined.
Inductive holder := H_server | H_thread (a : nat).

Definition addr (p : thread_at) : nat :=
  match p with
  | T_link a | T_cas a _ | T_spin a _ | T_yield a | T_long a | T_lockcas a _ | T_check a | T_sleep a | T_awake a | T_lead a | T_make a
  | T_group a _ _ _ | T_write a _ | T_sync a | T_finish a | T_free a | T_older a _ | T_set a _ _ _ => a
  end.

(** What was observed. *)
Definition appends (past : list event) : list nat :=
  omap (fun e => match e with Appended n _ _ => Some n | _ => None end) past.
Definition written (past : list event) (n k : nat) : Prop := exists d, Appended n k d ∈ past.
(** The data of the call is in a log that was synced after that. *)
Definition is_durable (past : list event) (n : nat) : Prop :=
  exists k d b1 b2 b3, past = b1 ++ Appended n k d :: b2 ++ Synced k :: b3.

Fixpoint linked (h : gmap nat Writer) (p : option nat) (l : list nat) : Prop :=
  match l with
  | [] => p = None
  | x :: l => p = Some x /\ exists w, h !! x = Some w /\ linked h (link_older w) l
  end.

Section inv.
Context {W : Type} `{LogWriterLaws W}.
(** At most [T] threads log, and no request is longer than [B]. *)
Context (T : nat) (B : Z).

Record ghost := { roles : gmap nat role; lists : queue -> list nat; owner : gmap nat holder }.
Implicit Types (s : LoggingServer W) (g : ghost) (h : gmap nat Writer).

(** The member [x] of a list has, or has not, got its data in a log. *)
Definition member (h : gmap nat Writer) (Q : nat -> Prop) (x : nat) : Prop := exists w, h !! x = Some w /\ Q (call w).
Definition fresh past n := n ∉ appends past.

Definition settled (w : Writer) (r : role) : Prop :=
  r = Lead /\ state w = STATE_GROUP_LEADER \/ r = Done /\ state w = STATE_COMPLETED.
Definition waits (w : Writer) (r : role) (st : Z) : Prop := (exists q, r = Wait q) /\ state w = st.

Definition set_ok h (x : nat) (at_ : set_at) : Prop :=
  match at_ with
  | S_load => True
  | S_cas st => st = STATE_INIT
  | S_lock => exists w, h !! x = Some w /\ state w = STATE_LOCKED_WAITING
  end.

(** The state of a [Writer] whose thread is at [p]. *)
Definition state_ok (w : Writer) (r : role) (p : thread_at) : Prop :=
  match p with
  | T_link _ | T_cas _ _ => r = Priv /\ state w = STATE_INIT
  | T_spin _ _ | T_yield _ | T_long _ => waits w r STATE_INIT \/ settled w r
  | T_lockcas _ st => st = STATE_INIT /\ made_waitable w = true /\ (waits w r STATE_INIT \/ settled w r)
  | T_check _ => made_waitable w = true /\ (waits w r STATE_LOCKED_WAITING \/ settled w r)
  | T_sleep _ => made_waitable w = true /\ waits w r STATE_LOCKED_WAITING
  | T_awake _ => settled w r
  | _ => r = Lead /\ state w = STATE_GROUP_LEADER
  end.

(** What a leader with the group [l] has done. *)
Definition holds g (a : nat) (w : Writer) : Prop := 0 <= log_num w /\ owner g !! Z.to_nat (log_num w) = Some (H_thread a).
Definition lead_ok past s g (a : nat) (w : Writer) (p : thread_at) : Prop :=
  let l := lists g (Grp a) in let k := Z.to_nat (log_num w) in
  match p with
  | T_group _ cur _ _ => holds g a w /\ linked (heap s) (link_older w) l /\ Forall (member (heap s) (fresh past)) (a :: l) /\
      exists l1 l2, l = l1 ++ l2 /\ linked (heap s) cur l2
  | T_write _ cur => holds g a w /\ linked (heap s) (link_older w) l /\
      exists l1 l2, a :: l = l1 ++ l2 /\ linked (heap s) cur l2 /\
        Forall (member (heap s) (fun n => written past n k)) l1 /\ Forall (member (heap s) (fresh past)) l2 /\
        exists log, logs_ s !! k = Some log /\ len (appended log) <= len l1 * B
  | T_sync _ => holds g a w /\ linked (heap s) (link_older w) l /\ Forall (member (heap s) (fun n => written past n k)) (a :: l)
  | T_finish _ | T_free _ => holds g a w /\ linked (heap s) (link_older w) l /\ Forall (member (heap s) (is_durable past)) (a :: l)
  | T_older _ cur => linked (heap s) cur l /\ Forall (member (heap s) (is_durable past)) (a :: l)
  | T_set _ x tmp at_ => Forall (member (heap s) (is_durable past)) (a :: l) /\
      exists l', l = x :: l' /\ linked (heap s) tmp l' /\ set_ok (heap s) x at_
  | _ => holds g a w /\ linked (heap s) (link_older w) l /\ Forall (member (heap s) (fresh past)) (a :: l)
  end.

Definition cell_ok past s g (x : nat) (w : Writer) (r : role) (p : thread_at) : Prop :=
  state_ok w r p /\
  match r with
  | Priv | Wait Stk | Wait Srv => fresh past (call w)
  | Wait (Grp _) => True
  | Lead => lead_ok past s g x w p
  | Done => is_durable past (call w)
  end.

Definition server_ok s g : Prop :=
  match server_ s with
  | V_assert k | V_exchange k | V_unfree k => owner g !! k = Some H_server /\ lists g Srv = []
  | V_log k hd => owner g !! k = Some H_server /\ linked (heap s) (Some hd) (lists g Srv)
  | V_set hd at_ => linked (heap s) (Some hd) (lists g Srv) /\ set_ok (heap s) hd at_ /\
      exists w, heap s !! hd = Some w /\ 0 <= log_num w /\ owner g !! Z.to_nat (log_num w) = Some H_server
  | _ => lists g Srv = []
  end.

Definition writing (p : thread_at) : bool := match p with T_write _ _ | T_sync _ => true | _ => false end.

Record GInv (past : list event) s g : Prop := {
  gi_cells : forall x w, heap s !! x = Some w -> exists t p r,
    threads s !! t = Some p /\ addr p = x /\ roles g !! x = Some r /\ cell_ok past s g x w r p;
  gi_threads : forall t p, threads s !! t = Some p -> (t < T)%nat /\ is_Some (heap s !! addr p);
  gi_addr : forall t t' p p', threads s !! t = Some p -> threads s !! t' = Some p' -> addr p = addr p' -> t = t';
  gi_roles : forall x r, roles g !! x = Some r -> is_Some (heap s !! x);
  gi_nodup : forall q, NoDup (lists g q);
  gi_lists : forall q x, x ∈ lists g q <-> roles g !! x = Some (Wait q);
  gi_group : forall a, roles g !! a <> Some Lead -> lists g (Grp a) = [];
  gi_stack : linked (heap s) (newest_writer_ s) (lists g Stk);
  gi_server : server_ok s g;
  gi_owner : forall k o, owner g !! k = Some o -> log_free_ s !! k = Some true;
  gi_logs : length (log_free_ s) = length (logs_ s);
  gi_buffer : forall k log, logs_ s !! k = Some log -> writer_ok log /\ (appended log = [] \/
    exists t p w, threads s !! t = Some p /\ writing p = true /\ heap s !! addr p = Some w /\ Z.to_nat (log_num w) = k);
  gi_calls : forall x w, heap s !! x = Some w -> (call w < calls s)%nat /\ Called (call w) (data w) ∈ past /\ len (data w) <= B;
  gi_distinct : forall x y w w', heap s !! x = Some w -> heap s !! y = Some w' -> call w = call w' -> x = y;
  gi_appends : NoDup (appends past) /\ Forall (fun n => (n < calls s)%nat) (appends past);
  gi_data : forall b n k d c, past = b ++ Appended n k d :: c -> Called n d ∈ b;
  gi_called : forall n d, Called n d ∈ past -> (n < calls s)%nat;
  gi_returned : forall b n c, past = b ++ Returned n :: c -> is_durable b n
}.

Definition ghost0 : ghost := {| roles := ∅; lists _ := []; owner := ∅ |}.

Lemma ginv_new logs : Forall (fun log => writer_ok log /\ appended log = []) logs -> GInv [] (new_LoggingServer logs) ghost0.
Proof.
  intros Hl. rewrite Forall_lookup in Hl. split; cbn; try done; try (intros * Hx; by apply lookup_empty_Some in Hx); try set_solver.
  - intros _. constructor.
  - by rewrite length_replicate.
  - split; constructor.
  - by intros [|] * [=].
  - by intros [|] * [=].
Qed.

(** ** Lists in the heap *)

(** What a list needs of its members. *)
Definition same_member (w w' : Writer) : Prop := link_older w' = link_older w /\ call w' = call w /\ data w' = data w.

Lemma linked_same h h' p l : (forall x w, x ∈ l -> h !! x = Some w -> exists w', h' !! x = Some w' /\ link_older w' = link_older w) ->
  linked h p l -> linked h' p l.
Proof.
  revert p. induction l as [|x l IH]; intros p Hs Hl; cbn in *; [done|]. destruct Hl as [-> (w & Hw & Hl)]. split; [done|].
  destruct (Hs x w ltac:(by left) Hw) as (w' & Hw' & He). exists w'. split; [done|]. rewrite He. apply IH; [|done]. intros y wy Hy. apply Hs. by right.
Qed.

Lemma members_same h h' Q Q' l : (forall x w, x ∈ l -> h !! x = Some w -> exists w', h' !! x = Some w' /\ call w' = call w) ->
  (forall x w, x ∈ l -> h !! x = Some w -> Q (call w) -> Q' (call w)) -> Forall (member h Q) l -> Forall (member h' Q') l.
Proof.
  intros Hs HQ Hl. rewrite Forall_forall in Hl |- *. intros x Hx. destruct (Hl x Hx) as (w & Hw & Hc).
  destruct (Hs x w Hx Hw) as (w' & Hw' & He). exists w'. split; [done|]. rewrite He. by eapply HQ.
Qed.

Lemma linked_member h p l x : linked h p l -> x ∈ l -> is_Some (h !! x).
Proof.
  revert p. induction l as [|y l IH]; intros p Hl Hx; [by apply elem_of_nil in Hx|]. destruct Hl as [-> (w & Hw & Hl)].
  apply elem_of_cons in Hx as [->|Hx]; [by eexists | by eapply IH].
Qed.

(** ** Events *)
Lemma appends_app (e1 e2 : list event) : appends (e1 ++ e2) = appends e1 ++ appends e2.
Proof. apply omap_app. Qed.
Lemma event_app (past e b : list event) x c : past ++ e = b ++ x :: c -> (exists c', past = b ++ x :: c') \/ x ∈ e.
Proof.
  intros Heq. destruct (decide (length b < length past)%nat) as [Hlt|Hge].
  - left. exists (take (length past - S (length b)) c).
    apply (f_equal (take (length past))) in Heq. rewrite take_app_length, take_app_ge in Heq by lia. etrans; [exact Heq|]. f_equal.
    replace (length past - length b)%nat with (S (length past - S (length b))) by lia. done.
  - right. assert (Hl : (past ++ e) !! length b = Some x) by (rewrite Heq; by apply list_lookup_middle).
    rewrite lookup_app_r in Hl by lia. by apply list_elem_of_lookup_2 in Hl.
Qed.
Lemma event_snoc (past : list event) y b x c : past ++ [y] = b ++ x :: c -> (exists c', past = b ++ x :: c') \/ b = past /\ x = y.
Proof.
  intros Heq. destruct c as [|e c _] using rev_ind; [apply app_inj_tail in Heq as [-> ->]; by right|].
  left. exists c. rewrite app_comm_cons, app_assoc in Heq. by apply app_inj_tail in Heq as [-> _].
Qed.
Lemma appends_elem past n k d : Appended n k d ∈ past -> n ∈ appends past.
Proof. intros Hin. apply list_elem_of_omap. by eexists. Qed.
Lemma written_app past e n k : written past n k -> written (past ++ e) n k.
Proof. intros [d Hd]. exists d. apply elem_of_app. by left. Qed.
Lemma durable_app past e n : is_durable past n -> is_durable (past ++ e) n.
Proof.
  intros (k & d & b1 & b2 & b3 & ->). exists k, d, b1, b2, (b3 ++ e). by rewrite <- !app_assoc, !app_comm_cons, <- !app_assoc.
Qed.
Lemma written_synced past n k : written past n k -> is_durable (past ++ [Synced k]) n.
Proof.
  intros [d Hd]. apply list_elem_of_split in Hd as (b1 & b2 & ->). exists k, d, b1, b2, []. by rewrite <- app_assoc.
Qed.
Lemma fresh_app past e n : n ∉ appends e -> fresh past n -> fresh (past ++ e) n.
Proof. unfold fresh. rewrite appends_app. set_solver. Qed.

(** ** Cells that a step leaves alone *)
Lemma set_ok_same h h' x at_ : (forall w, h !! x = Some w -> exists w', h' !! x = Some w' /\ (state w = STATE_LOCKED_WAITING -> state w' = STATE_LOCKED_WAITING)) ->
  set_ok h x at_ -> set_ok h' x at_.
Proof.
  intros Hs. destruct at_; try done. intros (w & Hw & Hst). destruct (Hs w Hw) as (w' & Hw' & Hl). exists w'. auto.
Qed.

(** The group of a leader, itself included. *)
Definition group g (x : nat) (r : role) : list nat := match r with Lead => x :: lists g (Grp x) | _ => [x] end.

Definition keeps (w w' : Writer) : Prop :=
  same_member w w' /\ (state w = STATE_LOCKED_WAITING -> state w' = STATE_LOCKED_WAITING).

Lemma lead_frame past e s s' g g' x w p :
  lead_ok past s g x w p ->
  (forall y wy, y ∈ x :: lists g (Grp x) -> heap s !! y = Some wy -> exists wy', heap s' !! y = Some wy' /\ keeps wy wy') ->
  lists g' (Grp x) = lists g (Grp x) ->
  (holds g x w -> holds g' x w) ->
  (forall y wy, y ∈ x :: lists g (Grp x) -> heap s !! y = Some wy -> call wy ∉ appends e) ->
  (writing p = true -> forall log, logs_ s !! Z.to_nat (log_num w) = Some log ->
    exists log', logs_ s' !! Z.to_nat (log_num w) = Some log' /\ len (appended log') <= len (appended log)) ->
  lead_ok (past ++ e) s' g' x w p.
Proof.
  intros HL Hh Hl Ho Hf Hlog.
  assert (Hlink : forall p l, (forall y, y ∈ l -> y ∈ x :: lists g (Grp x)) -> linked (heap s) p l -> linked (heap s') p l).
  { intros p0 l Hsub. apply linked_same. intros y wy Hy Hwy. destruct (Hh y wy (Hsub y Hy) Hwy) as (wy' & ? & (? & ?) & ?). eauto. }
  assert (Hmem : forall (Q Q' : nat -> Prop) l, (forall y, y ∈ l -> y ∈ x :: lists g (Grp x)) ->
    (forall y wy, y ∈ x :: lists g (Grp x) -> heap s !! y = Some wy -> Q (call wy) -> Q' (call wy)) ->
    Forall (member (heap s) Q) l -> Forall (member (heap s') Q') l).
  { intros Q Q' l Hsub HQ. apply members_same; [|intros y wy Hy; apply HQ; auto].
    intros y wy Hy Hwy. destruct (Hh y wy (Hsub y Hy) Hwy) as (wy' & ? & (? & ? & ?) & ?). eauto. }
  assert (Hfr : forall y wy, y ∈ x :: lists g (Grp x) -> heap s !! y = Some wy -> fresh past (call wy) -> fresh (past ++ e) (call wy)).
  { intros y wy Hy Hwy. apply fresh_app. by eapply Hf. }
  assert (Hall : forall y, y ∈ lists g (Grp x) -> y ∈ x :: lists g (Grp x)) by set_solver.
  destruct p; cbn in *; rewrite ?Hl;
    try (destruct HL as (H1 & H2 & H3); split_and!; [auto | by eapply Hlink | by eapply Hmem]).
  - destruct HL as (H1 & H2 & H3 & l1 & l2 & H4 & H5). split_and!; [auto | by eapply Hlink | by eapply Hmem |].
    exists l1, l2. split; [done|]. eapply Hlink; [|done]. intros y Hy. rewrite H4. set_solver.
  - destruct HL as (H1 & H2 & l1 & l2 & H3 & H4 & H5 & H6 & log & H7 & H8). split_and!; [auto | by eapply Hlink |].
    assert (Hs1 : forall y, y ∈ l1 -> y ∈ x :: lists g (Grp x)) by (rewrite H3; set_solver).
    assert (Hs2 : forall y, y ∈ l2 -> y ∈ x :: lists g (Grp x)) by (rewrite H3; set_solver).
    exists l1, l2. split_and!; [done | by eapply Hlink | | by eapply Hmem |].
    + eapply Hmem; [done| |done]. intros y wy _ _. apply written_app.
    + destruct (Hlog eq_refl log H7) as (log' & ? & ?). exists log'. split; [done|lia].
  - destruct HL as (H1 & H2 & H3). split_and!; [auto | by eapply Hlink |]. eapply Hmem; [done| |done]. intros y wy _ _. apply written_app.
  - destruct HL as (H1 & H2 & H3). split_and!; [auto | by eapply Hlink |]. eapply Hmem; [done| |done]. intros y wy _ _. apply durable_app.
  - destruct HL as (H1 & H2 & H3). split_and!; [auto | by eapply Hlink |]. eapply Hmem; [done| |done]. intros y wy _ _. apply durable_app.
  - destruct HL as (H1 & H2). split; [by eapply Hlink|]. eapply Hmem; [done| |done]. intros y wy _ _. apply durable_app.
  - destruct HL as (H1 & l' & H2 & H3 & H4). split; [eapply Hmem; [done| |done]; intros y wy _ _; apply durable_app|].
    exists l'. split_and!; [done | eapply Hlink; [|done]; rewrite H2; set_solver |].
    eapply set_ok_same; [|done]. intros wy Hwy. destruct (Hh head wy) as (wy' & ? & ? & ?); [rewrite H2; set_solver | done | eauto].
Qed.

Lemma lead_same past s g x w w' p : log_num w' = log_num w -> link_older w' = link_older w ->
  lead_ok past s g x w p -> lead_ok past s g x w' p.
Proof. intros Hn Hl. destruct p; cbn; unfold holds; by rewrite ?Hn, ?Hl. Qed.

Lemma cell_frame past e s s' g g' x w r p :
  cell_ok past s g x w r p ->
  (forall y wy, y ∈ group g x r -> heap s !! y = Some wy -> exists wy', heap s' !! y = Some wy' /\ keeps wy wy') ->
  heap s !! x = Some w ->
  (r = Lead -> lists g' (Grp x) = lists g (Grp x)) ->
  (r = Lead -> holds g x w -> holds g' x w) ->
  (forall y wy, y ∈ group g x r -> heap s !! y = Some wy -> call wy ∉ appends e) ->
  (r = Lead -> writing p = true -> forall log, logs_ s !! Z.to_nat (log_num w) = Some log ->
    exists log', logs_ s' !! Z.to_nat (log_num w) = Some log' /\ len (appended log') <= len (appended log)) ->
  cell_ok (past ++ e) s' g' x w r p.
Proof.
  intros [Hs Hr] Hh Hx Hl Ho Hf Hlog. split; [done|].
  destruct r as [|[| |a]| |]; cbn [group] in *; try done.
  - apply fresh_app; [|done]. eapply Hf; [by left|done].
  - apply fresh_app; [|done]. eapply Hf; [by left|done].
  - apply fresh_app; [|done]. eapply Hf; [by left|done].
  - eapply lead_frame; eauto.
  - by apply durable_app.
Qed.

(** No list but its own has a member twice. *)
Lemma role_of_group past s g x y r : GInv past s g -> roles g !! x = Some r -> y ∈ group g x r ->
  y = x \/ r = Lead /\ roles g !! y = Some (Wait (Grp x)).
Proof.
  intros I Hx Hy. destruct r; cbn in Hy; try (apply list_elem_of_singleton in Hy as ->; by left).
  apply elem_of_cons in Hy as [->|Hy]; [by left|]. right. split; [done|]. by apply (gi_lists _ _ _ I).
Qed.

Lemma owner_cell past s g t p : GInv past s g -> threads s !! t = Some p -> exists w r,
  heap s !! addr p = Some w /\ roles g !! addr p = Some r /\ cell_ok past s g (addr p) w r p.
Proof.
  intros I Ht. destruct (gi_threads _ _ _ I t p Ht) as [_ [w Hw]]. destruct (gi_cells _ _ _ I _ _ Hw) as (t' & p' & r & Ht' & Ha & Hr & Hc).
  assert (t = t') as <- by (eapply (gi_addr _ _ _ I); eauto). rewrite Ht in Ht'. injection Ht' as <-. eauto.
Qed.

(** ** A thread goes on and touches its own [Writer] only *)
Lemma ginv_move past s g t p p' w w' r :
  GInv past s g -> threads s !! t = Some p -> addr p' = addr p -> heap s !! addr p = Some w -> roles g !! addr p = Some r ->
  (link_older w' = link_older w \/ r = Priv) -> call w' = call w -> data w' = data w -> log_num w' = log_num w ->
  (state w = STATE_LOCKED_WAITING -> state w' = STATE_LOCKED_WAITING) ->
  state_ok w' r p' -> (r = Lead -> lead_ok past s g (addr p) w p') -> (writing p = true -> writing p' = true) ->
  GInv past (goes t p' (store (addr p) w' s)) g.
Proof.
  intros I Ht Ha Hw Hr Hlink Hcall Hdata Hlog Hlock Hst Hlead Hwr. set (a := addr p) in *.
  assert (Hc := owner_cell past s g t p I Ht). destruct Hc as (w0 & r0 & Hw0 & Hr0 & Hcell). fold a in Hw0, Hr0, Hcell.
  rewrite Hw in Hw0. injection Hw0 as <-. rewrite Hr in Hr0. injection Hr0 as <-.
  assert (Hkeep : forall y wy, (y = a -> r <> Priv) -> heap s !! y = Some wy -> exists wy', <[a := w']> (heap s) !! y = Some wy' /\ keeps wy wy').
  { intros y wy Hy Hwy. destruct (decide (y = a)) as [->|Hne]; [|exists wy; by rewrite lookup_insert_ne].
    exists w'. rewrite lookup_insert_eq. rewrite Hw in Hwy. injection Hwy as <-. specialize (Hy eq_refl). destruct Hlink; [|done]. by split_and!. }
  assert (Hin : forall q, a ∈ lists g q -> r <> Priv) by (intros q Hq%(gi_lists _ _ _ I) ->; congruence).
  assert (Hlk : forall q p0, linked (heap s) p0 (lists g q) -> linked (<[a := w']> (heap s)) p0 (lists g q)).
  { intros q p0. apply linked_same. intros y wy Hy Hwy. destruct (Hkeep y wy) as (wy' & ? & (? & ?) & ?); [intros ->; by eapply Hin|done|eauto]. }
  assert (Hself : r = Lead -> lead_ok past (goes t p' (store a w' s)) g a w' p').
  { intros ->. apply (lead_same _ _ _ _ w); [done | by destruct Hlink |]. rewrite <- (app_nil_r past). eapply lead_frame; [by apply Hlead|..]; try done; [|set_solver|intros _ log Hk; by exists log].
    intros y wy Hy. apply Hkeep. intros ->. done. }
  split; cbn [heap threads roles lists owner newest_writer_ log_free_ logs_ calls server_ goes store set_threads set_heap].
  - intros x wx Hx. destruct (decide (x = a)) as [->|Hne].
    + rewrite lookup_insert_eq in Hx. injection Hx as <-. exists t, p', r. rewrite lookup_insert_eq. split_and!; [done..|]. split; [done|].
      destruct Hcell as [_ Hcell]. destruct r as [|[| |]| |]; rewrite ?Hcall; auto.
    + rewrite lookup_insert_ne in Hx by done. destruct (gi_cells _ _ _ I x wx Hx) as (t' & q & rx & Ht' & Hq & Hrx & Hcx).
      exists t', q, rx. rewrite lookup_insert_ne by (intros ->; simplify_eq). split_and!; [done..|]. rewrite <- (app_nil_r past).
      eapply cell_frame; [exact Hcx|..]; try done; [|set_solver|intros _ _ log Hk; by exists log].
      intros y wy Hy. apply Hkeep. intros ->. destruct (role_of_group _ _ _ _ _ _ I Hrx Hy) as [->|[_ Hy']]; [done|congruence].
  - intros t' q Hq. apply lookup_insert_Some in Hq as [[<- <-]|[Hne Hq]].
    + split; [by eapply (gi_threads _ _ _ I)|]. rewrite Ha, lookup_insert_eq. by eexists.
    + destruct (gi_threads _ _ _ I t' q Hq) as [? [wq Hwq]]. split; [done|]. destruct (decide (addr q = a)) as [->|]; [rewrite lookup_insert_eq | rewrite lookup_insert_ne by done]; by eexists.
  - intros t1 t2 p1 p2 H1 H2 He. apply lookup_insert_Some in H1 as [[<- <-]|[Hn1 H1]], H2 as [[<- <-]|[Hn2 H2]]; [done|..];
      (eapply (gi_addr _ _ _ I); [eassumption..|fold a; congruence]).
  - intros x rx Hx. destruct (gi_roles _ _ _ I x rx Hx) as [wx Hwx]. destruct (decide (x = a)) as [->|]; [rewrite lookup_insert_eq | rewrite lookup_insert_ne by done]; by eexists.
  - apply (gi_nodup _ _ _ I).
  - apply (gi_lists _ _ _ I).
  - apply (gi_group _ _ _ I).
  - apply Hlk, (gi_stack _ _ _ I).
  - assert (Hsv := gi_server _ _ _ I). unfold server_ok in *. cbn [server_ goes store set_threads set_heap heap] in *.
    destruct (server_ s); try done; [destruct Hsv as [? ?]; split; [done|by apply Hlk]|].
    destruct Hsv as (H1 & H2 & wl & H3 & H4 & H5). split_and!; [by apply Hlk| |].
    + eapply set_ok_same; [|exact H2]. intros wy Hwy. destruct (decide (leader = a)) as [->|Hne]; [rewrite lookup_insert_eq | rewrite lookup_insert_ne by done; eauto].
      exists w'. split; [done|]. intros Hx. apply Hlock. congruence.
    + destruct (decide (leader = a)) as [->|Hne]; [rewrite lookup_insert_eq | rewrite lookup_insert_ne by done; eauto].
      exists w'. rewrite Hw in H3. injection H3 as <-. by rewrite Hlog.
  - apply (gi_owner _ _ _ I).
  - apply (gi_logs _ _ _ I).
  - intros k log Hk. destruct (gi_buffer _ _ _ I k log Hk) as [? [?|(t' & q & wq & Hq & Hwq & Hwq' & Hk')]]; (split; [done|]); [by left|right].
    destruct (decide (t' = t)) as [->|Hne].
    + exists t, p', w'. rewrite Ht in Hq. injection Hq as <-. rewrite Ha, !lookup_insert_eq. split_and!; auto. fold a in Hwq'. rewrite Hw in Hwq'. injection Hwq' as <-. by rewrite Hlog.
    + exists t', q, wq. rewrite lookup_insert_ne by done. split_and!; [done..| |done]. rewrite lookup_insert_ne; [done|].
      intros He. destruct Hne. eapply (gi_addr _ _ _ I); eauto.
  - intros x wx Hx. apply lookup_insert_Some in Hx as [[<- <-]|[_ Hx]]; [rewrite Hcall, Hdata|]; by eapply (gi_calls _ _ _ I).
  - intros x y wx wy Hx Hy He. apply lookup_insert_Some in Hx as [[<- <-]|[_ Hx]], Hy as [[<- <-]|[_ Hy]]; [done|..];
      (eapply (gi_distinct _ _ _ I); [eassumption..|congruence]).
  - apply (gi_appends _ _ _ I).
  - apply (gi_data _ _ _ I).
  - apply (gi_called _ _ _ I).
  - apply (gi_returned _ _ _ I).
Qed.
End inv.
