(* ===== verification/GroupCommitSteps.v ===== *)
(** * The group commit: every step keeps the invariant *)

From S2P Require Import Prelude Machine LogFormat LogWriter GroupCommit GroupCommitInv.
Local Open Scope Z_scope.

Section steps.
Context {W : Type} `{LogWriterLaws W}.
Context (T : nat) (B : Z).
Implicit Types (s : LoggingServer W).
Notation GInv := (GInv T B).
Notation cell_ok := (cell_ok B).
Notation lead_ok := (lead_ok B).

(** What a step must do, from any ghost state. *)
Definition step_ok (past : list event) (o : outcome event (LoggingServer W)) : Prop :=
  match o with Disabled => True | Fault _ => False | Step evs s' => exists g', GInv (past ++ evs) s' g' end.

Lemma step_silent past s g : GInv past s g -> step_ok past (Step [] s).
Proof. intros I. exists g. by rewrite app_nil_r. Qed.

Lemma goes_store_id s t p p' w : threads s !! t = Some p -> heap s !! addr p = Some w ->
  goes t p' (store (addr p) w s) = goes t p' s.
Proof. intros Ht Hw. unfold goes, store. rewrite (insert_id (heap s)) by done. by destruct s. Qed.

(** ** Steps of a thread that change nothing, or fields of its [Writer] *)
Lemma move past s g t p p' w r : GInv past s g -> threads s !! t = Some p -> addr p' = addr p ->
  heap s !! addr p = Some w -> roles g !! addr p = Some r -> state_ok w r p' ->
  (r = Lead -> lead_ok past s g (addr p) w p') -> (writing p = true -> writing p' = true) -> GInv past (goes t p' s) g.
Proof.
  intros I Ht Ha Hw Hr Hst Hl Hwr. rewrite <- (goes_store_id s t p p' w Ht Hw). eapply ginv_move; eauto.
Qed.

Lemma touch past s g x w w' : GInv past s g -> heap s !! x = Some w -> same_member w w' -> log_num w' = log_num w ->
  state w' = state w -> made_waitable w' = made_waitable w -> GInv past (store x w' s) g.
Proof.
  intros I Hx (Hl & Hc & Hd) Hn Hs Hm. destruct (gi_cells _ _ _ _ _ I x w Hx) as (t & p & r & Ht & <- & Hr & [Hst Hcell]).
  assert (Heq : store (addr p) w' s = goes t p (store (addr p) w' s)) by (unfold goes, store; cbn; rewrite (insert_id (threads s)) by done; by destruct s).
  rewrite Heq. eapply ginv_move; eauto; try congruence.
  - destruct p; cbn in *; unfold waits, settled in *; rewrite ?Hs, ?Hm; done.
  - intros ->. done.
Qed.

Ltac moves I Ht Hw Hr := eapply move; [exact I | exact Ht | reflexivity | exact Hw | exact Hr | cbn | | try done].

(** The thread, its [Writer] and the role of that. *)
Ltac cell I Ht :=
  let w := fresh "w" in let r := fresh "r" in let Hw := fresh "Hw" in let Hr := fresh "Hr" in let Hst := fresh "Hst" in let Hcell := fresh "Hcell" in
  destruct (owner_cell _ _ _ _ _ _ _ I Ht) as (w & r & Hw & Hr & Hst & Hcell); cbn [addr] in Hw, Hr, Hcell.

Lemma settled_goal w r : settled w r -> at_goal (state w) = true.
Proof. by intros [[-> ->]|[-> ->]]. Qed.

Lemma settled_states w r : settled w r -> state w <> STATE_INIT /\ state w <> STATE_LOCKED_WAITING.
Proof. by intros [[_ ->]|[_ ->]]. Qed.

Lemma thread_link past s g t a : GInv past s g -> threads s !! t = Some (T_link a) -> step_ok past (thread_step t true s).
Proof.
  intros I Ht. cell I Ht. unfold thread_step, access. rewrite Ht, Hw. destruct Hst as [-> Hs]. rewrite Hs. cbn [check Z.eqb STATE_INIT Pos.eqb].
  apply (step_silent _ _ g). moves I Ht Hw Hr; done.
Qed.

Lemma thread_spin past s g t a tries : GInv past s g -> threads s !! t = Some (T_spin a tries) -> step_ok past (await_spin t a tries s).
Proof.
  intros I Ht. cell I Ht. unfold await_spin, access. rewrite Hw. destruct (at_goal (state w)) eqn:Hg.
  - apply (step_silent _ _ g). moves I Ht Hw Hr; try done; [|intros ->; exact Hcell].
    destruct Hst as [[_ Hs]|]; [|done]. by rewrite Hs in Hg.
  - apply (step_silent _ _ g). destruct (_ <? _)%nat; (moves I Ht Hw Hr; try done; intros ->; exact Hcell).
Qed.

Lemma thread_yield past s g t a choice : GInv past s g -> threads s !! t = Some (T_yield a) -> step_ok past (await_yield t a choice s).
Proof.
  intros I Ht. cell I Ht. unfold await_yield, access. rewrite Hw. destruct (choice && at_goal (state w)) eqn:Hg.
  - apply (step_silent _ _ g). apply andb_true_iff in Hg as [_ Hg]. moves I Ht Hw Hr; try done; [|intros ->; exact Hcell].
    destruct Hst as [[_ Hs]|]; [|done]. by rewrite Hs in Hg.
  - apply (step_silent _ _ g). destruct choice; (moves I Ht Hw Hr; try done; intros ->; exact Hcell).
Qed.

Lemma thread_long past s g t a : GInv past s g -> threads s !! t = Some (T_long a) -> step_ok past (await_long t a s).
Proof.
  intros I Ht. cell I Ht. unfold await_long, access. rewrite Hw.
  assert (Hne : state w <> STATE_LOCKED_WAITING) by (destruct Hst as [[_ ->]|Hst]; [done|by destruct (settled_states _ _ Hst)]).
  rewrite (proj2 (Z.eqb_neq _ _) Hne). cbn [check negb]. apply (step_silent _ _ g).
  apply (ginv_move T B past s g t (T_long a) _ w (CreateMutex w) r); eauto; try (by destruct (at_goal (state w))).
  - destruct Hst as [Hwt|Hst]; [|rewrite (settled_goal _ _ Hst); exact Hst]. destruct (Hwt) as [_ Hs]. rewrite Hs. cbn. split_and!; [done..|]. left. by destruct Hwt.
  - intros ->. destruct (at_goal (state w)); exact Hcell.
Qed.

Lemma thread_lockcas past s g t a st : GInv past s g -> threads s !! t = Some (T_lockcas a st) -> step_ok past (await_lockcas t a st s).
Proof.
  intros I Ht. cell I Ht. unfold await_lockcas, access. rewrite Hw. destruct Hst as (-> & Hm & Hst).
  destruct Hst as [[[q ->] Hs]|Hst].
  - rewrite Hs. cbn [Z.eqb STATE_INIT Pos.eqb]. apply (step_silent _ _ g).
    apply (ginv_move T B past s g t (T_lockcas a STATE_INIT) _ w (with_state STATE_LOCKED_WAITING w) (Wait q)); eauto; try done.
    cbn. split; [done|]. left. split; [by eexists|done].
  - destruct (settled_states _ _ Hst) as [Hne _]. rewrite (proj2 (Z.eqb_neq _ _) Hne), (settled_goal _ _ Hst). cbn [check].
    apply (step_silent _ _ g). moves I Ht Hw Hr; try done. intros ->. exact Hcell.
Qed.

Lemma thread_check past s g t a : GInv past s g -> threads s !! t = Some (T_check a) -> step_ok past (await_check t a s).
Proof.
  intros I Ht. cell I Ht. unfold await_check, access. rewrite Hw. destruct Hst as (Hm & Hst). rewrite Hm. cbn [check].
  destruct Hst as [Hwt|Hst].
  - destruct (Hwt) as [[q ->] Hs]. rewrite Hs. cbn [Z.eqb STATE_LOCKED_WAITING Pos.eqb]. apply (step_silent _ _ g). moves I Ht Hw Hr; done.
  - destruct (settled_states _ _ Hst) as [_ Hne]. rewrite (proj2 (Z.eqb_neq _ _) Hne), (settled_goal _ _ Hst). cbn [check].
    apply (step_silent _ _ g). moves I Ht Hw Hr; try done. intros ->. exact Hcell.
Qed.

Lemma thread_spurious past s g t a : GInv past s g -> threads s !! t = Some (T_sleep a) -> step_ok past (Step [] (goes t (T_check a) s)).
Proof.
  intros I Ht. cell I Ht. destruct Hst as (Hm & Hst). apply (step_silent _ _ g). moves I Ht Hw Hr; try done; [by auto|].
  intros ->. by destruct Hst as [[q [=]] _].
Qed.

Lemma holds_log past s g a w : GInv past s g -> holds g a w -> log_free_ s !! Z.to_nat (log_num w) = Some true /\
  (Z.to_nat (log_num w) < length (logs_ s))%nat.
Proof.
  intros I [_ Ho]. assert (Hf := gi_owner _ _ _ _ _ I _ _ Ho). split; [done|]. rewrite <- (gi_logs _ _ _ _ _ I). by eapply lookup_lt_Some.
Qed.

Lemma taken past s g a w o : GInv past s g -> holds g a w -> log_taken (log_num w) s o = o.
Proof.
  intros I Ho. destruct (holds_log _ _ _ _ _ I Ho) as [Hf _]. destruct Ho as [H0' _]. unfold log_taken.
  rewrite (proj2 (Z.ltb_ge _ _) H0'), Hf. done.
Qed.

Lemma thread_lead past s g t a choice : GInv past s g -> threads s !! t = Some (T_lead a) -> step_ok past (thread_step t choice s).
Proof.
  intros I Ht. cell I Ht. unfold thread_step, access. rewrite Ht, Hw. destruct Hst as [-> Hs]. rewrite Hs. cbn [check Z.eqb STATE_GROUP_LEADER Pos.eqb].
  apply (step_silent _ _ g). moves I Ht Hw Hr; done.
Qed.

Lemma thread_make past s g t a : GInv past s g -> threads s !! t = Some (T_make a) -> step_ok past (MakeGroup t a s).
Proof.
  intros I Ht. cell I Ht. unfold MakeGroup, access. rewrite Hw. destruct Hst as [-> Hs]. destruct Hcell as (Hh & Hlk & Hfr).
  rewrite (taken _ _ _ _ _ _ I Hh). destruct (holds_log _ _ _ _ _ I Hh) as [_ Hlt]. assert (Hh0 := proj1 Hh).
  rewrite (proj2 (Z.leb_le _ _) Hh0), (proj2 (Z.ltb_lt _ _)) by lia. cbn [check andb]. apply (step_silent _ _ g).
  apply (ginv_move T B past s g t (T_make a) _ w (with_group a w) Lead); eauto; try done. intros _. cbn. split_and!; [done..|]. by exists [], (lists g (Grp a)).
Qed.

Lemma thread_finish past s g t a choice : GInv past s g -> threads s !! t = Some (T_finish a) -> step_ok past (thread_step t choice s).
Proof.
  intros I Ht. cell I Ht. unfold thread_step, access. rewrite Ht, Hw. destruct Hst as [-> Hs]. destruct (Hcell) as (Hh & _).
  rewrite (taken _ _ _ _ _ _ I Hh). apply (step_silent _ _ g). moves I Ht Hw Hr; done.
Qed.

Lemma thread_group past s g t a cur last size : GInv past s g -> threads s !! t = Some (T_group a cur last size) ->
  step_ok past (make_group_loop t a cur last size s).
Proof.
  intros I Ht. cell I Ht. destruct Hst as [-> Hs]. destruct (Hcell) as (Hh & Hlk & Hfr & l1 & l2 & Hl & Hcur).
  assert (Hend : step_ok past (Step [] (goes t (T_write a (Some a)) s))).
  { apply (step_silent _ _ g). moves I Ht Hw Hr; try done. intros _. split_and!; [done..|]. exists [], (a :: lists g (Grp a)).
    split_and!; [done | by split; [|exists w] | constructor | done |].
    destruct (holds_log _ _ _ _ _ I Hh) as [_ Hlt]. destruct (lookup_lt_is_Some_2 _ _ Hlt) as [log Hlog]. exists log. split; [done|].
    destruct (gi_buffer _ _ _ _ _ I _ _ Hlog) as [_ [->|(t' & p & w' & Ht' & Hwr & Hw' & Hk)]]; [done|exfalso].
    destruct (owner_cell _ _ _ _ _ _ _ I Ht') as (w2 & r2 & Hw2 & Hr2 & Hst2 & Hcell2). rewrite Hw' in Hw2. injection Hw2 as <-.
    assert (Hown : holds g (addr p) w') by (destruct p; try done; destruct Hst2 as [-> _]; apply Hcell2).
    destruct Hown as [_ Hown]. destruct Hh as [_ Hh]. rewrite Hk, Hh in Hown. injection Hown as Hown.
    assert (t' = t) as -> by (eapply (gi_addr _ _ _ _ _ I); [exact Ht'|exact Ht|by cbn]). rewrite Ht in Ht'. injection Ht' as <-. done. }
  destruct cur as [b|]; cbn [make_group_loop]; [|done]. destruct (decide (b = a)); [done|].
  destruct l2 as [|b' l2]; [done|]. destruct Hcur as [[= <-] (wb & Hwb & Hcur)]. unfold access. rewrite Hwb. apply (step_silent _ _ g).
  assert (I' : GInv past (store b (with_group a wb) s) g) by (eapply touch; eauto; done).
  destruct (owner_cell _ _ _ _ _ _ (T_group a (Some b) last size) I' Ht) as (w2 & r2 & Hw2 & Hr2 & Hst2 & Hcell2).
  eapply move; [exact I'|exact Ht|done|exact Hw2|exact Hr2|exact Hst2| |done]. intros ->. cbn in Hcell2 |- *.
  destruct Hcell2 as (H1 & H2 & H3 & l3 & l4 & H4 & H5). split_and!; [done..|].
  destruct l4 as [|b2 l4]; [done|]. destruct H5 as [[= <-] (wb2 & Hwb2 & H5)]. rewrite lookup_insert_eq in Hwb2. injection Hwb2 as <-.
  exists (l3 ++ [b]), l4. rewrite <- app_assoc. done.
Qed.

Lemma thread_older past s g t a h : GInv past s g -> threads s !! t = Some (T_older a (Some h)) -> step_ok past (finish_loop t a (Some h) s).
Proof.
  intros I Ht. cell I Ht. destruct Hst as [-> Hs]. destruct Hcell as (Hlk & Hd). cbn [finish_loop].
  destruct (lists g (Grp a)) as [|h' l] eqn:Hl; [done|]. destruct Hlk as [[= <-] (wh & Hwh & Hlk)]. unfold access. rewrite Hwh.
  apply (step_silent _ _ g). moves I Ht Hw Hr; try done. intros _. cbn. rewrite Hl. split; [done|]. by exists l.
Qed.

Lemma thread_write_end past s g t a : GInv past s g -> threads s !! t = Some (T_write a None) -> step_ok past (WriteToLog t a None s).
Proof.
  intros I Ht. cell I Ht. destruct Hst as [-> Hs]. destruct Hcell as (Hh & Hlk & l1 & l2 & Hl & Hcur & Ho & Hf & Hlog).
  apply (step_silent _ _ g). moves I Ht Hw Hr; try done. intros _. cbn. split_and!; [done..|]. destruct l2; [|by destruct Hcur].
  rewrite app_nil_r in Hl. by rewrite Hl.
Qed.

(** ** Rebuilding the invariant when more changes *)

(** What holds of every event with what was before it, in a longer past. *)
Lemma ordered_app {X} (ev : X -> event) (P : list event -> X -> Prop) past e : (forall b x c, past = b ++ ev x :: c -> P b x) ->
  (forall x, ev x ∉ e) -> forall b x c, past ++ e = b ++ ev x :: c -> P b x.
Proof. intros Hp He b x c [[c' ->]|Hx]%event_app; [by eapply Hp | by apply He in Hx]. Qed.

Lemma returned_app past e : (forall b n c, past = b ++ Returned n :: c -> is_durable b n) -> (forall n, Returned n ∉ e) ->
  forall b n c, past ++ e = b ++ Returned n :: c -> is_durable b n.
Proof. apply (ordered_app Returned). Qed.
Lemma appended_app past e : (forall b n k d c, past = b ++ Appended n k d :: c -> Called n d ∈ b) -> appends e = [] ->
  forall b n k d c, past ++ e = b ++ Appended n k d :: c -> Called n d ∈ b.
Proof.
  intros Hp He b n k d c [[c' ->]|Hx]%event_app; [by eapply Hp|]. apply appends_elem in Hx. rewrite He in Hx. by apply elem_of_nil in Hx.
Qed.

(** What the server relies on is in the cells of its own list. *)
Lemma server_frame s s' g g' : server_ok s g -> server_ s' = server_ s -> lists g' Srv = lists g Srv ->
  (forall k, owner g !! k = Some H_server -> owner g' !! k = Some H_server) ->
  (forall y, y ∈ lists g Srv -> heap s' !! y = heap s !! y) -> server_ok s' g'.
Proof.
  intros Hs Hv Hl Ho Hh. unfold server_ok in *. rewrite Hv, Hl.
  assert (Hlk : forall p, linked (heap s) p (lists g Srv) -> linked (heap s') p (lists g Srv)).
  { intros p. apply linked_same. intros y wy Hy Hwy. exists wy. by rewrite Hh. }
  destruct (server_ s) as [| | | | |hd at_| | |]; try done; try (destruct Hs as [? ?]; by auto).
  destruct Hs as (H1 & H2 & w & H3 & H4 & H5).
  assert (Hd : hd ∈ lists g Srv) by (destruct (lists g Srv) as [|y l]; [done|]; destruct H1 as [[= ->] _]; by left).
  split_and!; [by auto | | exists w; rewrite Hh by done; by auto]. eapply set_ok_same; [|exact H2]. intros w' Hw'. exists w'. by rewrite Hh.
Qed.

(** Bytes are in a buffer only while a leader writes to it. *)
Lemma buffer_frame past s g s' : GInv past s g -> logs_ s' = logs_ s ->
  (forall t p w, threads s !! t = Some p -> writing p = true -> heap s !! addr p = Some w ->
    exists p' w', threads s' !! t = Some p' /\ writing p' = true /\ heap s' !! addr p' = Some w' /\ log_num w' = log_num w) ->
  forall k log, logs_ s' !! k = Some log -> writer_ok log /\ (appended log = [] \/
    exists t p w, threads s' !! t = Some p /\ writing p = true /\ heap s' !! addr p = Some w /\ Z.to_nat (log_num w) = k).
Proof.
  intros I Hl Hw k log Hk. rewrite Hl in Hk. destruct (gi_buffer _ _ _ _ _ I k log Hk) as [? [?|(t & p & w & Hp & Hwr & Hwp & <-)]]; (split; [done|]); [by left|right].
  destruct (Hw t p w Hp Hwr Hwp) as (p' & w' & ? & ? & ? & ?). exists t, p', w'. split_and!; [done..|congruence].
Qed.

Definition plain (e : list event) : Prop := Forall (fun x => match x with Synced _ => True | _ => False end) e.

Lemma plain_appends e : plain e -> appends e = [].
Proof. induction 1 as [|x e Hx He IH]; [done|]. cbn. by destruct x. Qed.

Lemma ginv_rebuild past e s s' g g' : GInv past s g -> plain e ->
  (forall t p', threads s' !! t = Some p' -> exists p, threads s !! t = Some p /\ addr p' = addr p) ->
  (forall x w', heap s' !! x = Some w' -> exists w, heap s !! x = Some w /\ call w' = call w /\ data w' = data w) ->
  (forall x, is_Some (heap s !! x) -> is_Some (heap s' !! x)) -> calls s' = calls s ->
  length (log_free_ s') = length (log_free_ s) -> length (logs_ s') = length (logs_ s) ->
  (forall x w', heap s' !! x = Some w' -> exists t p r, threads s' !! t = Some p /\ addr p = x /\ roles g' !! x = Some r /\ cell_ok (past ++ e) s' g' x w' r p) ->
  (forall x, is_Some (roles g' !! x) -> is_Some (roles g !! x)) ->
  (forall q, NoDup (lists g' q)) -> (forall q x, x ∈ lists g' q <-> roles g' !! x = Some (Wait q)) ->
  (forall a, roles g' !! a <> Some Lead -> lists g' (Grp a) = []) ->
  linked (heap s') (newest_writer_ s') (lists g' Stk) -> server_ok s' g' ->
  (forall k o, owner g' !! k = Some o -> log_free_ s' !! k = Some true) ->
  (forall k log, logs_ s' !! k = Some log -> writer_ok log /\ (appended log = [] \/
    exists t p w, threads s' !! t = Some p /\ writing p = true /\ heap s' !! addr p = Some w /\ Z.to_nat (log_num w) = k)) ->
  GInv (past ++ e) s' g'.
Proof.
  intros I He Hth Hh Hh' Hc Hlf Hlg Hcells Hroles Hnd Hli Hgr Hst Hsv Ho Hb.
  assert (Hin : forall x, x ∈ past ++ e -> (forall k, x <> Synced k) -> x ∈ past).
  { intros x [Hx|Hx]%elem_of_app Hne; [done|]. unfold plain in He. rewrite Forall_forall in He. specialize (He x Hx). destruct x as [| |k|]; try done. by destruct (Hne k). }
  split; auto.
  - intros t p' Ht. destruct (Hth t p' Ht) as (p & Hp & Ha). destruct (gi_threads _ _ _ _ _ I t p Hp) as [? Hx]. split; [done|]. rewrite Ha. auto.
  - intros t t' p p' H1 H2 Ha. destruct (Hth _ _ H1) as (q & Hq & Hqa), (Hth _ _ H2) as (q' & Hq' & Hqa'). eapply (gi_addr _ _ _ _ _ I); [exact Hq|exact Hq'|congruence].
  - intros x r Hx. destruct (Hroles x) as [r0 Hr0]; [by eexists|]. apply Hh'. by eapply (gi_roles _ _ _ _ _ I).
  - by rewrite Hlf, Hlg, (gi_logs _ _ _ _ _ I).
  - intros x w' Hx. destruct (Hh x w' Hx) as (w & Hw & -> & ->). rewrite Hc. destruct (gi_calls _ _ _ _ _ I x w Hw) as (? & ? & ?). split_and!; [done| |done]. apply elem_of_app. by left.
  - intros x y w1 w2 H1 H2 He'. destruct (Hh _ _ H1) as (u1 & Hu1 & Hc1 & _), (Hh _ _ H2) as (u2 & Hu2 & Hc2 & _). eapply (gi_distinct _ _ _ _ _ I); [exact Hu1|exact Hu2|congruence].
  - rewrite appends_app, (plain_appends e He), app_nil_r, Hc. apply (gi_appends _ _ _ _ _ I).
  - apply appended_app; [apply (gi_data _ _ _ _ _ I) | by apply plain_appends].
  - intros n d Hn. rewrite Hc. eapply (gi_called _ _ _ _ _ I). apply Hin; [exact Hn | done].
  - apply returned_app; [apply (gi_returned _ _ _ _ _ I)|]. unfold plain in He. rewrite Forall_forall in He. intros n Hn. by apply (He _ Hn).
Qed.

(** Cells whose group a step leaves alone; the group of [x] has no member in
    [S]. *)
Lemma other_cell past e s s' g g' x w r t p (S : nat -> Prop) :
  GInv past s g -> heap s !! x = Some w -> roles g !! x = Some r -> threads s !! t = Some p -> addr p = x -> cell_ok past s g x w r p ->
  (forall y, S y \/ ~ S y) ->
  (forall y, ~ S y -> heap s' !! y = heap s !! y) -> (forall y, y ∈ group g x r -> ~ S y) -> appends e = [] ->
  (r = Lead -> lists g' (Grp x) = lists g (Grp x)) -> (r = Lead -> holds g x w -> holds g' x w) ->
  (r = Lead -> writing p = true -> logs_ s' !! Z.to_nat (log_num w) = logs_ s !! Z.to_nat (log_num w)) ->
  cell_ok (past ++ e) s' g' x w r p.
Proof.
  intros I Hx Hr Ht Ha Hc HS Hh Hg He Hl Ho Hlog. eapply cell_frame; [exact Hc|..]; try done.
  - intros y wy Hy Hwy. exists wy. rewrite Hh by auto. done.
  - intros y wy _ _. rewrite He. apply not_elem_of_nil.
  - intros Hlead Hwr log Hk. exists log. by rewrite Hlog.
Qed.

(** ** [SetState] *)
Definition wake (x : nat) (p : thread_at) : thread_at :=
  match p with T_sleep b => if decide (b = x) then T_check b else p | _ => p end.
Definition woken (x : nat) s := set_threads (wake x <$> threads s) s.

Lemma wake_addr x p : addr (wake x p) = addr p.
Proof. destruct p; try done. cbn. by destruct (decide _). Qed.

Lemma wake_other x p : addr p <> x -> wake x p = p.
Proof. destruct p; try done. cbn. intros Hne. by rewrite decide_False. Qed.

Lemma woken_id x s : (forall t, threads s !! t <> Some (T_sleep x)) -> woken x s = s.
Proof.
  intros Hx. unfold woken. assert (Heq : wake x <$> threads s = threads s); [|rewrite Heq; by destruct s].
  apply map_eq. intros t. rewrite lookup_fmap. destruct (threads s !! t) as [p|] eqn:Ht; [|done]. cbn. f_equal.
  destruct p; try done. cbn. destruct (decide (a = x)) as [->|]; [by destruct (Hx t)|done].
Qed.

Lemma woken_lookup x s t p' : threads (woken x s) !! t = Some p' -> exists p, threads s !! t = Some p /\ p' = wake x p.
Proof. cbn. rewrite lookup_fmap. destruct (threads s !! t) as [p|]; [|done]. intros [= <-]. eauto. Qed.

(** A member that waits. *)
Lemma waiting past s g x q : GInv past s g -> roles g !! x = Some (Wait q) -> exists t p w,
  threads s !! t = Some p /\ addr p = x /\ heap s !! x = Some w /\ state_ok w (Wait q) p /\
  (state w = STATE_INIT /\ p <> T_sleep x \/ state w = STATE_LOCKED_WAITING /\ made_waitable w = true) /\
  (forall st r, settled (with_state st w) r -> state_ok (with_state st w) r (wake x p)).
Proof.
  intros I Hx. destruct (gi_roles _ _ _ _ _ I x _ Hx) as [w Hw]. destruct (gi_cells _ _ _ _ _ I x w Hw) as (t & p & r & Ht & Ha & Hr & [Hst _]).
  rewrite Hx in Hr. injection Hr as <-. exists t, p, w. split_and!; [done..| |].
  - destruct p; cbn in Hst; unfold waits, settled in Hst; naive_solver.
  - intros st r Hs. subst x. destruct p; cbn in Hst |- *; unfold waits, settled in Hst; try naive_solver.
    rewrite decide_True by done. cbn. naive_solver.
Qed.

Lemma not_sleeping past s g x q t p : GInv past s g -> roles g !! x = Some (Wait q) -> threads s !! t = Some p -> addr p = x -> p <> T_sleep x ->
  woken x s = s.
Proof.
  intros I Hx Ht Ha Hp. apply woken_id. intros t' Ht'. assert (t' = t) as -> by (eapply (gi_addr _ _ _ _ _ I); [exact Ht'|exact Ht|done]). congruence.
Qed.

(** [WriteToLog] and [Sync] do not run in a waiting thread. *)
Lemma waiting_quiet past s g x q t p : GInv past s g -> roles g !! x = Some (Wait q) -> threads s !! t = Some p -> writing p = true -> addr p <> x.
Proof.
  intros I Hx Ht Hw <-. destruct (owner_cell _ _ _ _ _ _ _ I Ht) as (w & r & _ & Hr & Hst & _). rewrite Hx in Hr. injection Hr as <-.
  destruct p; try done; by destruct Hst as [[=] _].
Qed.

Lemma complete past s g t a h tmp at_ wh : GInv past s g -> threads s !! t = Some (T_set a h tmp at_) -> heap s !! h = Some wh ->
  exists g', GInv past (goes t (T_older a tmp) (woken h (store h (with_state STATE_COMPLETED wh) s))) g'.
Proof.
  intros I Ht Hwh. cell I Ht. destruct Hst as [-> Hs]. destruct Hcell as (Hd & l & Hl & Hlk & _).
  assert (Hh : roles g !! h = Some (Wait (Grp a))) by (apply (gi_lists _ _ _ _ _ I); rewrite Hl; by left).
  destruct (waiting past s g h _ I Hh) as (th & ph & wh' & Hth & Hah & Hwh' & Hsth & _ & Hwake).
  rewrite Hwh in Hwh'. injection Hwh' as <-.
  assert (Hne : h <> a) by (intros ->; congruence). assert (Hnt : th <> t) by (intros ->; rewrite Ht in Hth; injection Hth as <-; done).
  assert (Hnd : h ∉ l /\ NoDup l) by (assert (Hn := gi_nodup _ _ _ _ _ I (Grp a)); rewrite Hl in Hn; by apply NoDup_cons in Hn).
  set (s1 := store h (with_state STATE_COMPLETED wh) s).
  exists {| roles := <[h := Done]> (roles g); lists q := if decide (q = Grp a) then l else lists g q; owner := owner g |}. set (g' := Build_ghost _ _ _).
  assert (Hheap : forall y, ~ y = h -> <[h := with_state STATE_COMPLETED wh]> (heap s) !! y = heap s !! y) by (intros y Hy; by rewrite lookup_insert_ne).
  assert (Hlinks : forall p0 l0, h ∉ l0 -> linked (heap s) p0 l0 -> linked (<[h := with_state STATE_COMPLETED wh]> (heap s)) p0 l0).
  { intros p0 l0 Hn. apply linked_same. intros y wy Hy Hwy. exists wy. rewrite Hheap; [done|]. by intros ->. }
  assert (Hin : forall q, h ∈ lists g q -> q = Grp a) by (intros q Hq%(gi_lists _ _ _ _ _ I); congruence).
  rewrite <- (app_nil_r past). apply (ginv_rebuild past [] s _ g g' I);
    cbn [heap threads goes woken set_threads store set_heap calls log_free_ logs_ newest_writer_ roles lists owner g' s1]; try done; [constructor|..].
  - intros t' p' Hp. apply lookup_insert_Some in Hp as [[<- <-]|[_ Hp]]; [by exists (T_set a h tmp at_)|].
    apply (woken_lookup h s) in Hp as (p & Hp & ->). exists p. by rewrite wake_addr.
  - intros x w' Hx. apply lookup_insert_Some in Hx as [[<- <-]|[_ Hx]]; [by exists wh | by exists w'].
  - intros x [wx Hx]. destruct (decide (x = h)) as [->|]; [rewrite lookup_insert_eq | rewrite lookup_insert_ne by done]; by eexists.
  - intros x wx Hx. apply lookup_insert_Some in Hx as [[<- <-]|[Hxh Hx]].
    + exists th, (wake h ph), Done. rewrite lookup_insert_ne by done. rewrite lookup_fmap, Hth, wake_addr, lookup_insert_eq. split_and!; [done..|].
      split; [apply Hwake; by right|]. apply durable_app. rewrite Forall_forall in Hd. destruct (Hd h) as (w' & Hw' & Hdur); [rewrite Hl; by right; left|].
      rewrite Hwh in Hw'. by injection Hw' as <-.
    + destruct (decide (x = a)) as [->|Hxa].
      * rewrite Hw in Hx. injection Hx as <-. exists t, (T_older a tmp), Lead. rewrite lookup_insert_eq, lookup_insert_ne by done. split_and!; [done..|].
        split; [by split|]. cbn. rewrite decide_True by done. split; [apply Hlinks; [apply Hnd|done]|]. rewrite app_nil_r.
        apply Forall_forall. intros y Hy. rewrite Forall_forall in Hd. destruct (Hd y) as (wy & Hwy & Hdy); [rewrite Hl; set_solver|].
        destruct (decide (y = h)) as [->|]; [|exists wy; by rewrite Hheap]. apply elem_of_cons in Hy as [->|Hy]; [done|]. by destruct Hnd.
      * destruct (gi_cells _ _ _ _ _ I x wx Hx) as (tx & px & rx & Htx & Hax & Hrx & Hcx). exists tx, px, rx.
        assert (tx <> t) by (intros ->; rewrite Ht in Htx; injection Htx as <-; done).
        rewrite !lookup_insert_ne, lookup_fmap, Htx by done. cbn. rewrite wake_other by congruence. split_and!; [done..|].
        eapply (other_cell past [] s _ g g' x wx rx tx px (fun y => y = h) I); eauto; [intros y; destruct (decide (y = h)); auto|..].
        -- intros y Hy ->. destruct (role_of_group _ _ _ _ _ _ _ _ I Hrx Hy) as [->|[_ Hy']]; [done|congruence].
        -- intros ->. cbn. rewrite decide_False by congruence. done.
  - intros x [r Hr0]. apply lookup_insert_Some in Hr0 as [[<- <-]|[_ Hr0]]; by eexists.
  - intros q. destruct (decide (q = Grp a)); [by destruct Hnd|]. apply (gi_nodup _ _ _ _ _ I).
  - intros q x. destruct (decide (x = h)) as [->|Hxh]; [rewrite lookup_insert_eq | rewrite lookup_insert_ne by done].
    + split; [|done]. destruct (decide (q = Grp a)) as [->|Hq]; [by destruct Hnd|]. intros Hx. by destruct Hq, (Hin q Hx).
    + rewrite <- (gi_lists _ _ _ _ _ I). destruct (decide (q = Grp a)) as [->|]; [|done]. rewrite Hl. set_solver.
  - intros x Hx. destruct (decide (Grp x = Grp a)) as [[= ->]|Hq]; [destruct Hx; by rewrite lookup_insert_ne|].
    destruct (decide (x = h)) as [->|Hxh]; [apply (gi_group _ _ _ _ _ I); congruence|]. apply (gi_group _ _ _ _ _ I). by rewrite lookup_insert_ne in Hx.
  - apply Hlinks; [intros Hx; by apply Hin in Hx|]. apply (gi_stack _ _ _ _ _ I).
  - apply (server_frame s _ g); [apply (gi_server _ _ _ _ _ I) | done | done | done |]. intros y Hy. apply Hheap. intros ->. by apply Hin in Hy.
  - apply (gi_owner _ _ _ _ _ I).
  - apply (buffer_frame past s g (goes t (T_older a tmp) (woken h s1)) I); [done|]. intros t' q wq Hq Hwr Hwq. assert (t' <> t) by (intros ->; rewrite Ht in Hq; by injection Hq as <-).
    assert (addr q <> h) by (by eapply waiting_quiet). exists q, wq. cbn. rewrite lookup_insert_ne, lookup_fmap, Hq by done. cbn.
    rewrite wake_other, Hheap by done. done.
Qed.

(** The queue [q] of the server's list becomes the group of its head. *)
Definition regroup (h : nat) (r : role) : role := match r with Wait Srv => Wait (Grp h) | _ => r end.

Lemma promote past s g h l at_ wh : GInv past s g -> server_ s = V_set h at_ -> heap s !! h = Some wh -> lists g Srv = h :: l ->
  exists g', GInv past (set_server V_stop (woken h (store h (with_state STATE_GROUP_LEADER wh) s))) g'.
Proof.
  intros I Hsv Hwh Hl. assert (Hs := gi_server _ _ _ _ _ I). unfold server_ok in Hs. rewrite Hsv in Hs.
  destruct Hs as (Hlk & _ & wh' & Hwh' & Hk0 & Hown). rewrite Hwh in Hwh'. injection Hwh' as <-. rewrite Hl in Hlk.
  destruct Hlk as [_ (wh' & Hwh' & Hlk)]. rewrite Hwh in Hwh'. injection Hwh' as <-.
  assert (Hh : roles g !! h = Some (Wait Srv)) by (apply (gi_lists _ _ _ _ _ I); rewrite Hl; by left).
  destruct (waiting past s g h _ I Hh) as (th & ph & wh' & Hth & Hah & Hwh' & Hsth & _ & Hwake). rewrite Hwh in Hwh'. injection Hwh' as <-.
  assert (Hnd : h ∉ l /\ NoDup l) by (assert (Hn := gi_nodup _ _ _ _ _ I Srv); rewrite Hl in Hn; by apply NoDup_cons in Hn).
  assert (Hgh : lists g (Grp h) = []) by (apply (gi_group _ _ _ _ _ I); congruence).
  assert (Hfresh : Forall (member (heap s) (fresh past)) (h :: l)).
  { apply Forall_forall. intros y Hy. rewrite <- Hl in Hy. apply (gi_lists _ _ _ _ _ I) in Hy.
    destruct (gi_roles _ _ _ _ _ I y _ Hy) as [wy Hwy]. exists wy. split; [done|].
    destruct (gi_cells _ _ _ _ _ I y wy Hwy) as (? & ? & r & _ & _ & Hr & [_ Hc]). rewrite Hy in Hr. by injection Hr as <-. }
  set (h1 := <[h := with_state STATE_GROUP_LEADER wh]> (heap s)). set (k := Z.to_nat (log_num wh)).
  set (g' := {| roles := <[h := Lead]> (regroup h <$> roles g); lists q := if decide (q = Srv) then [] else if decide (q = Grp h) then l else lists g q;
    owner := <[k := H_thread h]> (owner g) |}). exists g'.
  assert (Hheap : forall y, ~ y = h -> h1 !! y = heap s !! y) by (intros y Hy; unfold h1; by rewrite lookup_insert_ne).
  assert (Hlinks : forall p0 l0, h ∉ l0 -> linked (heap s) p0 l0 -> linked h1 p0 l0).
  { intros p0 l0 Hn. apply linked_same. intros y wy Hy Hwy. exists wy. rewrite Hheap; [done|]. by intros ->. }
  assert (Hroles : forall x, x <> h -> roles g' !! x = regroup h <$> roles g !! x) by (intros x Hx; cbn; by rewrite lookup_insert_ne, lookup_fmap).
  assert (Hother : forall t p, threads s !! t = Some p -> addr p <> h -> (wake h <$> threads s) !! t = Some p).
  { intros t p Ht Ha. rewrite lookup_fmap, Ht. cbn. by rewrite wake_other. }
  rewrite <- (app_nil_r past). apply (ginv_rebuild past [] s _ g g' I);
    cbn [heap threads woken set_server set_threads store set_heap calls log_free_ logs_ newest_writer_]; fold h1; try done; [constructor|..].
  - intros t' p' Hp. apply (woken_lookup h s) in Hp as (p & Hp & ->). exists p. by rewrite wake_addr.
  - intros x w' Hx. apply lookup_insert_Some in Hx as [[<- <-]|[_ Hx]]; [by exists wh | by exists w'].
  - intros x [wx Hx]. destruct (decide (x = h)) as [->|]; [unfold h1; rewrite lookup_insert_eq | rewrite Hheap by done]; by eexists.
  - intros x wx Hx. apply lookup_insert_Some in Hx as [[<- <-]|[Hxh Hx]].
    + exists th, (wake h ph), Lead. rewrite lookup_fmap, Hth, wake_addr. cbn [roles g']. rewrite lookup_insert_eq. split_and!; [done..|].
      split; [apply Hwake; by left|]. rewrite app_nil_r.
      assert (Hlead : holds g' h (with_state STATE_GROUP_LEADER wh) /\ linked h1 (link_older wh) l /\ Forall (member h1 (fresh past)) (h :: l)).
      { split_and!; [split; [done|]; apply lookup_insert_eq | apply Hlinks; [apply Hnd|done] |].
        eapply members_same; [|intros; eassumption|exact Hfresh]. intros y wy _ Hwy. destruct (decide (y = h)) as [->|]; [|exists wy; by rewrite Hheap].
        rewrite Hwh in Hwy. injection Hwy as <-. unfold h1. rewrite lookup_insert_eq. by eexists. }
      assert (Hlg : lists g' (Grp h) = l) by (cbn; rewrite decide_False by done; by rewrite decide_True).
      rewrite <- Hlg in Hlead. destruct ph; try exact Hlead; try (by destruct Hsth as [[=] _]). cbn [wake]. destruct (decide (a = h)); exact Hlead.
    + destruct (gi_cells _ _ _ _ _ I x wx Hx) as (tx & px & rx & Htx & Hax & Hrx & Hcx). exists tx, px, (regroup h rx).
      rewrite Hroles, Hrx by done. split_and!; [apply Hother; [done|congruence] | done | done |].
      assert (Hcx' : cell_ok past s g x wx (regroup h rx) px).
      { destruct Hcx as [H1 H2]. destruct rx as [|[| |]| |]; try (by split). split; [|done]. cbn. destruct px; cbn in *; unfold waits, settled in *; naive_solver. }
      assert (Hnh : rx = Lead -> lists g' (Grp x) = lists g (Grp x)).
      { intros ->. cbn. rewrite !decide_False by congruence. done. }
      destruct (decide (rx = Wait Srv)) as [->|Hsrv]; [by rewrite app_nil_r; destruct Hcx'|].
      assert (regroup h rx = rx) as -> by (by destruct rx as [|[| |]| |]).
      eapply (other_cell past [] s _ g g' x wx rx tx px (fun y => y = h) I); eauto; [intros y; destruct (decide (y = h)); auto|..].
      * intros y Hy ->. destruct (role_of_group _ _ _ _ _ _ _ _ I Hrx Hy) as [->|[_ Hy']]; [done|congruence].
      * intros _ [H1 H2]. split; [done|]. cbn. rewrite lookup_insert_ne; [done|]. intros He. unfold k in He. rewrite <- He in H2. congruence.
  - intros x [r Hr0]. destruct (decide (x = h)) as [->|Hne]; [by eexists|]. rewrite Hroles in Hr0 by done. destruct (roles g !! x); [by eexists|done].
  - intros q. cbn. destruct (decide (q = Srv)); [constructor|]. destruct (decide (q = Grp h)); [apply Hnd|]. apply (gi_nodup _ _ _ _ _ I).
  - intros q x. destruct (decide (x = h)) as [->|Hxh].
    + cbn. rewrite lookup_insert_eq. split; [|done]. destruct (decide (q = Srv)); [by intros ?%elem_of_nil|]. destruct (decide (q = Grp h)); [by destruct Hnd|].
      intros Hq%(gi_lists _ _ _ _ _ I). congruence.
    + rewrite Hroles by done. cbn. destruct (decide (q = Srv)) as [->|Hq].
      { split; [by intros ?%elem_of_nil|]. intros Hr0. destruct (roles g !! x) as [[|[| |]| |]|]; done. }
      destruct (decide (q = Grp h)) as [->|Hq'].
      * split.
        -- intros Hxl. assert (Hxr : roles g !! x = Some (Wait Srv)) by (apply (gi_lists _ _ _ _ _ I); rewrite Hl; by right). by rewrite Hxr.
        -- intros Hr0. assert (Hxr : roles g !! x = Some (Wait Srv)).
           { destruct (roles g !! x) as [[|[| |y]| |]|] eqn:Hrx; try done. cbn in Hr0. injection Hr0 as ->.
             apply (gi_lists _ _ _ _ _ I) in Hrx. rewrite Hgh in Hrx. by apply elem_of_nil in Hrx. }
           apply (gi_lists _ _ _ _ _ I) in Hxr. rewrite Hl in Hxr. by apply elem_of_cons in Hxr as [->|].
      * rewrite (gi_lists _ _ _ _ _ I). destruct (roles g !! x) as [[|[| |y]| |]|]; cbn; naive_solver.
  - intros x Hx. destruct (decide (x = h)) as [->|Hxh]; [destruct Hx; cbn; by rewrite lookup_insert_eq|]. cbn. rewrite !decide_False by congruence.
    apply (gi_group _ _ _ _ _ I). intros Hr0. rewrite Hroles, Hr0 in Hx by done. done.
  - apply Hlinks; [intros Hx%(gi_lists _ _ _ _ _ I); congruence|]. apply (gi_stack _ _ _ _ _ I).
  - intros k' o Ho. cbn in Ho. apply lookup_insert_Some in Ho as [[<- _]|[_ Ho]]; by eapply (gi_owner _ _ _ _ _ I).
  - apply (buffer_frame past s g (set_server V_stop (woken h (store h (with_state STATE_GROUP_LEADER wh) s))) I); [done|]. intros t' q wq Hq Hwr Hwq. assert (addr q <> h) by (by eapply waiting_quiet).
    exists q, wq. split_and!; [by apply Hother | done | by cbn; fold h1; rewrite Hheap | done].
Qed.
End steps.
