(* ===== verification/GroupCommitSet.v ===== *)
(** * The group commit: [SetState] and the server thread keep the invariant *)

From S2P Require Import Prelude Machine LogFormat LogWriter GroupCommit GroupCommitInv GroupCommitSteps.
Local Open Scope Z_scope.

Section steps.
Context {W : Type} `{LogWriterLaws W}.
Context (T : nat) (B : Z).
Implicit Types (s : LoggingServer W).
Notation GInv := (GInv T B).
Notation step_ok := (step_ok T B).

(** A step of [SetState] on a [Writer] that waits: one more step of it, or the
    new state is there and the owner, should it sleep, is woken. *)
Lemma set_state_ok past s g x q w at_ new again done : GInv past s g -> roles g !! x = Some (Wait q) -> heap s !! x = Some w ->
  new = STATE_GROUP_LEADER \/ new = STATE_COMPLETED -> set_ok (heap s) x at_ ->
  (forall at', set_ok (heap s) x at' -> step_ok past (Step [] (again at' s))) ->
  step_ok past (Step [] (done (woken x (store x (with_state new w) s)))) ->
  step_ok past (SetState x new at_ again done s).
Proof.
  intros I Hx Hw Hnew Hset Hagain Hdone. destruct (waiting _ _ _ _ _ _ _ I Hx) as (t & p & w' & Ht & Ha & Hw' & _ & Hst & _).
  rewrite Hw in Hw'. injection Hw' as <-. unfold SetState, access. rewrite Hw.
  destruct at_ as [|st|].
  - destruct Hst as [[Hs _]|[Hs _]]; rewrite Hs; apply Hagain; [done|]. by exists w.
  - cbn in Hset. subst st. destruct Hst as [[Hs Hp]|[Hs _]]; rewrite Hs; cbn [Z.eqb STATE_INIT STATE_LOCKED_WAITING Pos.eqb check].
    + rewrite woken_id in Hdone; [done|]. intros t' Ht'. assert (t' = t) as -> by (eapply (gi_addr _ _ _ _ _ I); [exact Ht'|exact Ht|done]).
      change (threads s !! t = Some (T_sleep x)) in Ht'. congruence.
    + apply Hagain. by exists w.
  - destruct Hset as (w' & Hw' & Hs). rewrite Hw in Hw'. injection Hw' as <-. destruct Hst as [[Hs' _]|[_ Hm]]; [by rewrite Hs in Hs'|].
    rewrite Hm, Hs. assert (STATE_LOCKED_WAITING =? new = false) as -> by (by destruct Hnew as [-> | ->]). done.
Qed.

Lemma thread_set past s g t a h tmp at_ : GInv past s g -> threads s !! t = Some (T_set a h tmp at_) ->
  step_ok past (SetState h STATE_COMPLETED at_ (fun at_ => goes t (T_set a h tmp at_)) (goes t (T_older a tmp)) s).
Proof.
  intros I Ht. destruct (owner_cell _ _ _ _ _ _ _ I Ht) as (w & r & Hw & Hr & Hst & Hcell). cbn in Hw, Hr. destruct Hst as [-> Hs].
  destruct Hcell as (Hd & l & Hl & Hlk & Hset).
  assert (Hh : roles g !! h = Some (Wait (Grp a))) by (apply (gi_lists _ _ _ _ _ I); cbn in Hl; rewrite Hl; by left).
  destruct (gi_roles _ _ _ _ _ I h _ Hh) as [wh Hwh].
  eapply set_state_ok; [exact I | exact Hh | exact Hwh | by right | done | |].
  - intros at' Hat. apply (step_silent _ _ _ _ g). eapply move; [exact I | exact Ht | done | exact Hw | exact Hr | done | | done].
    intros _. split; [done|]. by exists l.
  - cbn [GroupCommitSteps.step_ok]. rewrite app_nil_r. eapply complete; eauto.
Qed.

(** ** Simple steps of the server *)
Lemma server_move past s g v : GInv past s g -> server_ok (set_server v s) g -> GInv past (set_server v s) g.
Proof. intros I Hv. split; try apply I. done. Qed.

Lemma server_set past s g h at_ : GInv past s g -> server_ s = V_set h at_ ->
  step_ok past (SetState h STATE_GROUP_LEADER at_ (fun at_ => set_server (V_set h at_)) (set_server V_stop) s).
Proof.
  intros I Hv. assert (Hs := gi_server _ _ _ _ _ I). unfold server_ok in Hs. rewrite Hv in Hs. destruct Hs as (H1 & H2 & w & Hw & H3).
  destruct (lists g Srv) as [|h' l] eqn:Hl; [done|]. assert (h' = h) as -> by (by destruct H1 as [[=] _]).
  assert (Hh : roles g !! h = Some (Wait Srv)) by (apply (gi_lists _ _ _ _ _ I); rewrite Hl; by left).
  eapply set_state_ok; [exact I | exact Hh | exact Hw | by left | done | |].
  - intros at' Hat. apply (step_silent _ _ _ _ g). apply server_move; [done|]. unfold server_ok. cbn. rewrite Hl. split_and!; [done..|]. by exists w.
  - cbn [GroupCommitSteps.step_ok]. rewrite app_nil_r. eapply promote; eauto.
Qed.

(** The owner of a log changes, and who had none of it does not notice. *)
Lemma owner_change past s g k f o v :
  GInv past s g -> (forall a, owner g !! k <> Some (H_thread a)) ->
  let s' := set_server v (set_free (<[k := f]> (log_free_ s)) s) in
  let g' := {| roles := roles g; lists := lists g; owner := partial_alter (fun _ => o) k (owner g) |} in
  (is_Some o -> f = true /\ (k < length (log_free_ s))%nat) -> server_ok s' g' -> GInv past s' g'.
Proof.
  intros I Hk s' g' Hf Hv.
  assert (Hne : forall j, j <> k -> owner g' !! j = owner g !! j) by (intros j Hj; cbn; by rewrite lookup_partial_alter_ne).
  split; try apply I; cbn [heap threads roles lists owner newest_writer_ log_free_ logs_ calls s' g' set_server set_free]; [|done| |].
  - intros x w Hx. destruct (gi_cells _ _ _ _ _ I x w Hx) as (t & p & r & Ht & Ha & Hr & Hc). exists t, p, r. split_and!; [done..|].
    rewrite <- (app_nil_r past). eapply (other_cell _ _ past [] s s' g g' x w r t p (fun _ => False) I); eauto.
    intros _ [H1 H2]. split; [done|]. rewrite Hne; [done|]. intros He. apply (Hk x). by rewrite <- He.
  - intros j o' Hj. destruct (decide (j = k)) as [->|Hjk].
    + rewrite lookup_partial_alter_eq in Hj. destruct Hf as [-> Hlt]; [by rewrite Hj|]. by apply list_lookup_insert_eq.
    + rewrite lookup_partial_alter_ne in Hj by done. rewrite list_lookup_insert_ne by done. by eapply (gi_owner _ _ _ _ _ I).
  - rewrite length_insert. apply (gi_logs _ _ _ _ _ I).
Qed.

(** [exchange(nullptr)]: the whole list is the server's. *)
Definition taken_over (r : role) : role := match r with Wait Stk => Wait Srv | _ => r end.

Lemma server_exchange past s g k head : GInv past s g -> server_ s = V_exchange k -> newest_writer_ s = Some head ->
  exists g', GInv past (set_server (V_log k head) (set_newest None s)) g'.
Proof.
  intros I Hv Hn. assert (Hs := gi_server _ _ _ _ _ I). unfold server_ok in Hs. rewrite Hv in Hs. destruct Hs as [Ho Hl].
  assert (Hlk := gi_stack _ _ _ _ _ I). rewrite Hn in Hlk.
  set (g' := {| roles := taken_over <$> roles g; lists q := match q with Stk => [] | Srv => lists g Stk | Grp a => lists g (Grp a) end; owner := owner g |}).
  assert (Hr : forall x r, roles g !! x = Some r -> roles g' !! x = Some (taken_over r)) by (intros x r Hx; cbn; by rewrite lookup_fmap, Hx).
  exists g'. rewrite <- (app_nil_r past). apply (ginv_rebuild _ _ past [] s _ g g' I); cbn [heap threads newest_writer_ logs_ log_free_ calls set_server set_newest]; try done.
  - constructor.
  - eauto.
  - eauto.
  - intros x w Hx. destruct (gi_cells _ _ _ _ _ I x w Hx) as (t & p & r & Ht & Ha & Hrx & Hc). exists t, p, (taken_over r). split_and!; [done | done | by apply Hr |].
    assert (Hc' : cell_ok B past s g x w (taken_over r) p).
    { destruct r as [|[| |]| |]; try done. destruct Hc as [Hc ?]. split; [|done]. destruct p; cbn in *; unfold waits, settled in *; naive_solver. }
    eapply (other_cell _ _ past [] s _ g g' x w r t p (fun _ => False) I) in Hc; eauto. destruct r as [|[| |]| |]; try done. by rewrite app_nil_r.
  - intros x [r Hx]. cbn in Hx. rewrite lookup_fmap in Hx. by destruct (roles g !! x).
  - intros [| |a]; cbn; [constructor|apply (gi_nodup _ _ _ _ _ I)..].
  - intros q x. assert (Hsr : roles g !! x <> Some (Wait Srv)) by (intros Hx%(gi_lists _ _ _ _ _ I); rewrite Hl in Hx; by apply elem_of_nil in Hx).
    cbn. rewrite lookup_fmap. assert (Hq : forall q', x ∈ lists g q' <-> roles g !! x = Some (Wait q')) by (intros q'; apply (gi_lists _ _ _ _ _ I)).
    destruct q as [| |a]; cbn; [split; [by intros ?%elem_of_nil|] | rewrite Hq | rewrite Hq]; destruct (roles g !! x) as [[|[| |]| |]|]; cbn; naive_solver.
  - intros a Ha. cbn in Ha |- *. apply (gi_group _ _ _ _ _ I). intros Hr'. by rewrite lookup_fmap, Hr' in Ha.
  - apply (gi_owner _ _ _ _ _ I).
  - apply (gi_buffer _ _ _ _ _ I).
Qed.

Lemma server_log past s g k hd : GInv past s g -> server_ s = V_log k hd ->
  step_ok past (access hd s (fun w => Step [] (set_server (V_set hd S_load) (store hd (with_log_num (Z.of_nat k) w) s)))).
Proof.
  intros I Hv. assert (Hs := gi_server _ _ _ _ _ I). unfold server_ok in Hs. rewrite Hv in Hs. destruct Hs as [Ho Hlk].
  destruct (lists g Srv) as [|h' l] eqn:Hl; [done|]. destruct (Hlk) as [[= <-] (w & Hw & _)].
  assert (Hh : roles g !! hd = Some (Wait Srv)) by (apply (gi_lists _ _ _ _ _ I); rewrite Hl; by left).
  unfold access. rewrite Hw. exists g. set (w' := with_log_num (Z.of_nat k) w).
  assert (Hkeep : forall y wy, heap s !! y = Some wy -> exists wy', <[hd := w']> (heap s) !! y = Some wy' /\ keeps wy wy').
  { intros y wy Hy. destruct (decide (y = hd)) as [->|Hne]; [|exists wy; by rewrite lookup_insert_ne].
    rewrite Hw in Hy. injection Hy as <-. exists w'. by rewrite lookup_insert_eq. }
  assert (Hlinks : forall p0 l0, linked (heap s) p0 l0 -> linked (<[hd := w']> (heap s)) p0 l0).
  { intros p0 l0. apply linked_same. intros y wy _ Hwy. destruct (Hkeep y wy Hwy) as (wy' & ? & (? & ?) & ?). eauto. }
  apply (ginv_rebuild _ _ past [] s _ g g I); cbn [heap threads newest_writer_ logs_ log_free_ calls set_server set_heap store]; try done; try apply I.
  - constructor.
  - eauto.
  - intros x wx Hx. apply lookup_insert_Some in Hx as [[<- <-]|[_ Hx]]; [by exists w | by exists wx].
  - intros x [wx Hx]. destruct (Hkeep x wx Hx) as (wx' & ? & _). by eexists.
  - intros x wx Hx. apply lookup_insert_Some in Hx as [[<- <-]|[Hne Hx]].
    + destruct (gi_cells _ _ _ _ _ I hd w Hw) as (t & p & r & Ht & Ha & Hr & Hc). exists t, p, r. split_and!; [done..|].
      rewrite Hh in Hr. injection Hr as <-. destruct Hc as [Hc ?]. split; [|by rewrite app_nil_r]. by destruct p.
    + destruct (gi_cells _ _ _ _ _ I x wx Hx) as (t & p & r & Ht & Ha & Hr & Hc). exists t, p, r. split_and!; [done..|].
      eapply (cell_frame _ past [] s); [exact Hc | intros y wy _; apply Hkeep | done | done | done | intros *; set_solver | intros _ _ log Hk; by exists log].
  - apply Hlinks, (gi_stack _ _ _ _ _ I).
  - unfold server_ok. cbn. rewrite Hl. split_and!; [by apply Hlinks | done |]. exists w'. rewrite lookup_insert_eq. cbn. split_and!; [done|lia|]. by rewrite Nat2Z.id.
  - apply (buffer_frame _ _ past s g (store hd w' s) I); [done|]. intros t p wp Hp Hwr Hwp. exists p, wp. split_and!; [done..| |done].
    cbn. rewrite lookup_insert_ne; [done|]. intros He. by apply (waiting_quiet _ _ _ _ _ _ _ _ _ I Hh Hp Hwr).
Qed.

Lemma server_ok_step past s g choice : GInv past s g -> step_ok past (server_step choice s).
Proof.
  intros I. assert (Hs := gi_server _ _ _ _ _ I). unfold server_ok in Hs. unfold server_step.
  assert (Hto : forall v, lists g Srv = [] -> server_ok (set_server v s) g -> step_ok past (Step [] (set_server v s))).
  { intros v _ Hv. apply (step_silent _ _ _ _ g). by apply server_move. }
  destruct (server_ s) as [|i|i|k|k hd|hd at_|k| |] eqn:Hv.
  - apply Hto; [done|]. by destruct (newest_writer_ s).
  - destruct (log_free_ s !! i) as [[|]|] eqn:Hi; cbn [negb andb]; [by apply Hto | | by apply Hto].
    destruct choice; cbn [andb]; [|by apply Hto]. eexists. rewrite app_nil_r. apply (owner_change past s g i true (Some H_server)); [done | | |].
    + intros a Ha. apply (gi_owner _ _ _ _ _ I) in Ha. congruence.
    + intros _. split; [done|]. by eapply lookup_lt_Some.
    + unfold server_ok. cbn. by rewrite lookup_partial_alter_eq.
  - destruct Hs as [Ho Hl]. assert (Hf := gi_owner _ _ _ _ _ I _ _ Ho). unfold log_taken. rewrite (proj2 (Z.ltb_ge _ _)), Nat2Z.id, Hf by lia.
    by apply Hto.
  - destruct (newest_writer_ s) as [head|] eqn:Hn.
    + cbn [GroupCommitSteps.step_ok]. rewrite app_nil_r. by eapply server_exchange.
    + assert (set_newest None s = s) as -> by (unfold set_newest; rewrite <- Hn; by destruct s). by apply Hto; [apply Hs|].
  - by eapply server_log.
  - by eapply server_set.
  - destruct Hs as [Ho Hl]. eexists. rewrite app_nil_r. apply (owner_change past s g k false None); [done | intros a; by rewrite Ho | by intros [? [=]] | done].
  - apply Hto; [done|]. by destruct (stop_ s).
  - done.
Qed.
End steps.
