(* ===== verification/GroupCommitEvents.v ===== *)
(** * The group commit: calls, writes to the log and returns keep the invariant *)

From S2P Require Import Prelude Machine LogFormat LogWriter GroupCommit GroupCommitInv GroupCommitSteps GroupCommitSet.
Local Open Scope Z_scope.

Section steps.
Context {W : Type} `{LogWriterLaws W}.
Context (T : nat) (B : Z).
Implicit Types (s : LoggingServer W).
Notation GInv := (GInv T B).
Notation step_ok := (step_ok T B).

(** Where an address can be. *)
Lemma private_cell past s g x r : GInv past s g -> roles g !! x = Some r -> (forall q, r <> Wait q) -> forall q, x ∉ lists g q.
Proof. intros I Hx Hr q Hq%(gi_lists _ _ _ _ _ I). rewrite Hx in Hq. injection Hq as ->. by apply (Hr q). Qed.

Lemma fresh_cell past s g x : GInv past s g -> heap s !! x = None -> roles g !! x = None /\ forall q, x ∉ lists g q.
Proof.
  intros I Hx. assert (Hr : roles g !! x = None).
  { destruct (roles g !! x) as [r|] eqn:Hr; [|done]. destruct (gi_roles _ _ _ _ _ I x r Hr) as [w Hw]. congruence. }
  split; [done|]. intros q Hq%(gi_lists _ _ _ _ _ I). congruence.
Qed.

Lemma linked_off h x w p l : x ∉ l -> linked h p l -> linked (<[x := w]> h) p l.
Proof. intros Hn. apply linked_same. intros y wy Hy Hwy. exists wy. rewrite lookup_insert_ne; [done|]. by intros ->. Qed.

Lemma linked_gone h x p l : x ∉ l -> linked h p l -> linked (delete x h) p l.
Proof. intros Hn. apply linked_same. intros y wy Hy Hwy. exists wy. rewrite lookup_delete_ne; [done|]. by intros ->. Qed.

(** The threads that are not at [x]. *)
Lemma other_thread past s g t p t' p' : GInv past s g -> threads s !! t = Some p -> threads s !! t' = Some p' -> addr p' <> addr p -> t' <> t.
Proof. intros I Ht Ht' Hne ->. rewrite Ht in Ht'. by injection Ht' as <-. Qed.

(** ** A call *)
Lemma call_ok past s g t a d : GInv past s g -> (t < T)%nat -> len d <= B -> step_ok past (AddLog_call t a d s).
Proof.
  intros I HT HB. unfold AddLog_call. destruct (threads s !! t) as [p|] eqn:Ht; [done|]. destruct (heap s !! a) as [w|] eqn:Hw; [done|].
  destruct (fresh_cell past s g a I Hw) as [Hra Hla].
  assert (Hne : forall t' p', threads s !! t' = Some p' -> addr p' <> a).
  { intros t' p' Hp He. destruct (gi_threads _ _ _ _ _ I t' p' Hp) as [_ [w' Hw']]. congruence. }
  assert (Hkeep : forall y wy, heap s !! y = Some wy -> y <> a) by (intros y wy Hy ->; congruence).
  exists {| roles := <[a := Priv]> (roles g); lists := lists g; owner := owner g |}.
  assert (Hnew : Forall (fun n => (n < calls s)%nat) (appends past)) by apply (gi_appends _ _ _ _ _ I).
  split; cbn [heap threads roles lists owner newest_writer_ log_free_ logs_ calls goes store set_threads set_heap set_calls].
  - intros x wx Hx. apply lookup_insert_Some in Hx as [[<- <-]|[Hxa Hx]].
    + exists t, (T_link a), Priv. rewrite !lookup_insert_eq. split_and!; [done..|]. split; [done|]. apply fresh_app; [cbn; apply not_elem_of_nil|].
      intros Hin. rewrite Forall_forall in Hnew. apply Hnew in Hin. cbn in Hin. lia.
    + destruct (gi_cells _ _ _ _ _ I x wx Hx) as (t' & p' & r & Ht' & Ha & Hr & Hc). exists t', p', r.
      rewrite !lookup_insert_ne by (try done; intros <-; congruence). split_and!; [done..|].
      eapply (other_cell _ _ past _ s _ g _ x wx r t' p' (fun y => y = a) I); eauto.
      * intros y. destruct (decide (y = a)); auto.
      * intros y Hy. cbn. by rewrite lookup_insert_ne.
      * intros y Hy ->. destruct (role_of_group _ _ _ _ _ _ _ _ I Hr Hy) as [->|[_ Hy']]; congruence.
  - intros t' p' Hp. apply lookup_insert_Some in Hp as [[<- <-]|[_ Hp]]; [split; [done|]; cbn; rewrite lookup_insert_eq; by eexists|].
    rewrite lookup_insert_ne by (symmetry; by eapply Hne). by apply (gi_threads _ _ _ _ _ I).
  - intros t1 t2 p1 p2 H1 H2 He. apply lookup_insert_Some in H1 as [[<- <-]|[_ H1]], H2 as [[<- <-]|[_ H2]]; [done| | |by eapply (gi_addr _ _ _ _ _ I)].
    + by destruct (Hne _ _ H2).
    + by destruct (Hne _ _ H1).
  - intros x r Hx. apply lookup_insert_Some in Hx as [[<- _]|[Hxa Hx]]; [rewrite lookup_insert_eq; by eexists|].
    rewrite lookup_insert_ne by done. by eapply (gi_roles _ _ _ _ _ I).
  - apply (gi_nodup _ _ _ _ _ I).
  - intros q x. destruct (decide (x = a)) as [->|]; [rewrite lookup_insert_eq; split; [by intros ?%Hla|done]|].
    rewrite lookup_insert_ne by done. apply (gi_lists _ _ _ _ _ I).
  - intros x Hx. destruct (decide (x = a)) as [->|]; [|rewrite lookup_insert_ne in Hx by done]; apply (gi_group _ _ _ _ _ I); congruence.
  - apply linked_off; [apply Hla|]. apply (gi_stack _ _ _ _ _ I).
  - apply (server_frame s _ g); [apply (gi_server _ _ _ _ _ I) | done | done | done |]. intros y Hy. cbn. rewrite lookup_insert_ne; [done|]. intros ->. by apply Hla in Hy.
  - apply (gi_owner _ _ _ _ _ I).
  - apply (gi_logs _ _ _ _ _ I).
  - apply (buffer_frame _ _ past s g (goes t (T_link a) (store a (new_Writer (calls s) d) s)) I); [done|]. intros t' p' w' Hp Hwr Hw'. exists p', w'. cbn.
    rewrite !lookup_insert_ne; [done | symmetry; by eapply Hne | intros <-; congruence].
  - intros x w Hx. apply lookup_insert_Some in Hx as [[<- <-]|[_ Hx]]; [cbn; split_and!; [lia | apply elem_of_app; right; by left | done]|].
    destruct (gi_calls _ _ _ _ _ I x w Hx) as (? & ? & ?). split_and!; [lia | apply elem_of_app; by left | done].
  - assert (Hold : forall x w, heap s !! x = Some w -> call w <> calls s) by (intros x w Hx; destruct (gi_calls _ _ _ _ _ I x w Hx); lia).
    intros x y w1 w2 H1 H2 He. apply lookup_insert_Some in H1 as [[<- <-]|[_ H1]], H2 as [[<- <-]|[_ H2]]; [done| | |by eapply (gi_distinct _ _ _ _ _ I)].
    + by destruct (Hold _ _ H2).
    + by destruct (Hold _ _ H1).
  - rewrite appends_app. cbn. rewrite app_nil_r. split; [apply (gi_appends _ _ _ _ _ I)|]. eapply Forall_impl; [exact Hnew|]. cbn. lia.
  - apply appended_app; [apply (gi_data _ _ _ _ _ I) | done].
  - intros n d' [Hn|Hn]%elem_of_app; [apply (gi_called _ _ _ _ _ I) in Hn; lia|]. apply list_elem_of_singleton in Hn. injection Hn as -> ->. lia.
  - apply returned_app; [apply (gi_returned _ _ _ _ _ I)|]. intros n Hn. by apply list_elem_of_singleton in Hn.
Qed.

(** ** [AddToLink] *)
Lemma link_ok past s g t a writers choice : GInv past s g -> threads s !! t = Some (T_cas a writers) -> step_ok past (AddToLink t a writers choice s).
Proof.
  intros I Ht. destruct (owner_cell _ _ _ _ _ _ _ I Ht) as (w & r & Hw & Hr & Hst & Hcell). cbn [addr] in Hw, Hr, Hcell.
  destruct Hst as [-> Hs]. unfold AddToLink, access. rewrite Hw.
  assert (Hfail : forall writers', step_ok past (Step [] (goes t (T_cas a writers') (store a (with_older writers w) s)))).
  { intros writers'. apply (step_silent _ _ _ _ g). apply (ginv_move T B past s g t (T_cas a writers) _ w (with_older writers w) Priv); auto; done. }
  destruct (decide (newest_writer_ (store a (with_older writers w) s) = writers)) as [Hn|]; [|by apply Hfail].
  destruct choice; [|by apply Hfail]. change (newest_writer_ s = writers) in Hn. clear Hfail.
  assert (Hla := private_cell past s g a Priv I Hr ltac:(done)).
  set (w' := with_older writers w).
  set (g' := {| roles := <[a := Wait Stk]> (roles g); lists q := if decide (q = Stk) then a :: lists g Stk else lists g q; owner := owner g |}).
  exists g'. apply (ginv_rebuild _ _ past [] s _ g g' I); cbn [heap threads newest_writer_ logs_ log_free_ calls goes store set_threads set_newest set_heap]; try done.
  - constructor.
  - intros t' p' Hp. apply lookup_insert_Some in Hp as [[<- <-]|[_ Hp]]; by eexists.
  - intros x w1 Hx. apply lookup_insert_Some in Hx as [[<- <-]|[_ Hx]]; [by exists w | by exists w1].
  - intros x [w1 Hx]. destruct (decide (x = a)) as [->|]; [rewrite lookup_insert_eq | rewrite lookup_insert_ne by done]; by eexists.
  - intros x wx Hx. apply lookup_insert_Some in Hx as [[<- <-]|[Hxa Hx]].
    + exists t, (T_spin a 0), (Wait Stk). cbn. rewrite !lookup_insert_eq. split_and!; [done..|]. split; [left; split; [by eexists|done]|]. by rewrite app_nil_r.
    + destruct (gi_cells _ _ _ _ _ I x wx Hx) as (t' & p' & r & Ht' & Ha & Hr' & Hc). exists t', p', r.
      assert (t <> t') by (intros <-; rewrite Ht in Ht'; injection Ht' as <-; by apply Hxa).
      cbn. rewrite !lookup_insert_ne by done. split_and!; [done..|].
      eapply (other_cell _ _ past _ s _ g _ x wx r t' p' (fun y => y = a) I); eauto.
      * intros y. destruct (decide (y = a)); auto.
      * intros y Hy. cbn. by rewrite lookup_insert_ne.
      * intros y Hy ->. destruct (role_of_group _ _ _ _ _ _ _ _ I Hr' Hy) as [->|[_ Hy']]; congruence.
  - intros x [r Hx]. cbn in Hx. apply lookup_insert_Some in Hx as [[<- _]|[_ Hx]]; by eexists.
  - intros q. cbn. destruct (decide (q = Stk)); [|apply (gi_nodup _ _ _ _ _ I)]. constructor; [apply Hla|apply (gi_nodup _ _ _ _ _ I)].
  - intros q x. cbn. destruct (decide (x = a)) as [->|Hx].
    + rewrite lookup_insert_eq. destruct (decide (q = Stk)) as [->|]; [by split; [|left]|]. split; [by intros ?%Hla | by intros [= <-]].
    + rewrite lookup_insert_ne by done. rewrite <- (gi_lists _ _ _ _ _ I). destruct (decide (q = Stk)) as [->|]; set_solver.
  - intros x Hx. cbn in Hx |- *. destruct (decide (x = a)) as [->|]; [|rewrite lookup_insert_ne in Hx by done]; apply (gi_group _ _ _ _ _ I); congruence.
  - cbn. split; [done|]. exists w'. rewrite lookup_insert_eq. split; [done|]. cbn. rewrite <- Hn. apply linked_off; [apply Hla|]. apply (gi_stack _ _ _ _ _ I).
  - apply (server_frame s _ g); [apply (gi_server _ _ _ _ _ I) | done | done | done |]. intros y Hy. cbn. rewrite lookup_insert_ne; [done|]. intros ->. by apply Hla in Hy.
  - apply (gi_owner _ _ _ _ _ I).
  - apply (buffer_frame _ _ past s g (goes t (T_spin a 0) (store a w' s)) I); [done|]. intros t' p' w1 Hp Hwr Hw'.
    assert (Hne : t' <> t) by (intros ->; rewrite Ht in Hp; by injection Hp as <-).
    exists p', w1. cbn. rewrite !lookup_insert_ne; [done | | done]. intros He. destruct Hne. by eapply (gi_addr _ _ _ _ _ I).
Qed.
End steps.
