(* ===== verification/GroupCommitWrite.v ===== *)
(** * The group commit: what a leader does keeps the invariant *)

From S2P Require Import Prelude Machine LogFormat LogWriter GroupCommit GroupCommitInv GroupCommitSteps GroupCommitSet GroupCommitEvents.
Local Open Scope Z_scope.

Section steps.
Context {W : Type} `{LogWriterLaws W}.
Context (T : nat) (B : Z).
Implicit Types (s : LoggingServer W).
Notation GInv := (GInv T B).
Notation step_ok := (step_ok T B).

(** ** A call returns *)
Lemma return_ok past s g t p w : GInv past s g -> threads s !! t = Some p -> heap s !! addr p = Some w ->
  (exists r, roles g !! addr p = Some r /\ (forall q, r <> Wait q)) -> lists g (Grp (addr p)) = [] -> is_durable past (call w) ->
  writing p = false -> step_ok past (returns t (addr p) s).
Proof.
  intros I Ht Hw (r & Hr & Hnw) Hl Hd Hwr. unfold returns, access. rewrite Hw. set (a := addr p) in *.
  assert (Hla := private_cell T B past s g a r I Hr Hnw).
  assert (Hne : forall t' p', threads s !! t' = Some p' -> t' <> t -> addr p' <> a).
  { intros t' p' Hp Hnt He. apply Hnt. by eapply (gi_addr _ _ _ _ _ I). }
  set (s' := set_heap _ _). exists {| roles := delete a (roles g); lists := lists g; owner := owner g |}.
  split; cbn [heap threads roles lists owner newest_writer_ log_free_ logs_ calls s' set_threads set_heap].
  - intros x wx Hx. apply lookup_delete_Some in Hx as [Hxa Hx].
    destruct (gi_cells _ _ _ _ _ I x wx Hx) as (t' & p' & rx & Ht' & Ha & Hrx & Hc). exists t', p', rx.
    assert (t <> t') by (intros <-; rewrite Ht in Ht'; injection Ht' as <-; done). rewrite !lookup_delete_ne by done. split_and!; [done..|].
    eapply (other_cell _ _ past _ s _ g _ x wx rx t' p' (fun y => y = a) I); eauto.
    + intros y. destruct (decide (y = a)); auto.
    + intros y Hy. cbn. by rewrite lookup_delete_ne.
    + intros y Hy ->. destruct (role_of_group _ _ _ _ _ _ _ _ I Hrx Hy) as [->|[_ Hy']]; [done|]. rewrite Hr in Hy'. injection Hy' as ->. by apply (Hnw (Grp x)).
  - intros t' p' Hp. apply lookup_delete_Some in Hp as [Hnt Hp]. rewrite lookup_delete_ne by (symmetry; by eapply Hne). by apply (gi_threads _ _ _ _ _ I).
  - intros t1 t2 p1 p2 [_ H1]%lookup_delete_Some [_ H2]%lookup_delete_Some. by apply (gi_addr _ _ _ _ _ I).
  - intros x rx [Hxa Hx]%lookup_delete_Some. rewrite lookup_delete_ne by done. by eapply (gi_roles _ _ _ _ _ I).
  - apply (gi_nodup _ _ _ _ _ I).
  - intros q x. destruct (decide (x = a)) as [->|]; [rewrite lookup_delete_eq; split; [by intros ?%Hla|done]|].
    rewrite lookup_delete_ne by done. apply (gi_lists _ _ _ _ _ I).
  - intros x Hx. destruct (decide (x = a)) as [->|]; [done|]. apply (gi_group _ _ _ _ _ I). by rewrite lookup_delete_ne in Hx.
  - apply linked_gone; [apply Hla|]. apply (gi_stack _ _ _ _ _ I).
  - apply (server_frame s _ g); [apply (gi_server _ _ _ _ _ I) | done | done | done |]. intros y Hy. cbn. rewrite lookup_delete_ne; [done|]. intros ->. by apply Hla in Hy.
  - apply (gi_owner _ _ _ _ _ I).
  - apply (gi_logs _ _ _ _ _ I).
  - apply (buffer_frame _ _ past s g s' I); [done|].
    intros t' p' w' Hp Hwr' Hw'. assert (t' <> t) by (intros ->; rewrite Ht in Hp; injection Hp as <-; congruence).
    exists p', w'. cbn [threads heap s' set_heap set_threads]. rewrite !lookup_delete_ne; [done | symmetry; by eapply Hne | done].
  - intros x wx [_ Hx]%lookup_delete_Some. destruct (gi_calls _ _ _ _ _ I x wx Hx) as (? & ? & ?). split_and!; [done | apply elem_of_app; by left | done].
  - intros x y w1 w2 [_ H1]%lookup_delete_Some [_ H2]%lookup_delete_Some. by apply (gi_distinct _ _ _ _ _ I).
  - rewrite appends_app. cbn. rewrite app_nil_r. apply (gi_appends _ _ _ _ _ I).
  - apply appended_app; [apply (gi_data _ _ _ _ _ I) | done].
  - intros n d [Hn|Hn]%elem_of_app; [by eapply (gi_called _ _ _ _ _ I)|]. by apply list_elem_of_singleton in Hn.
  - intros b n c [[c' Hc]|[-> [= ->]]]%event_snoc; [by eapply (gi_returned _ _ _ _ _ I) | done].
Qed.

(** ** A leader and its log *)

(** The other leaders have other logs. *)
Lemma other_log g a w x wx : holds g a w -> holds g x wx -> x <> a -> Z.to_nat (log_num wx) <> Z.to_nat (log_num w).
Proof. intros [_ Ha] [_ Hx] Hne He. rewrite He, Ha in Hx. by injection Hx as ->. Qed.

Lemma writing_holds past s g x w r p : cell_ok B past s g x w r p -> writing p = true -> r = Lead /\ holds g x w.
Proof. intros [Hst Hc] Hw. destruct p; try done; destruct Hst as [-> _]; by destruct Hc. Qed.

(** A thread for each [Writer]. *)
Lemma group_small past s g l : GInv past s g -> NoDup l -> Forall (fun x => is_Some (heap s !! x)) l -> (length l <= T)%nat.
Proof.
  intros I Hnd Hl.
  assert (Hts : exists ts, Forall2 (fun x t => exists p, threads s !! t = Some p /\ addr p = x) l ts).
  { clear Hnd. induction Hl as [|x l [w Hw] Hl [ts IH]]; [by exists []|]. destruct (gi_cells _ _ _ _ _ I x w Hw) as (t & p & r & Ht & Ha & _).
    exists (t :: ts). constructor; [by exists p|done]. }
  destruct Hts as [ts Hts]. rewrite (Forall2_length _ _ _ Hts). clear Hl.
  assert (Hsub : forall t, t ∈ ts -> t ∈ seq 0 T).
  { intros t Ht. apply list_elem_of_lookup in Ht as [i Hi]. destruct (Forall2_lookup_r _ _ _ _ _ Hts Hi) as (x & _ & p & Hp & _).
    destruct (gi_threads _ _ _ _ _ I t p Hp). apply elem_of_seq. lia. }
  assert (Hnt : NoDup ts).
  { clear Hsub. induction Hts as [|x t l ts (p & Hp & Ha) Hts IH]; [constructor|]. apply NoDup_cons in Hnd as [Hx Hnd]. constructor; [|by apply IH].
    intros Ht. destruct Hx. apply list_elem_of_lookup in Ht as [i Hi]. destruct (Forall2_lookup_r _ _ _ _ _ Hts Hi) as (y & Hy & p' & Hp' & Ha').
    rewrite Hp in Hp'. injection Hp' as <-. rewrite <- Ha, Ha'. by eapply list_elem_of_lookup_2. }
  assert (Hle := submseteq_length _ _ (NoDup_submseteq ts (seq 0 T) Hnt Hsub)). by rewrite length_seq in Hle.
Qed.

Lemma leader_group past s g a : GInv past s g -> roles g !! a = Some Lead -> NoDup (a :: lists g (Grp a)) /\
  Forall (fun x => is_Some (heap s !! x)) (a :: lists g (Grp a)).
Proof.
  intros I Ha. split.
  - constructor; [apply (private_cell T B past s g a Lead I Ha); done | apply (gi_nodup _ _ _ _ _ I)].
  - constructor; [by eapply (gi_roles _ _ _ _ _ I)|]. apply Forall_forall. intros x Hx%(gi_lists _ _ _ _ _ I). by eapply (gi_roles _ _ _ _ _ I).
Qed.

(** The leader at [p] goes to [p'], with what it does to its log and to who
    holds it. *)
Lemma leader_step past e s s' g g' t p p' w v : GInv past s g -> plain e -> threads s !! t = Some p -> addr p' = addr p ->
  heap s !! addr p = Some w -> roles g !! addr p = Some Lead -> holds g (addr p) w -> state_ok w Lead p' ->
  let k := Z.to_nat (log_num w) in
  heap s' = heap s -> threads s' = <[t := p']> (threads s) -> newest_writer_ s' = newest_writer_ s -> server_ s' = server_ s -> calls s' = calls s ->
  roles g' = roles g -> (forall q, lists g' q = lists g q) -> length (log_free_ s') = length (log_free_ s) -> length (logs_ s') = length (logs_ s) ->
  (forall j, j <> k -> logs_ s' !! j = logs_ s !! j /\ owner g' !! j = owner g !! j /\ log_free_ s' !! j = log_free_ s !! j) ->
  (forall o, owner g' !! k = Some o -> log_free_ s' !! k = Some true) ->
  logs_ s' !! k = Some v -> writer_ok v -> appended v = [] ->
  lead_ok B (past ++ e) s' g' (addr p) w p' -> GInv (past ++ e) s' g'.
Proof.
  intros I He Ht Ha Hw Hr Hh Hst k Eh Et En Es Ec Er El Elf Elg Hj Hk Hlog Hok Hemp Hlead.
  assert (Hx : forall x wx, holds g x wx -> x <> addr p -> Z.to_nat (log_num wx) <> k) by (intros x wx Hx Hne; by apply (other_log g (addr p) w x wx)).
  apply (ginv_rebuild _ _ past e s s' g g' I); rewrite ?Eh, ?Et, ?En, ?Er; try done.
  - intros t' q Hq. apply lookup_insert_Some in Hq as [[<- <-]|[_ Hq]]; by eexists.
  - eauto.
  - intros x wx Hwx. destruct (decide (x = addr p)) as [->|Hne].
    + exists t, p', Lead. rewrite lookup_insert_eq. rewrite Hw in Hwx. injection Hwx as <-. done.
    + destruct (gi_cells _ _ _ _ _ I x wx Hwx) as (t' & q & r & Ht' & Hq & Hrx & Hc). exists t', q, r.
      rewrite lookup_insert_ne by (intros <-; rewrite Ht in Ht'; by injection Ht' as <-). split_and!; [done..|].
      eapply (other_cell _ _ past e s s' g g' x wx r t' q (fun _ => False) I); eauto.
      * intros y _. by rewrite Eh.
      * by apply plain_appends.
      * intros -> [? Hox]. split; [done|]. destruct (Hj (Z.to_nat (log_num wx))) as (_ & -> & _); [by apply (Hx x)|done].
      * intros -> Hwr. apply Hj. apply (Hx x); [|done]. by eapply writing_holds.
  - intros q. rewrite El. apply (gi_nodup _ _ _ _ _ I).
  - intros q x. rewrite El. apply (gi_lists _ _ _ _ _ I).
  - intros x Hx'. rewrite El. by apply (gi_group _ _ _ _ _ I).
  - rewrite El. apply (gi_stack _ _ _ _ _ I).
  - apply (server_frame s _ g); [apply (gi_server _ _ _ _ _ I) | done | by rewrite El | | by rewrite Eh]. intros j Ho. destruct (decide (j = k)) as [->|Hjk].
    + destruct Hh as [_ Hh]. fold k in Hh. congruence.
    + by destruct (Hj j Hjk) as (_ & -> & _).
  - intros j o Ho. destruct (decide (j = k)) as [->|Hjk]; [by eapply Hk|]. destruct (Hj j Hjk) as (_ & Ho' & ->). rewrite Ho' in Ho. by eapply (gi_owner _ _ _ _ _ I).
  - intros j lg Hlg. destruct (decide (j = k)) as [->|Hjk].
    + rewrite Hlog in Hlg. injection Hlg as <-. auto.
    + destruct (Hj j Hjk) as (Hj' & _). rewrite Hj' in Hlg. destruct (gi_buffer _ _ _ _ _ I j lg Hlg) as [? [?|(t' & q & w' & Hq & Hwr & Hw' & Hk')]]; (split; [done|]); [by left|right].
      exists t', q, w'. rewrite lookup_insert_ne; [done|]. intros <-. rewrite Ht in Hq. injection Hq as <-. rewrite Hw in Hw'. injection Hw' as <-. by destruct Hjk.
Qed.

Context (HB : 0 <= B) (Hfit : Z.of_nat T * B < MAX_BUFFER_SIZE).

(** The data of a whole group fits in the buffer. *)
Lemma append_fits past s g a b l1 l2 w wb log : GInv past s g -> roles g !! a = Some Lead -> a :: lists g (Grp a) = l1 ++ b :: l2 ->
  heap s !! a = Some w -> heap s !! b = Some wb -> logs_ s !! Z.to_nat (log_num w) = Some log -> len (appended log) <= len l1 * B ->
  exists log', AppendData (data wb) log = Ok log' /\ writer_ok log' /\ len (appended log') <= len (l1 ++ [b]) * B.
Proof.
  intros I Ha Hl Hw Hwb Hlog Hlen. destruct (leader_group past s g a I Ha) as [Hnd Hall]. assert (Hn := group_small past s g _ I Hnd Hall).
  rewrite Hl, length_app in Hn. cbn in Hn. destruct (gi_calls _ _ _ _ _ I b wb Hwb) as (_ & _ & Hd).
  destruct (gi_buffer _ _ _ _ _ I _ _ Hlog) as [Hok _].
  assert (len l1 * B + B <= Z.of_nat T * B) by (unfold len; nia).
  destruct (AppendData_ok log (data wb) Hok ltac:(lia)) as (log' & Ha1 & Ha2 & Ha3 & _). exists log'. split_and!; [done..|].
  rewrite Ha3, !len_app. unfold len in *. cbn. lia.
Qed.

Lemma append_ok past s g t a b : GInv past s g -> threads s !! t = Some (T_write a (Some b)) -> step_ok past (WriteToLog t a (Some b) s).
Proof.
  intros I Ht. destruct (owner_cell _ _ _ _ _ _ _ I Ht) as (w & r & Hw & Hr & Hst & Hcell). cbn [addr] in Hw, Hr, Hcell.
  destruct Hst as [-> Hs]. destruct Hcell as (Hh & Hlk & l1 & l2 & Hl & Hcur & Ho & Hf & log & Hlog & Hlen).
  destruct l2 as [|b' l2]; [done|]. destruct Hcur as [[= <-] (wb & Hwb & Hcur)].
  destruct (append_fits past s g a b l1 l2 w wb log) as (log' & Happ & Hok & Hlen'); [done..|].
  unfold WriteToLog, access. rewrite Hw, Hwb, Hlog, Happ. set (k := Z.to_nat (log_num w)) in *. set (e := [Appended (call wb) k (data wb)]).
  set (s' := goes t _ _). exists g. assert (Hlt : (k < length (logs_ s))%nat) by (by eapply lookup_lt_Some).
  assert (Hb : b = a \/ roles g !! b = Some (Wait (Grp a))).
  { assert (Hb : b ∈ a :: lists g (Grp a)) by (rewrite Hl; set_solver). apply elem_of_cons in Hb as [->|Hb]; [by left|right]. by apply (gi_lists _ _ _ _ _ I). }
  assert (Hfresh : call wb ∉ appends past). { apply Forall_cons in Hf as [(w' & Hw' & Hf) _]. rewrite Hwb in Hw'. injection Hw' as <-. done. }
  assert (Hothers : forall y wy, y <> b -> heap s !! y = Some wy -> call wy ∉ appends e).
  { intros y wy Hy Hwy He. apply list_elem_of_singleton in He. apply Hy. by eapply (gi_distinct _ _ _ _ _ I). }
  assert (Hold : forall j, j <> k -> logs_ s' !! j = logs_ s !! j) by (intros j Hj; cbn; by rewrite list_lookup_insert_ne).
  assert (Hin : forall x, x ∈ past ++ e -> x = Appended (call wb) k (data wb) \/ x ∈ past) by (intros x [Hx|Hx%list_elem_of_singleton]%elem_of_app; auto).
  split; cbn [heap threads newest_writer_ log_free_ calls s' goes set_threads set_logs]; try apply I.
  - intros x wx Hx. destruct (decide (x = a)) as [->|Hxa].
    + exists t, (T_write a (link_older wb)), Lead. rewrite lookup_insert_eq. rewrite Hw in Hx. injection Hx as <-. split_and!; [done..|]. split; [done|].
      cbn [lead_ok]. split_and!; [done..|]. exists (l1 ++ [b]), l2. rewrite <- app_assoc. split_and!; [done | done | | |].
      * apply Forall_app. split; [|constructor; [|constructor]].
        -- eapply members_same; [intros; by eauto| |exact Ho]. intros y wy _ _. apply written_app.
        -- exists wb. split; [done|]. exists (data wb). apply elem_of_app. right. by left.
      * apply Forall_cons in Hf as [_ Hf]. eapply members_same; [intros; by eauto| |exact Hf]. intros y wy Hy Hwy. apply fresh_app. apply (Hothers y); [|done].
        intros ->. destruct (leader_group past s g a I Hr) as [Hnd _]. rewrite Hl in Hnd. apply NoDup_app in Hnd as (_ & _ & Hnd%NoDup_cons). by destruct Hnd.
      * exists log'. cbn. by rewrite list_lookup_insert_eq.
    + destruct (gi_cells _ _ _ _ _ I x wx Hx) as (t' & p & r & Ht' & Ha & Hrx & Hc). exists t', p, r.
      rewrite lookup_insert_ne by (intros <-; rewrite Ht in Ht'; injection Ht' as <-; by apply Hxa). split_and!; [done..|].
      destruct (decide (r = Wait (Grp a))) as [->|Hra]; [by destruct Hc|].
      eapply (cell_frame _ past e s); [exact Hc | | done | done | done | |].
      * intros y wy _ Hwy. by exists wy.
      * intros y wy Hy Hwy. apply (Hothers y); [|done]. intros ->.
        destruct (role_of_group _ _ _ _ _ _ _ _ I Hrx Hy) as [->|[_ Hb']]; destruct Hb as [Hb|Hb]; congruence.
      * intros -> Hwr lg Hlg. exists lg. rewrite Hold; [done|]. apply (other_log g a w x wx Hh); [|done]. by eapply writing_holds.
  - intros t' p Hp. apply lookup_insert_Some in Hp as [[<- <-]|[_ Hp]]; [apply (gi_threads _ _ _ _ _ I _ _ Ht) | by apply (gi_threads _ _ _ _ _ I)].
  - intros t1 t2 p1 p2 H1 H2 He. apply lookup_insert_Some in H1 as [[<- <-]|[_ H1]], H2 as [[<- <-]|[_ H2]]; [done|..]; eapply (gi_addr _ _ _ _ _ I); eauto.
  - cbn. rewrite length_insert. apply (gi_logs _ _ _ _ _ I).
  - intros j lg Hj. destruct (decide (j = k)) as [->|Hjk].
    + cbn in Hj. rewrite list_lookup_insert_eq in Hj by done. injection Hj as <-. split; [done|]. right. exists t, (T_write a (link_older wb)), w. by rewrite lookup_insert_eq.
    + change (logs_ s' !! j = Some lg) in Hj. rewrite Hold in Hj by done. destruct (gi_buffer _ _ _ _ _ I j lg Hj) as [? [?|(t' & p & w' & Hp & Hwr & Hw' & Hk)]]; (split; [done|]); [by left|right].
      exists t', p, w'. rewrite lookup_insert_ne; [done|]. intros <-. rewrite Ht in Hp. injection Hp as <-. cbn in Hw'. rewrite Hw in Hw'. injection Hw' as <-. by destruct Hjk.
  - intros x wx Hx. destruct (gi_calls _ _ _ _ _ I x wx Hx) as (? & ? & ?). split_and!; [done | apply elem_of_app; by left | done].
  - destruct (gi_appends _ _ _ _ _ I) as [Hnd Hall]. rewrite appends_app. cbn. split.
    + apply NoDup_app. split_and!; [done | intros n Hn Hn'%list_elem_of_singleton; by subst | apply NoDup_singleton].
    + apply Forall_app. split; [done|]. constructor; [|constructor]. by destruct (gi_calls _ _ _ _ _ I b wb Hwb).
  - intros b' n j d c [[c' Hc]|[-> [= -> -> ->]]]%event_snoc; [by eapply (gi_data _ _ _ _ _ I)|]. by apply (gi_calls _ _ _ _ _ I b wb).
  - intros n d [[=]|Hn]%Hin. by eapply (gi_called _ _ _ _ _ I).
  - apply returned_app; [apply (gi_returned _ _ _ _ _ I)|]. intros n Hn. by apply list_elem_of_singleton in Hn.
Qed.

Lemma sync_ok past s g t a : GInv past s g -> threads s !! t = Some (T_sync a) -> step_ok past (sync_log t a s).
Proof.
  intros I Ht. destruct (owner_cell _ _ _ _ _ _ _ I Ht) as (w & r & Hw & Hr & Hst & Hcell). cbn [addr] in Hw, Hr, Hcell.
  destruct Hst as [-> Hs]. destruct Hcell as (Hh & Hlk & Hd). destruct (holds_log _ _ _ _ _ _ _ I Hh) as [_ Hlt].
  destruct (lookup_lt_is_Some_2 _ _ Hlt) as [log Hlog]. destruct (gi_buffer _ _ _ _ _ I _ _ Hlog) as [Hok _].
  destruct (Sync_ok log Hok) as (log' & pad & Hsync & Hok' & Hemp & _). unfold sync_log, access. rewrite Hw, Hlog, Hsync.
  set (k := Z.to_nat (log_num w)) in *. exists g.
  eapply (leader_step past _ s _ g g t (T_sync a) (T_finish a) w log' I); try done.
  - by constructor.
  - cbn. by rewrite length_insert.
  - intros j Hj. cbn. by rewrite list_lookup_insert_ne.
  - intros o. apply (gi_owner _ _ _ _ _ I).
  - cbn. by apply list_lookup_insert_eq.
  - cbn. split_and!; [done..|]. eapply members_same; [intros; by eauto| |exact Hd]. intros y wy _ _. apply written_synced.
Qed.

Lemma free_ok past s g t a : GInv past s g -> threads s !! t = Some (T_free a) -> step_ok past (finish_free t a s).
Proof.
  intros I Ht. destruct (owner_cell _ _ _ _ _ _ _ I Ht) as (w & r & Hw & Hr & Hst & Hcell). cbn [addr] in Hw, Hr, Hcell.
  destruct Hst as [-> Hs]. destruct Hcell as (Hh & Hlk & Hd). destruct (holds_log _ _ _ _ _ _ _ I Hh) as [_ Hlt].
  destruct (lookup_lt_is_Some_2 _ _ Hlt) as [log Hlog]. destruct (gi_buffer _ _ _ _ _ I _ _ Hlog) as [Hok Hemp].
  unfold finish_free, access. rewrite Hw. set (k := Z.to_nat (log_num w)) in *.
  exists {| roles := roles g; lists := lists g; owner := delete k (owner g) |}. 
  eapply (leader_step past _ s _ g _ t (T_free a) (T_older a (link_older w)) w log I); try done.
  - constructor.
  - cbn. by rewrite length_insert.
  - intros j Hj. cbn -[delete]. by rewrite list_lookup_insert_ne, lookup_delete_ne.
  - intros o. cbn -[delete]. by rewrite lookup_delete_eq.
  - destruct Hemp as [|(t' & q & w' & Hq & Hwr & Hw' & Hk)]; [done|].
    destruct (owner_cell _ _ _ _ _ _ _ I Hq) as (w2 & r2 & Hw2 & Hr2 & Hc2). rewrite Hw' in Hw2. injection Hw2 as <-.
    destruct (writing_holds _ _ _ _ _ _ _ Hc2 Hwr) as [_ Hh2]. destruct (decide (addr q = a)) as [He|Hne].
    + assert (t' = t) as -> by (by eapply (gi_addr _ _ _ _ _ I)). rewrite Ht in Hq. by injection Hq as <-.
    + by destruct (other_log g a w (addr q) w' Hh Hh2 Hne).
  - cbn. rewrite app_nil_r. done.
Qed.

(** A thread whose [Writer] is completed, or whose group is. *)
Lemma awake_ok past s g t a choice : GInv past s g -> threads s !! t = Some (T_awake a) -> step_ok past (thread_step t choice s).
Proof.
  intros I Ht. destruct (owner_cell _ _ _ _ _ _ _ I Ht) as (w & r & Hw & Hr & Hst & Hcell). cbn [addr] in Hw, Hr.
  unfold thread_step, access. rewrite Ht, Hw. destruct Hst as [[-> Hs]|[-> Hs]]; rewrite Hs; cbn [Z.eqb STATE_GROUP_LEADER STATE_COMPLETED Pos.eqb].
  - apply (step_silent _ _ _ _ g). eapply move; [exact I | exact Ht | done | exact Hw | exact Hr | by split | by intros _ | done].
  - apply (return_ok past s g t (T_awake a) w I Ht Hw); [by exists Done | | done | done]. apply (gi_group _ _ _ _ _ I). cbn. congruence.
Qed.

Lemma older_ok past s g t a : GInv past s g -> threads s !! t = Some (T_older a None) -> step_ok past (returns t a s).
Proof.
  intros I Ht. destruct (owner_cell _ _ _ _ _ _ _ I Ht) as (w & r & Hw & Hr & [-> Hs] & Hcell). cbn [addr] in Hw, Hr.
  destruct Hcell as [Hl Hd]. cbn [addr] in Hl, Hd.
  apply (return_ok past s g t (T_older a None) w I Ht Hw); [by exists Lead | | | done].
  - cbn. destruct (lists g (Grp a)); [done|]. by destruct Hl.
  - apply Forall_cons in Hd as [(w' & Hw' & Hd) _]. rewrite Hw in Hw'. by injection Hw' as <-.
Qed.

Lemma thread_ok past s g t choice : GInv past s g -> step_ok past (thread_step t choice s).
Proof.
  intros I. destruct (threads s !! t) as [p|] eqn:Ht; [|unfold thread_step; by rewrite Ht].
  destruct p; try first [by eapply thread_lead | by eapply thread_finish | by eapply awake_ok]; unfold thread_step; rewrite Ht.
  - assert (Hl := thread_link _ _ _ _ _ _ _ I Ht). unfold thread_step in Hl. by rewrite Ht in Hl.
  - by eapply link_ok.
  - by eapply thread_spin.
  - by eapply thread_yield.
  - by eapply thread_long.
  - by eapply thread_lockcas.
  - by eapply thread_check.
  - done.
  - by eapply thread_make.
  - by eapply thread_group.
  - destruct w as [b|]; [by eapply append_ok | by eapply thread_write_end].
  - by eapply sync_ok.
  - by eapply free_ok.
  - destruct head as [h|]; [by eapply thread_older | by eapply older_ok].
  - by eapply thread_set.
Qed.
End steps.
