(* ===== verification/GroupCommitSpec.v ===== *)
(** * What the group commit promises

    Every schedule of the threads and the server is a run of the machine.
    [fits] is what the source asks of its callers by assertion: the data of a
    whole group fits in the buffer of a log, which holds when [T] threads log
    records of at most [B] bytes and [T * B] is below 1 MB. *)

From S2P Require Import Prelude Machine LogFormat LogWriter GroupCommit GroupCommitInv GroupCommitSteps GroupCommitSet GroupCommitEvents.
From S2P Require Import GroupCommitWrite.
Local Open Scope Z_scope.

Definition fits (T : nat) (B : Z) (x : action) : Prop :=
  match x with AddLog t _ d => (t < T)%nat /\ len d <= B | _ => True end.

(** [d] is somewhere in [bytes], in one piece. *)
Definition infix_of (d bytes : list Z) : Prop := exists u v, bytes = u ++ d ++ v.

Lemma infix_app d x y : infix_of d x -> infix_of d (x ++ y).
Proof. intros (u & v & ->). exists u, (v ++ y). by rewrite <- !app_assoc. Qed.
Lemma infix_last d x : infix_of d (x ++ d).
Proof. exists x, []. by rewrite app_nil_r. Qed.

(** The data that was appended to a log, in order. *)
Definition log_data (k : nat) (past : list event) : list Z :=
  concat (omap (fun e => match e with Appended _ k' d => if decide (k' = k) then Some d else None | _ => None end) past).

Lemma log_data_app k p e : log_data k (p ++ e) = log_data k p ++ log_data k e.
Proof. unfold log_data. by rewrite omap_app, concat_app. Qed.

(** The positions where a thread holds a log. *)
Definition leading (p : thread_at) : bool :=
  match p with T_lead _ | T_make _ | T_group _ _ _ _ | T_write _ _ | T_sync _ | T_finish _ | T_free _ => true | _ => false end.

Section spec.
Context {W : Type} `{LogWriterLaws W}.
Implicit Types (s : LoggingServer W).

(** The logs as they are opened. *)
Definition fresh_logs (logs : list W) : Prop := Forall (fun log => writer_ok log /\ appended log = []) logs.

(** Who changes the logs. *)
Inductive changes_logs s s' : list event -> Prop :=
  | CL_none e : logs_ s' = logs_ s -> (forall n k d, Appended n k d ∉ e) -> (forall k, Synced k ∉ e) -> changes_logs s s' e
  | CL_append n k d log log' : logs_ s !! k = Some log -> AppendData d log = Ok log' -> logs_ s' = <[k := log']> (logs_ s) -> changes_logs s s' [Appended n k d]
  | CL_sync k log log' : logs_ s !! k = Some log -> Sync log = Ok log' -> logs_ s' = <[k := log']> (logs_ s) -> changes_logs s s' [Synced k].

Lemma set_state_logs a st at_ again done s e s' : (forall at_, logs_ (again at_ s) = logs_ s) -> (forall s1, logs_ s1 = logs_ s -> logs_ (done s1) = logs_ s) ->
  SetState a st at_ again done s = Step e s' -> logs_ s' = logs_ s /\ e = [].
Proof. intros Ha Hd. unfold SetState, access, check. intros. repeat case_match; simplify_eq; split; auto. Qed.

Lemma step_logs x s e s' : step x s = Step e s' -> changes_logs s s' e.
Proof.
  intros Hs. destruct x as [t a d|t choice|t|choice|]; cbn [step] in Hs; unfold AddLog_call, thread_step, server_step in Hs.
  - repeat case_match; simplify_eq. by constructor; [|set_solver..].
  - destruct (threads s !! t) as [p|]; [|done].
    destruct p as [| | | | | | | | | | | |a [b|]| | | | |a h tmp at_];
      unfold AddToLink, await_spin, await_yield, await_long, await_lockcas, await_check, MakeGroup, make_group_loop, WriteToLog, sync_log,
        finish_free, finish_loop, returns, access, log_taken, check in Hs; try (repeat case_match; simplify_eq; by constructor; [|set_solver..]).
    + destruct (heap s !! a) as [w|]; [|done]. destruct (heap s !! b) as [wb|]; [|done].
      destruct (logs_ s !! Z.to_nat (log_num w)) as [log|] eqn:Hk; [|done]. destruct (AppendData (data wb) log) as [log'|] eqn:Ha; [|done].
      injection Hs as <- <-. by eapply CL_append.
    + destruct (heap s !! a) as [w|]; [|done]. destruct (logs_ s !! Z.to_nat (log_num w)) as [log|] eqn:Hk; [|done].
      destruct (Sync log) as [log'|] eqn:Ha; [|done]. injection Hs as <- <-. by eapply CL_sync.
    + apply set_state_logs in Hs as [? ->]; [|done..]. by constructor; [|set_solver..].
  - repeat case_match; simplify_eq. by constructor; [|set_solver..].
  - destruct (server_ s); try (unfold access, log_taken, check in Hs; repeat case_match; simplify_eq; by constructor; [|set_solver..]).
    apply set_state_logs in Hs as [? ->]; [|done..]. by constructor; [|set_solver..].
  - injection Hs as <- <-. by constructor; [|set_solver..].
Qed.

(** What was appended is in the log, and on the device once that is synced. *)
Definition kept (past : list event) s : Prop :=
  (forall b n k d c, past = b ++ Appended n k d :: c -> exists log, logs_ s !! k = Some log /\ infix_of d (durable log ++ appended log)) /\
  (forall b n k d c c', past = b ++ Appended n k d :: c ++ Synced k :: c' -> exists log, logs_ s !! k = Some log /\ infix_of d (durable log)).

Section runs.
Context (T : nat) (B : Z) (HB : 0 <= B) (Hfit : Z.of_nat T * B < MAX_BUFFER_SIZE).
Let Inv past s : Prop := exists g, GInv T B past s g.

Lemma group_commit_preserves : preserves_on step (fits T B) Inv.
Proof.
  intros x past s Hx [g I]. change (step_ok T B past (step x s)). destruct x as [t a d|t choice|t|choice|]; cbn [step].
  - destruct Hx. by eapply call_ok.
  - by eapply thread_ok.
  - destruct (threads s !! t) as [[]|] eqn:Ht; try done. by eapply thread_spurious.
  - by eapply server_ok_step.
  - exists g. rewrite app_nil_r. split; apply I.
Qed.

Lemma group_commit_run logs l : fresh_logs logs -> Forall (fits T B) l -> step_ok T B [] (run step l (new_LoggingServer logs)).
Proof.
  intros Hlogs Hl. assert (Hr := run_preserves_on step _ _ group_commit_preserves l [] (new_LoggingServer logs) Hl). apply Hr.
  exists ghost0. by apply ginv_new.
Qed.

Lemma kept_step past s e s' : Inv past s -> kept past s -> changes_logs s s' e -> kept (past ++ e) s'.
Proof.
  intros [g I] [Ha Hs] Hc.
  destruct Hc as [e Heq He1 He2 | n k d log log' Hk Happ Heq | k log log' Hk Hsync Heq].
  - split.
    + intros b n k d c [[c' ->]|Hx]%event_app; [rewrite Heq; by eapply Ha | by apply He1 in Hx].
    + intros b n k d c c' Hx. rewrite app_comm_cons, app_assoc in Hx. apply event_app in Hx as [[c'' ->]|Hx]; [|by apply He2 in Hx].
      rewrite Heq. apply (Hs b n k d c c''). by rewrite <- app_assoc.
  - destruct (gi_buffer _ _ _ _ _ I k log Hk) as [Hok _]. assert (Hlt : (k < length (logs_ s))%nat) by (by eapply lookup_lt_Some).
    assert (Hlaw : appended log' = appended log ++ d /\ durable log' = durable log).
    { destruct (decide (len (appended log) + len d < MAX_BUFFER_SIZE)) as [Hl|Hl].
      - destruct (AppendData_ok log d Hok Hl) as (l2 & Hl2 & _ & ? & ?). rewrite Happ in Hl2. by injection Hl2 as <-.
      - rewrite (AppendData_full log d Hok) in Happ by lia. done. }
    destruct Hlaw as [Hap Hdu]. split.
    + intros b n' j d' c [[c' Hp]|[_ [= -> -> ->]]]%event_snoc.
      * destruct (Ha b n' j d' c' Hp) as (lg & Hlg & Hin). rewrite Heq. destruct (decide (j = k)) as [->|].
        -- exists log'. rewrite list_lookup_insert_eq by done. split; [done|]. rewrite Hk in Hlg. injection Hlg as <-. rewrite Hap, Hdu, app_assoc. by apply infix_app.
        -- exists lg. by rewrite list_lookup_insert_ne.
      * exists log'. rewrite Heq, list_lookup_insert_eq by done. split; [done|]. rewrite Hap, app_assoc. apply infix_last.
    + intros b n' j d' c c' Hx. rewrite app_comm_cons, app_assoc in Hx. apply event_snoc in Hx as [[c'' Hp]|[_ [=]]].
      destruct (Hs b n' j d' c c'') as (lg & Hlg & Hin); [by rewrite <- app_assoc in Hp|]. rewrite Heq. destruct (decide (j = k)) as [->|].
      * exists log'. rewrite list_lookup_insert_eq by done. rewrite Hk in Hlg. injection Hlg as <-. by rewrite Hdu.
      * exists lg. by rewrite list_lookup_insert_ne.
  - destruct (gi_buffer _ _ _ _ _ I k log Hk) as [Hok _]. assert (Hlt : (k < length (logs_ s))%nat) by (by eapply lookup_lt_Some).
    destruct (Sync_ok log Hok) as (l2 & pad & Hl2 & _ & Hemp & Hdu). rewrite Hsync in Hl2. injection Hl2 as <-.
    assert (Hall : forall d, infix_of d (durable log ++ appended log) -> infix_of d (durable log')) by (intros d Hd; rewrite Hdu, app_assoc; by apply infix_app).
    split.
    + intros b n j d c [[c' Hp]|[_ [=]]]%event_snoc. destruct (Ha b n j d c' Hp) as (lg & Hlg & Hin). rewrite Heq. destruct (decide (j = k)) as [->|].
      * exists log'. rewrite list_lookup_insert_eq by done. rewrite Hk in Hlg. injection Hlg as <-. split; [done|]. by apply infix_app, Hall.
      * exists lg. by rewrite list_lookup_insert_ne.
    + intros b n j d c c' Hx. rewrite app_comm_cons, app_assoc in Hx. rewrite Heq. apply event_snoc in Hx as [[c'' Hp]|[Hp [= ->]]].
      * destruct (Hs b n j d c c'') as (lg & Hlg & Hin); [by rewrite <- app_assoc in Hp|]. destruct (decide (j = k)) as [->|].
        -- exists log'. rewrite list_lookup_insert_eq by done. rewrite Hk in Hlg. injection Hlg as <-. split; [done|]. apply Hall. by apply infix_app.
        -- exists lg. by rewrite list_lookup_insert_ne.
      * destruct (Ha b n k d c) as (lg & Hlg & Hin); [done|]. exists log'. rewrite list_lookup_insert_eq by done. rewrite Hk in Hlg. injection Hlg as <-. auto.
Qed.
End runs.

(** C17: No schedule of the threads that log and the server crashes: no assertion
    of the server fails, no log number is out of range, no [Writer] is used
    after its call returned, and no log's buffer overflows. *)
Theorem group_commit_never_faults T B logs l e : 0 <= B -> Z.of_nat T * B < MAX_BUFFER_SIZE -> fresh_logs logs -> Forall (fits T B) l ->
  run step l (new_LoggingServer logs) <> Fault e.
Proof. intros HB Hfit Hlogs Hl He. assert (Hr := group_commit_run T B HB Hfit logs l Hlogs Hl). by rewrite He in Hr. Qed.

(** C18: When a call of [AddLog] returns, its own data has been appended to one
    log after the call, and that log was synced after that and before the
    return. *)
Theorem group_commit_durable T B logs l s evs b n c : 0 <= B -> Z.of_nat T * B < MAX_BUFFER_SIZE -> fresh_logs logs -> Forall (fits T B) l ->
  run step l (new_LoggingServer logs) = Step evs s -> evs = b ++ Returned n :: c ->
  exists k d b1 b2 b3, b = b1 ++ Appended n k d :: b2 ++ Synced k :: b3 /\ Called n d ∈ b1.
Proof.
  intros HB Hfit Hlogs Hl Hrun Hevs. assert (Hr := group_commit_run T B HB Hfit logs l Hlogs Hl). rewrite Hrun in Hr. destruct Hr as [g I].
  destruct (gi_returned _ _ _ _ _ I b n c Hevs) as (k & d & b1 & b2 & b3 & Hb). exists k, d, b1, b2, b3. split; [done|].
  eapply (gi_data _ _ _ _ _ I b1 n k d). cbn [app]. rewrite Hevs, Hb, <- app_assoc. done.
Qed.

(** C20: The data of a call is appended once, to one log, as the call gave it. *)
Theorem group_commit_once T B logs l s evs : 0 <= B -> Z.of_nat T * B < MAX_BUFFER_SIZE -> fresh_logs logs -> Forall (fits T B) l ->
  run step l (new_LoggingServer logs) = Step evs s ->
  NoDup (appends evs) /\ forall n k d, Appended n k d ∈ evs -> Called n d ∈ evs.
Proof.
  intros HB Hfit Hlogs Hl Hrun. assert (Hr := group_commit_run T B HB Hfit logs l Hlogs Hl). rewrite Hrun in Hr. destruct Hr as [g I].
  split; [apply (gi_appends _ _ _ _ _ I)|]. intros n k d Hin. apply list_elem_of_split in Hin as (b & c & ->).
  apply elem_of_app. left. by apply (gi_data _ _ _ _ _ I b n k d c).
Qed.

(** The bytes of a call that has returned are among those the syncs of one log
    have written, in one piece, and those of later states. *)
Lemma group_commit_keeps T B logs l s evs n : 0 <= B -> Z.of_nat T * B < MAX_BUFFER_SIZE -> fresh_logs logs -> Forall (fits T B) l ->
  run step l (new_LoggingServer logs) = Step evs s -> Returned n ∈ evs ->
  exists d k, Called n d ∈ evs /\ forall l2 evs2 s2, Forall (fits T B) l2 -> run step l2 s = Step evs2 s2 ->
    exists log, logs_ s2 !! k = Some log /\ infix_of d (durable log).
Proof.
  intros HB Hfit Hlogs Hl Hrun Hin.
  assert (Hp : preserves_on step (fits T B) (fun past s => (exists g, GInv T B past s g) /\ kept past s)).
  { intros x past s0 Hx [I HK]. assert (HI := group_commit_preserves T B HB Hfit x past s0 Hx I).
    destruct (step x s0) as [| |e s1] eqn:Hs; [done..|]. split; [done|]. eapply kept_step; [exact I|done|by eapply step_logs]. }
  assert (Hr := run_preserves_on step _ _ Hp l [] (new_LoggingServer logs) Hl). rewrite Hrun in Hr. cbn [app] in Hr.
  assert (HI : (exists g, GInv T B evs s g) /\ kept evs s).
  { apply Hr. split; [exists ghost0; by apply ginv_new|]. split; by intros [|] * [=]. }
  apply list_elem_of_split in Hin as (b & c & ->). destruct HI as [[g I] HK].
  destruct (gi_returned _ _ _ _ _ I b n c eq_refl) as (k & d & b1 & b2 & b3 & ->). exists d, k. split.
  { rewrite <- app_assoc. apply elem_of_app. left. eapply (gi_data _ _ _ _ _ I b1 n k d). by rewrite <- app_assoc. }
  intros l2 evs2 s2 Hl2 Hrun2. assert (Hr2 := run_preserves_on step _ _ Hp l2 _ s Hl2 (conj (ex_intro _ g I) HK)). rewrite Hrun2 in Hr2.
  destruct Hr2 as [_ [_ HK2]]. apply (HK2 b1 n k d b2 (b3 ++ Returned n :: c ++ evs2)).
  by repeat (rewrite <- !app_assoc; cbn [app]).
Qed.

(** C22: Two threads that lead have different logs, and their logs are marked as
    taken. *)
Theorem one_leader_per_log T B logs l s evs t t' p p' : 0 <= B -> Z.of_nat T * B < MAX_BUFFER_SIZE -> fresh_logs logs -> Forall (fits T B) l ->
  run step l (new_LoggingServer logs) = Step evs s ->
  threads s !! t = Some p -> threads s !! t' = Some p' -> leading p = true -> leading p' = true -> t <> t' ->
  exists w w', heap s !! addr p = Some w /\ heap s !! addr p' = Some w' /\ log_num w <> log_num w' /\
    log_free_ s !! Z.to_nat (log_num w) = Some true /\ log_free_ s !! Z.to_nat (log_num w') = Some true.
Proof.
  intros HB Hfit Hlogs Hl Hrun Ht Ht' Hp Hp' Hne. assert (Hr := group_commit_run T B HB Hfit logs l Hlogs Hl). rewrite Hrun in Hr. destruct Hr as [g I].
  assert (Hlead : forall t p, threads s !! t = Some p -> leading p = true -> exists w, heap s !! addr p = Some w /\ holds g (addr p) w).
  { intros t0 p0 Ht0 Hp0. destruct (owner_cell _ _ _ _ _ _ _ I Ht0) as (w & r & Hw & Hr & Hst & Hc). exists w. split; [done|].
    destruct p0; try done; destruct Hst as [-> _]; by destruct Hc. }
  destruct (Hlead t p Ht Hp) as (w & Hw & Hh), (Hlead t' p' Ht' Hp') as (w' & Hw' & Hh'). exists w, w'. split_and!; [done..| | |].
  - intros He. destruct Hh as [_ Hh], Hh' as [_ Hh']. rewrite He, Hh' in Hh. injection Hh as Ha. apply Hne. by eapply (gi_addr _ _ _ _ _ I).
  - by apply (holds_log _ _ _ _ _ _ _ I Hh).
  - by apply (holds_log _ _ _ _ _ _ _ I Hh').
Qed.
End spec.

(** ** The servers that are opened are such servers *)
Lemma fs_server_opens num s : fs_server num = Ok s -> s = new_LoggingServer (logs_ s) /\ fresh_logs (logs_ s) /\ logs_ s <> [].
Proof.
  unfold fs_server. destruct (_ && _) eqn:Hn; [|done]. intros [= <-]. apply andb_true_iff in Hn as [_ Hn%Z.ltb_lt]. split_and!; [done | |].
  - apply Forall_replicate. done.
  - cbn. destruct (Z.to_nat num) eqn:E; [lia|done].
Qed.

Lemma spdk_server_opens sector num s : 0 < sector -> write_align mod sector = 0 -> spdk_server sector num = Ok s ->
  s = new_LoggingServer (logs_ s) /\ fresh_logs (logs_ s) /\ logs_ s <> [].
Proof.
  intros H1 H2. unfold spdk_server. destruct (_ && _) eqn:Hn; [|done]. intros [= <-]. apply andb_true_iff in Hn as [_ Hn%Z.ltb_lt]. split_and!; [done | |].
  - apply Forall_fmap, Forall_true. intros i. split; [|done]. split_and!; [done..|by vm_compute|done|done].
  - cbn. destruct (Z.to_nat num) eqn:E; [lia|done].
Qed.

(** C21: With log files, the bytes of a call that has returned are in the file
    of a log, in one piece, and stay there whatever the threads and the server do
    next.  ([GroupCommitDevice] has what holds of a device, which the logs
    share.) *)
Theorem group_commit_persists num s0 T B l s evs n : fs_server num = Ok s0 -> 0 <= B -> Z.of_nat T * B < MAX_BUFFER_SIZE -> Forall (fits T B) l ->
  run step l s0 = Step evs s -> Returned n ∈ evs ->
  exists d k log, Called n d ∈ evs /\ logs_ s !! k = Some log /\ infix_of d (file log) /\
    forall l2 evs2 s2, Forall (fits T B) l2 -> run step l2 s = Step evs2 s2 -> exists log2, logs_ s2 !! k = Some log2 /\ infix_of d (file log2).
Proof.
  intros Ho HB Hfit Hl Hrun Hin. destruct (fs_server_opens num s0 Ho) as (Hs0 & Hf & _). rewrite Hs0 in Hrun.
  destruct (group_commit_keeps T B _ l s evs n HB Hfit Hf Hl Hrun Hin) as (d & k & Hc & Hk).
  destruct (Hk [] [] s ltac:(constructor) eq_refl) as (log & Hlog & Hd). exists d, k, log. by split_and!.
Qed.

(** ** A run: two calls in a group, the older one asleep when it is completed *)
Definition two_logs : list FSLogWriter := [new_FSLogWriter; new_FSLogWriter].
Definition demo : list action :=
  AddLog 0 10 [1] :: replicate 202 (Thread 0 true) ++ replicate 4 (Thread 0 false) ++
  [AddLog 1 20 [2; 3]; Thread 1 true; Thread 1 true] ++ replicate 7 (Server true) ++
  replicate 16 (Thread 1 true) ++ replicate 2 (Thread 0 true).
Definition demo_result : list event * LoggingServer FSLogWriter :=
  match run step demo (new_LoggingServer two_logs) with Step e s => (e, s) | _ => ([], new_LoggingServer []) end.
Definition demo_events : list event :=
  [Called 0 [1]; Called 1 [2; 3]; Appended 1 0 [2; 3]; Appended 0 0 [1]; Synced 0; Returned 1; Returned 0].

Lemma two_logs_fresh : fresh_logs two_logs.
Proof. by repeat constructor. Qed.
Definition fitsb (T : nat) (B : Z) (x : action) : bool := match x with AddLog t _ d => (t <? T)%nat && (len d <=? B) | _ => true end.
Lemma fitsb_ok T B l : forallb (fitsb T B) l = true -> Forall (fits T B) l.
Proof.
  intros Hl. apply Forall_forall. intros x Hx. rewrite forallb_forall in Hl. specialize (Hl x). destruct x; cbn in *; try done.
  apply list_elem_of_In, Hl, andb_true_iff in Hx as [?%Nat.ltb_lt ?%Z.leb_le]. done.
Qed.
Lemma demo_fits : Forall (fits 64 1024) demo.
Proof. apply fitsb_ok. by vm_compute. Qed.

Lemma group_commit_never_faults_witness : forallb (fitsb 64 1024) demo = true /\ run step demo (new_LoggingServer two_logs) <> Fault AssertFail.
Proof.
  split; [by vm_compute|]. apply (group_commit_never_faults 64 1024 two_logs demo AssertFail); [done | done | apply two_logs_fresh | apply demo_fits].
Defined.

Lemma group_commit_durable_witness : run step demo (new_LoggingServer two_logs) = Step demo_events demo_result.2 /\
  exists k d b1 b2 b3, take 6 demo_events = b1 ++ Appended 0 k d :: b2 ++ Synced k :: b3 /\ Called 0 d ∈ b1.
Proof.
  split; [by vm_compute|].
  apply (group_commit_durable 64 1024 two_logs demo demo_result.2 demo_events _ 0 []); [done | done | apply two_logs_fresh | apply demo_fits | by vm_compute | done].
Defined.

Lemma group_commit_once_witness : run step demo (new_LoggingServer two_logs) = Step demo_events demo_result.2 /\
  NoDup (appends demo_events) /\ forall n k d, Appended n k d ∈ demo_events -> Called n d ∈ demo_events.
Proof.
  split; [by vm_compute|].
  apply (group_commit_once 64 1024 two_logs demo demo_result.2 demo_events); [done | done | apply two_logs_fresh | apply demo_fits | by vm_compute].
Defined.

Lemma group_commit_persists_witness : run step demo (new_LoggingServer two_logs) = Step demo_events demo_result.2 /\
  exists d k log, Called 0 d ∈ demo_events /\ logs_ demo_result.2 !! k = Some log /\ infix_of d (file log) /\
    forall l2 evs2 s2, Forall (fits 64 1024) l2 -> run step l2 demo_result.2 = Step evs2 s2 -> exists log2, logs_ s2 !! k = Some log2 /\ infix_of d (file log2).
Proof.
  split; [by vm_compute|].
  apply (group_commit_persists 2 (new_LoggingServer two_logs) 64 1024 demo demo_result.2 demo_events 0); [reflexivity | done | done | apply demo_fits | by vm_compute | set_solver].
Defined.

(** Two leaders at once. *)
Definition duel : list action :=
  [AddLog 0 10 [1]; Thread 0 true; Thread 0 true] ++ replicate 7 (Server true) ++ replicate 3 (Thread 0 true) ++
  [AddLog 1 20 [2]; Thread 1 true; Thread 1 true] ++ replicate 9 (Server true) ++ replicate 3 (Thread 1 true).
Definition duel_result : list event * LoggingServer FSLogWriter :=
  match run step duel (new_LoggingServer two_logs) with Step e s => (e, s) | _ => ([], new_LoggingServer []) end.

Lemma one_leader_per_log_witness : threads duel_result.2 !! 0%nat = Some (T_make 10) /\ threads duel_result.2 !! 1%nat = Some (T_make 20) /\
  exists w w', heap duel_result.2 !! 10%nat = Some w /\ heap duel_result.2 !! 20%nat = Some w' /\ log_num w <> log_num w' /\
    log_free_ duel_result.2 !! Z.to_nat (log_num w) = Some true /\ log_free_ duel_result.2 !! Z.to_nat (log_num w') = Some true.
Proof.
  split; [by vm_compute|]. split; [by vm_compute|].
  apply (one_leader_per_log 64 1024 two_logs duel duel_result.2 duel_result.1 0 1 (T_make 10) (T_make 20));
    [done | done | apply two_logs_fresh | apply fitsb_ok; by vm_compute | by vm_compute | by vm_compute | by vm_compute | done | done | done].
Defined.
