(* ===== verification/GroupCommitDevice.v ===== *)
(** * The device under the group commit

    All logs of a server that was opened on a device write to its namespace 0,
    [log_sectors] sectors apart.  [namespace] is what it holds after the write
    commands of all of them; commands that do not overlap may take effect in any
    order.  [spdk_commit_persists]: as long as no log has outgrown its sectors,
    the bytes of a call that has returned are there.  [log_overrun]: nothing keeps
    a log from going on behind them, over the next one. *)

From S2P Require Import Prelude Machine LogFormat LogWriter GroupCommit GroupCommitInv GroupCommitSteps GroupCommitSet GroupCommitEvents.
From S2P Require Import GroupCommitWrite GroupCommitSpec.
Local Open Scope Z_scope.

(** From the start of a log to that of the next. *)
Definition log_sectors : Z := 1024 * 1024.

(** ** The namespace: bytes by their address *)
Fixpoint put (a : Z) (l : list Z) (m : gmap Z Z) : gmap Z Z :=
  match l with [] => m | x :: l => <[a := x]> (put (a + 1) l m) end.

(** A command is its first sector and its data. *)
Definition write_command (sector : Z) (m : gmap Z Z) (c : Z * list Z) : gmap Z Z := put (c.1 * sector) c.2 m.
Definition namespace (sector : Z) (cmds : list (Z * list Z)) : gmap Z Z := foldl (write_command sector) ∅ cmds.

Definition covers (sector x : Z) (c : Z * list Z) : Prop := c.1 * sector <= x < c.1 * sector + len c.2.
#[export] Instance covers_dec sector x c : Decision (covers sector x c).
Proof. unfold covers. apply _. Defined.

Lemma put_lookup l : forall a m x, put a l m !! x = if decide (a <= x < a + len l) then l !! Z.to_nat (x - a) else m !! x.
Proof.
  unfold len. induction l as [|y l IH]; intros a m x; cbn [put length]; [case_decide; [lia|done]|].
  destruct (decide (x = a)) as [->|Hne].
  - rewrite lookup_insert_eq, decide_True by lia. by rewrite Z.sub_diag.
  - rewrite lookup_insert_ne, IH by done. repeat case_decide; try lia; [|done].
    replace (Z.to_nat (x - a)) with (S (Z.to_nat (x - (a + 1)))) by lia. done.
Qed.

(** Only the commands that cover a byte matter to it. *)
Lemma namespace_covering sector x cmds : namespace sector cmds !! x = namespace sector (filter (covers sector x) cmds) !! x.
Proof.
  unfold namespace. enough (Hm : forall m1 m2, m1 !! x = m2 !! x ->
    foldl (write_command sector) m1 cmds !! x = foldl (write_command sector) m2 (filter (covers sector x) cmds) !! x) by by apply Hm.
  induction cmds as [|c cmds IH]; intros m1 m2 Hm; [done|]. destruct (decide (covers sector x c)) as [Hc|Hc].
  - rewrite filter_cons_True by done. cbn [foldl]. apply IH. unfold write_command. rewrite !put_lookup. by rewrite !decide_True.
  - rewrite filter_cons_False by done. cbn [foldl]. apply IH. unfold write_command. rewrite put_lookup. by rewrite decide_False.
Qed.

Lemma namespace_one sector x cmds c : filter (covers sector x) cmds ≡ₚ [c] -> covers sector x c ->
  namespace sector cmds !! x = c.2 !! Z.to_nat (x - c.1 * sector).
Proof.
  intros Hf Hc. apply Permutation_singleton_r in Hf. rewrite namespace_covering, Hf. unfold namespace, write_command. cbn [foldl].
  by rewrite put_lookup, decide_True.
Qed.

(** ** The commands of one log: one behind the other *)
Fixpoint placed (sector start : Z) (cmds : list (Z * list Z)) (stop : Z) : Prop :=
  match cmds with
  | [] => stop = start
  | c :: cmds => c.1 = start /\ exists n, 0 <= n /\ len c.2 = n * sector /\ placed sector (start + n) cmds stop
  end.

Lemma placed_snoc sector cmds : forall start stop n data, placed sector start cmds stop -> 0 <= n -> len data = n * sector ->
  placed sector start (cmds ++ [(stop, data)]) (stop + n).
Proof.
  induction cmds as [|c cmds IH]; intros start stop n data; cbn [placed app].
  - intros -> Hn Hd. split; [done|]. exists n. by split_and!.
  - intros [Hc (m & Hm & Hlen & Hp)] Hn Hd. split; [done|]. exists m. split_and!; [done | done | by apply IH].
Qed.

Lemma placed_length sector cmds : forall start stop, placed sector start cmds stop -> stop * sector = start * sector + len (concat cmds.*2).
Proof.
  induction cmds as [|c cmds IH]; intros start stop; cbn [placed].
  - intros ->. unfold len. cbn [fmap list_fmap concat length]. lia.
  - intros [_ (n & _ & Hlen & Hp)]. apply IH in Hp. rewrite fmap_cons. cbn [concat]. rewrite len_app. lia.
Qed.

Lemma placed_outside sector x cmds : forall start stop, placed sector start cmds stop -> x < start * sector \/ stop * sector <= x ->
  filter (covers sector x) cmds = [].
Proof.
  induction cmds as [|c cmds IH]; intros start stop Hp Hx; [done|]. assert (Hl := placed_length _ _ _ _ Hp).
  destruct Hp as [Hc (n & Hn & Hlen & Hp)]. assert (Hl' := placed_length _ _ _ _ Hp). assert (H0 := len_nonneg (concat cmds.*2)).
  assert (H1 := len_nonneg c.2). rewrite filter_cons_False by (unfold covers; rewrite Hc; lia). apply (IH _ _ Hp). lia.
Qed.

(** Each of their bytes is in one of them. *)
Lemma placed_lookup sector cmds : forall start stop i b, placed sector start cmds stop -> concat cmds.*2 !! i = Some b ->
  exists c, filter (covers sector (start * sector + Z.of_nat i)) cmds = [c] /\ covers sector (start * sector + Z.of_nat i) c /\
    c.2 !! Z.to_nat (start * sector + Z.of_nat i - c.1 * sector) = Some b.
Proof.
  induction cmds as [|c cmds IH]; intros start stop i b; cbn [placed]; [done|]. intros [Hc (n & Hn & Hlen & Hp)] Hi.
  rewrite fmap_cons in Hi. cbn [concat] in Hi. unfold len in Hlen. destruct (decide (i < length c.2)%nat) as [Hlt|Hge].
  - exists c. assert (Hcov : covers sector (start * sector + Z.of_nat i) c) by (unfold covers, len; rewrite Hc; lia).
    rewrite filter_cons_True by done. rewrite lookup_app_l in Hi by done. split_and!; [|done|].
    + f_equal. apply (placed_outside _ _ _ _ _ Hp). lia.
    + rewrite Hc. by replace (Z.to_nat _) with i by lia.
  - rewrite lookup_app_r in Hi by lia. rewrite filter_cons_False by (unfold covers, len; rewrite Hc; lia).
    destruct (IH _ _ _ _ Hp Hi) as (c' & Hf & Hcov & Hb). exists c'.
    by replace (start * sector + Z.of_nat i) with ((start + n) * sector + Z.of_nat (i - length c.2)) by lia.
Qed.

(** ** The logs of a server *)
Record Placed (sector : Z) (k : nat) (w : SPDKLogWriter) : Prop := {
  pl_ok : spdk_ok w;
  pl_sector : sector_size w = sector;
  pl_few : Z.of_nat k < MAX_LOGS_NUM;
  pl_syncs : len (spdk_bytes w) <= spdk_syncs w * MAX_BUFFER_SIZE;
  pl_region : len (spdk_bytes w) <= log_sectors * sector -> placed sector (log_sectors * Z.of_nat k) (issued w) (current_offset w)
}.

Lemma placed_append sector k w w' data : Placed sector k w -> SPDK_AppendData data w = Ok w' -> Placed sector k w'.
Proof.
  intros [Hok Hs Hk Hsy Hr] Ha. assert (Hw : len (takeZ (spdk_offset w) (spdk_buffer w)) = spdk_offset w) by (apply len_takeZ; destruct Hok as (_ & _ & ? & ?); lia).
  destruct (decide (spdk_offset w + len data < MAX_BUFFER_SIZE)) as [Hl|Hl].
  - destruct (spdk_append w data Hok ltac:(lia)) as (w2 & Ha2 & Hok2 & _ & Hb2). rewrite Ha in Ha2. injection Ha2 as <-.
    unfold SPDK_AppendData in Ha. rewrite (proj2 (Z.ltb_lt _ _) Hl) in Ha. injection Ha as <-. by split.
  - unfold SPDK_AppendData in Ha. rewrite (proj2 (Z.ltb_ge _ _)) in Ha by lia. done.
Qed.

Lemma placed_sync sector k w w' : Placed sector k w -> SPDK_Sync w = Ok w' -> Placed sector k w'.
Proof.
  intros [Hok Hs Hk Hsy Hr] Ha. destruct (spdk_sync_command w w' Hok Ha) as (n & data & Hi & Hn & Hlen & Hmax & _ & Hc & Hs' & _ & Hnum).
  destruct (spdk_sync w Hok) as (w2 & pad & Ha2 & Hok2 & _). rewrite Ha in Ha2. injection Ha2 as <-. rewrite Hs in *.
  assert (Hb : spdk_bytes w' = spdk_bytes w ++ data) by (unfold spdk_bytes; rewrite Hi, fmap_app, concat_app; cbn; by rewrite app_nil_r).
  split; [done | done | done | rewrite Hb, len_app, Hnum; lia |]. intros Hfit. unfold spdk_bytes in Hfit. rewrite Hi, fmap_app, concat_app, len_app in Hfit. cbn [fmap list_fmap concat snd] in Hfit.
  rewrite app_nil_r, Hlen in Hfit. assert (Hn0 := len_nonneg (concat (issued w).*2)). destruct Hok as (Hpos & _). rewrite Hs in Hpos.
  assert (Hp := Hr ltac:(unfold spdk_bytes; nia)). assert (Hl := placed_length _ _ _ _ Hp). rewrite Hi, Hc.
  assert (Hst : log_sectors * Z.of_nat k <= current_offset w + n <= log_sectors * Z.of_nat k + log_sectors) by nia.
  rewrite u64_small by (unfold log_sectors, MAX_LOGS_NUM in *; lia). by apply placed_snoc.
Qed.

(** Every log stays as it is placed. *)
Definition all_placed (sector : Z) (s : LoggingServer SPDKLogWriter) : Prop := forall k log, logs_ s !! k = Some log -> Placed sector k log.

Lemma placed_preserves sector T B : 0 <= B -> Z.of_nat T * B < MAX_BUFFER_SIZE ->
  preserves_on step (fits T B) (fun past s => (exists g, GInv T B past s g) /\ all_placed sector s).
Proof.
  intros HB Hfit x past s Hx [I HP]. assert (HI := group_commit_preserves T B HB Hfit x past s Hx I).
  destruct (step x s) as [|e|evs s'] eqn:Hs; [done..|]. split; [done|]. assert (Hc := step_logs x s evs s' Hs). intros k log Hk.
  destruct Hc as [? Heq _ _ | n k' d lg lg' Hk' Happ Heq | k' lg lg' Hk' Hsync Heq]; rewrite Heq in Hk; [by apply HP|..];
    (apply list_lookup_insert_Some in Hk as [(-> & -> & _)|[_ Hk]]; [|by apply HP]).
  - by eapply placed_append; [apply HP|].
  - by eapply placed_sync; [apply HP|].
Qed.

Lemma placed_new sector num s0 : 0 < sector -> write_align mod sector = 0 -> spdk_server sector num = Ok s0 -> all_placed sector s0.
Proof.
  intros H1 H2. unfold spdk_server. destruct (_ && _) eqn:Hn; [|done]. intros [= <-].
  apply andb_true_iff in Hn as [Hn1%Z.ltb_lt Hn2%Z.ltb_lt]. intros k log Hk. cbn [logs_ new_LoggingServer] in Hk.
  apply list_lookup_fmap_Some in Hk as (i & -> & Hi). apply lookup_seq in Hi as [-> Hi]. split.
  - split_and!; [done | done | by vm_compute | done | done].
  - reflexivity.
  - unfold MAX_LOGS_NUM in *. lia.
  - done.
  - intros _. reflexivity.
Qed.

(** Where the bytes of a log are. *)
Lemma log_bytes sector logs cmds k log i x :
  (forall k log, logs !! k = Some log -> Placed sector k log /\ len (spdk_bytes log) <= log_sectors * sector) ->
  cmds ≡ₚ concat (issued <$> logs) -> logs !! k = Some log -> spdk_bytes log !! i = Some x ->
  namespace sector cmds !! (log_sectors * Z.of_nat k * sector + Z.of_nat i) = Some x.
Proof.
  intros Hlogs Hcmds Hk Hi. destruct (Hlogs k log Hk) as [HP Hfit]. assert (Hp := pl_region _ _ _ HP Hfit).
  destruct (placed_lookup _ _ _ _ _ _ Hp Hi) as (c & Hf & Hcov & Hc). set (a := log_sectors * Z.of_nat k * sector + Z.of_nat i) in *.
  rewrite <- Hc. apply (namespace_one sector a cmds c); [|done]. rewrite Hcmds. rewrite <- Hf.
  assert (Ha : log_sectors * Z.of_nat k * sector <= a < log_sectors * (Z.of_nat k + 1) * sector).
  { assert (Hl := lookup_lt_Some _ _ _ Hi). unfold len in Hfit. unfold a. nia. }
  (* the other logs are elsewhere *)
  assert (Hother : forall j lg, logs !! j = Some lg -> j <> k -> filter (covers sector a) (issued lg) = []).
  { intros j lg Hj Hne. destruct (Hlogs j lg Hj) as [HPj Hfj]. assert (Hpj := pl_region _ _ _ HPj Hfj). assert (Hlj := placed_length _ _ _ _ Hpj).
    unfold spdk_bytes in Hfj. destruct (pl_ok _ _ _ HPj) as (Hs & _). rewrite (pl_sector _ _ _ HPj) in Hs.
    apply (placed_outside _ _ _ _ _ Hpj). assert (j < k \/ k < j)%nat as [Hlt|Hlt] by lia; [right|left]; unfold log_sectors in *; nia. }
  rewrite <- (take_drop_middle logs k log Hk), fmap_app, fmap_cons, concat_app, filter_app. cbn [concat]. rewrite filter_app.
  assert (Hnone : forall l, (forall lg, lg ∈ l -> filter (covers sector a) (issued lg) = []) -> filter (covers sector a) (concat (issued <$> l)) = []).
  { intros l. induction l as [|lg l IH]; intros Hl; [done|]. rewrite fmap_cons. cbn [concat]. rewrite filter_app, Hl, IH; [done | set_solver | set_solver]. }
  rewrite !Hnone; [by rewrite app_nil_r|..].
  - intros lg Hlg. apply list_elem_of_lookup in Hlg as [j Hj]. rewrite lookup_drop in Hj. eapply Hother; [exact Hj|lia].
  - intros lg Hlg. apply list_elem_of_lookup in Hlg as [j Hj]. apply lookup_take_Some in Hj as [Hj Hlt]. eapply Hother; [exact Hj|lia].
Qed.

Lemma spdk_run_placed sector num s0 T B l s evs :
  0 < sector -> write_align mod sector = 0 -> spdk_server sector num = Ok s0 -> 0 <= B -> Z.of_nat T * B < MAX_BUFFER_SIZE ->
  Forall (fits T B) l -> run step l s0 = Step evs s -> all_placed sector s.
Proof.
  intros H1 H2 Ho HB Hfit Hl Hrun. destruct (spdk_server_opens sector num s0 H1 H2 Ho) as (Hs0 & Hf & _).
  assert (Hr := run_preserves_on step _ _ (placed_preserves sector T B HB Hfit) l [] s0 Hl). rewrite Hrun in Hr.
  destruct Hr as [_ HP]; [|done]. split; [|by eapply placed_new]. exists ghost0. rewrite Hs0. by apply ginv_new.
Qed.

(** C32: On a device, which all logs share, the bytes of a call that has returned
    are in the sectors of one log, in one piece, whatever the order in which the
    commands of different logs took effect, as long as no log has written more
    than its [log_sectors] sectors.  The source does not see to that. *)
Theorem spdk_commit_persists sector num s0 T B l s evs n cmds :
  0 < sector -> write_align mod sector = 0 -> spdk_server sector num = Ok s0 -> 0 <= B -> Z.of_nat T * B < MAX_BUFFER_SIZE ->
  Forall (fits T B) l -> run step l s0 = Step evs s -> Returned n ∈ evs ->
  (forall k log, logs_ s !! k = Some log -> len (spdk_bytes log) <= log_sectors * sector) -> cmds ≡ₚ concat (issued <$> logs_ s) ->
  exists d k a, Called n d ∈ evs /\ log_sectors * Z.of_nat k * sector <= a /\ a + len d <= log_sectors * (Z.of_nat k + 1) * sector /\
    forall i x, d !! i = Some x -> namespace sector cmds !! (a + Z.of_nat i) = Some x.
Proof.
  intros H1 H2 Ho HB Hfit Hl Hrun Hin Hregion Hcmds. destruct (spdk_server_opens sector num s0 H1 H2 Ho) as (Hs0 & Hf & _).
  assert (HP := spdk_run_placed sector num s0 T B l s evs H1 H2 Ho HB Hfit Hl Hrun).
  rewrite Hs0 in Hrun. destruct (group_commit_keeps T B _ l s evs n HB Hfit Hf Hl Hrun Hin) as (d & k & Hc & Hk).
  destruct (Hk [] [] s ltac:(constructor) eq_refl) as (log & Hlog & u & v & Hd). assert (Hfl := Hregion k log Hlog). cbn [durable SPDK_writer] in Hd.
  exists d, k, (log_sectors * Z.of_nat k * sector + len u). split_and!; [done | assert (Hu := len_nonneg u); lia | |].
  - rewrite Hd, !len_app in Hfl. assert (Hv := len_nonneg v). lia.
  - intros i x Hi. unfold len. rewrite <- Z.add_assoc, <- Nat2Z.inj_add. apply (log_bytes sector (logs_ s) cmds k log); [|done..|].
    + intros j lg Hj. split; [by apply HP | by eapply Hregion].
    + rewrite Hd, lookup_app_r by lia. rewrite lookup_app_l by (apply lookup_lt_Some in Hi; lia). by replace (length u + i - length u)%nat with i by lia.
Qed.

(** A log that has filled its sectors writes its next group over the start of
    the next log. *)
Theorem log_overrun w w' k x cmds : spdk_ok w -> current_offset w = log_sectors * (k + 1) -> 0 < spdk_offset w ->
  head (spdk_buffer w) = Some x -> SPDK_Sync w = Ok w' ->
  exists c, issued w' = issued w ++ [c] /\ namespace (sector_size w) (cmds ++ [c]) !! (log_sectors * (k + 1) * sector_size w) = Some x.
Proof.
  intros Hok Hcur Hoff Hx Ha. destruct (spdk_sync_command w w' Hok Ha) as (n & data & Hi & Hn & Hlen & _ & Hd & _).
  eexists. split; [exact Hi|]. destruct (spdk_buffer w) as [|y buf]; [done|]. injection Hx as ->.
  assert (Hz : exists r, data = x :: r).
  { unfold takeZ in Hd. destruct (Z.to_nat (spdk_offset w)) as [|m] eqn:E; [lia|]. destruct data as [|z r]; [done|]. cbn in Hd. injection Hd as -> _. by exists r. }
  destruct Hz as [r ->]. unfold namespace. rewrite foldl_app. cbn [foldl]. unfold write_command at 1. cbn [fst snd put].
  by rewrite Hcur, lookup_insert_eq.
Qed.

(** ** A run on a device of 512-byte sectors *)

(** The logs before the first call, whatever is in their buffers. *)
Definition device_logs (buf : list Z) : list SPDKLogWriter :=
  (fun start => {| spdk_buffer := buf; spdk_offset := 0; sector_size := 512; start_offset := start; current_offset := start;
                   issued := []; spdk_written := 0; spdk_syncs := 0 |}) <$> [0; log_sectors].

Lemma device_run buf : exists s, run step demo (new_LoggingServer (device_logs buf)) = Step demo_events s /\ Forall (fun w => spdk_syncs w <= 1) (logs_ s).
Proof.
  assert (Hb : match run step demo (new_LoggingServer (device_logs buf)) with
               | Step e s => e = demo_events /\ forallb (fun w => spdk_syncs w <=? 1) (logs_ s) = true | _ => False end) by (vm_compute; split; reflexivity).
  destruct (run step demo (new_LoggingServer (device_logs buf))) as [| |e s]; [done..|]. destruct Hb as [-> Hb]. exists s. split; [done|].
  apply Forall_forall. intros w Hw. rewrite forallb_forall in Hb. by apply Z.leb_le, Hb, list_elem_of_In.
Qed.

Lemma spdk_commit_persists_witness : exists s0 s, spdk_server 512 2 = Ok s0 /\ run step demo s0 = Step demo_events s /\
  exists d k a, Called 0 d ∈ demo_events /\ log_sectors * Z.of_nat k * 512 <= a /\ a + len d <= log_sectors * (Z.of_nat k + 1) * 512 /\
    forall i x, d !! i = Some x -> namespace 512 (concat (issued <$> logs_ s)) !! (a + Z.of_nat i) = Some x.
Proof.
  assert (Hin : Returned 0 ∈ demo_events) by (unfold demo_events; set_solver).
  destruct (device_run (zeros MAX_BUFFER_SIZE)) as (s & Hrun & Hsy). set (s0 := new_LoggingServer (device_logs (zeros MAX_BUFFER_SIZE))) in *.
  assert (Ho : spdk_server 512 2 = Ok s0) by reflexivity. exists s0, s. split; [exact Ho | split; [exact Hrun|]]. clearbody s0.
  apply (spdk_commit_persists 512 2 s0 64 1024 demo s demo_events 0 _ ltac:(done) ltac:(done) Ho ltac:(done) ltac:(done) demo_fits Hrun Hin); [|reflexivity].
  intros k log Hk. assert (HP := spdk_run_placed 512 2 s0 64 1024 demo s _ ltac:(done) ltac:(done) Ho ltac:(done) ltac:(done) demo_fits Hrun k log Hk).
  assert (Hs := pl_syncs _ _ _ HP). assert (Hl := Forall_lookup_1 _ _ _ _ Hsy Hk). cbn beta in Hl. unfold log_sectors, MAX_BUFFER_SIZE in *. lia.
Defined.
