(* ===== verification/GroupCommitHeld.v ===== *)
(** * The group commit: a log that is marked as taken is held

    By the server, which has taken it and not yet given it to a leader, or by a
    thread that leads and has not marked it as free again: logs do not leak. *)

From S2P Require Import Prelude Machine LogFormat LogWriter GroupCommit GroupCommitInv GroupCommitSteps GroupCommitSet GroupCommitEvents.
From S2P Require Import GroupCommitWrite.
Local Open Scope Z_scope.

Definition before_free (p : thread_at) : bool := match p with T_older _ _ | T_set _ _ _ _ => false | _ => true end.

Section held.
Context {W : Type} `{LogWriterLaws W}.
Context (T : nat) (B : Z).
Implicit Types (s : LoggingServer W).
Notation GInv := (GInv T B).

Definition server_holds s (k : nat) : Prop :=
  match server_ s with
  | V_assert j | V_exchange j | V_unfree j | V_log j _ => j = k
  | V_set hd _ => exists w, heap s !! hd = Some w /\ Z.to_nat (log_num w) = k
  | _ => False
  end.
(** The thread [t] leads, with the log [k]. *)
Definition leads s (t k : nat) : Prop := exists p w,
  threads s !! t = Some p /\ before_free p = true /\ heap s !! addr p = Some w /\ state w = STATE_GROUP_LEADER /\ Z.to_nat (log_num w) = k.
Definition held s : Prop := forall k, log_free_ s !! k = Some true -> server_holds s k \/ exists t, leads s t k.

Lemma held_frame s s' : held s -> log_free_ s' = log_free_ s -> server_ s' = server_ s ->
  (forall hd at_ w, server_ s = V_set hd at_ -> heap s !! hd = Some w -> exists w', heap s' !! hd = Some w' /\ log_num w' = log_num w) ->
  (forall t k, leads s t k -> leads s' t k) -> held s'.
Proof.
  intros Hs Hf Hv Hsv Hl k Hk. rewrite Hf in Hk. destruct (Hs k Hk) as [Hk'|[t Ht]]; [left|right; exists t; by apply Hl].
  unfold server_holds in *. rewrite Hv. destruct (server_ s) eqn:E; try done. destruct Hk' as (w & Hw & <-).
  destruct (Hsv _ _ w eq_refl Hw) as (w' & Hw' & Hn). exists w'. by rewrite Hn.
Qed.

(** A step of a thread that stays where it was, before or after the logs are
    freed. *)
Lemma held_move s s' t p p' : held s -> threads s !! t = Some p -> threads s' = <[t := p']> (threads s) -> addr p' = addr p ->
  (before_free p = true -> before_free p' = true) -> log_free_ s' = log_free_ s -> server_ s' = server_ s ->
  (forall x w, heap s !! x = Some w -> exists w', heap s' !! x = Some w' /\ log_num w' = log_num w /\
    (state w = STATE_GROUP_LEADER -> state w' = STATE_GROUP_LEADER)) -> held s'.
Proof.
  intros Hs Ht Et Ha Hb Hf Hv Hh. apply (held_frame s); [done..| |].
  - intros hd at_ w _ Hw. destruct (Hh hd w Hw) as (w' & ? & ? & _). eauto.
  - intros t' k (q & w & Hq & Hbq & Hw & Hst & <-). destruct (Hh _ w Hw) as (w' & Hw' & Hn & Hst'). destruct (decide (t' = t)) as [->|Hne].
    + rewrite Ht in Hq. injection Hq as <-. exists p', w'. rewrite Et, lookup_insert_eq, Ha, Hn. split_and!; auto.
    + exists q, w'. rewrite Et, lookup_insert_ne, Hn by done. split_and!; auto.
Qed.

Lemma heap_same s (s' : LoggingServer W) : heap s' = heap s -> forall x w, heap s !! x = Some w -> exists w', heap s' !! x = Some w' /\ log_num w' = log_num w /\
  (state w = STATE_GROUP_LEADER -> state w' = STATE_GROUP_LEADER).
Proof. intros -> x w Hw. by exists w. Qed.

Lemma heap_insert s (s' : LoggingServer W) a w' : heap s' = <[a := w']> (heap s) -> (forall w, heap s !! a = Some w -> log_num w' = log_num w /\
    (state w = STATE_GROUP_LEADER -> state w' = STATE_GROUP_LEADER)) ->
  forall x w, heap s !! x = Some w -> exists w', heap s' !! x = Some w' /\ log_num w' = log_num w /\ (state w = STATE_GROUP_LEADER -> state w' = STATE_GROUP_LEADER).
Proof.
  intros -> Ha x w Hw. destruct (decide (x = a)) as [->|]; [exists w'; rewrite lookup_insert_eq; split; [done|by apply Ha]|].
  exists w. by rewrite lookup_insert_ne.
Qed.

(** [SetState] on a [Writer] that waits. *)
Lemma held_woken past s g x q wx v : GInv past s g -> held s -> roles g !! x = Some (Wait q) -> heap s !! x = Some wx ->
  held (woken x (store x (with_state v wx) s)).
Proof.
  intros I Hs Hx Hw. destruct (waiting _ _ _ _ _ _ _ I Hx) as (t & p & w & _ & _ & Hw' & _ & Hst & _). rewrite Hw in Hw'. injection Hw' as <-.
  apply (held_frame s); [done..| |].
  - intros hd at_ w _ Hhd. cbn. destruct (decide (hd = x)) as [->|]; [|rewrite lookup_insert_ne by done; by exists w].
    rewrite lookup_insert_eq. rewrite Hw in Hhd. injection Hhd as <-. by eexists.
  - intros t' k (p' & w & Hp & Hb & Hw' & Hlead & Hk).
    assert (Hne : addr p' <> x).
    { intros He. rewrite He, Hw in Hw'. injection Hw' as <-. by destruct Hst as [[Hst _]|[Hst _]]; rewrite Hst in Hlead. }
    exists p', w. cbn. rewrite lookup_fmap, Hp. cbn. rewrite wake_other, lookup_insert_ne by done. split_and!; auto.
Qed.

Lemma held_set_state past s g x q at_ new again done e s' : GInv past s g -> held s -> roles g !! x = Some (Wait q) -> 
  (forall at_, held (again at_ s)) ->
  (forall wx, heap s !! x = Some wx -> held (woken x (store x (with_state new wx) s)) -> held (done (woken x (store x (with_state new wx) s)))) ->
  set_ok (heap s) x at_ -> SetState x new at_ again done s = Step e s' -> held s'.
Proof.
  intros I Hs Hx Hagain Hdone Hset. destruct (waiting _ _ _ _ _ _ _ I Hx) as (t & p & w & Ht & Ha & Hw & _ & Hst & _).
  assert (Hw' := held_woken past s g x q w new I Hs Hx Hw). unfold SetState, access, check. rewrite Hw.
  destruct at_ as [|st|]; cbn in Hset.
  - destruct (negb _); [|done]. intros [= _ <-]. apply Hagain.
  - subst st. destruct (Z.eqb_spec (state w) STATE_INIT) as [He|He].
    + intros [= _ <-]. rewrite <- (woken_id x (store x (with_state new w) s)); [by apply Hdone|]. intros t' Ht'.
      assert (t' = t) as -> by (eapply (gi_addr _ _ _ _ _ I); [exact Ht'|exact Ht|done]). change (threads s !! t = Some (T_sleep x)) in Ht'.
      destruct Hst as [[_ Hp]|[Hst _]]; [congruence|by rewrite Hst in He].
    + destruct (_ =? _); [|done]. intros [= _ <-]. apply Hagain.
  - destruct (made_waitable w); [|done]. destruct (negb _); [|done]. intros [= _ <-]. by apply Hdone.
Qed.

(** ** The steps of a thread *)
Lemma held_returns past s g t p e s' : GInv past s g -> held s -> threads s !! t = Some p ->
  (forall w, heap s !! addr p = Some w -> before_free p = true -> state w <> STATE_GROUP_LEADER) ->
  (exists r, roles g !! addr p = Some r /\ forall q, r <> Wait q) -> returns t (addr p) s = Step e s' -> held s'.
Proof.
  intros I Hs Ht Hq (r & Hr & Hnw) Hret. unfold returns, access in Hret. destruct (heap s !! addr p) as [w|] eqn:Hw; [|done]. injection Hret as _ <-.
  apply (held_frame s); [done..| |].
  - intros hd at_ wh Hv Hhd. exists wh. cbn -[delete]. rewrite lookup_delete_ne; [done|]. intros <-.
    assert (Hsv := gi_server _ _ _ _ _ I). unfold server_ok in Hsv. rewrite Hv in Hsv. destruct Hsv as (Hl & _).
    apply (private_cell _ _ _ _ _ _ _ I Hr Hnw Srv). destruct (lists g Srv) as [|y l]; [done|]. destruct Hl as [[= ->] _]. by left.
  - intros t' k (p' & w' & Hp & Hb & Hw' & Hst & Hk).
    assert (Hne : addr p' <> addr p).
    { intros He. assert (t' = t) as -> by (eapply (gi_addr _ _ _ _ _ I); [exact Hp|exact Ht|done]). rewrite Ht in Hp. injection Hp as <-.
      rewrite Hw in Hw'. exact (Hq w' Hw' Hb Hst). }
    exists p', w'. cbn -[delete]. rewrite !lookup_delete_ne; [done|congruence|intros ->; congruence].
Qed.

Lemma held_free s t a e s' : held s -> threads s !! t = Some (T_free a) -> finish_free t a s = Step e s' -> 
  (forall k, server_holds s k -> forall w, heap s !! a = Some w -> k <> Z.to_nat (log_num w)) -> held s'.
Proof.
  intros Hs Ht Hf Hsv. unfold finish_free, access in Hf. destruct (heap s !! a) as [w|] eqn:Hw; [|done]. injection Hf as _ <-.
  intros k Hk. cbn in Hk. destruct (decide (k = Z.to_nat (log_num w))) as [->|Hne].
  - assert (Hlt := lookup_lt_Some _ _ _ Hk). rewrite length_insert in Hlt. rewrite list_lookup_insert_eq in Hk by done. done.
  - rewrite list_lookup_insert_ne in Hk by done. destruct (Hs k Hk) as [?|(t' & p & w' & Hp & Hb & Hw' & Hst & Hk')]; [by left|right].
    exists t', p, w'. cbn. rewrite lookup_insert_ne; [done|]. intros <-. rewrite Ht in Hp. injection Hp as <-. cbn in Hw'. congruence.
Qed.

Lemma server_owner past s g k : GInv past s g -> server_holds s k -> owner g !! k = Some H_server.
Proof.
  intros I Hk. assert (Hs := gi_server _ _ _ _ _ I). unfold server_ok in Hs. unfold server_holds in Hk. destruct (server_ s); try done; subst; try apply Hs.
  destruct Hs as (_ & _ & w & Hw & _ & Ho), Hk as (w' & Hw' & <-). rewrite Hw in Hw'. by injection Hw' as <-.
Qed.

Ltac moves Hs Ht := eapply held_move; [exact Hs | exact Ht | reflexivity | reflexivity | done | reflexivity | reflexivity |];
  first [apply heap_same; reflexivity | eapply heap_insert; [reflexivity | intros; cbn]].

Lemma held_thread past s g t choice e s' : GInv past s g -> held s -> thread_step t choice s = Step e s' -> held s'.
Proof.
  intros I Hs. unfold thread_step. destruct (threads s !! t) as [p|] eqn:Ht; [|done].
  destruct (owner_cell _ _ _ _ _ _ _ I Ht) as (w & r & Hw & Hr & Hst & Hcell).
  destruct p as [| | | | | | | |a|a| | |a [b|]| | |a|a [h|]|a h tmp at_]; cbn [addr] in *;
    unfold AddToLink, await_spin, await_yield, await_long, await_lockcas, await_check, MakeGroup, make_group_loop, WriteToLog, sync_log, finish_loop.
  all: try (unfold access, log_taken, check; intros Hstep; repeat case_match; simplify_eq; moves Hs Ht; naive_solver).
  - destruct Hst as [-> _]. unfold access, check. rewrite Hw. destruct (Z.eqb_spec (state w) STATE_INIT) as [He|He].
    + intros [= _ <-]. moves Hs Ht. split; [congruence|]. intros Hl. simplify_eq. by rewrite He in Hl.
    + destruct (at_goal _); [|done]. intros [= _ <-]. moves Hs Ht.
  - unfold access. rewrite Hw. destruct (Z.eqb_spec (state w) STATE_COMPLETED) as [He|He].
    + apply (held_returns past s g t (T_awake a)); [done..| |].
      * intros w' Hw' _ Hl. cbn in Hw'. rewrite Hw in Hw'. injection Hw' as <-. by rewrite He in Hl.
      * exists r. split; [done|]. intros q ->. by destruct Hst as [[[=] _]|[[=] _]].
    + intros [= _ <-]. moves Hs Ht.
  - intros Hf. apply (held_free s t a e); [done..|]. intros k Hk w' Hw' ->. rewrite Hw in Hw'. injection Hw' as <-.
    destruct Hst as [-> _]. destruct Hcell as ([_ Ho] & _). rewrite (server_owner _ _ _ _ I Hk) in Ho. done.
  - apply (held_returns past s g t (T_older a None)); [done..|]. destruct Hst as [-> _]. by exists Lead.
  - destruct Hst as [-> _]. destruct Hcell as (_ & l & Hl & _ & Hset).
    assert (Hh : roles g !! h = Some (Wait (Grp a))) by (apply (gi_lists _ _ _ _ _ I); cbn in Hl; rewrite Hl; by left).
    apply (held_set_state past s g h (Grp a)); [done..| | |done].
    + intros at'. moves Hs Ht.
    + intros wx Hwx Hs'. assert (Hth : threads (woken h (store h (with_state STATE_COMPLETED wx) s)) !! t = Some (T_set a h tmp at_)) by (cbn; by rewrite lookup_fmap, Ht).
      eapply held_move; [exact Hs' | exact Hth | reflexivity | done | done | reflexivity | reflexivity |]. by apply heap_same.
Qed.

(** ** The steps of the server *)
Lemma held_server_move s s' : held s -> threads s' = threads s -> heap s' = heap s -> log_free_ s' = log_free_ s ->
  (forall k, server_holds s k -> server_holds s' k) -> held s'.
Proof.
  intros Hs Et Eh Ef Hv k Hk. rewrite Ef in Hk. destruct (Hs k Hk) as [?|[t Ht]]; [left; by apply Hv|right].
  exists t. unfold leads in *. by rewrite Et, Eh.
Qed.

Lemma waiting_before past s g x q t p : GInv past s g -> roles g !! x = Some (Wait q) -> threads s !! t = Some p -> addr p = x -> before_free p = true.
Proof.
  intros I Hx Ht <-. destruct (owner_cell _ _ _ _ _ _ _ I Ht) as (w & r & _ & Hr & Hst & _). rewrite Hx in Hr. injection Hr as <-.
  destruct p; try done; by destruct Hst as [[=] _].
Qed.

(** The leader gets the log from the server. *)
Lemma held_promote past s g hd at_ w : GInv past s g -> held s -> server_ s = V_set hd at_ -> roles g !! hd = Some (Wait Srv) -> heap s !! hd = Some w ->
  held (set_server V_stop (woken hd (store hd (with_state STATE_GROUP_LEADER w) s))).
Proof.
  intros I Hs Hv Hhd Hw. destruct (waiting _ _ _ _ _ _ _ I Hhd) as (t & p & w' & Ht & Ha & Hw' & _ & Hst & _). rewrite Hw in Hw'. injection Hw' as <-.
  intros k Hk. right. destruct (Hs k Hk) as [Hsv|(t' & p' & w' & Hp & Hb & Hw' & Hlead & Hk')].
  - unfold server_holds in Hsv. rewrite Hv in Hsv. destruct Hsv as (w' & Hw' & <-). rewrite Hw in Hw'. injection Hw' as <-.
    exists t, (wake hd p), (with_state STATE_GROUP_LEADER w). cbn. rewrite lookup_fmap, Ht, wake_addr, Ha, lookup_insert_eq. split_and!; try done.
    assert (Hb := waiting_before past s g hd Srv t p I Hhd Ht Ha). destruct p; try done. cbn. by destruct (decide _).
  - assert (Hne : addr p' <> hd).
    { intros He. rewrite He, Hw in Hw'. injection Hw' as <-. by destruct Hst as [[Hst _]|[Hst _]]; rewrite Hst in Hlead. }
    exists t', p', w'. cbn. rewrite lookup_fmap, Hp. cbn. rewrite wake_other, lookup_insert_ne by done. done.
Qed.

Lemma server_cell past s g hd at_ : GInv past s g -> server_ s = V_set hd at_ \/ (exists k, server_ s = V_log k hd) ->
  roles g !! hd = Some (Wait Srv).
Proof.
  intros I Hv. apply (gi_lists _ _ _ _ _ I). assert (Hs := gi_server _ _ _ _ _ I). unfold server_ok in Hs.
  assert (Hl : linked (heap s) (Some hd) (lists g Srv)) by (destruct Hv as [Hv|[k Hv]]; rewrite Hv in Hs; apply Hs).
  destruct (lists g Srv) as [|y l]; [done|]. destruct Hl as [[= ->] _]. by left.
Qed.

Lemma held_log past s g k hd e s' : GInv past s g -> held s -> server_ s = V_log k hd -> server_step true s = Step e s' -> held s'.
Proof.
  intros I Hs Hv. assert (Hhd := server_cell past s g hd S_load I (or_intror (ex_intro _ k Hv))).
  destruct (waiting _ _ _ _ _ _ _ I Hhd) as (t & p & w & _ & _ & Hw & _ & Hst & _).
  unfold server_step, access. rewrite Hv, Hw. intros [= _ <-] j Hj. destruct (Hs j Hj) as [Hsv|(t' & p' & w' & Hp & Hb & Hw' & Hlead & Hk')].
  - left. unfold server_holds in Hsv. rewrite Hv in Hsv. subst j. exists (with_log_num (Z.of_nat k) w). cbn. rewrite lookup_insert_eq. split; [done|]. lia.
  - right. exists t', p', w'. cbn. rewrite lookup_insert_ne; [done|]. intros ->. rewrite Hw in Hw'. injection Hw' as <-.
    by destruct Hst as [[Hst _]|[Hst _]]; rewrite Hst in Hlead.
Qed.

Lemma held_server past s g choice e s' : GInv past s g -> held s -> server_step choice s = Step e s' -> held s'.
Proof.
  intros I Hs Hstep. assert (Hmove : forall v, (forall k, server_holds s k -> server_holds (set_server v s) k) -> held (set_server v s)).
  { intros v Hv. by apply (held_server_move s). }
  destruct (server_ s) as [|i|i|k|k hd|hd at_|k| |] eqn:Hv; [..|by unfold server_step in Hstep; rewrite Hv in Hstep].
  5: { eapply held_log; [exact I|exact Hs|exact Hv|]. unfold server_step in Hstep |- *. by rewrite Hv in Hstep |- *. }
  all: unfold server_step in Hstep; rewrite Hv in Hstep.
  - injection Hstep as _ <-. apply Hmove. intros k. unfold server_holds at 1. by rewrite Hv.
  - assert (Hno : forall k, ~ server_holds s k) by (intros k Hk; unfold server_holds in Hk; by rewrite Hv in Hk).
    destruct (log_free_ s !! i) as [b|] eqn:Hi; [destruct (negb b && choice)|]; injection Hstep as _ <-; [|(apply Hmove; by intros k ?%Hno)..].
    intros k Hk. cbn in Hk. destruct (decide (k = i)) as [->|Hne]; [by left|]. rewrite list_lookup_insert_ne in Hk by done.
    destruct (Hs k Hk) as [?%Hno|[t Ht]]; [done|right; by exists t].
  - unfold log_taken, check in Hstep. repeat case_match; simplify_eq. apply Hmove. intros k. unfold server_holds. by rewrite Hv.
  - injection Hstep as _ <-. apply (held_server_move s); [done..|]. intros j. unfold server_holds. rewrite Hv. cbn. by destruct (newest_writer_ s).
  - assert (Hhd := server_cell past s g hd at_ I (or_introl Hv)). assert (Hok := gi_server _ _ _ _ _ I). unfold server_ok in Hok. rewrite Hv in Hok.
    eapply (held_set_state past s g hd Srv); [exact I | exact Hs | exact Hhd | | | apply Hok | exact Hstep].
    + intros at'. apply Hmove. intros k. unfold server_holds. by rewrite Hv.
    + intros wx Hwx _. by eapply held_promote.
  - injection Hstep as _ <-. intros j Hj. cbn in Hj. destruct (decide (j = k)) as [->|Hne].
    + assert (Hlt := lookup_lt_Some _ _ _ Hj). rewrite length_insert in Hlt. rewrite list_lookup_insert_eq in Hj by done. done.
    + rewrite list_lookup_insert_ne in Hj by done. destruct (Hs j Hj) as [Hj'|[t Ht]]; [|right; by exists t].
      unfold server_holds in Hj'. rewrite Hv in Hj'. congruence.
  - injection Hstep as _ <-. apply Hmove. intros k. unfold server_holds at 1. by rewrite Hv.
Qed.

Lemma held_step past s g x e s' : GInv past s g -> held s -> step x s = Step e s' -> held s'.
Proof.
  intros I Hs. destruct x as [t a d|t choice|t|choice|]; cbn [step].
  - unfold AddLog_call. destruct (threads s !! t) eqn:Ht; [done|]. destruct (heap s !! a) eqn:Ha; [done|]. intros [= _ <-].
    apply (held_frame s); [done..| |].
    + intros hd at_ w _ Hw. exists w. cbn. rewrite lookup_insert_ne by congruence. done.
    + intros t' k (p & w & Hp & Hb & Hw & Hk). exists p, w. cbn. rewrite !lookup_insert_ne by congruence. done.
  - by eapply held_thread.
  - destruct (threads s !! t) as [p|] eqn:Ht; [|done]. destruct p; try done. intros [= _ <-]. moves Hs Ht.
  - by eapply held_server.
  - intros [= _ <-]. by apply (held_server_move s).
Qed.
End held.
