(* ===== verification/GroupCommitLive.v ===== *)
(** * The group commit: every call can return

    As long as the server is not stopped, no call is stuck: from every state
    some schedule of the threads and the server, without new calls, lets all
    calls return.  No log leaks ([held]), no wakeup is lost, and a leader
    needs nobody to finish. *)

From S2P Require Import Prelude Machine LogFormat LogWriter GroupCommit GroupCommitInv GroupCommitSteps GroupCommitSet GroupCommitEvents.
From S2P Require Import GroupCommitWrite GroupCommitSpec GroupCommitHeld.
Local Open Scope Z_scope.

(** The actions of the schedule: nobody calls. *)
Definition quiet (x : action) : Prop := match x with Thread _ _ | Server _ => True | _ => False end.
Definition quiet_step {W} `{AbstractLogWriter W} (x : action) (s : LoggingServer W) : outcome event (LoggingServer W) :=
  match x with Thread _ _ | Server _ => step x s | _ => Disabled end.

Section live.
Context {W : Type} `{LogWriterLaws W}.
Context (T : nat) (B : Z) (HB : 0 <= B) (Hfit : Z.of_nat T * B < MAX_BUFFER_SIZE).
Implicit Types (s : LoggingServer W).
Notation GInv := (GInv T B).
Notation can_reach := (can_reach (S := LoggingServer W) quiet_step).

Record Live s : Prop := {
  live_inv : exists past g, GInv past s g;
  live_held : held s;
  live_stop : stop_ s = false;
  live_server : server_ s <> V_done;
  live_logs : log_free_ s <> []
}.

Lemma quiet_frame x s e s' : quiet x -> step x s = Step e s' -> stop_ s' = stop_ s /\ length (log_free_ s') = length (log_free_ s) /\
  (server_ s' = V_done -> server_ s = V_done \/ stop_ s = true).
Proof.
  destruct x as [|t choice| |choice|]; try done; intros _; cbn [step]; [unfold thread_step | unfold server_step].
  - destruct (threads s !! t) as [p|]; [|done].
    destruct p as [| | | | | | | | | | | |a [b|]| | | |a [h|]|a h tmp at_]; unfold AddToLink, await_spin, await_yield, await_long, await_lockcas, await_check, MakeGroup,
      make_group_loop, WriteToLog, sync_log, finish_free, finish_loop, SetState, returns, access, log_taken, check; intros Hs; repeat case_match; simplify_eq; cbn;
      rewrite ?length_insert; split_and!; try done; auto.
  - destruct (server_ s) eqn:Hv; unfold SetState, access, log_taken, check; intros Hs; repeat case_match; simplify_eq; cbn; rewrite ?length_insert; split_and!; try done; auto.
Qed.

Lemma live_step s x e s' : Live s -> quiet x -> step x s = Step e s' -> Live s'.
Proof.
  intros [(past & g & I) Hh Hst Hv Hl] Hq Hs. assert (Hf : fits T B x) by (by destruct x).
  assert (Hp := group_commit_preserves T B HB Hfit x past s Hf (ex_intro _ g I)). rewrite Hs in Hp.
  destruct (quiet_frame x s e s' Hq Hs) as (H1 & H2 & H3). split.
  - by eexists.
  - by eapply held_step.
  - congruence.
  - intros Hd. destruct (H3 Hd); congruence.
  - intros Hn. rewrite Hn in H2. by destruct (log_free_ s).
Qed.

Lemma go (Q : LoggingServer W -> Prop) s x e s' : Live s -> quiet x -> step x s = Step e s' -> (Live s' -> can_reach Q s') -> can_reach Q s.
Proof. intros HL Hq Hs Hk. eapply (can_reach_step _ _ x); [by destruct x; try done; exact Hs|]. apply Hk. by eapply live_step. Qed.

(** What a thread does next, when it is not asleep. *)
Lemma thread_goes (Q : LoggingServer W -> Prop) s t p choice : Live s -> threads s !! t = Some p -> (forall a, p <> T_sleep a) ->
  (forall e s', thread_step t choice s = Step e s' -> Live s' -> can_reach Q s') -> can_reach Q s.
Proof.
  intros HL Ht Hp Hk. destruct (live_inv _ HL) as (past & g & I). assert (Hok := thread_ok T B HB Hfit past s g t choice I).
  destruct (thread_step t choice s) as [|e|e s'] eqn:Hs; [|done|].
  - exfalso. unfold thread_step in Hs. rewrite Ht in Hs.
    destruct p as [| | | | | | |a| | | | |a [b|]| | | |a [h|]|a h tmp at_]; unfold AddToLink, await_spin, await_yield, await_long, await_lockcas, await_check, MakeGroup,
      make_group_loop, WriteToLog, sync_log, finish_free, finish_loop, SetState, returns, access, log_taken, check in Hs; repeat case_match; try done. by apply (Hp a).
  - eapply (go Q s (Thread t choice)); [done|done|exact Hs|]. by eapply Hk.
Qed.

Lemma size_insert_some (h : gmap nat Writer) x w w' : h !! x = Some w -> size (<[x := w']> h) = size h.
Proof. intros Hx. rewrite map_size_insert, Hx. done. Qed.

Definition fewer (n : nat) s : Prop := Live s /\ (size (heap s) < n)%nat.

Lemma returns_fewer s t a e s' : Live s' -> returns t a s = Step e s' -> can_reach (fewer (size (heap s))) s'.
Proof.
  intros HL Hr. apply can_reach_here. split; [done|]. unfold returns, access in Hr. destruct (heap s !! a) as [w|] eqn:Hw; [|done].
  injection Hr as _ <-. cbn -[delete]. rewrite map_size_delete_Some by (by eexists).
  assert (Hne : size (heap s) <> 0%nat) by (intros He%map_size_empty_inv; rewrite He in Hw; done). lia.
Qed.

(** ** A leader finishes alone *)
Lemma linked_insert (h : gmap nat Writer) x w w' p l : h !! x = Some w -> link_older w' = link_older w -> linked h p l -> linked (<[x := w']> h) p l.
Proof.
  intros Hx He. apply linked_same. intros y wy _ Hy. destruct (decide (y = x)) as [->|]; [|exists wy; by rewrite lookup_insert_ne].
  exists w'. rewrite lookup_insert_eq. split; [done|congruence].
Qed.

Notation reach n s := (can_reach (fewer n) s).
(** The thread [t] is at [p] and can finish from there. *)
Definition finishes (n t : nat) (p : thread_at) (l : list nat) (cur : option nat) : Prop :=
  forall s, Live s -> size (heap s) = n -> threads s !! t = Some p -> linked (heap s) cur l -> reach n s.

Ltac step_of Ht Hs := let e := fresh "e" in let s' := fresh "s'" in
  intros e s' Hs; unfold thread_step in Hs; rewrite Ht in Hs.

Lemma lock_finishes n t a x tmp l : finishes n t (T_older a tmp) l tmp -> finishes n t (T_set a x tmp S_lock) l tmp.
Proof.
  intros IH s HL Hn Ht Hl. apply (thread_goes _ s t _ true HL Ht); [done|]. step_of Ht Hs. unfold SetState, access, check in Hs.
  destruct (heap s !! x) as [wx|] eqn:Hx; [|done]. destruct (made_waitable wx); [|done]. destruct (negb _); [|done]. injection Hs as _ <-. intros HL'.
  apply IH; [done|..].
  - cbn. by rewrite (size_insert_some _ x wx).
  - cbn. by rewrite lookup_insert_eq.
  - cbn. by eapply linked_insert.
Qed.

Lemma cas_finishes n t a x tmp l st : finishes n t (T_older a tmp) l tmp -> finishes n t (T_set a x tmp (S_cas st)) l tmp.
Proof.
  intros IH s HL Hn Ht Hl. apply (thread_goes _ s t _ true HL Ht); [done|]. step_of Ht Hs. unfold SetState, access, check in Hs.
  destruct (heap s !! x) as [wx|] eqn:Hx; [|done]. destruct (_ =? st).
  - injection Hs as _ <-. intros HL'. apply IH; [done|..].
    + cbn. by rewrite (size_insert_some _ x wx).
    + cbn. by rewrite lookup_insert_eq.
    + cbn. by eapply linked_insert.
  - destruct (_ =? STATE_LOCKED_WAITING); [|done]. injection Hs as _ <-. intros HL'.
    apply (lock_finishes n t a x tmp l IH); [done | done | by apply lookup_insert_eq | done].
Qed.

Lemma set_finishes n t a x tmp l at_ : finishes n t (T_older a tmp) l tmp -> finishes n t (T_set a x tmp at_) l tmp.
Proof.
  intros IH. destruct at_; [|by apply cas_finishes|by apply lock_finishes]. intros s HL Hn Ht Hl. apply (thread_goes _ s t _ true HL Ht); [done|].
  step_of Ht Hs. unfold SetState, access, check in Hs. destruct (heap s !! x) as [wx|] eqn:Hx; [|done]. destruct (negb _); [|done].
  injection Hs as _ <-. intros HL'. destruct (_ =? _); [apply (lock_finishes n t a x tmp l IH) | apply (cas_finishes n t a x tmp l (state wx) IH)]; try done; by apply lookup_insert_eq.
Qed.

Lemma older_finishes n t a l cur : finishes n t (T_older a cur) l cur.
Proof.
  revert cur. induction l as [|x l IH]; intros cur s HL Hn Ht Hl; apply (thread_goes _ s t _ true HL Ht); try done; step_of Ht Hs; cbn in Hl.
  - subst cur. intros HL'. rewrite <- Hn. by eapply returns_fewer.
  - destruct Hl as [-> (wx & Hx & Hl)]. unfold finish_loop, access in Hs. rewrite Hx in Hs. injection Hs as _ <-. intros HL'.
    apply (set_finishes n t a x (link_older wx) l S_load (IH _)); [done | done | by apply lookup_insert_eq | done].
Qed.

(** What [GInv] knows of a leader. *)
Lemma live_cell s t p : Live s -> threads s !! t = Some p -> exists past g w r,
  GInv past s g /\ heap s !! addr p = Some w /\ roles g !! addr p = Some r /\ cell_ok B past s g (addr p) w r p.
Proof.
  intros HL Ht. destruct (live_inv _ HL) as (past & g & I). destruct (owner_cell _ _ _ _ _ _ _ I Ht) as (w & r & ? & ? & ?). exists past, g, w, r. auto.
Qed.

Lemma free_finishes n s t a : Live s -> size (heap s) = n -> threads s !! t = Some (T_free a) -> reach n s.
Proof.
  intros HL Hn Ht. destruct (live_cell s t _ HL Ht) as (past & g & w & r & I & Hw & _ & [-> _] & (_ & Hl & _)). cbn [addr] in *.
  apply (thread_goes _ s t _ true HL Ht); [done|]. step_of Ht Hs. unfold finish_free, access in Hs. rewrite Hw in Hs. injection Hs as _ <-. intros HL'.
  eapply older_finishes; [done | done | by apply lookup_insert_eq | exact Hl].
Qed.

Lemma finish_finishes n s t a : Live s -> size (heap s) = n -> threads s !! t = Some (T_finish a) -> reach n s.
Proof.
  intros HL Hn Ht. apply (thread_goes _ s t _ true HL Ht); [done|]. step_of Ht Hs. unfold access, log_taken, check in Hs. repeat case_match; try done.
  injection Hs as _ <-. intros HL'. eapply free_finishes; [done|done|]. by apply lookup_insert_eq.
Qed.

Lemma sync_finishes n s t a : Live s -> size (heap s) = n -> threads s !! t = Some (T_sync a) -> reach n s.
Proof.
  intros HL Hn Ht. apply (thread_goes _ s t _ true HL Ht); [done|]. step_of Ht Hs. unfold sync_log, access in Hs. repeat case_match; try done.
  injection Hs as _ <-. intros HL'. eapply finish_finishes; [done|done|]. by apply lookup_insert_eq.
Qed.

Lemma write_finishes n t a l cur : finishes n t (T_write a cur) l cur.
Proof.
  revert cur. induction l as [|x l IH]; intros cur s HL Hn Ht Hl; apply (thread_goes _ s t _ true HL Ht); try done; step_of Ht Hs; cbn in Hl.
  - subst cur. cbn in Hs. injection Hs as _ <-. intros HL'. eapply sync_finishes; [done|done|]. by apply lookup_insert_eq.
  - destruct Hl as [-> (wx & Hx & Hl)]. unfold WriteToLog, access in Hs. rewrite Hx in Hs. repeat case_match; try done. injection Hs as _ <-. intros HL'.
    apply (IH (link_older wx)); [done | done | by apply lookup_insert_eq | done].
Qed.

Lemma write_start n s t a cur : Live s -> size (heap s) = n -> threads s !! t = Some (T_write a cur) -> reach n s.
Proof.
  intros HL Hn Ht. destruct (live_cell s t _ HL Ht) as (past & g & w & r & I & Hw & _ & [-> _] & (_ & _ & l1 & l2 & _ & Hl & _)).
  by eapply write_finishes.
Qed.

Lemma group_finishes n t a l cur last sz : finishes n t (T_group a cur last sz) l cur.
Proof.
  revert cur last sz. induction l as [|x l IH]; intros cur last sz s HL Hn Ht Hl; apply (thread_goes _ s t _ true HL Ht); try done; step_of Ht Hs; cbn in Hl.
  - subst cur. cbn in Hs. injection Hs as _ <-. intros HL'. eapply write_start; [done|done|]. by apply lookup_insert_eq.
  - destruct Hl as [-> (wx & Hx & Hl)]. unfold make_group_loop, access in Hs. destruct (decide (x = a)).
    + injection Hs as _ <-. intros HL'. eapply write_start; [done|done|]. by apply lookup_insert_eq.
    + rewrite Hx in Hs. injection Hs as _ <-. intros HL'.
      apply (IH (link_older wx) x (S sz)); [done | cbn; by rewrite (size_insert_some _ x wx) | by apply lookup_insert_eq | cbn; by eapply linked_insert].
Qed.

Lemma group_start n s t a cur last sz : Live s -> size (heap s) = n -> threads s !! t = Some (T_group a cur last sz) -> reach n s.
Proof.
  intros HL Hn Ht. destruct (live_cell s t _ HL Ht) as (past & g & w & r & I & Hw & _ & [-> _] & (_ & _ & _ & l1 & l2 & _ & Hl)).
  by eapply group_finishes.
Qed.

Lemma make_finishes n s t a : Live s -> size (heap s) = n -> threads s !! t = Some (T_make a) -> reach n s.
Proof.
  intros HL Hn Ht. apply (thread_goes _ s t _ true HL Ht); [done|]. step_of Ht Hs. unfold MakeGroup, access, log_taken, check in Hs.
  destruct (heap s !! a) as [w|] eqn:Hw; [|done]. repeat case_match; try done. injection Hs as _ <-. intros HL'.
  eapply group_start; [done | cbn; by rewrite (size_insert_some _ a w) | by apply lookup_insert_eq].
Qed.

Lemma lead_finishes n s t a : Live s -> size (heap s) = n -> threads s !! t = Some (T_lead a) -> reach n s.
Proof.
  intros HL Hn Ht. apply (thread_goes _ s t _ true HL Ht); [done|]. step_of Ht Hs. unfold access, check in Hs. repeat case_match; try done.
  injection Hs as _ <-. intros HL'. eapply make_finishes; [done | done | by apply lookup_insert_eq].
Qed.

Lemma awake_finishes n s t a : Live s -> size (heap s) = n -> threads s !! t = Some (T_awake a) -> reach n s.
Proof.
  intros HL Hn Ht. apply (thread_goes _ s t _ true HL Ht); [done|]. step_of Ht Hs. unfold access in Hs. destruct (heap s !! a) as [w|] eqn:Hw; [|done].
  destruct (_ =? _); [intros HL'; rewrite <- Hn; by eapply returns_fewer|].
  injection Hs as _ <-. intros HL'. eapply lead_finishes; [done | done | by apply lookup_insert_eq].
Qed.

(** The call whose [Writer] is completed, or leads, can return. *)
Lemma settled_finishes n s t p w : Live s -> size (heap s) = n -> threads s !! t = Some p -> heap s !! addr p = Some w -> at_goal (state w) = true -> reach n s.
Proof.
  intros HL Hn Ht Hw Hg. destruct (live_cell s t p HL Ht) as (past & g & w' & r & I & Hw' & Hr & Hst & Hc). rewrite Hw in Hw'. injection Hw' as <-.
  assert (Hni : state w <> STATE_INIT /\ state w <> STATE_LOCKED_WAITING) by (split; intros He; by rewrite He in Hg). destruct Hni as [Hni Hnl].
  destruct p; cbn [addr] in *; try (by destruct Hst as [_ Hst]).
  - apply (thread_goes _ s t _ true HL Ht); [done|]. step_of Ht Hs. unfold await_spin, access in Hs. rewrite Hw, Hg in Hs. injection Hs as _ <-. intros HL'.
    eapply awake_finishes; [done | done | by apply lookup_insert_eq].
  - apply (thread_goes _ s t _ true HL Ht); [done|]. step_of Ht Hs. unfold await_yield, access in Hs. rewrite Hw, Hg in Hs. injection Hs as _ <-. intros HL'.
    eapply awake_finishes; [done | done | by apply lookup_insert_eq].
  - apply (thread_goes _ s t _ true HL Ht); [done|]. step_of Ht Hs. unfold await_long, access, check in Hs. rewrite Hw, Hg in Hs. destruct (negb _); [|done].
    injection Hs as _ <-. intros HL'. eapply awake_finishes; [done | cbn; by rewrite (size_insert_some _ a w) | by apply lookup_insert_eq].
  - apply (thread_goes _ s t _ true HL Ht); [done|]. step_of Ht Hs. unfold await_lockcas, access, check in Hs. destruct Hst as (-> & _). rewrite Hw in Hs.
    rewrite (proj2 (Z.eqb_neq _ _) Hni), Hg in Hs. injection Hs as _ <-. intros HL'. eapply awake_finishes; [done | done | by apply lookup_insert_eq].
  - apply (thread_goes _ s t _ true HL Ht); [done|]. step_of Ht Hs. unfold await_check, access, check in Hs. rewrite Hw in Hs. destruct (made_waitable w); [|done].
    rewrite (proj2 (Z.eqb_neq _ _) Hnl), Hg in Hs. injection Hs as _ <-. intros HL'. eapply awake_finishes; [done | done | by apply lookup_insert_eq].
  - by destruct Hst as [_ [_ Hst]].
  - by eapply awake_finishes.
  - by eapply lead_finishes.
  - by eapply make_finishes.
  - by eapply group_start.
  - by eapply write_start.
  - by eapply sync_finishes.
  - by eapply finish_finishes.
  - by eapply free_finishes.
  - destruct Hst as [-> _]. destruct Hc as [Hl _]. by eapply older_finishes.
  - destruct Hst as [-> _]. destruct Hc as (_ & l & _ & Hl & _). eapply (set_finishes n t a head tmp l at_); [apply older_finishes|done..].
Qed.

(** ** The server finds a leader *)
Lemma cell_finishes n s x w : Live s -> size (heap s) = n -> heap s !! x = Some w -> at_goal (state w) = true -> reach n s.
Proof.
  intros HL Hn Hw Hg. destruct (live_inv _ HL) as (past & g & I). destruct (gi_cells _ _ _ _ _ I x w Hw) as (t & p & r & Ht & <- & _).
  by eapply settled_finishes.
Qed.

Lemma server_goes (Q : LoggingServer W -> Prop) s choice : Live s ->
  (forall e s', server_step choice s = Step e s' -> Live s' -> can_reach Q s') -> can_reach Q s.
Proof.
  intros HL Hk. destruct (live_inv _ HL) as (past & g & I). assert (Hok := server_ok_step T B past s g choice I).
  destruct (server_step choice s) as [|e|e s'] eqn:Hs; [|done|].
  - exfalso. unfold server_step in Hs. destruct (server_ s) eqn:Hv; unfold SetState, access, log_taken, check in Hs; repeat case_match; try done.
    by apply (live_server _ HL).
  - eapply (go Q s (Server choice)); [done|done|exact Hs|]. by eapply Hk.
Qed.

Ltac server_to Hv Hs := let e := fresh "e" in let s' := fresh "s'" in intros e s' Hs; unfold server_step in Hs; rewrite Hv in Hs.

Lemma server_lock_finishes n s hd : Live s -> size (heap s) = n -> server_ s = V_set hd S_lock -> reach n s.
Proof.
  intros HL Hn Hv. apply (server_goes _ s true HL). server_to Hv Hs. unfold SetState, access, check in Hs.
  destruct (heap s !! hd) as [w|] eqn:Hw; [|done]. repeat case_match; try done. injection Hs as _ <-. intros HL'.
  eapply (cell_finishes n _ hd); [done | cbn; by rewrite (size_insert_some _ hd w) | by apply lookup_insert_eq | done].
Qed.

Lemma server_cas_finishes n s hd st : Live s -> size (heap s) = n -> server_ s = V_set hd (S_cas st) -> reach n s.
Proof.
  intros HL Hn Hv. apply (server_goes _ s true HL). server_to Hv Hs. unfold SetState, access, check in Hs.
  destruct (heap s !! hd) as [w|] eqn:Hw; [|done]. destruct (_ =? st).
  - injection Hs as _ <-. intros HL'.
    eapply (cell_finishes n _ hd); [done | cbn; by rewrite (size_insert_some _ hd w) | by apply lookup_insert_eq | done].
  - repeat case_match; try done. injection Hs as _ <-. intros HL'. by eapply server_lock_finishes.
Qed.

Lemma server_set_finishes n s hd at_ : Live s -> size (heap s) = n -> server_ s = V_set hd at_ -> reach n s.
Proof.
  destruct at_; [|by apply server_cas_finishes|by apply server_lock_finishes].
  intros HL Hn Hv. apply (server_goes _ s true HL). server_to Hv Hs. unfold SetState, access, check in Hs. repeat case_match; try done;
    injection Hs as _ <-; intros HL'; [by eapply server_lock_finishes | by eapply server_cas_finishes].
Qed.

Lemma server_log_finishes n s k hd : Live s -> size (heap s) = n -> server_ s = V_log k hd -> reach n s.
Proof.
  intros HL Hn Hv. apply (server_goes _ s true HL). server_to Hv Hs. unfold access in Hs. destruct (heap s !! hd) as [w|] eqn:Hw; [|done].
  injection Hs as _ <-. intros HL'. eapply server_set_finishes; [done | cbn; by rewrite (size_insert_some _ hd w) | done].
Qed.

(** No call leads or is completed. *)
Definition calm s : Prop := map_Forall (fun _ w => at_goal (state w) = false) (heap s).

Lemma calm_free s i b : Live s -> calm s -> (forall k, ~ server_holds s k) -> log_free_ s !! i = Some b -> b = false.
Proof.
  intros HL Hc Hv Hi. destruct b; [|done]. destruct (live_held _ HL i Hi) as [?%Hv|(t & p & w & _ & _ & Hw & Hst & _)]; [done|].
  apply Hc in Hw. by rewrite Hst in Hw.
Qed.

(** From a place of the server, with calls in the list and none that leads. *)
Definition serves (n : nat) (v : server_at) : Prop :=
  forall s, Live s -> size (heap s) = n -> newest_writer_ s <> None -> calm s -> server_ s = v -> reach n s.

Lemma exchange_serves n k : serves n (V_exchange k).
Proof.
  intros s HL Hn Hne Hc Hv. apply (server_goes _ s true HL). server_to Hv Hs. destruct (newest_writer_ s) as [hd|]; [|done].
  injection Hs as _ <-. intros HL'. by eapply server_log_finishes.
Qed.

Lemma assert_serves n k : serves n (V_assert k).
Proof.
  intros s HL Hn Hne Hc Hv. apply (server_goes _ s true HL). server_to Hv Hs. unfold log_taken, check in Hs. repeat case_match; try done.
  injection Hs as _ <-. intros HL'. by eapply exchange_serves.
Qed.

Lemma first_serves n s i : Live s -> size (heap s) = n -> newest_writer_ s <> None -> calm s -> server_ s = V_leader i -> (i < length (log_free_ s))%nat ->
  reach n s.
Proof.
  intros HL Hn Hne Hc Hv Hi. apply (server_goes _ s true HL). server_to Hv Hs. destruct (lookup_lt_is_Some_2 _ _ Hi) as [b Hb]. rewrite Hb in Hs.
  assert (b = false) as ->. { eapply calm_free; [done..| |exact Hb]. intros k Hk. unfold server_holds in Hk. by rewrite Hv in Hk. }
  injection Hs as _ <-. intros HL'. by eapply (assert_serves n i).
Qed.

Lemma top_serves n : serves n V_top.
Proof.
  intros s HL Hn Hne Hc Hv. apply (server_goes _ s true HL). server_to Hv Hs. destruct (newest_writer_ s) as [hd|] eqn:Hnw; [|done].
  injection Hs as _ <-. intros HL'. apply (first_serves n _ 0 HL'); try done; [cbn; congruence|]. cbn. assert (Hl := live_logs _ HL). destruct (log_free_ s); [done|cbn; lia].
Qed.

Lemma stop_serves n : serves n V_stop.
Proof.
  intros s HL Hn Hne Hc Hv. apply (server_goes _ s true HL). server_to Hv Hs. rewrite (live_stop _ HL) in Hs.
  injection Hs as _ <-. intros HL'. by eapply (top_serves n).
Qed.

Lemma stack_finishes n s : Live s -> size (heap s) = n -> newest_writer_ s <> None -> reach n s.
Proof.
  intros HL Hn Hne. destruct (decide (calm s)) as [Hc|Hc].
  2: { apply map_not_Forall in Hc as (x & w & Hw & Hg); [|intros; apply _]. apply not_false_iff_true in Hg. by eapply cell_finishes. }
  destruct (server_ s) as [|i|k|k|k hd|hd at_|k| |] eqn:Hv.
  - by eapply top_serves.
  - destruct (decide (i < length (log_free_ s))%nat) as [Hi|Hi]; [by eapply first_serves|].
    apply (server_goes _ s true HL). server_to Hv Hs. rewrite lookup_ge_None_2 in Hs by lia. injection Hs as _ <-. intros HL'. by eapply (stop_serves n).
  - by eapply assert_serves.
  - by eapply exchange_serves.
  - by eapply server_log_finishes.
  - by eapply server_set_finishes.
  - apply (server_goes _ s true HL). server_to Hv Hs. injection Hs as _ <-. intros HL'. by eapply (stop_serves n).
  - by eapply stop_serves.
  - by destruct (live_server _ HL).
Qed.

(** ** A call gets into the list *)
Lemma cas_links n s t a : Live s -> size (heap s) = n -> threads s !! t = Some (T_cas a (newest_writer_ s)) -> reach n s.
Proof.
  intros HL Hn Ht. apply (thread_goes _ s t _ true HL Ht); [done|]. step_of Ht Hs. unfold AddToLink, access in Hs. destruct (heap s !! a) as [w|] eqn:Hw; [|done].
  rewrite decide_True in Hs by done. injection Hs as _ <-. intros HL'. apply stack_finishes; [done | cbn; by rewrite (size_insert_some _ a w) | done].
Qed.

Lemma call_links n s t p : Live s -> size (heap s) = n -> threads s !! t = Some p -> (exists a, p = T_link a \/ exists writers, p = T_cas a writers) -> reach n s.
Proof.
  intros HL Hn Ht (a & [->|[writers ->]]); (apply (thread_goes _ s t _ false HL Ht); [done|]); step_of Ht Hs; unfold AddToLink, access, check in Hs;
    (destruct (heap s !! a) as [w|] eqn:Hw; [|done]).
  - destruct (_ =? _); [|done]. injection Hs as _ <-. intros HL'. apply (cas_links n _ t a HL'); [done|]. by apply lookup_insert_eq.
  - destruct (decide _) as [He|He]; injection Hs as _ <-; intros HL'; (apply (cas_links n _ t a HL'); [cbn; by rewrite (size_insert_some _ a w)|]); cbn.
    + rewrite lookup_insert_eq. cbn in He. by rewrite He.
    + by rewrite lookup_insert_eq.
Qed.

Lemma some_call_returns s : Live s -> heap s <> ∅ -> reach (size (heap s)) s.
Proof.
  intros HL Hne. apply map_choose in Hne as (x & w & Hw). destruct (at_goal (state w)) eqn:Hg; [by eapply cell_finishes|].
  destruct (live_inv _ HL) as (past & g & I). destruct (gi_cells _ _ _ _ _ I x w Hw) as (t & p & r & Ht & Ha & Hr & Hst & _).
  destruct r as [|[| |a]| |].
  - eapply call_links; [done | done | exact Ht |]. destruct p; cbn in Hst; unfold waits, settled in Hst; naive_solver.
  - assert (Hl := gi_stack _ _ _ _ _ I). apply (gi_lists _ _ _ _ _ I) in Hr. destruct (lists g Stk) as [|y l]; [by apply elem_of_nil in Hr|].
    destruct Hl as [Hn _]. apply stack_finishes; [done|done|]. by rewrite Hn.
  - assert (Hl := gi_server _ _ _ _ _ I). unfold server_ok in Hl. apply (gi_lists _ _ _ _ _ I) in Hr.
    assert (Hnil : lists g Srv <> []) by (intros He; rewrite He in Hr; by apply elem_of_nil in Hr).
    destruct (server_ s) as [| | | |k hd|hd at_| | |] eqn:Hv; try done; try (by destruct Hl).
    + by eapply server_log_finishes.
    + by eapply server_set_finishes.
  - assert (Hlead : roles g !! a = Some Lead).
    { destruct (decide (roles g !! a = Some Lead)) as [|Hn]; [done|]. apply (gi_group _ _ _ _ _ I) in Hn. apply (gi_lists _ _ _ _ _ I) in Hr.
      rewrite Hn in Hr. by apply elem_of_nil in Hr. }
    destruct (gi_roles _ _ _ _ _ I a _ Hlead) as [wa Hwa]. eapply (cell_finishes _ s a wa); [done..|].
    destruct (gi_cells _ _ _ _ _ I a wa Hwa) as (ta & pa & ra & _ & _ & Hra & Hsta & _). rewrite Hlead in Hra. injection Hra as <-.
    assert (Hs : state wa = STATE_GROUP_LEADER) by (destruct pa; cbn in Hsta; unfold waits, settled in Hsta; naive_solver). by rewrite Hs.
  - assert (Hs : state w = STATE_GROUP_LEADER) by (destruct p; cbn in Hst; unfold waits, settled in Hst; naive_solver). by rewrite Hs in Hg.
  - assert (Hs : state w = STATE_COMPLETED) by (destruct p; cbn in Hst; unfold waits, settled in Hst; naive_solver). by rewrite Hs in Hg.
Qed.
End live.

(** ** All calls return *)
Section theorem.
Context {W : Type} `{LogWriterLaws W}.
Context (T : nat) (B : Z) (HB : 0 <= B) (Hfit : Z.of_nat T * B < MAX_BUFFER_SIZE).

Definition runs_on (x : action) : Prop := fits T B x /\ x <> Stop.

Lemma live_new (logs : list W) l s e : fresh_logs logs -> logs <> [] -> Forall runs_on l -> run step l (new_LoggingServer logs) = Step e s -> Live T B s.
Proof.
  intros Hlogs Hne Hl Hrun.
  assert (Hp : preserves_on step runs_on (fun past (s : LoggingServer W) => (exists g, GInv T B past s g) /\ Live T B s)).
  { intros x past s0 [Hx Hstop] [[g I] HL]. assert (HI := group_commit_preserves T B HB Hfit x past s0 Hx (ex_intro _ g I)).
    destruct (step x s0) as [| |e' s1] eqn:Hs; [done..|]. split; [done|]. destruct HL as [_ H1 H2 H3 H4].
    assert (Hq : quiet x -> stop_ s1 = stop_ s0 /\ length (log_free_ s1) = length (log_free_ s0) /\ (server_ s1 = V_done -> server_ s0 = V_done \/ stop_ s0 = true)).
    { intros Hq. by eapply quiet_frame. }
    assert (Hf : stop_ s1 = stop_ s0 /\ length (log_free_ s1) = length (log_free_ s0) /\ (server_ s1 = V_done -> server_ s0 = V_done \/ stop_ s0 = true)).
    { destruct x as [t a d|t c|t|c|]; [| by apply Hq | | by apply Hq | done]; cbn in Hs; unfold AddLog_call in Hs; repeat case_match; simplify_eq; auto. }
    destruct Hf as (Hf1 & Hf2 & Hf3). split.
    - by eexists.
    - by eapply held_step.
    - congruence.
    - intros Hd. destruct (Hf3 Hd); congruence.
    - intros Hn. rewrite Hn in Hf2. by destruct (log_free_ s0). }
  assert (Hr := run_preserves_on step _ _ Hp l [] (new_LoggingServer logs) Hl). rewrite Hrun in Hr. apply Hr.
  assert (I : GInv T B [] (new_LoggingServer logs) ghost0) by (by apply ginv_new).
  split; [by exists ghost0|]. split; [by exists [], ghost0| |done|done|].
  - intros k Hk. cbn in Hk. apply lookup_replicate in Hk as [[=] _].
  - cbn. by destruct logs.
Qed.

(** C19: As long as the server is not stopped no call is stuck, whatever the
    threads and the server have done: some schedule of their steps, without
    new calls, lets every call return. *)
Theorem group_commit_can_return (logs : list W) l s e : fresh_logs logs -> logs <> [] -> Forall runs_on l ->
  run step l (new_LoggingServer logs) = Step e s -> can_reach quiet_step (fun s' => threads s' = ∅ /\ heap s' = ∅) s.
Proof.
  intros Hlogs Hne Hl Hrun. assert (HL := live_new logs l s e Hlogs Hne Hl Hrun). clear l Hl Hrun.
  apply (can_reach_measure _ (Live T B) _ (fun s => size (heap s))); [|done]. clear s HL. intros s HL.
  destruct (decide (heap s = ∅)) as [He|He].
  - apply can_reach_here. left. split; [|done]. apply map_eq. intros t. rewrite lookup_empty. destruct (threads s !! t) as [p|] eqn:Ht; [|done].
    destruct (live_inv _ _ _ HL) as (past & g & I). destruct (gi_threads _ _ _ _ _ I t p Ht) as [_ [w Hw]]. by rewrite He in Hw.
  - eapply can_reach_mono; [|by apply (some_call_returns T B HB Hfit s HL He)]. intros s' [? ?]. by right.
Qed.
End theorem.

(** Two calls, one of them asleep, and the server has not looked yet. *)
Definition asleep : list action :=
  AddLog 0 10 [1] :: replicate 202 (Thread 0 true) ++ replicate 4 (Thread 0 false) ++ [AddLog 1 20 [2; 3]; Thread 1 true].
Definition asleep_state : LoggingServer FSLogWriter :=
  match run step asleep (new_LoggingServer two_logs) with Step _ s => s | _ => new_LoggingServer [] end.

Lemma group_commit_can_return_witness : threads asleep_state !! 0%nat = Some (T_sleep 10) /\
  can_reach quiet_step (fun s' => threads s' = ∅ /\ heap s' = ∅) asleep_state.
Proof.
  split; [by vm_compute|].
  apply (group_commit_can_return (W := FSLogWriter) 64 1024 ltac:(done) ltac:(done) two_logs asleep asleep_state [Called 0 [1]; Called 1 [2; 3]]);
    [apply two_logs_fresh | done | | by vm_compute].
  apply Forall_and. split; [apply fitsb_ok; by vm_compute|]. repeat constructor; done.
Defined.
