(* ===== verification/TraceLoader.v ===== *)
(** * The trace loader ([traceloader/trace_loader.h])

    Reads a trace of cache requests: a CSV file of block accesses (MSR), CSV
    files of memcached commands (Twitter), the same in a binary format, or a
    synthetic Zipf workload.  A [char] or byte of a file is an integer from 0 to
    255, a [std::string] a list of them; a file system is a function from names
    to contents, where the source calls [exit(0)] the result is [None].  The
    generator of the Zipf workload works with floating point numbers and is a
    parameter. *)

From S2P Require Import Prelude Util.
From stdpp Require Import strings.
Local Open Scope Z_scope.

(** ** Strings *)
Definition str (s : string) : list Z := (fun a => Z.of_nat (Ascii.nat_of_ascii a)) <$> String.list_ascii_of_string s.
Notation filename := (list Z) (only parsing).

(** [int] and [char] *)
Definition schar (c : Z) : Z := if c <? 128 then c else c - 256.

(** [str.find(c)] for a delimiter of one character *)
Fixpoint find_char (c : Z) (s : list Z) : option nat :=
  match s with
  | [] => None
  | x :: s => if x =? c then Some 0%nat else S <$> find_char c s
  end.

(** The loop that takes the words off the front of the line. *)
Fixpoint split_loop (fuel : nat) (c : Z) (s : list Z) (words : list (list Z)) : res (list (list Z)) :=
  match fuel with
  | O => Crash OutOfFuel
  | S fuel =>
      match find_char c s with
      | Some pos => split_loop fuel c (drop (pos + 1) s) (words ++ [take pos s])
      | None => Ok (words ++ [s])
      end
  end.
Definition split (c : Z) (s : list Z) : res (list (list Z)) := split_loop (S (length s)) c s [].
Definition comma : Z := 44.
Definition newline : Z := 10.

(** [words[i]] *)
Definition word (i : nat) (ws : list (list Z)) : res (list Z) := match ws !! i with Some w => Ok w | None => Crash OutOfRange end.

(** [strtol(s, NULL, 10)] *)
Definition isspace (c : Z) : bool := (c =? 32) || ((9 <=? c) && (c <=? 13)).
Definition isdigit (c : Z) : bool := (48 <=? c) && (c <=? 57).
Fixpoint digits (s : list Z) (n : Z) : Z :=
  match s with
  | c :: s => if isdigit c then digits s (10 * n + (c - 48)) else n
  | [] => n
  end.
Fixpoint skip_spaces (s : list Z) : list Z :=
  match s with c :: s' => if isspace c then skip_spaces s' else s | [] => [] end.
Definition strtol (s : list Z) : Z :=
  let n := match skip_spaces s with
           | c :: s' => if c =? 45 then - digits s' 0 else if c =? 43 then digits s' 0 else digits (c :: s') 0
           | [] => 0
           end in
  Z.max (- 2 ^ 63) (Z.min (2 ^ 63 - 1) n).

(** [std::to_string(int)] *)
Fixpoint print_digits (fuel : nat) (n : Z) (acc : list Z) : list Z :=
  match fuel with
  | O => acc
  | S fuel => let acc := (48 + n mod 10) :: acc in if n / 10 =? 0 then acc else print_digits fuel (n / 10) acc
  end.
Definition to_string (n : Z) : list Z :=
  if n <? 0 then 45 :: print_digits 10 (- n) [] else print_digits 10 n [].

(** [extract_suffix_string] *)
Fixpoint suffixes_from (fuel : nat) (i end_ : Z) (temp : list (list Z)) : res (list (list Z)) :=
  match fuel with
  | O => Crash OutOfFuel
  | S fuel =>
      if i <=? end_ then
        if i =? 2 ^ 31 - 1 then Crash SignedOverflow else suffixes_from fuel (i + 1) end_ (temp ++ [to_string i])
      else Ok temp
  end.
Definition extract_suffix_string (start end_ : list Z) : res (list (list Z)) :=
  let start_ := i32 (strtol start) in
  let end_ := i32 (strtol end_) in
  suffixes_from (S (Z.to_nat (end_ - start_ + 1))) start_ end_ [].

(** [string_hash] *)
Definition hash_p : Z := 31.
Definition hash_m : Z := 1000000009.
Definition hash_char (h : Z * Z) (c : Z) : Z * Z :=
  let '(hash_value, p_pow) := h in
  (u64 (hash_value + u64 (u64 (schar c - 48 + 1) * p_pow)) mod hash_m, u64 (p_pow * hash_p) mod hash_m).
Definition string_hash (s : list Z) : Z := u32 (foldl hash_char (0, 1) s).1.

(** ** Requests *)
Inductive Operation :=
  PUT | GET | DELETE | READ | WRITE | set | add | replace | append | prepend | cas | get | gets | delete_ | incr | decr | NoType.
#[export] Instance operation_eq_dec : EqDecision Operation.
Proof. solve_decision. Defined.
Record request := { Type_ : Operation; Key : Z }.
(** The constructor takes a [key_size_t]. *)
Definition new_request (opt : Operation) (key : Z) : request := {| Type_ := opt; Key := u32 key |}.

(** [requests_] up to [load_index_]; the array has room for 100 GB. The source
    stores without looking at the bound: the write past the end of the array is
    undefined there, and a crash here. *)
Definition capacity : Z := 100 * 1024 * 1024 * 1024 / 8.
Definition load_index_ (requests_ : list request) : Z := Z.of_nat (length requests_).
Definition store (r : request) (requests_ : list request) : res (list request) :=
  if load_index_ requests_ <? capacity then Ok (requests_ ++ [r]) else Crash OutOfRange.

Record TraceLoader := { requests_ : list request; queue_size : Z }.
Definition loaded (l : list request) : TraceLoader := {| requests_ := l; queue_size := load_index_ l |}.

(** [GetRequest]; its parameter is a [key_size_t]. *)
Definition GetRequest (index : Z) (l : TraceLoader) : res request :=
  if queue_size l =? 0 then Crash DivideByZero else
  match requests_ l !! Z.to_nat (u32 index mod queue_size l) with Some r => Ok r | None => Crash OutOfRange end.
Definition GetQueueSize (l : TraceLoader) : Z := queue_size l.

(** ** Zipf: [next_] are the results of the generator. *)
Definition item_num : Z := 1000000.
Definition Zipf (next_ : nat -> Z) : TraceLoader :=
  let l := (fun i => new_request READ (next_ i)) <$> seq 0 (Z.to_nat (item_num * 100)) in
  {| requests_ := l; queue_size := item_num * 100 |}.

(** ** Text files *)

(** What the calls of [getline] yield; the last one meets the end of the file. *)
Definition getlines (file : list Z) : res (list (list Z)) := split newline file.

(** The loop over the lines of a file, as long as there is room. *)
Fixpoint read_lines (num_ : Z) (one : list Z -> list request -> res (list request)) (lines : list (list Z)) (l : list request) : res (list request) :=
  match lines with
  | [] => Ok l
  | line :: lines =>
      if load_index_ l <? num_ then
        l ← (if bool_decide (line = []) then Ok l else one line l);
        read_lines num_ one lines l
      else Ok l
  end.

(** MSR: one request for each block of 4 KB. *)
Fixpoint blocks (fuel : nat) (num_ index end_ : Z) (l : list request) : res (list request) :=
  match fuel with
  | O => Crash OutOfFuel
  | S fuel =>
      if (index <=? end_) && (load_index_ l <? num_) then
        l ← store (new_request READ index) l;
        if index =? 2 ^ 31 - 1 then Crash SignedOverflow else blocks fuel num_ (index + 1) end_ l
      else Ok l
  end.
Definition add_long (a b : Z) : res Z := if (- 2 ^ 63 <=? a + b) && (a + b <? 2 ^ 63) then Ok (a + b) else Crash SignedOverflow.

Definition msr_line (num_ : Z) (line : list Z) (l : list request) : res (list request) :=
  ws ← split comma line;
  w4 ← word 4 ws;
  let start := i32 (Z.shiftr (strtol w4) 12) in
  w5 ← word 5 ws;
  sum ← add_long (strtol w4) (strtol w5);
  last ← add_long sum (-1);
  let end_ := i32 (Z.shiftr last 12) in
  op ← word 3 ws;
  if bool_decide (op = str "Read") then blocks (S (Z.to_nat (end_ - start + 1))) num_ start end_ l
  else if bool_decide (op = str "Write") then blocks (S (Z.to_nat (end_ - start + 1))) num_ start end_ l
  else Ok l.

Definition MSR (open : filename -> option (list Z)) (num : Z) (work_file work_type : list Z) : res (option TraceLoader) :=
  if negb (bool_decide (work_type = str "MSR")) then Ok None else
  match open work_file with
  | None => Ok None
  | Some file =>
      lines ← getlines file;
      l ← read_lines num (msr_line num) lines [];
      Ok (Some (loaded l))
  end.

(** Twitter: the files and what their names are. *)
Definition no_range (workload_start workload_end : list Z) : bool := bool_decide (workload_start = []) || bool_decide (workload_end = []).
Definition suffixs (work_file workload_start workload_end : list Z) : res (list (list Z)) :=
  if no_range workload_start workload_end then Ok [work_file] else extract_suffix_string workload_start workload_end.
Definition file_name (work_file workload_start workload_end suffix ext : list Z) : list Z :=
  if no_range workload_start workload_end then suffix else work_file ++ str "." ++ suffix ++ ext.

(** The loop over the files. *)
Fixpoint read_files (num_ : Z) (open : filename -> option (list Z)) (one : list Z -> list request -> res (list request)) (names : list (list Z))
    (l : list request) : res (option (list request)) :=
  match names with
  | [] => Ok (Some l)
  | name :: names =>
      if num_ <=? load_index_ l then Ok (Some l)
      else match open name with
           | None => Ok None
           | Some file => l ← one file l; read_files num_ open one names l
           end
  end.

Definition operation_names : list (list Z * Operation) :=
  [(str "set", set); (str "add", add); (str "replace", replace); (str "append", append); (str "prepend", prepend); (str "cas", cas);
   (str "get", get); (str "gets", gets); (str "delete", delete_); (str "incr", incr); (str "decr", decr)].
Fixpoint operation_of (op : list Z) (names : list (list Z * Operation)) : option Operation :=
  match names with
  | [] => None
  | (name, opt) :: names => if bool_decide (op = name) then Some opt else operation_of op names
  end.

Definition twitter_line (line : list Z) (l : list request) : res (list request) :=
  ws ← split comma line;
  op ← word 5 ws;
  w1 ← word 1 ws;
  match operation_of op operation_names with
  | Some opt => store (new_request opt (string_hash w1)) l
  | None => Ok l
  end.

Definition Twitter (open : filename -> option (list Z)) (num : Z) (work_file work_type workload_start workload_end : list Z) : res (option TraceLoader) :=
  if negb (bool_decide (work_type = str "Twitter")) then Ok None else
  ss ← suffixs work_file workload_start workload_end;
  r ← read_files num open (fun file l => lines ← getlines file; read_lines num twitter_line lines l)
        ((fun s => file_name work_file workload_start workload_end s []) <$> (ss : list (list Z))) [];
  Ok (loaded <$> (r : option (list request))).

(** ** The binary format *)
Definition infile_read_size : nat := 12.
Definition request_buffer_size : nat := 1024.

(** [uint8_op_map]; [operator[]] inserts what it does not find, as [PUT]. *)
Definition uint8_op_map (op_bin : Z) : Operation :=
  match op_bin with
  | 1 => set | 2 => add | 3 => replace | 4 => append | 5 => prepend | 6 => cas
  | 7 => get | 8 => gets | 9 => delete_ | 10 => incr | 11 => decr | _ => PUT
  end.

(** The request at index [i] of the buffer. *)
Definition buffered (request_buffer : list Z) (i : nat) : res request :=
  match DecodeFixed32 kLittleEndian (drop (i * infile_read_size + 4) request_buffer),
        DecodeFixed32 kLittleEndian (drop (i * infile_read_size + 8) request_buffer) with
  | Some op_bin, Some hash_key => Ok (new_request (uint8_op_map (i32 op_bin)) hash_key)
  | _, _ => Crash OutOfRange
  end.
Fixpoint take_requests (request_buffer : list Z) (idx : list nat) (l : list request) : res (list request) :=
  match idx with
  | [] => Ok l
  | i :: idx => r ← buffered request_buffer i; l ← store r l; take_requests request_buffer idx l
  end.

(** [infile.read] leaves the rest of the buffer when the file ends. *)
Fixpoint read_binary (fuel : nat) (num_ file_request_num : Z) (file request_buffer : list Z) (l : list request) : res (list request) :=
  match fuel with
  | O => Crash OutOfFuel
  | S fuel =>
      if load_index_ l <? num_ then
        let n := (infile_read_size * request_buffer_size)%nat in
        let request_buffer := take n file ++ drop (length (take n file)) request_buffer in
        if (length file <? n)%nat then
          take_requests request_buffer (seq 0 (Z.to_nat (Z.rem file_request_num (Z.of_nat request_buffer_size)))) l
        else
          l ← take_requests request_buffer (seq 0 request_buffer_size) l;
          read_binary fuel num_ file_request_num (drop n file) request_buffer l
      else Ok l
  end.

(** One file; [file_request_num] is only set for a range of files. *)
Definition read_binary_file (num_ : Z) (range : bool) (request_buffer file : list Z) (l : list request) : res (list request) :=
  let file_request_num := if range then i32 (Z.of_nat (length file / infile_read_size)) else 0 in
  read_binary (S (length file)) num_ file_request_num file request_buffer l.

(** [request_buffer] is what [malloc] returns. *)
Definition Twitter_binary (open : filename -> option (list Z)) (request_buffer : list Z) (num : Z)
    (work_file work_type workload_start workload_end : list Z) (binary : bool) : res (option TraceLoader) :=
  if negb (binary && bool_decide (work_type = str "Twitter")) then Ok None else
  ss ← suffixs work_file workload_start workload_end;
  r ← read_files num open (read_binary_file num (negb (no_range workload_start workload_end)) request_buffer)
        ((fun s => file_name work_file workload_start workload_end s (str ".bin")) <$> (ss : list (list Z))) [];
  Ok (loaded <$> (r : option (list request))).
