(* ===== verification/TraceLoaderProps.v ===== *)
(** * What the trace loader reads *)

From stdpp Require Import strings.
From S2P Require Import Prelude Util TraceLoader.
Local Open Scope Z_scope.

(** ** Words *)
Fixpoint join (c : Z) (ws : list (list Z)) : list Z :=
  match ws with
  | [] => []
  | [w] => w
  | w :: ws => w ++ c :: join c ws
  end.

Lemma find_char_None c s : find_char c s = None <-> c ∉ s.
Proof.
  induction s as [|x s IH]; cbn; [by set_solver|]. destruct (Z.eqb_spec x c) as [->|Hne].
  - split; [done|]. intros Hn. destruct Hn. by left.
  - destruct (find_char c s); cbn; set_solver.
Qed.

Lemma find_char_Some c s pos : find_char c s = Some pos -> s = take pos s ++ c :: drop (pos + 1) s /\ c ∉ take pos s.
Proof.
  revert pos. induction s as [|x s IH]; intros pos Hf; cbn in Hf; [done|]. destruct (Z.eqb_spec x c) as [->|Hne].
  - injection Hf as <-. cbn. by split; [|set_solver].
  - destruct (find_char c s) as [p|]; [|done]. injection Hf as <-. destruct (IH p eq_refl) as [Hs Hn].
    replace (S p + 1)%nat with (S (p + 1)) by lia. cbn. split; [by f_equal|set_solver].
Qed.

Lemma split_loop_ok c fuel s words : (length s < fuel)%nat -> exists ws,
  split_loop fuel c s words = Ok (words ++ ws) /\ ws <> [] /\ join c ws = s /\ Forall (fun w => c ∉ w) ws.
Proof.
  revert s words. induction fuel as [|fuel IH]; intros s words Hf; [lia|]. cbn. destruct (find_char c s) as [pos|] eqn:Hc.
  - destruct (find_char_Some c s pos Hc) as [Hs Hn]. assert (Hl : (length (drop (pos + 1) s) < fuel)%nat).
    { apply (f_equal length) in Hs. rewrite length_app in Hs. cbn in Hs. lia. }
    destruct (IH (drop (pos + 1) s) (words ++ [take pos s]) Hl) as (ws & -> & Hne & Hj & Hall). exists (take pos s :: ws).
    rewrite <- app_assoc. split_and!; [done|done| |by constructor]. destruct ws as [|w ws]; [done|]. cbn [join] in *. by rewrite Hj, <- Hs.
  - exists [s]. split_and!; [done|done|done|]. constructor; [|constructor]. by apply find_char_None.
Qed.

Lemma join_inj c ws ws' : ws <> [] -> ws' <> [] -> Forall (fun w => c ∉ w) ws -> Forall (fun w => c ∉ w) ws' -> join c ws = join c ws' -> ws = ws'.
Proof.
  assert (Hcut : forall w1 w2 (r1 r2 : list Z), c ∉ w1 -> c ∉ w2 -> w1 ++ c :: r1 = w2 ++ c :: r2 -> w1 = w2 /\ r1 = r2).
  { induction w1 as [|x w1 IH]; intros [|y w2] r1 r2 H1 H2 He; cbn in *; [by injection He| | |].
    - injection He as -> _. destruct H2. by left.
    - injection He as -> _. destruct H1. by left.
    - injection He as -> He. destruct (IH w2 r1 r2) as [-> ->]; [set_solver..|done|done]. }
  revert ws'. induction ws as [|w ws IH]; intros ws' Hne Hne' Hf Hf' He; [done|]. destruct ws' as [|w' ws']; [done|].
  apply Forall_cons in Hf as [Hw Hf], Hf' as [Hw' Hf']. destruct ws as [|v ws], ws' as [|v' ws']; cbn [join] in He.
  - by subst.
  - subst w. destruct Hw. apply elem_of_app. right. by left.
  - subst w'. destruct Hw'. apply elem_of_app. right. by left.
  - destruct (Hcut w w' _ _ Hw Hw' He) as [-> Hj]. f_equal. by apply IH.
Qed.

Lemma split_ok c s : exists ws, split c s = Ok ws /\ ws <> [] /\ join c ws = s /\ Forall (fun w => c ∉ w) ws.
Proof. destruct (split_loop_ok c (S (length s)) s []) as (ws & ? & ?); [lia|]. by exists ws. Qed.

(** Words without the delimiter are found as they were. *)
Lemma split_join c ws : ws <> [] -> Forall (fun w => c ∉ w) ws -> split c (join c ws) = Ok ws.
Proof.
  intros Hne Hf. destruct (split_ok c (join c ws)) as (ws' & -> & Hne' & Hj & Hf'). f_equal. symmetry. by apply (join_inj c).
Qed.

(** ** Numbers *)
Definition digit_string (s : list Z) : Prop := Forall (fun c => 48 <= c <= 57) s.
Definition value (s : list Z) (n : Z) : Z := foldl (fun n c => 10 * n + (c - 48)) n s.

Lemma digits_value s n : digit_string s -> digits s n = value s n.
Proof.
  intros Hs. revert n. induction Hs as [|c s Hc Hs IH]; intros n; [done|]. cbn. unfold isdigit.
  rewrite (proj2 (Z.leb_le 48 c)), (proj2 (Z.leb_le c 57)) by lia. apply IH.
Qed.

Lemma print_digits_ok fuel n acc : 0 <= n < 10 ^ Z.of_nat fuel -> exists ds, print_digits fuel n acc = ds ++ acc /\ digit_string ds /\
  (fuel <> O -> ds <> []) /\ forall m, value ds m = m * 10 ^ Z.of_nat (length ds) + n.
Proof.
  revert n acc. induction fuel as [|fuel IH]; intros n acc Hn.
  - exists []. cbn in *. split_and!; [done|constructor|done|]. intros m. lia.
  - assert (Hm := Z.mod_pos_bound n 10 ltac:(lia)). assert (Hd := Z.div_mod n 10 ltac:(lia)). cbn.
    rewrite Nat2Z.inj_succ, Z.pow_succ_r in Hn by lia. destruct (Z.eqb_spec (n / 10) 0) as [Hz|Hz].
    + exists [48 + n mod 10]. split_and!; [done| |done|]; [constructor; [lia|constructor]|]. intros m. cbn. lia.
    + assert (Hr : 0 <= n / 10 < 10 ^ Z.of_nat fuel) by (split; [apply Z.div_pos; lia|apply Z.div_lt_upper_bound; lia]).
      destruct (IH (n / 10) ((48 + n mod 10) :: acc) Hr) as (ds & -> & Hds & _ & Hv). exists (ds ++ [48 + n mod 10]).
      rewrite <- app_assoc. split_and!; [done| |by destruct ds|].
      * apply Forall_app. split; [done|]. constructor; [lia|constructor].
      * intros m. unfold value. rewrite foldl_app. change (foldl _ m ds) with (value ds m). rewrite Hv. cbn.
        rewrite length_app, Nat2Z.inj_add, Z.pow_add_r by lia. cbn. lia.
Qed.

(** [strtol] reads what [to_string] writes. *)
Lemma strtol_to_string n : - 2 ^ 31 <= n < 2 ^ 31 -> strtol (to_string n) = n.
Proof.
  intros Hn. unfold to_string. destruct (Z.ltb_spec n 0) as [Hneg|Hpos].
  - destruct (print_digits_ok 10 (- n) [] ltac:(cbn; lia)) as (ds & -> & Hds & _ & Hv). rewrite app_nil_r. unfold strtol. cbn [skip_spaces isspace].
    change (isspace 45) with false. cbv iota. rewrite Z.eqb_refl, digits_value, Hv by done. lia.
  - destruct (print_digits_ok 10 n [] ltac:(cbn; lia)) as (ds & -> & Hds & Hne & Hv). rewrite app_nil_r. specialize (Hne ltac:(done)).
    assert (Hd := digits_value ds 0 Hds). rewrite Hv in Hd. destruct ds as [|c ds]; [done|]. apply Forall_cons in Hds as [Hc _]. unfold strtol.
    assert (Hs : skip_spaces (c :: ds) = c :: ds).
    { cbn. unfold isspace. rewrite (proj2 (Z.eqb_neq c 32)), (proj2 (Z.leb_gt c 13)) by lia. by rewrite andb_false_r. }
    rewrite Hs, (proj2 (Z.eqb_neq c 45)), (proj2 (Z.eqb_neq c 43)), Hd by lia. lia.
Qed.

(** ** The string hash *)
Fixpoint poly (s : list Z) : Z := match s with [] => 0 | c :: s => (c - 47) + hash_p * poly s end.

Lemma hash_fold s h k : Forall (fun c => 47 <= c < 128) s -> 0 <= h < hash_m -> 0 <= k ->
  (foldl hash_char (h, hash_p ^ k mod hash_m) s).1 = (h + hash_p ^ k * poly s) mod hash_m.
Proof.
  intros Hs. revert h k. induction Hs as [|c s Hc Hs IH]; intros h k Hh Hk; cbn [foldl poly fst].
  - rewrite Z.mul_0_r, Z.add_0_r. symmetry. by apply Z.mod_small.
  - set (q := hash_p ^ k mod hash_m). assert (Hq : 0 <= q < hash_m) by (apply Z.mod_pos_bound; done).
    assert (Hstep : hash_char (h, q) c = ((h + (c - 47) * hash_p ^ k) mod hash_m, hash_p ^ (k + 1) mod hash_m)).
    { unfold hash_char, schar. rewrite (proj2 (Z.ltb_lt c 128)) by lia. replace (c - 48 + 1) with (c - 47) by lia. unfold hash_m, hash_p in *.
      rewrite (u64_small (c - 47)) by lia. rewrite (u64_small ((c - 47) * q)) by nia. rewrite (u64_small (h + _)) by nia. rewrite (u64_small (q * 31)) by lia.
      f_equal.
      - rewrite <- (Z.add_mod_idemp_r h), <- (Z.mul_mod_idemp_r (c - 47)) by done. unfold q. by rewrite Z.mod_mod, Z.mul_mod_idemp_r, Z.add_mod_idemp_r by done.
      - unfold q. rewrite Z.mul_mod_idemp_l by done. by rewrite Z.pow_add_r, Z.pow_1_r by lia. }
    rewrite Hstep, IH; [|apply Z.mod_pos_bound; done|lia]. rewrite Z.add_mod_idemp_l by done. f_equal. rewrite Z.pow_add_r, Z.pow_1_r by lia. ring.
Qed.

Lemma foldl_hash_range s h : 0 <= h.1 < hash_m -> 0 <= (foldl hash_char h s).1 < hash_m.
Proof.
  revert h. induction s as [|c s IH]; intros h Hh; [done|]. cbn. apply IH. destruct h as [v q]. cbn. by apply Z.mod_pos_bound.
Qed.

Lemma string_hash_range s : 0 <= string_hash s < hash_m.
Proof.
  unfold string_hash. assert (Hr := foldl_hash_range s (0, 1) ltac:(done)). rewrite u32_small; [done|]. unfold hash_m in *. lia.
Qed.

(** ** Storing requests *)
(** On characters from '/' on it is the polynomial hash it is meant to be. *)
Lemma string_hash_poly s : Forall (fun c => 47 <= c < 128) s -> string_hash s = poly s mod hash_m.
Proof.
  intros Hs. assert (Hr := string_hash_range s). unfold string_hash in *. change 1 with (hash_p ^ 0 mod hash_m) in *.
  rewrite hash_fold, Z.pow_0_r, Z.mul_1_l, Z.add_0_l in * by done. rewrite u32_small; [done|].
  assert (Hm := Z.mod_pos_bound (poly s) hash_m ltac:(done)). unfold hash_m in *. lia.
Qed.

Lemma store_ok r l : load_index_ l < capacity -> store r l = Ok (l ++ [r]).
Proof. intros Hc. unfold store. by rewrite (proj2 (Z.ltb_lt _ _) Hc). Qed.

Lemma load_index_app l k : load_index_ (l ++ k) = load_index_ l + Z.of_nat (length k).
Proof. unfold load_index_. rewrite length_app. lia. Qed.

(** ** MSR *)

(** The requests for the blocks from [start] to [end_], as far as there is room. *)
Definition block_requests (num start end_ : Z) (l : list request) : list request :=
  (fun i => new_request READ i) <$> seqZ start (Z.min (end_ - start + 1) (num - load_index_ l)).

Lemma blocks_ok fuel num index end_ l : num <= capacity -> end_ < 2 ^ 31 - 1 -> (Z.to_nat (end_ - index + 1) < fuel)%nat ->
  blocks fuel num index end_ l = Ok (l ++ block_requests num index end_ l).
Proof.
  intros Hn He. revert index l. induction fuel as [|fuel IH]; intros index l Hf; [lia|]. cbn. unfold block_requests.
  destruct (Z.leb_spec index end_) as [Hi|Hi]; cbn [andb]; [|rewrite seqZ_nil by lia; cbn; by rewrite app_nil_r].
  destruct (Z.ltb_spec (load_index_ l) num) as [Hl|Hl]; [|rewrite seqZ_nil by lia; cbn; by rewrite app_nil_r].
  rewrite store_ok by lia. cbn [mbind res_bind]. rewrite (proj2 (Z.eqb_neq _ _)) by lia. rewrite IH by lia. f_equal. rewrite <- app_assoc. f_equal. cbn [app].
  unfold block_requests. rewrite load_index_app. cbn [length]. rewrite (seqZ_cons index) by lia. cbn [fmap list_fmap]. f_equal. f_equal. f_equal; lia.
Qed.

Lemma strtol_range s : - 2 ^ 63 <= strtol s <= 2 ^ 63 - 1.
Proof. unfold strtol. lia. Qed.

(** C35: A line of an MSR trace is read as one request for each block of 4 KB that
    the access touches, in order, as far as there is room. *)
Theorem msr_line_blocks num l w0 w1 w2 op w4 w5 rest : num <= capacity -> Forall (fun w => comma ∉ w) (w0 :: w1 :: w2 :: op :: w4 :: w5 :: rest) ->
  op = str "Read" \/ op = str "Write" -> 0 <= strtol w4 -> 0 < strtol w5 -> strtol w4 + strtol w5 <= 2 ^ 42 ->
  msr_line num (join comma (w0 :: w1 :: w2 :: op :: w4 :: w5 :: rest)) l =
    Ok (l ++ block_requests num (strtol w4 / 4096) ((strtol w4 + strtol w5 - 1) / 4096) l).
Proof.
  intros Hn Hws Hop H4 H5 Hs. unfold msr_line. rewrite split_join by done. cbn [mbind res_bind word lookup list_lookup].
  unfold add_long. rewrite (proj2 (Z.leb_le (- 2 ^ 63) (strtol w4 + strtol w5))), (proj2 (Z.ltb_lt (strtol w4 + strtol w5) (2 ^ 63))) by lia. cbn [andb mbind res_bind].
  replace (strtol w4 + strtol w5 + -1) with (strtol w4 + strtol w5 - 1) by lia. rewrite (proj2 (Z.leb_le _ _)), (proj2 (Z.ltb_lt _ _)) by lia. cbn [andb mbind res_bind].
  rewrite !shiftr_div by lia. change (2 ^ 12) with 4096.
  assert (Ha : 0 <= strtol w4 / 4096 < 2 ^ 31 - 1) by (split; [apply Z.div_pos; lia|apply Z.div_lt_upper_bound; lia]).
  assert (Hb : 0 <= (strtol w4 + strtol w5 - 1) / 4096 < 2 ^ 31 - 1) by (split; [apply Z.div_pos; lia|apply Z.div_lt_upper_bound; lia]).
  assert (Hle : strtol w4 / 4096 <= (strtol w4 + strtol w5 - 1) / 4096) by (apply Z.div_le_mono; lia).
  rewrite !i32_small by lia. destruct Hop as [-> | ->]; cbn [bool_decide]; rewrite ?bool_decide_true by done; [|rewrite bool_decide_false by done];
    (apply blocks_ok; [done|lia|lia]).
Qed.

(** ** The binary format *)
Definition operation_code (op : Operation) : Z :=
  match op with
  | set => 1 | add => 2 | replace => 3 | append => 4 | prepend => 5 | cas => 6 | get => 7 | gets => 8 | delete_ => 9 | incr => 10 | decr => 11 | _ => 0
  end.
(** A record: a time, the operation, the hash of the key. *)
Definition encode_record (time : Z) (r : request) : list Z := le_bytes 4 time ++ le_bytes 4 (operation_code (Type_ r)) ++ le_bytes 4 (Key r).
Definition encode_file (rs : list (Z * request)) : list Z := concat ((fun tr => encode_record tr.1 tr.2) <$> rs).
(** What the format can express. *)
Definition binary_request (r : request) : Prop := operation_code (Type_ r) <> 0 /\ 0 <= Key r < 2 ^ 32.

Lemma length_le_bytes n v : length (le_bytes n v) = n.
Proof. revert v. induction n as [|n IH]; intros v; [done|]. cbn. by rewrite IH. Qed.

Lemma length_record t r : length (encode_record t r) = 12%nat.
Proof. unfold encode_record. by rewrite !length_app, !length_le_bytes. Qed.

Lemma length_file rs : length (encode_file rs) = (12 * length rs)%nat.
Proof.
  unfold encode_file. induction rs as [|[t r] rs IH]; [done|]. rewrite fmap_cons. cbn [concat length]. rewrite length_app, length_record, IH. lia.
Qed.

Lemma encode_file_app rs1 rs2 : encode_file (rs1 ++ rs2) = encode_file rs1 ++ encode_file rs2.
Proof. unfold encode_file. by rewrite fmap_app, concat_app. Qed.

Lemma take_file n rs : take (12 * n) (encode_file rs) = encode_file (take n rs).
Proof.
  destruct (decide (n <= length rs)%nat) as [Hle|Hgt].
  - rewrite <- (take_drop n rs) at 1. rewrite encode_file_app, take_app_length'; [done|]. rewrite length_file, length_take. lia.
  - rewrite (take_ge rs n), take_ge by (rewrite ?length_file; lia). done.
Qed.

Lemma drop_file n rs : drop (12 * n) (encode_file rs) = encode_file (drop n rs).
Proof.
  destruct (decide (n <= length rs)%nat) as [Hle|Hgt].
  - rewrite <- (take_drop n rs) at 1. rewrite encode_file_app, drop_app_length'; [done|]. rewrite length_file, length_take. lia.
  - rewrite (drop_ge rs n), drop_ge by (rewrite ?length_file; lia). done.
Qed.

Lemma buffered_ok rs rest i t r : rs !! i = Some (t, r) -> binary_request r -> buffered (encode_file rs ++ rest) i = Ok r.
Proof.
  intros Hi [Hop Hk]. unfold buffered, infile_read_size. rewrite <- (take_drop_middle rs i (t, r) Hi).
  assert (Hlt := lookup_lt_Some _ _ _ Hi).
  assert (He : encode_file (take i rs ++ (t, r) :: drop (S i) rs) ++ rest = encode_file (take i rs) ++ encode_record t r ++ (encode_file (drop (S i) rs) ++ rest)).
  { rewrite encode_file_app. cbn. unfold encode_file. by rewrite <- !app_assoc. }
  assert (Hlen : length (encode_file (take i rs)) = (i * 12)%nat) by (rewrite length_file, length_take; lia).
  assert (Hdrop : forall (p x : list Z) k n, length p = n -> drop (n + k) (p ++ x) = drop k x) by (intros p x k n <-; by rewrite drop_app_add).
  rewrite He, !(Hdrop _ _ _ _ Hlen). unfold encode_record. rewrite <- !app_assoc. change 8%nat with (4 + 4)%nat. rewrite (Hdrop _ _ 4%nat 4%nat) by apply length_le_bytes.
  rewrite drop_app_length' by (by rewrite length_le_bytes). rewrite drop_app_length' by (by rewrite length_le_bytes).
  assert (Hc : 0 <= operation_code (Type_ r) < 2 ^ 31) by (destruct (Type_ r); done).
  assert (Hdec : forall v x, 0 <= v < 2 ^ 32 -> DecodeFixed32 kLittleEndian (le_bytes 4 v ++ x) = Some v) by (intros; by apply (decode_encode32 true true)).
  rewrite !Hdec by lia. f_equal. rewrite i32_small by lia. unfold new_request. rewrite u32_small by done.
  destruct r as [op k]. cbn in *. f_equal. by destruct op.
Qed.

Lemma take_requests_ok rs rest i m l : (i + m <= length rs)%nat -> Forall binary_request rs.*2 -> load_index_ l + Z.of_nat m <= capacity ->
  take_requests (encode_file rs ++ rest) (seq i m) l = Ok (l ++ take m (drop i rs.*2)).
Proof.
  intros Hi Hb. revert i l Hi. induction m as [|m IH]; intros i l Hi Hc; cbn [seq take_requests]; [by rewrite app_nil_r|].
  destruct (lookup_lt_is_Some_2 rs i ltac:(lia)) as [[t r] Hr].
  assert (Hr2 : rs.*2 !! i = Some r) by (by rewrite list_lookup_fmap, Hr).
  rewrite (buffered_ok rs rest i t r Hr) by (rewrite Forall_lookup in Hb; by apply (Hb i)). cbn [mbind res_bind].
  rewrite store_ok by lia. cbn [mbind res_bind]. rewrite IH; [|lia|rewrite load_index_app; cbn [length]; lia].
  rewrite (drop_S _ _ _ Hr2). cbn [take]. by rewrite <- app_assoc.
Qed.

(** The requests of a file, but for the last chunk only [tail]. *)
Definition kept_of (tail : nat) (rs : list request) : list request := take (length rs - length rs mod 1024 + tail) rs.

Lemma read_binary_ok fuel num frn tail rs buf l : (length rs < fuel)%nat -> Forall binary_request rs.*2 -> load_index_ l + Z.of_nat (length rs) <= num ->
  num <= capacity -> Z.to_nat (Z.rem frn 1024) = tail -> (tail <= length rs mod 1024)%nat ->
  read_binary fuel num frn (encode_file rs) buf l = Ok (l ++ kept_of tail rs.*2).
Proof.
  intros Hf Hb Hl Hn Ht Hm. revert rs buf l Hf Hb Hl Hm. induction fuel as [|fuel IH]; intros rs buf l Hf Hb Hl Hm; [lia|]. cbn [read_binary].
  unfold infile_read_size, request_buffer_size, kept_of. rewrite length_fmap.
  destruct (Z.ltb_spec (load_index_ l) num) as [Hlt|Hge].
  2: { assert (rs = []) as -> by (apply nil_length_inv; lia). cbn. by rewrite take_nil, app_nil_r. }
  rewrite take_file, drop_file, length_file. destruct (Nat.ltb_spec (12 * length rs) (12 * 1024)) as [Hs|Hs].
  - rewrite Nat.mod_small in Hm |- * by lia. change (Z.of_nat 1024) with 1024. rewrite Ht, (take_ge rs) by lia.
    rewrite take_requests_ok by (try done; lia). by replace (length rs - length rs + tail)%nat with tail by lia.
  - rewrite take_requests_ok; [|rewrite length_take; lia|rewrite fmap_take; by apply Forall_take|lia]. cbn [mbind res_bind].
    assert (Hmod : (length rs mod 1024 = (length rs - 1024) mod 1024)%nat).
    { replace (length rs) with (length rs - 1024 + 1 * 1024)%nat at 1 by lia. by rewrite Nat.Div0.mod_add. }
    rewrite IH; [|rewrite length_drop; lia|rewrite fmap_drop; by apply Forall_drop| |rewrite length_drop; lia].
    + f_equal. rewrite <- app_assoc. f_equal. rewrite drop_0, fmap_take, take_take, Nat.min_id. unfold kept_of. rewrite length_fmap, length_drop, <- Hmod.
      assert (Hle := Nat.Div0.mod_le (length rs - 1024) 1024). rewrite fmap_drop.
      replace (length rs - length rs mod 1024 + tail)%nat with (1024 + (length rs - 1024 - length rs mod 1024 + tail))%nat by lia.
      apply take_take_drop.
    + rewrite load_index_app, drop_0, length_take, length_fmap, length_take, length_drop. lia.
Qed.

Lemma kept_all rs : kept_of (length rs mod 1024) rs = rs.
Proof. unfold kept_of. apply take_ge. assert (H := Nat.Div0.mod_le (length rs) 1024). lia. Qed.

(** ** The files of a range *)
Lemma to_string_nonempty n : - 2 ^ 31 <= n < 2 ^ 31 -> to_string n <> [].
Proof.
  intros Hn. unfold to_string. destruct (Z.ltb_spec n 0); [done|].
  destruct (print_digits_ok 10 n [] ltac:(cbn; lia)) as (ds & -> & _ & Hne & _). rewrite app_nil_r. by apply Hne.
Qed.

Lemma suffixes_ok fuel i end_ temp : end_ < 2 ^ 31 - 1 -> (Z.to_nat (end_ - i + 1) < fuel)%nat ->
  suffixes_from fuel i end_ temp = Ok (temp ++ (to_string <$> seqZ i (end_ - i + 1))).
Proof.
  intros He. revert i temp. induction fuel as [|fuel IH]; intros i temp Hf; [lia|]. cbn. destruct (Z.leb_spec i end_) as [Hi|Hi].
  - rewrite (proj2 (Z.eqb_neq _ _)), IH by lia. rewrite <- app_assoc, (seqZ_cons i) by lia.
    replace (end_ - (i + 1) + 1) with (Z.pred (end_ - i + 1)) by lia. by rewrite Z.add_1_r.
  - rewrite seqZ_nil by lia. cbn. by rewrite app_nil_r.
Qed.

Lemma extract_ok a b : - 2 ^ 31 <= a -> a <= b -> b < 2 ^ 31 - 1 -> extract_suffix_string (to_string a) (to_string b) = Ok (to_string <$> seqZ a (b - a + 1)).
Proof.
  intros Ha Hab Hb. unfold extract_suffix_string. rewrite !strtol_to_string, !i32_small by lia. apply suffixes_ok; lia.
Qed.

Lemma read_binary_file_ok num buf rs l : Forall binary_request rs.*2 -> load_index_ l + Z.of_nat (length rs) <= num -> num <= capacity ->
  Z.of_nat (length rs) < 2 ^ 31 -> read_binary_file num true buf (encode_file rs) l = Ok (l ++ rs.*2).
Proof.
  intros Hb Hl Hn Hlen. unfold read_binary_file. rewrite length_file. unfold infile_read_size.
  replace (12 * length rs / 12)%nat with (length rs) by (rewrite Nat.mul_comm; by rewrite Nat.div_mul).
  rewrite i32_small by lia. rewrite (read_binary_ok _ _ _ (length rs mod 1024)); try done; try lia.
  - rewrite <- (length_fmap snd rs). by rewrite kept_all.
  - rewrite Z.rem_mod_nonneg by lia. change 1024 with (Z.of_nat 1024). by rewrite <- Nat2Z.inj_mod, Nat2Z.id.
Qed.

Lemma read_files_ok num open buf (names : list (list Z)) rss l :
  Forall2 (fun name rs => open name = Some (encode_file rs)) names rss ->
  Forall (fun rs => Forall binary_request rs.*2 /\ Z.of_nat (length rs) < 2 ^ 31) rss ->
  load_index_ l + Z.of_nat (length (concat rss)) <= num -> num <= capacity ->
  read_files num open (read_binary_file num true buf) names l = Ok (Some (l ++ (concat rss).*2)).
Proof.
  intros Hn. revert l. induction Hn as [|name rs names rss Hopen Hn IH]; intros l Hall Hl Hc; cbn [read_files concat]; [by rewrite app_nil_r|].
  cbn [concat] in Hl. apply Forall_cons in Hall as [[Hb Hlen] Hall]. rewrite length_app in Hl. destruct (Z.leb_spec num (load_index_ l)) as [Hge|Hlt].
  - assert (rs = []) as -> by (apply nil_length_inv; lia). assert (concat rss = []) as -> by (apply nil_length_inv; lia). cbn. by rewrite app_nil_r.
  - rewrite Hopen, read_binary_file_ok by (try done; lia). cbn [mbind res_bind]. rewrite IH; [|done| |done].
    + by rewrite fmap_app, app_assoc.
    + rewrite load_index_app, length_fmap. lia.
Qed.

(** C34: What was encoded in the binary format, over any number of files, is
    loaded again: all requests, in order. *)
Theorem binary_roundtrip open buf num work a b rss : - 2 ^ 31 <= a -> a <= b -> b < 2 ^ 31 - 1 ->
  Forall2 (fun i rs => open (work ++ str "." ++ to_string i ++ str ".bin") = Some (encode_file rs)) (seqZ a (b - a + 1)) rss ->
  Forall (fun rs => Forall binary_request rs.*2 /\ Z.of_nat (length rs) < 2 ^ 31) rss ->
  Z.of_nat (length (concat rss)) <= num -> num <= capacity ->
  Twitter_binary open buf num work (str "Twitter") (to_string a) (to_string b) true = Ok (Some (loaded (concat rss).*2)).
Proof.
  intros Ha Hab Hb Hopen Hall Hl Hn. unfold Twitter_binary. rewrite bool_decide_true by done. cbn [andb negb].
  assert (Hr : no_range (to_string a) (to_string b) = false).
  { unfold no_range. rewrite !bool_decide_false; [done|apply to_string_nonempty; lia|apply to_string_nonempty; lia]. }
  unfold suffixs, file_name. rewrite Hr, extract_ok by done. cbn [mbind res_bind negb].
  rewrite (read_files_ok num open buf _ rss []); [done | | done | unfold load_index_; cbn [length]; lia | done].
  rewrite <- list_fmap_compose. apply Forall2_fmap_l. done.
Qed.

(** Without a range of files the length of the file is never asked for, and
    the requests after the last full chunk of 1024 are dropped. *)
Theorem binary_single_file_tail open buf num work rs : open work = Some (encode_file rs) -> Forall binary_request rs.*2 ->
  Z.of_nat (length rs) <= num -> num <= capacity ->
  Twitter_binary open buf num work (str "Twitter") [] [] true = Ok (Some (loaded (take (length rs - length rs mod 1024) rs.*2))).
Proof.
  intros Hopen Hb Hl Hn. unfold Twitter_binary. rewrite bool_decide_true by done. cbn [andb negb].
  change (suffixs work [] []) with (@Ok (list (list Z)) [work]). change (negb (no_range [] [])) with false. cbn [mbind res_bind fmap list_fmap].
  change (file_name work [] [] work (str ".bin")) with work. cbn [read_files].
  destruct (Z.leb_spec num (load_index_ [])) as [Hle|Hgt]; unfold load_index_ in *; cbn [length] in *.
  - assert (rs = []) as -> by (apply nil_length_inv; lia). done.
  - rewrite Hopen. unfold read_binary_file. rewrite (read_binary_ok _ _ _ 0); try done; try (rewrite ?length_file; lia).
    cbn. unfold kept_of. by rewrite length_fmap, Nat.add_0_r.
Qed.

(** ** The fuel is enough *)
Definition fueled {A} (r : res A) : Prop := r <> Crash OutOfFuel.

Lemma fueled_bind {A B} (r : res A) (k : A -> res B) : fueled r -> (forall a, fueled (k a)) -> fueled (r ≫= k).
Proof. intros Hr Hk. destruct r as [a|e]; cbn; [apply Hk|]. intros [= ->]. by apply Hr. Qed.

Ltac fueled := repeat first
  [ apply fueled_bind; [|intros ?] | done
  | match goal with |- fueled (match ?x with _ => _ end) => destruct x | |- fueled (if ?x then _ else _) => destruct x end ].

Lemma fueled_split c s : fueled (split c s).
Proof. destruct (split_ok c s) as (ws & -> & _). done. Qed.
Lemma fueled_store r l : fueled (store r l).
Proof. unfold store. fueled. Qed.
Lemma fueled_word i ws : fueled (word i ws).
Proof. unfold word. fueled. Qed.

Lemma fueled_blocks fuel num index end_ l : (Z.to_nat (end_ - index + 1) < fuel)%nat -> fueled (blocks fuel num index end_ l).
Proof.
  revert index l. induction fuel as [|fuel IH]; intros index l Hf; [lia|]. cbn [blocks]. destruct (Z.leb_spec index end_) as [Hi|Hi]; cbn [andb]; [|done].
  destruct (_ <? _); [|done]. apply fueled_bind; [apply fueled_store|]. intros l1. destruct (_ =? _); [done|]. apply IH. lia.
Qed.

Lemma fueled_msr_line num line l : fueled (msr_line num line l).
Proof.
  unfold msr_line, add_long. fueled; try apply fueled_split; try apply fueled_word; apply fueled_blocks; lia.
Qed.
Lemma fueled_twitter_line line l : fueled (twitter_line line l).
Proof. unfold twitter_line. fueled; try apply fueled_split; try apply fueled_word; apply fueled_store. Qed.

Lemma fueled_lines num one lines l : (forall line l, fueled (one line l)) -> fueled (read_lines num one lines l).
Proof. intros Hone. revert l. induction lines as [|line lines IH]; intros l; cbn [read_lines]; [done|]; fueled. Qed.

Lemma fueled_take buf idx l : fueled (take_requests buf idx l).
Proof. revert l. induction idx as [|i idx IH]; intros l; cbn [take_requests]; [done|]. unfold buffered. fueled; apply fueled_store. Qed.

Lemma fueled_binary fuel num frn file buf l : (length file < fuel)%nat -> fueled (read_binary fuel num frn file buf l).
Proof.
  revert file buf l. induction fuel as [|fuel IH]; intros file buf l Hf; [lia|]. cbn [read_binary]. destruct (_ <? _); [|done].
  unfold infile_read_size, request_buffer_size. destruct (Nat.ltb_spec (length file) (12 * 1024)) as [Hs|Hs]; [apply fueled_take|].
  apply fueled_bind; [apply fueled_take|]. intros l1. apply IH. rewrite length_drop. lia.
Qed.

Lemma fueled_files num open one names l : (forall file l, fueled (one file l)) -> fueled (read_files num open one names l).
Proof. intros Hone. revert l. induction names as [|name names IH]; intros l; cbn [read_files]; [done|]; fueled. Qed.

Lemma fueled_suffixes fuel i end_ temp : (Z.to_nat (end_ - i + 1) < fuel)%nat -> fueled (suffixes_from fuel i end_ temp).
Proof.
  revert i temp. induction fuel as [|fuel IH]; intros i temp Hf; [lia|]. cbn [suffixes_from]. destruct (Z.leb_spec i end_); [|done]. destruct (_ =? _); [done|]. apply IH. lia.
Qed.

(** C33: Every loader ends on every file system, whatever is in the files: the
    loops over files, chunks, lines, words and blocks all do. *)
Theorem loaders_end open buf num work typ start end_ binary :
  MSR open num work typ <> Crash OutOfFuel /\ Twitter open num work typ start end_ <> Crash OutOfFuel /\
  Twitter_binary open buf num work typ start end_ binary <> Crash OutOfFuel.
Proof.
  assert (Hs : fueled (suffixs work start end_)) by (unfold suffixs, extract_suffix_string; fueled; apply fueled_suffixes; lia).
  unfold MSR, Twitter, Twitter_binary. split_and!; match goal with |- ?r <> _ => change (fueled r) end; fueled; try exact Hs.
  - apply fueled_split.
  - apply fueled_lines, fueled_msr_line.
  - apply fueled_files. intros file l. fueled; [apply fueled_split|]. apply fueled_lines, fueled_twitter_line.
  - apply fueled_files. intros file l. apply fueled_binary. lia.
Qed.

(** ** [GetRequest] *)

(** A request is found at its position as long as that fits 32 bits; the
    position wraps at 2^32, not at the end of the queue. *)
Theorem get_request_wraps index l : requests_ l <> [] -> queue_size l = load_index_ (requests_ l) ->
  exists r, requests_ l !! Z.to_nat (u32 index mod queue_size l) = Some r /\ GetRequest index l = Ok r /\ GetRequest (index + 2 ^ 32) l = Ok r.
Proof.
  intros Hne Hq. assert (Hpos : 0 < queue_size l) by (rewrite Hq; unfold load_index_; destruct (requests_ l); [done|cbn; lia]).
  assert (Hm := Z.mod_pos_bound (u32 index) (queue_size l) Hpos). rewrite Hq in Hm at 3. unfold load_index_ in Hm.
  destruct (lookup_lt_is_Some_2 (requests_ l) (Z.to_nat (u32 index mod queue_size l)) ltac:(lia)) as [r Hr].
  assert (Hu : u32 (index + 2 ^ 32) = u32 index) by (unfold u32; replace (index + 2 ^ 32) with (index + 1 * 2 ^ 32) by lia; by rewrite Z.mod_add).
  exists r. unfold GetRequest. rewrite Hu, (proj2 (Z.eqb_neq _ _)), Hr by lia. done.
Qed.

(** ** Witnesses *)

Definition msr_words : list (list Z) := [str "128166372003061629"; str "hm"; str "0"; str "Read"; str "383496192"; str "32768"; str "413"].

Lemma msr_line_blocks_witness :
  msr_line 1000 (join comma msr_words) [] = Ok (new_request READ <$> [93627; 93628; 93629; 93630; 93631; 93632; 93633; 93634]).
Proof.
  unfold msr_words. rewrite (msr_line_blocks 1000 [] (str "128166372003061629") (str "hm") (str "0") (str "Read") (str "383496192") (str "32768") [str "413"]).
  - vm_compute. reflexivity.
  - vm_compute. discriminate.
  - refine (bool_decide_unpack _ _). vm_compute. exact I.
  - by left.
  - vm_compute. discriminate.
  - vm_compute. reflexivity.
  - vm_compute. discriminate.
Defined.

Definition records_1 : list (Z * request) := [(5, new_request get 7); (6, new_request set 4000000000)].
Definition records_2 : list (Z * request) := [(9, new_request delete_ 7)].
Definition demo_open (name : list Z) : option (list Z) :=
  if bool_decide (name = str "trace.9.bin") then Some (encode_file records_1)
  else if bool_decide (name = str "trace.10.bin") then Some (encode_file records_2) else None.

Lemma binary_roundtrip_witness :
  Twitter_binary demo_open [] 100 (str "trace") (str "Twitter") (str "9") (str "10") true =
    Ok (Some (loaded [new_request get 7; new_request set 4000000000; new_request delete_ 7])).
Proof.
  apply (binary_roundtrip demo_open [] 100 (str "trace") 9 10 [records_1; records_2]); try lia.
  - repeat constructor.
  - assert (Hb : forall rs : list (Z * request), bool_decide (Forall (fun r => operation_code (Type_ r) <> 0 /\ 0 <= Key r < 2 ^ 32) rs.*2) = true -> (length rs < 3)%nat ->
      Forall binary_request rs.*2 /\ Z.of_nat (length rs) < 2 ^ 31) by (intros rs Hr%bool_decide_eq_true_1 Hl; split; [exact Hr|lia]).
    constructor; [|constructor; [|constructor]]; (apply Hb; [reflexivity|cbn; lia]).
  - cbn. lia.
  - vm_compute. discriminate.
Defined.

Definition demo_single (name : list Z) : option (list Z) :=
  if bool_decide (name = str "trace.bin") then Some (encode_file (replicate 1030 (0, new_request get 7))) else None.

Lemma binary_single_file_tail_witness :
  Twitter_binary demo_single [] 5000 (str "trace.bin") (str "Twitter") [] [] true = Ok (Some (loaded (replicate 1024 (new_request get 7)))).
Proof.
  rewrite (binary_single_file_tail demo_single [] 5000 (str "trace.bin") (replicate 1030 (0, new_request get 7))).
  - vm_compute. reflexivity.
  - reflexivity.
  - rewrite fmap_replicate. apply Forall_replicate. split; vm_compute; [discriminate|]. split; [discriminate|reflexivity].
  - vm_compute. discriminate.
  - vm_compute. discriminate.
Defined.

Lemma get_request_wraps_witness : let l := loaded (new_request READ <$> [5; 6; 7]) in
  GetRequest (2 ^ 32 - 1) l = Ok (new_request READ 5) /\ GetRequest (2 ^ 32) l = Ok (new_request READ 5) /\ GetRequest 0 l = Ok (new_request READ 5).
Proof.
  destruct (get_request_wraps 0 (loaded (new_request READ <$> [5; 6; 7]))) as (r & _ & H1 & H2); [done|done|].
  assert (He : Ok r = Ok (new_request READ 5)) by (rewrite <- H1; reflexivity). cbn zeta.
  split; [reflexivity|]. rewrite H1, <- (Z.add_0_l (2 ^ 32)), H2. by rewrite He.
Defined.

