(* ===== verification/Workload.v ===== *)
(** * Parameters and synthetic keys ([ssdlogging/properties.h], [traceloader/zipfian.h])

    [Properties] is a map from names to values.  The Zipf generator works with
    floating point numbers: what it yields is a parameter; how its values are
    scattered over the keys is integer arithmetic and modelled. *)

From stdpp Require Import strings.
From S2P Require Import Prelude.
Local Open Scope Z_scope.

(** ** [Properties] *)
Record Properties := { properties_ : gmap string string }.
Definition new_Properties : Properties := {| properties_ := ∅ |}.

Definition GetProperty (key default_value : string) (p : Properties) : string :=
  match properties_ p !! key with Some v => v | None => default_value end.
(** [operator[]]: [at] throws. *)
Definition property_at (key : string) (p : Properties) : res string :=
  match properties_ p !! key with Some v => Ok v | None => Crash OutOfRange end.
Definition SetProperty (key value : string) (p : Properties) : Properties := {| properties_ := <[key := value]> (properties_ p) |}.

(** ** [FNVHash64] *)
Definition kFNVOffsetBasis64 : Z := 0xCBF29CE484222325.
Definition kFNVPrime64 : Z := 1099511628211.

Fixpoint fnv_loop (n : nat) (hash val : Z) : Z :=
  match n with
  | O => hash
  | S n =>
      let octet := Z.land val 0xff in
      let val := Z.shiftr val 8 in
      fnv_loop n (u64 (Z.lxor hash octet * kFNVPrime64)) val
  end.
Definition FNVHash64 (val : Z) : Z := fnv_loop 8 kFNVOffsetBasis64 val.
Definition Hash (val : Z) : Z := FNVHash64 val.

(** ** [ScrambledZipfianGenerator] over [min .. max] *)
Record ScrambledZipfianGenerator := { base_ : Z; num_items_ : Z }.
Definition new_ScrambledZipfianGenerator (min max : Z) : ScrambledZipfianGenerator := {| base_ := min; num_items_ := u64 (max - min + 1) |}.

Definition Scramble (value : Z) (g : ScrambledZipfianGenerator) : res Z :=
  if num_items_ g =? 0 then Crash DivideByZero else Ok (u64 (base_ g + FNVHash64 value mod num_items_ g)).
(** [generated] is what the Zipf generator yields. *)
Definition Next (generated : Z) (g : ScrambledZipfianGenerator) : res Z := Scramble generated g.
(** [Last] scrambles the last value of the generator again. *)
Definition Last (last_value_ : Z) (g : ScrambledZipfianGenerator) : res Z := Scramble last_value_ g.

(** ** Properties *)
Lemma fnv_range val : 0 <= FNVHash64 val < 2 ^ 64.
Proof.
  unfold FNVHash64. assert (H : forall n hash v, 0 <= hash < 2 ^ 64 -> 0 <= fnv_loop n hash v < 2 ^ 64); [|by apply H].
  induction n as [|n IH]; intros hash v Hh; cbn; [done|]. apply IH, u64_range.
Qed.

(** Every key of the Zipf workload is in the range that was asked for, and
    the last key can be asked for again. *)
Theorem zipf_key_range min max generated : 0 <= min -> min <= max -> max < 2 ^ 64 - 1 ->
  exists key, Next generated (new_ScrambledZipfianGenerator min max) = Ok key /\
    Last generated (new_ScrambledZipfianGenerator min max) = Ok key /\ min <= key <= max.
Proof.
  intros H0 Hm Hmax. unfold Last, Next, Scramble, new_ScrambledZipfianGenerator. cbn [num_items_ base_]. rewrite (u64_small (max - min + 1)) by lia. rewrite (proj2 (Z.eqb_neq _ _)) by lia.
  assert (Hr := Z.mod_pos_bound (FNVHash64 generated) (max - min + 1) ltac:(lia)).
  eexists. split; [done|]. rewrite u64_small by lia. split; [done|lia].
Qed.

Lemma zipf_key_range_witness : exists key, Next 7 (new_ScrambledZipfianGenerator 0 1000000) = Ok key /\
  Last 7 (new_ScrambledZipfianGenerator 0 1000000) = Ok key /\ 0 <= key <= 1000000.
Proof. apply (zipf_key_range 0 1000000 7); lia. Defined.

Lemma get_set_property key key' v d p : GetProperty key' d (SetProperty key v p) = if decide (key = key') then v else GetProperty key' d p.
Proof.
  unfold GetProperty, SetProperty. cbn. destruct (decide (key = key')) as [->|]; [by rewrite lookup_insert_eq | by rewrite lookup_insert_ne].
Qed.
