(* ===== verification/Client.v ===== *)
(** * The client ([traceloader/client.h], [test_trace.cpp])

    The command line becomes [Properties], from which the constructor builds the
    loader and the sharded cache.  Every worker thread takes its share of the
    requests of the trace: a read is served from the cache or, after the latency
    of the disk, by an insertion; a deletion is passed on.  The shards are
    anything that keeps [CacheLaws], which the baseline caches do and the
    FrozenHot ones do not.  The threads are interleaved call by call: between the
    lookup of a thread, its [busy_sleep], its insertion and the recording of the
    latency any others may run.  A call on the cache is one step.  Clocks, CPU
    affinity and the duration of the sleep are left out; where the latency of a
    request is recorded is modelled.  [stop] is what the thread reads of
    [stop_sample_stat], [env] the choices of a [find]. *)

From stdpp Require Import strings.
From Stdlib Require Import QArith Qround.
Local Close Scope Q_scope.
From S2P Require Import Workload TraceLoader TraceLoaderProps.
From S2P Require Import Prelude CacheSpec CacheAPI ScalableCache.
Local Open Scope Z_scope.

(** ** The command line ([main]): [argv] without the name of the program *)
Definition property_names : list string :=
  ["threads num"; "cache size"; "request num"; "seg num"; "workload type"; "workload file or zipf const"; "cache type"; "disk lat"; "rebuild freq";
   "workload start"; "workload end"]%string.
Definition ParseCommandLine (argv : list string) : option Properties :=
  let argc := S (length argv) in
  if negb (argc =? 10)%nat && negb (argc =? 12)%nat then None
  else Some (foldl (fun props kv => SetProperty kv.1 kv.2 props) new_Properties (zip property_names argv)).

(** ** The client *)

(** [req_latency_] has 16 entries. *)
Definition req_latencies : Z := 16.
Definition shift : Z := 64 - 16.

(** The statistics a latency is inserted into. *)
Inductive sink := Req (shard : Z) | Total_hit | Total_other.

Record Client := {
  loader_1 : TraceLoader;
  seg : Z;
  request_num : Z;
  work_thread : Z;
  is_fh_cache_type : bool;
  disk_lat : Z;
  rebuild_freq : Z;
  Large_Granularity : Z;
  Granularity : Z
}.
Definition base_coreid : Z := 0.

(** [atoi] *)
Definition atoi (s : string) : Z := i32 (strtol (str s)).
(** An [int], or undefined behaviour. *)
Definition int_of (z : Z) : res Z := if (- 2 ^ 31 <=? z) && (z <? 2 ^ 31) then Ok z else Crash SignedOverflow.

Definition cache_types : list (string * (Type_ * bool)) :=
  [("LRU", (LRU, false)); ("LFU", (LFU, false)); ("LRU_FH", (LRU_FH, true)); ("LFU_FH", (LFU_FH, true)); ("FIFO_FH", (FIFO_FH, true));
   ("Redis_LRU", (Redis_LRU, false)); ("FIFO", (FIFO, false)); ("StrictLRU", (StrictLRU, false))]%string.
Fixpoint cache_type_of (name : string) (types : list (string * (Type_ * bool))) : option (Type_ * bool) :=
  match types with
  | [] => None
  | (n, t) :: types => if String.eqb name n then Some t else cache_type_of name types
  end.

(** The constructor.  [atof] is the conversion of the library, [zipf] the keys of
    the generator for its constant, [open] the file system, [request_buffer] what
    [malloc] returns; [None]: the loader exits. *)
Definition load (atof : string -> Q) (zipf : Q -> nat -> Z) (open : list Z -> option (list Z)) (request_buffer : list Z) (request_num : Z)
    (props : Properties) : res (option TraceLoader) :=
  let param := GetProperty "workload file or zipf const" "" props in
  let work_type := GetProperty "workload type" "" props in
  let num := u64 request_num in
  if String.eqb work_type "Zipf" then Ok (Some (Zipf (zipf (atof param))))
  else if String.eqb work_type "MSR" then MSR open num (str param) (str work_type)
  else if String.eqb work_type "Twitter" then
    Twitter_binary open request_buffer num (str param) (str work_type)
      (str (GetProperty "workload start" "" props)) (str (GetProperty "workload end" "" props)) true
  else Crash AssertFail.

(** [cache_size], truncated to an integer. *)
Definition cache_capacity (atof : string -> Q) (props : Properties) : Z :=
  let cache_size := atof (GetProperty "cache size" "" props) in Z.quot (Qnum cache_size) (Zpos (Qden cache_size)).

Definition new_Client {C} (make : Type_ -> Z -> C) (hw : Z) (atof : string -> Q) (zipf : Q -> nat -> Z) (open : list Z -> option (list Z))
    (request_buffer : list Z) (props : Properties) : res (option (Client * ConcurrentScalableCache C)) :=
  let seg := atoi (GetProperty "seg num" "" props) in
  let request_num := strtol (str (GetProperty "request num" "" props)) in
  let work_thread := atoi (GetProperty "threads num" "" props) in
  let rebuild_freq := atoi (GetProperty "rebuild freq" "" props) in
  large ← int_of (work_thread * 1000);
  granularity ← int_of (work_thread * 1);
  loader ← load atof zipf open request_buffer request_num props;
  match loader with
  | None => Ok None
  | Some loader_1 =>
      real_cache_size ← int_of (cache_capacity atof props);
      match cache_type_of (GetProperty "cache type" "" props) cache_types with
      | None => Crash AssertFail
      | Some (type, fh) =>
          scalable_cache ← new_ConcurrentScalableCache make hw (u64 real_cache_size) (u64 seg) type (if fh then rebuild_freq else 0);
          if seg =? 0 then Crash DivideByZero else
          _ ← int_of (Z.quot real_cache_size seg);
          Ok (Some ({| loader_1 := loader_1; seg := seg; request_num := request_num; work_thread := work_thread; is_fh_cache_type := fh;
                       disk_lat := atoi (GetProperty "disk lat" "" props); rebuild_freq := rebuild_freq;
                       Large_Granularity := u64 large; Granularity := u64 granularity |}, scalable_cache))
      end
  end.

(** The core of the [i]th thread and where it starts in the trace. *)
Definition core_of (i : Z) : Z := if 39 <? base_coreid + i then base_coreid + i + 40 else base_coreid + i.
Definition offset_of (coreid : Z) : Z := if 40 <? coreid then coreid - 40 else coreid.
Definition position (coreid i work_thread : Z) : Z := u64 (offset_of coreid + u64 (i * work_thread)).

(** [request_num / work_thread] *)
Definition single_num (cl : Client) : res Z :=
  if work_thread cl =? 0 then Crash DivideByZero else Ok (u64 (Z.quot (request_num cl) (work_thread cl))).

(** [total_hit_latency_] or [total_other_latency_] *)
Definition total (ret_flag : bool) : sink := if ret_flag then Total_hit else Total_other.

(** A worker: where it is in the body of the loop, at request [i_] of [num]. *)
Inductive place := Asking | Sleeping (key : Z) | Recording (key : Z) (ret_flag : bool).
Record worker := { coreid : Z; num : Z; i_ : Z; at_ : place }.
Definition new_worker (num coreid : Z) : worker := {| coreid := coreid; num := num; i_ := 0; at_ := Asking |}.
Definition goto (p : place) (w : worker) : worker := {| coreid := coreid w; num := num w; i_ := i_ w; at_ := p |}.
Definition next (w : worker) : worker := {| coreid := coreid w; num := num w; i_ := i_ w + 1; at_ := Asking |}.

(** What a thread did, for the [i]th of its requests. *)
Inductive event :=
  | Looked (coreid i key : Z) (hit : bool)
  | Fetched (coreid i key : Z)
  | Dropped (coreid i key : Z)
  | Recorded (coreid i : Z) (ret_flag : bool) (ks : list sink).

Section client.
Context {C V : Type} `{CacheAPI C V} (hash : Z -> Z).
Abbreviation CSC := (ConcurrentScalableCache C).
Context (r_value w_value : V).

Context (cl : Client) (env : Z -> Z -> choice) (stop : Z -> Z -> bool).

(** Where the latency of the [i]th request goes. *)
Definition sinks (i key : Z) (stop ret_flag : bool) : res (list sink) :=
  if (Granularity cl =? 0) || (Large_Granularity cl =? 0) then Crash DivideByZero else
  let is_large := i mod Large_Granularity cl =? 0 in
  if negb stop && (i mod Granularity cl =? 0) then
    if u64 (seg cl) =? 0 then Crash DivideByZero else
    let shard := Z.shiftr (hash key) shift mod u64 (seg cl) in
    if shard <? req_latencies then Ok (Req shard :: (if is_large then [total ret_flag] else []))
    else Crash OutOfRange
  else if stop && is_large then Ok [total ret_flag]
  else Ok [].

Definition lift {A} (m : res A) : SM CSC A := fun s => match m with Ok a => Ok (a, s) | Crash e => Crash e end.

(** The call of [find] for a read or a write, and where it leads. *)
Definition look (w : worker) (key : Z) : SM CSC (worker * list event) :=
  r ← find hash (env (coreid w) (i_ w)) r_value key;
  mret (goto (if (r.1 : bool) then Recording key true else Sleeping key) w, [Looked (coreid w) (i_ w) key r.1]).

(** One step of a thread: a call on the cache, or the recording of a latency;
    nothing when it is through. *)
Definition worker_step (w : worker) : SM CSC (worker * list event) :=
  if num w <=? i_ w then mret (w, []) else
  match at_ w with
  | Asking =>
      req ← lift (GetRequest (position (coreid w) (i_ w) (work_thread cl)) (loader_1 cl));
      assertM (negb (Key req =? 0));;
      if bool_decide (TraceLoader.Type_ req = READ) then look w (Key req)
      else if bool_decide (TraceLoader.Type_ req = delete_) then
        delete_key hash (Key req);; mret (goto (Recording (Key req) false) w, [Dropped (coreid w) (i_ w) (Key req)])
      else look w (Key req)
  | Sleeping key => insert hash key w_value;; mret (goto (Recording key false) w, [Fetched (coreid w) (i_ w) key])
  | Recording key ret_flag =>
      ks ← lift (sinks (i_ w) key (stop (coreid w) (i_ w)) ret_flag);
      mret (next w, [Recorded (coreid w) (i_ w) ret_flag ks])
  end.

(** The threads, in the order [sched] lets them run. *)
Fixpoint run_workers (sched : list nat) (ws : list worker) : SM CSC (list worker * list event) :=
  match sched with
  | [] => mret (ws, [])
  | t :: sched =>
      match ws !! t with
      | None => run_workers sched ws
      | Some w => r ← worker_step w; rest ← run_workers sched (<[t := r.1]> ws); mret (rest.1, r.2 ++ rest.2)
      end
  end.

(** The threads [warmup] starts: each has the number of its requests and its core. *)
Definition warmup_threads : res (list worker) :=
  num ← single_num cl; Ok ((fun i => new_worker num (core_of i)) <$> seqZ 0 (work_thread cl)).
End client.

(** ** The threads share the trace *)

(** The requests of all threads, one thread after the other. *)
Definition all_turns (ws : list worker) : list (Z * Z) :=
  concat ((fun w => (fun i => (coreid w, i)) <$> seqZ 0 (num w)) <$> ws).

(** The [n] threads together ask for every position below [n * m] once, where
    [m] is the number of requests of each. *)
Lemma worker_positions n m : 0 < n -> 0 <= m -> n * m < 2 ^ 64 ->
  concat ((fun t => (fun i => position (core_of t) i n) <$> seqZ 0 m) <$> seqZ 0 n) ≡ₚ seqZ 0 (n * m).
Proof.
  intros Hn Hm Hs.
  assert (Hpos : forall t i, 0 <= t < n -> 0 <= i < m -> position (core_of t) i n = t + i * n).
  { intros t i Ht Hi. unfold position, core_of, offset_of, base_coreid. rewrite Z.add_0_l.
    assert (t + i * n < n * m) by nia. rewrite (u64_small (i * n)) by nia.
    destruct (Z.ltb_spec 39 t); [rewrite (proj2 (Z.ltb_lt _ _)) by lia | rewrite (proj2 (Z.ltb_ge _ _)) by lia]; rewrite u64_small; nia. }
  assert (Hrow : forall t, 0 <= t < n -> (fun i => position (core_of t) i n) <$> seqZ 0 m = (fun i => t + i * n) <$> seqZ 0 m).
  { intros t Ht. apply list_fmap_ext. intros j i Hj. apply lookup_seqZ in Hj as [-> Hj]. apply Hpos; lia. }
  apply NoDup_Permutation; [|apply NoDup_seqZ|].
  - apply (nodup_concat _ (fun k => Z.to_nat (k mod n))). intros j l Hj. apply list_lookup_fmap_Some in Hj as (t & -> & Ht).
    apply lookup_seqZ in Ht as [-> Ht]. rewrite Hrow by lia. split.
    + apply NoDup_fmap_2; [|apply NoDup_seqZ]. intros i i' He. nia.
    + intros k Hk. apply list_elem_of_fmap in Hk as (i & -> & _). rewrite Z.mod_add, Z.mod_small by lia. lia.
  - intros k. rewrite elem_of_seqZ. rewrite list_elem_of_In, in_concat. split.
    + intros (l & Hl & Hk). apply list_elem_of_In, list_elem_of_fmap in Hl as (t & -> & Ht%elem_of_seqZ). rewrite Hrow in Hk by lia.
      apply list_elem_of_In, list_elem_of_fmap in Hk as (i & -> & Hi%elem_of_seqZ). nia.
    + intros Hk. assert (Hd := Z.div_mod k n ltac:(lia)). assert (Hr := Z.mod_pos_bound k n Hn).
      assert (Hq : 0 <= k / n < m) by (split; [apply Z.div_pos; lia|apply Z.div_lt_upper_bound; lia]).
      exists ((fun i => position (core_of (k mod n)) i n) <$> seqZ 0 m). split; apply list_elem_of_In, list_elem_of_fmap.
      * exists (k mod n). split; [done|]. apply elem_of_seqZ. lia.
      * exists (k / n). split; [|apply elem_of_seqZ; lia]. rewrite Hpos by lia. lia.
Qed.


(** ** A request on the cache *)
Section proofs.
Context {C V : Type} `{CacheLaws C V R cap p} (hash : Z -> Z).
Abbreviation CSC := (ConcurrentScalableCache C).
Implicit Types (s : CSC) (ls : list (list (Z * V))).
Notation RepS := (RepS (R := R) (capacity := cap)).
Context (r_value w_value : V).

(** The key is in the shard of its hash. *)
Definition cached ls (key : Z) : Prop := is_Some (assoc key (ls !!! shard_index hash (length ls) key)).
#[local] Instance cached_dec ls key : Decision (cached ls key).
Proof. unfold cached. apply _. Defined.

Lemma cached_on_shard caps key (o : op V) ls k : 0 < Z.of_nat (length ls) ->
  cached (on_shard (p := p) hash caps key o ls).2 k <->
    is_Some (assoc k (if decide (shard_index hash (length ls) k = shard_index hash (length ls) key)
                      then (spec_op p (caps !!! shard_index hash (length ls) key) o (ls !!! shard_index hash (length ls) key)).2
                      else ls !!! shard_index hash (length ls) k)).
Proof.
  intros Hn. assert (Hlt := shard_index_lt hash (length ls) key ltac:(lia)). unfold cached, on_shard. destruct (spec_op _ _ _ _) as [a l']. cbn [snd].
  rewrite length_insert. destruct (decide _) as [He|Hne]; [rewrite He, list_lookup_total_insert_eq by done | rewrite list_lookup_total_insert_ne by congruence]; done.
Qed.

Lemma cached_find caps key e ac ls s k : RepS s caps ls ->
  cached (on_shard (p := p) hash caps key (Find e ac key) ls).2 k <-> cached ls k.
Proof.
  intros HR. assert (Hp := rs_pos _ _ _ HR). rewrite cached_on_shard by lia. unfold cached. destruct (decide _) as [->|]; [|done]. cbn [spec_op snd].
  destruct (reps_lookup _ _ _ _ HR (shard_index_lt hash (length ls) key Hp)) as (c & l & _ & Hl & HRc & _). rewrite (list_lookup_total_correct _ _ _ Hl).
  assert (HN := law_nodup _ _ HRc). assert (Hpm := law_policy e key l HN).
  assert (HN' : NoDup (p e key l).*1) by (by rewrite Hpm). split; intros [v Hv]; exists v; rewrite assoc_Some in Hv |- * by done; [by rewrite <- Hpm | by rewrite Hpm].
Qed.

Lemma cached_insert caps key v ls s : RepS s caps ls -> cached (on_shard (p := p) hash caps key (Insert key v) ls).2 key.
Proof.
  intros HR. assert (Hp := rs_pos _ _ _ HR). rewrite cached_on_shard by lia. rewrite decide_True by done. cbn [spec_op]. unfold add.
  destruct (assoc key (ls !!! _)) as [w|] eqn:Ha; cbn [snd]; [by rewrite Ha|]. cbn [assoc]. rewrite decide_True by done. by eexists.
Qed.

Lemma cached_delete caps key ls s : RepS s caps ls -> ~ cached (on_shard (p := p) hash caps key (DeleteKey key) ls).2 key.
Proof.
  intros HR. assert (Hp := rs_pos _ _ _ HR). rewrite cached_on_shard by lia. rewrite decide_True by done. cbn [spec_op snd].
  rewrite assoc_without, decide_True by done. by intros [v Hv].
Qed.

Lemma wp_find_hit s caps ls e key : RepS s caps ls -> wp (find hash e r_value key) s (fun r s' =>
  r.1 = bool_decide (cached ls key) /\ RepS s' caps (on_shard (p := p) hash caps key (Find e r_value key) ls).2).
Proof.
  intros HR. assert (Hc := wp_call hash s caps ls (Find e r_value key) HR). cbn [call spec_call] in Hc. revert Hc. unfold wp, mbind, SM_bind.
  destruct (find hash e r_value key s) as [[r s1]|]; [|done]. cbn [mret SM_ret]. intros [Ha HR']. split; [|exact HR'].
  apply (f_equal (fun a => match a with Found h _ => h | _ => false end)) in Ha. exact Ha.
Qed.

(** ** A worker *)
Context (cl : Client) (env : Z -> Z -> choice) (stop : Z -> Z -> bool).

(** A client whose threads can work: its trace is not empty and without the key
    0, and it has at most as many shards as there are statistics. *)
Record client_ok : Prop := {
  ok_queue : queue_size (loader_1 cl) = load_index_ (requests_ (loader_1 cl));
  ok_requests : requests_ (loader_1 cl) <> [];
  ok_keys : Forall (fun r => Key r <> 0) (requests_ (loader_1 cl));
  ok_granularity : Granularity cl <> 0 /\ Large_Granularity cl <> 0;
  ok_seg : 0 < seg cl <= req_latencies
}.
Context (Hok : client_ok).

Definition request_at (coreid i : Z) : option request :=
  requests_ (loader_1 cl) !! Z.to_nat (u32 (position coreid i (work_thread cl)) mod queue_size (loader_1 cl)).

Lemma get_request coreid i :
  exists r, request_at coreid i = Some r /\ GetRequest (position coreid i (work_thread cl)) (loader_1 cl) = Ok r /\ Key r <> 0.
Proof.
  destruct Hok as [Hq Hne Hkeys _ _]. set (n := position coreid i (work_thread cl)). set (l := loader_1 cl) in *.
  assert (Hpos : 0 < queue_size l) by (rewrite Hq; unfold load_index_; destruct (requests_ l); [done|cbn; lia]).
  assert (Hm := Z.mod_pos_bound (u32 n) (queue_size l) Hpos).
  destruct (lookup_lt_is_Some_2 (requests_ l) (Z.to_nat (u32 n mod queue_size l))) as [r Hr].
  { rewrite Hq in *. unfold load_index_ in *. lia. }
  exists r. unfold request_at, GetRequest. fold n l. rewrite (proj2 (Z.eqb_neq _ _)), Hr by lia. split_and!; [done|done|].
  rewrite Forall_lookup in Hkeys. by eapply Hkeys.
Qed.

Lemma sinks_ok i key b hit : exists ks, sinks hash cl i key b hit = Ok ks.
Proof.
  destruct Hok as [_ _ _ [Hg Hl] Hseg]. unfold req_latencies in Hseg. unfold sinks. rewrite (proj2 (Z.eqb_neq (Granularity cl) 0)), (proj2 (Z.eqb_neq (Large_Granularity cl) 0)) by done. cbn [orb].
  rewrite (u64_small (seg cl)), (proj2 (Z.eqb_neq (seg cl) 0)) by lia. assert (Hm := Z.mod_pos_bound (Z.shiftr (hash key) shift) (seg cl) ltac:(lia)).
  unfold req_latencies. rewrite (proj2 (Z.ltb_lt _ 16)) by lia. destruct (_ && _); [by eexists|]. destruct (_ && _); by eexists.
Qed.

(** What a step does on the contents of the shards: a lookup hits when its key is
    cached, an insertion and a deletion are those of the shard of the key. *)
Definition spec_look caps (w : worker) (key : Z) ls : (worker * list event) * list (list (Z * V)) :=
  let hit := bool_decide (cached ls key) in
  (goto (if hit then Recording key true else Sleeping key) w, [Looked (coreid w) (i_ w) key hit],
   (on_shard (p := p) hash caps key (Find (env (coreid w) (i_ w)) r_value key) ls).2).

Definition spec_step caps (w : worker) ls : res ((worker * list event) * list (list (Z * V))) :=
  if num w <=? i_ w then Ok (w, [], ls) else
  match at_ w with
  | Asking =>
      match request_at (coreid w) (i_ w) with
      | None => Crash OutOfRange
      | Some req =>
          if bool_decide (TraceLoader.Type_ req = delete_) then
            Ok (goto (Recording (Key req) false) w, [Dropped (coreid w) (i_ w) (Key req)], (on_shard (p := p) hash caps (Key req) (DeleteKey (Key req)) ls).2)
          else Ok (spec_look caps w (Key req) ls)
      end
  | Sleeping key =>
      Ok (goto (Recording key false) w, [Fetched (coreid w) (i_ w) key], (on_shard (p := p) hash caps key (Insert key w_value) ls).2)
  | Recording key ret_flag =>
      match sinks hash cl (i_ w) key (stop (coreid w) (i_ w)) ret_flag with
      | Crash e => Crash e
      | Ok ks => Ok (next w, [Recorded (coreid w) (i_ w) ret_flag ks], ls)
      end
  end.

Fixpoint spec_run caps (sched : list nat) (ws : list worker) ls : res ((list worker * list event) * list (list (Z * V))) :=
  match sched with
  | [] => Ok (ws, [], ls)
  | t :: sched =>
      match ws !! t with
      | None => spec_run caps sched ws ls
      | Some w =>
          '(w', e, ls) ← spec_step caps w ls;
          '(ws', es, ls) ← spec_run caps sched (<[t := w']> ws) ls;
          Ok (ws', e ++ es, ls)
      end
  end.

Lemma wp_look s caps ls w key : RepS s caps ls -> wp (look hash r_value env w key) s (fun r s' =>
  r = (spec_look caps w key ls).1 /\ RepS s' caps (spec_look caps w key ls).2).
Proof.
  intros HR. unfold look, spec_look. wp_step. eapply wp_mono; [by apply wp_find_hit|]. intros r s1 [Hr HR1]. wp_step. by rewrite Hr.
Qed.

Lemma wp_worker_step s caps ls w : RepS s caps ls ->
  wp (worker_step hash r_value w_value cl env stop w) s (fun r s' => exists ls', spec_step caps w ls = Ok (r, ls') /\ RepS s' caps ls').
Proof.
  intros HR. unfold worker_step, spec_step. destruct (num w <=? i_ w); [by wp_step; exists ls|]. destruct (at_ w) as [|key|key flag].
  - destruct (get_request (coreid w) (i_ w)) as (req & Hr & Hget & Hkey). wp_step. unfold lift at 1. rewrite Hget. unfold wp at 1.
    rewrite (proj2 (Z.eqb_neq _ _) Hkey), Hr. do 2 wp_step; [done|]. assert (Hlook : wp (look hash r_value env w (Key req)) s (fun r s' =>
      exists ls', Ok (spec_look caps w (Key req) ls) = Ok (r, ls') /\ RepS s' caps ls')).
    { eapply wp_mono; [by apply wp_look|]. intros r s1 [-> HR1]. eexists. split; [|exact HR1]. by destruct (spec_look caps w (Key req) ls). }
    destruct (decide (TraceLoader.Type_ req = delete_)) as [Hd|Hd].
    + rewrite Hd. rewrite bool_decide_false, !bool_decide_true by done. wp_step.
      assert (Hc := wp_call hash s caps ls (DeleteKey (Key req)) HR). cbn [call spec_call] in Hc. revert Hc. unfold wp, mbind, SM_bind.
      destruct (delete_key hash (Key req) s) as [[u s1]|]; [|done]. cbn [mret SM_ret]. intros [_ HR1]. eexists. by split.
    + rewrite !(bool_decide_false (TraceLoader.Type_ req = delete_)) by done. by destruct (bool_decide (TraceLoader.Type_ req = READ)).
  - wp_step. assert (Hc := wp_call hash s caps ls (Insert key w_value) HR). cbn [call spec_call] in Hc. revert Hc. unfold wp, mbind, SM_bind.
    destruct (insert hash key w_value s) as [[b s1]|]; [|done]. cbn [mret SM_ret]. intros [_ HR1]. eexists. by split.
  - destruct (sinks_ok (i_ w) key (stop (coreid w) (i_ w)) flag) as [ks Hks]. wp_step. unfold lift. rewrite !Hks. unfold wp at 1. wp_step. by exists ls.
Qed.

Lemma wp_run_workers sched s caps ls ws : RepS s caps ls ->
  wp (run_workers hash r_value w_value cl env stop sched ws) s (fun r s' => exists ls', spec_run caps sched ws ls = Ok (r, ls') /\ RepS s' caps ls').
Proof.
  revert s ls ws. induction sched as [|t sched IH]; intros s ls ws HR; cbn [run_workers spec_run]; [wp_step; by exists ls|].
  destruct (ws !! t) as [w|]; [|by apply IH]. wp_step. eapply wp_mono; [by apply wp_worker_step|]. intros [w1 e1] s1 (ls1 & -> & HR1).
  wp_step. eapply wp_mono; [by apply IH|]. intros [ws2 e2] s2 (ls2 & Hs2 & HR2). cbn [fst snd] in *. wp_step. exists ls2. split; [|done].
  cbn [mbind res_bind]. by rewrite Hs2.
Qed.

(** *** Every request of a thread is served once, and its turns are used up *)
Definition served (e : event) : option (Z * Z) := match e with Recorded c i _ _ => Some (c, i) | _ => None end.
Definition served_by (w : worker) : list (Z * Z) := (fun i => (coreid w, i)) <$> seqZ 0 (i_ w).
Definition through (w : worker) : Prop := i_ w = num w.

(** Steps to go, at most. *)
Definition remaining (w : worker) : Z :=
  3 * (num w - i_ w) - match at_ w with Asking => 0 | Sleeping _ => 1 | Recording _ _ => 2 end.

Record worker_ok (w : worker) : Prop := { wk_range : 0 <= i_ w <= num w; wk_end : i_ w = num w -> at_ w = Asking }.

Lemma spec_step_ok caps w ls w' e ls' : spec_step caps w ls = Ok (w', e, ls') -> worker_ok w ->
  worker_ok w' /\ coreid w' = coreid w /\ num w' = num w /\ served_by w' = served_by w ++ omap served e /\
  (remaining w' <= 0 \/ remaining w' <= remaining w - 1).
Proof.
  unfold spec_step, spec_look. intros Hs [Hr He]. destruct (Z.leb_spec (num w) (i_ w)) as [Hd|Hd].
  - injection Hs as <- <- <-. split_and!; [by split | done | done | by rewrite app_nil_r |]. left. unfold remaining. rewrite He by lia. lia.
  - assert (Hg : forall p0 e0, omap served e0 = [] -> remaining (goto p0 w) <= remaining w - 1 ->
      worker_ok (goto p0 w) /\ coreid (goto p0 w) = coreid w /\ num (goto p0 w) = num w /\ served_by (goto p0 w) = served_by w ++ omap served e0 /\
      (remaining (goto p0 w) <= 0 \/ remaining (goto p0 w) <= remaining w - 1)).
    { intros p0 e0 -> Hrem. rewrite app_nil_r. split_and!; [split; cbn; [done | lia] | done | done | done | by right]. }
    destruct (at_ w) as [|key|key flag] eqn:Hat.
    + destruct (request_at _ _) as [req|]; [|done].
      destruct (bool_decide (TraceLoader.Type_ req = delete_)); [|destruct (bool_decide (cached ls (Key req)))];
        (match type of Hs with Ok (_, ?x) = Ok _ => let y := fresh in set (y := x) in Hs; clearbody y end; injection Hs as <- <- _);
        (apply Hg; [done | unfold remaining; cbn; rewrite Hat; lia]).
    + match type of Hs with Ok (_, ?x) = Ok _ => let y := fresh in set (y := x) in Hs; clearbody y end. injection Hs as <- <- _. apply Hg; [done | unfold remaining; cbn; rewrite Hat; lia].
    + destruct (sinks _ _ _ _ _ _) as [ks|]; [|done]. injection Hs as <- <- <-. split_and!; [split; cbn; [lia | done] | done | done | |].
      * unfold served_by, next. cbn [coreid i_ omap list_omap served]. rewrite (seqZ_app 0 (i_ w) 1) by lia. by rewrite fmap_app, Z.add_0_l.
      * right. unfold remaining. cbn. rewrite Hat. lia.
Qed.

Definition turns_of (t : nat) (sched : list nat) : Z := Z.of_nat (length (filter (fun u => u = t) sched)).

Lemma served_insert (ws : list worker) t w w' x : ws !! t = Some w -> served_by w' = served_by w ++ x ->
  concat (served_by <$> <[t := w']> ws) ≡ₚ concat (served_by <$> ws) ++ x.
Proof.
  intros Hw Hs. rewrite insert_take_drop by (by eapply lookup_lt_Some). rewrite <- (take_drop_middle ws t w Hw) at 3.
  rewrite !fmap_app, !fmap_cons, !concat_app. cbn [concat]. rewrite Hs, <- !app_assoc. do 2 apply Permutation_app_head. apply Permutation_app_comm.
Qed.

Lemma spec_run_ok caps sched : forall ws ls ws' es ls', spec_run caps sched ws ls = Ok (ws', es, ls') -> Forall worker_ok ws ->
  Forall worker_ok ws' /\ coreid <$> ws' = coreid <$> ws /\ num <$> ws' = num <$> ws /\
  concat (served_by <$> ws') ≡ₚ concat (served_by <$> ws) ++ omap served es /\
  forall t w w', ws !! t = Some w -> ws' !! t = Some w' -> remaining w' <= Z.max 0 (remaining w - turns_of t sched).
Proof.
  induction sched as [|t sched IH]; intros ws ls ws' es ls'; cbn [spec_run].
  - intros [= <- <- <-] Hws. split_and!; [done | done | done | by rewrite app_nil_r |]. intros t w w' Hw Hw'. rewrite Hw in Hw'. injection Hw' as <-. change (turns_of t []) with 0. lia.
  - destruct (ws !! t) as [w|] eqn:Hw.
    + destruct (spec_step caps w ls) as [[[w1 e1] ls1]|] eqn:H1; [|done]. cbn [mbind res_bind].
      destruct (spec_run caps sched (<[t:=w1]> ws) ls1) as [[[ws2 e2] ls2]|] eqn:H2; [|done]. cbn [mbind res_bind]. intros [= <- <- <-] Hws.
      destruct (spec_step_ok _ _ _ _ _ _ H1 (Forall_lookup_1 _ _ _ _ Hws Hw)) as (Hok1 & Hc1 & Hn1 & Hs1 & Hr1).
      destruct (IH _ _ _ _ _ H2 ltac:(by apply Forall_insert)) as (Hok2 & Hc2 & Hn2 & Hs2 & Hr2).
      split_and!; [done | | | |].
      * rewrite Hc2, list_fmap_insert, Hc1. apply list_insert_id. by rewrite list_lookup_fmap, Hw.
      * rewrite Hn2, list_fmap_insert, Hn1. apply list_insert_id. by rewrite list_lookup_fmap, Hw.
      * rewrite Hs2, (served_insert ws t w w1 _ Hw Hs1), omap_app, <- app_assoc. done.
      * intros u x x' Hx Hx'. unfold turns_of. destruct (decide (u = t)) as [->|Hne].
        -- rewrite Hw in Hx. injection Hx as <-. rewrite filter_cons_True by done. cbn [length].
           specialize (Hr2 t w1 x'). rewrite list_lookup_insert_eq in Hr2 by (by eapply lookup_lt_Some). specialize (Hr2 eq_refl Hx'). unfold turns_of in Hr2. lia.
        -- rewrite filter_cons_False by done. apply (Hr2 u x x'); [|done]. by rewrite list_lookup_insert_ne.
    + intros Hs Hws. destruct (IH _ _ _ _ _ Hs Hws) as (? & ? & ? & ? & Hr). split_and!; try done.
      intros u x x' Hx Hx'. unfold turns_of. rewrite filter_cons_False by (intros ->; congruence). by apply (Hr u).
Qed.
End proofs.

(** ** The constructor *)
Lemma int_of_Ok z n : int_of z = Ok n -> n = z /\ - 2 ^ 31 <= z < 2 ^ 31.
Proof. unfold int_of. destruct (Z.leb_spec (- 2 ^ 31) z), (Z.ltb_spec z (2 ^ 31)); cbn; try done. by intros [= <-]. Qed.

(** What the constructor leaves. *)
Lemma new_Client_ok {C} (make : Type_ -> Z -> C) hw atof zipf open buf props cl s :
  new_Client make hw atof zipf open buf props = Ok (Some (cl, s)) ->
  seg cl = atoi (GetProperty "seg num" "" props) /\ work_thread cl = atoi (GetProperty "threads num" "" props) /\
  request_num cl = strtol (str (GetProperty "request num" "" props)) /\
  Granularity cl = u64 (work_thread cl) /\ Large_Granularity cl = u64 (work_thread cl * 1000) /\ - 2 ^ 31 <= work_thread cl * 1000 < 2 ^ 31 /\
  load atof zipf open buf (request_num cl) props = Ok (Some (loader_1 cl)) /\
  exists type fh cap, cache_type_of (GetProperty "cache type" "" props) cache_types = Some (type, fh) /\ is_fh_cache_type cl = fh /\
    cap = cache_capacity atof props /\ - 2 ^ 31 <= cap < 2 ^ 31 /\
    new_ConcurrentScalableCache make hw (u64 cap) (u64 (seg cl)) type (if fh then rebuild_freq cl else 0) = Ok s.
Proof.
  unfold new_Client. destruct (int_of (_ * 1000)) as [large|] eqn:Hl; [|done]. apply int_of_Ok in Hl as [-> Hl]. cbn [mbind res_bind].
  destruct (int_of (_ * 1)) as [g|] eqn:Hg; [|done]. apply int_of_Ok in Hg as [-> _]. cbn [mbind res_bind]. rewrite Z.mul_1_r.
  destruct (load _ _ _ _ _ _) as [[loader|]|] eqn:Hload; [|done|done]. cbn [mbind res_bind].
  destruct (int_of (cache_capacity _ _)) as [c|] eqn:Hc; [|done]. apply int_of_Ok in Hc as [-> Hc]. cbn [mbind res_bind].
  destruct (cache_type_of _ _) as [[type fh]|] eqn:Ht; [|done]. destruct (new_ConcurrentScalableCache _ _ _ _ _ _) as [s'|] eqn:Hs; [|done]. cbn [mbind res_bind].
  destruct (_ =? 0); [done|]. destruct (int_of _); [|done]. intros [= <- <-]. cbn. split_and!; try done; try lia. by eexists type, fh, _.
Qed.

(** Every loader sets the size of the queue to the number of requests. *)
Lemma load_queue_size atof zipf open buf num props l :
  load atof zipf open buf num props = Ok (Some l) -> queue_size l = load_index_ (requests_ l).
Proof.
  unfold load. destruct (String.eqb _ "Zipf"); [|destruct (String.eqb _ "MSR"); [|destruct (String.eqb _ "Twitter"); [|done]]].
  - intros [= <-]. unfold Zipf, load_index_. cbn [queue_size requests_]. rewrite length_fmap, length_seq. by rewrite Z2Nat.id.
  - unfold MSR. destruct (negb _); [done|]. destruct (open _); [|done]. destruct (getlines _); [|done]. cbn [mbind res_bind].
    destruct (read_lines _ _ _ _); [|done]. by intros [= <-].
  - unfold Twitter_binary. destruct (negb _); [done|]. destruct (suffixs _ _ _); [|done]. cbn [mbind res_bind].
    destruct (read_files _ _ _ _ _) as [[r|]|]; [|done..]. by intros [= <-].
Qed.

(** The threads at their start. *)
Lemma warmup_new cl threads : warmup_threads cl = Ok threads -> 0 < work_thread cl -> 0 <= request_num cl ->
  Forall (fun w => worker_ok w /\ i_ w = 0 /\ at_ w = Asking) threads.
Proof.
  intros Ht Hn Hr. unfold warmup_threads, single_num in Ht. rewrite (proj2 (Z.eqb_neq _ _)) in Ht by lia. cbn [mbind res_bind] in Ht. injection Ht as <-.
  apply Forall_fmap, Forall_true. intros i. split; [|done]. assert (Hu := u64_range (Z.quot (request_num cl) (work_thread cl))). split; cbn; [lia | done].
Qed.

(** The turns of the threads of [warmup] ask for every position once. *)
Lemma positions_all cl threads : warmup_threads cl = Ok threads -> 0 < work_thread cl -> 0 <= request_num cl < 2 ^ 63 ->
  ((fun t => position t.1 t.2 (work_thread cl)) <$> all_turns threads) ≡ₚ seqZ 0 (work_thread cl * Z.quot (request_num cl) (work_thread cl)).
Proof.
  intros Ht Hn Hr. unfold warmup_threads, single_num in Ht. rewrite (proj2 (Z.eqb_neq _ _)) in Ht by lia. cbn [mbind res_bind] in Ht. injection Ht as <-.
  rewrite Z.quot_div_nonneg by lia. assert (Hq := Z.div_pos (request_num cl) (work_thread cl) ltac:(lia) Hn).
  assert (Hle := Z.mul_div_le (request_num cl) (work_thread cl) Hn). rewrite u64_small by (split; [done|]; nia).
  rewrite <- worker_positions by lia. match goal with |- ?a ≡ₚ ?b => enough (a = b) as -> by done end. unfold all_turns.
  rewrite fmap_concat, <- !list_fmap_compose. f_equal. apply list_fmap_ext. intros j t _. unfold compose. cbn. by rewrite <- list_fmap_compose.
Qed.

(** No shard is empty when there is room for all of them. *)
Lemma shard_size_range c n i : 0 < n <= c -> 0 <= i -> c < 2 ^ 31 -> 0 < shard_size c n i < 2 ^ 31.
Proof.
  intros Hn Hi Hc. assert (Hr := Z.mod_pos_bound c n ltac:(lia)). assert (Hd := Z.div_mod c n ltac:(lia)).
  assert (H1 : 1 <= c / n) by (apply Z.div_le_lower_bound; lia). unfold shard_size. destruct (Z.ltb_spec i (c mod n)); [|nia]. rewrite u64_small; nia.
Qed.

Lemma new_cache_freq {C} (make : Type_ -> Z -> C) hw c n type freq s :
  new_ConcurrentScalableCache make hw c n type freq = Ok s -> 0 < n -> is_FH type = true -> 0 < freq.
Proof.
  unfold new_ConcurrentScalableCache. intros Hs Hn Hf. rewrite (proj2 (Z.eqb_neq n 0)), bool_decide_true, Hf in Hs by lia.
  destruct (Z.ltb_spec 0 freq); [done|discriminate].
Qed.

(** ** Properties *)
Section properties.
Context {C V : Type} `{CacheLaws C V R cap p} (hash : Z -> Z) (make : Type_ -> Z -> C) (hw : Z).
Context (r_value w_value : V) (env : Z -> Z -> choice) (stop : Z -> Z -> bool).

(** C31: The program from its command line on, for shards that keep [CacheLaws]
    (the baseline caches).  When the client is built with 1 to 16
    shards, at least one thread, room for an entry in every shard, and a trace
    that is not empty and without the key 0, and its shards start empty with the
    capacity they are given, then in whatever order the threads of [warmup] make
    their calls on the cache, with those of other threads between the lookup of
    one and its insertion, no step fails; the lookups that hit, the recorded
    latencies and the contents of the shards are those of the reference
    [spec_run], where a lookup hits exactly when its key is cached at that moment
    and every miss is followed by an insertion.  A thread that gets three turns
    for each of its requests is through, and when all are, they have asked for
    every position of the trace below threads * (requests / threads) exactly
    once. *)
Theorem warmup_serves props atof zipf open buf cl s threads sched :
  new_Client make hw atof zipf open buf props = Ok (Some (cl, s)) ->
  0 < seg cl <= req_latencies -> 0 < work_thread cl -> 0 <= request_num cl -> seg cl <= cache_capacity atof props ->
  requests_ (loader_1 cl) <> [] -> Forall (fun r => Key r <> 0) (requests_ (loader_1 cl)) ->
  (forall type fh size, cache_type_of (GetProperty "cache type" "" props) cache_types = Some (type, fh) -> 0 < size < 2 ^ 31 ->
    R (make type size) [] /\ cap (make type size) = size) ->
  warmup_threads cl = Ok threads ->
  let caps := shard_caps (cache_capacity atof props) (seg cl) in
  exists ws es s' ls', sumZ caps = cache_capacity atof props /\
    run_workers hash r_value w_value cl env stop sched threads s = Ok ((ws, es), s') /\
    spec_run (p := p) hash r_value w_value cl env stop caps sched threads (replicate (Z.to_nat (seg cl)) []) = Ok ((ws, es), ls') /\
    RepS (R := R) (capacity := cap) s' caps ls' /\
    (forall t w, ws !! t = Some w -> 3 * num w <= turns_of t sched -> through w) /\
    (Forall through ws -> ((fun t => position t.1 t.2 (work_thread cl)) <$> omap served es) ≡ₚ
      seqZ 0 (work_thread cl * Z.quot (request_num cl) (work_thread cl))).
Proof.
  intros Hnew Hseg Hwork Hreq Hsize Hne Hkeys Hmake Hthreads caps. unfold caps.
  destruct (new_Client_ok _ _ _ _ _ _ _ _ _ Hnew) as (_ & _ & Hr & Hg & Hl & Hlb & Hload & type & fh & c & Htype & _ & Hc & Hcb & Hs).
  rewrite <- Hc in *. unfold req_latencies in Hseg.
  assert (Hr' := strtol_range (str (GetProperty "request num" "" props))). rewrite <- Hr in Hr'.
  rewrite !u64_small in Hs by lia.
  destruct (reps_new (R := R) (capacity := cap) make hw c (seg cl) (if fh then rebuild_freq cl else 0) type) as (s0 & Hs0 & HR); [lia|lia|..].
  { by eapply new_cache_freq, Hseg. }
  { intros i Hi. apply (Hmake _ _ _ Htype), shard_size_range; lia. }
  assert (s0 = s) as -> by congruence.
  assert (Hok : client_ok cl).
  { split; [by eapply load_queue_size|done|done| |done]. rewrite Hg, Hl, !u64_small by lia. lia. }
  destruct (wp_elim _ _ _ (wp_run_workers hash r_value w_value cl env stop Hok sched s _ _ threads HR)) as ([ws es] & s' & Hrun & ls' & Hspec & HR').
  exists ws, es, s', ls'.
  assert (Hnew' : Forall (fun w => worker_ok w /\ i_ w = 0 /\ at_ w = Asking) threads) by (eapply warmup_new; [exact Hthreads | lia | lia]).
  destruct (spec_run_ok hash r_value w_value cl env stop _ _ _ _ _ _ _ Hspec) as (Hwok & Hcores & Hnums & Hserved & Hturns).
  { eapply Forall_impl; [exact Hnew'|]. by intros w []. }
  split_and!; [apply shard_size_total; lia | done | done | done | |].
  - intros t w' Hw' Ht. assert (Hlt := lookup_lt_Some _ _ _ Hw'). rewrite <- (length_fmap num), Hnums, length_fmap in Hlt.
    destruct (lookup_lt_is_Some_2 _ _ Hlt) as [w Hw]. assert (Hrem := Hturns t w w' Hw Hw'). destruct (Forall_lookup_1 _ _ _ _ Hnew' Hw) as (_ & Hi & Hat).
    assert (Hn : num w' = num w) by (apply (f_equal (fun l => l !! t)) in Hnums; rewrite !list_lookup_fmap, Hw, Hw' in Hnums; by injection Hnums).
    destruct (Forall_lookup_1 _ _ _ _ Hwok Hw') as [Hrange Hend]. unfold through. unfold remaining in Hrem. rewrite Hi, Hat in Hrem.
    destruct (decide (i_ w' = num w')) as [|Hnot]; [done|]. destruct (at_ w'); lia.
  - intros Hall. assert (Hstart : concat (served_by <$> threads) = []).
    { clear -Hnew'. induction Hnew' as [|w l (_ & Hi & _) _ IH]; [done|]. rewrite fmap_cons. cbn [concat]. rewrite IH. unfold served_by. by rewrite Hi. }
    rewrite Hstart, app_nil_l in Hserved. rewrite <- Hserved.
    assert (He : concat (served_by <$> ws) = all_turns threads).
    { unfold all_turns. f_equal. clear -Hall Hcores Hnums. revert threads Hcores Hnums. induction Hall as [|w ws Hw _ IH]; intros [|w0 threads]; try done.
      rewrite !fmap_cons. intros [= Hc Hcs] [= Hn Hns]. f_equal; [|by apply IH]. unfold served_by. by rewrite Hw, Hc, Hn. }
    rewrite He. apply positions_all; [done|lia|lia].
Qed.
End properties.

(** A trace without requests ends the worker by a division by zero, a request
    for the key 0 (a block at the start of the device, a string that hashes to 0)
    by a failed assertion. *)
Theorem unservable_requests {C V} `{CacheAPI C V} hash (r_value w_value : V) cl env stop w (s : ConcurrentScalableCache C) :
  i_ w < num w -> at_ w = Asking ->
  (queue_size (loader_1 cl) = 0 -> worker_step hash r_value w_value cl env stop w s = Crash DivideByZero) /\
  (forall r, GetRequest (position (coreid w) (i_ w) (work_thread cl)) (loader_1 cl) = Ok r -> Key r = 0 ->
    worker_step hash r_value w_value cl env stop w s = Crash AssertFail).
Proof.
  intros Hi Hat. unfold worker_step. rewrite (proj2 (Z.leb_gt _ _) Hi), Hat. unfold mbind, SM_bind, lift. split; [|by intros r -> ->].
  intros Hq. unfold GetRequest. by rewrite Hq.
Qed.

(** With more than 16 shards the latency of a sampled request is recorded
    behind the array, when its shard is not one of the first 16. *)
Theorem shard_latency_overflow hash cl i key hit : 0 < Granularity cl -> 0 < Large_Granularity cl -> 0 < seg cl < 2 ^ 64 ->
  i mod Granularity cl = 0 -> 16 <= Z.shiftr (hash key) shift mod seg cl -> sinks hash cl i key false hit = Crash OutOfRange.
Proof.
  intros Hg Hl Hseg Hi Hs. unfold sinks. rewrite (u64_small (seg cl)) by lia.
  rewrite (proj2 (Z.eqb_neq (Granularity cl) 0)), (proj2 (Z.eqb_neq (Large_Granularity cl) 0)), (proj2 (Z.eqb_neq (seg cl) 0)) by lia. cbn [orb negb andb].
  rewrite Hi, Z.eqb_refl. unfold req_latencies. by rewrite (proj2 (Z.ltb_ge _ _)) by lia.
Qed.
