(* ===== verification/ClientWitness.v ===== *)
(** * Runs of the client on small traces

    The properties of [Client] at concrete inputs: from the command line of the
    program, with a trace of four requests in a file and an [LRUCache] of three
    entries in two shards. *)

From stdpp Require Import strings.
From Stdlib Require Import QArith.
Local Close Scope Q_scope.
From S2P Require Import Workload TraceLoader TraceLoaderProps.
From S2P Require Import Prelude Interfaces CacheSpec CacheAPI LRUCache ScalableCache Client.
Local Open Scope Z_scope.

(** The trace "small": blocks 7 and 8, then 7 again, then 9. *)
Definition small_file : list Z := str "1,hm,0,Read,28672,8192,4
2,hm,0,Write,28672,512,4

3,hm,0,Read,36864,4096,4
".
Definition small_open (name : list Z) : option (list Z) := if bool_decide (name = str "small") then Some small_file else None.
Definition small_argv : list string := ["2"; "3"; "4"; "2"; "MSR"; "small"; "LRU"; "0"; "0"]%string.
Definition small_props : Properties := default new_Properties (ParseCommandLine small_argv).
(** [atof] on the numbers of the command line. *)
Definition small_atof (s : string) : Q := inject_Z (strtol (str s)).
Definition no_choice (_ _ : Z) : choice := {| try_lock := true; sample := false |}.
Definition never (_ _ : Z) : bool := false.

Definition small_client : res (option (Client * ConcurrentScalableCache (LRUCache (gmap Z) Z))) :=
  new_Client demo_make 8 small_atof (fun _ _ => 1) small_open [] small_props.

Example small_client_loaded :
  match small_client with
  | Ok (Some (cl, _)) => requests_ (loader_1 cl) = (new_request READ <$> [7; 8; 7; 9]) /\ warmup_threads cl = Ok [new_worker 2 0; new_worker 2 1]
  | _ => False
  end.
Proof. split; reflexivity. Qed.

(** Both threads miss, the second first; it inserts, and misses its next key
    before the first inserts; the first hits then what it inserted. *)
Definition small_sched : list nat := [1; 0; 1; 1; 1; 0; 0; 0; 1; 0; 1]%nat.
Definition small_events : list event :=
  [Looked 1 0 8 false; Looked 0 0 7 false; Fetched 1 0 8; Recorded 1 0 false [Req 0; Total_other]; Looked 1 1 9 false; Fetched 0 0 7;
   Recorded 0 0 false [Req 1; Total_other]; Looked 0 1 7 true; Fetched 1 1 9; Recorded 0 1 true []; Recorded 1 1 false []].

Lemma warmup_serves_witness :
  match small_client with
  | Ok (Some (cl, s)) => exists ws s', run_workers demo_hash 0 1 cl no_choice never small_sched [new_worker 2 0; new_worker 2 1] s = Ok ((ws, small_events), s') /\
      (fun t => position t.1 t.2 2) <$> omap served small_events ≡ₚ seqZ 0 4
  | _ => False
  end.
Proof.
  assert (Hc : match small_client with Ok (Some _) => True | _ => False end) by (vm_compute; exact I).
  destruct small_client as [[[cl s]|]|] eqn:Hs; [|destruct Hc..]. clear Hc.
  assert (Hcl := f_equal (fun r => match r with Ok (Some (cl, _)) => Some cl | _ => None end) Hs). vm_compute in Hcl. injection Hcl as Hcl.
  destruct (warmup_serves (R := Rep) (cap := LRUCache.m_maxSize) (p := lru_policy) demo_hash demo_make 8 0 1 no_choice never
    small_props small_atof (fun _ _ => 1) small_open [] cl s [new_worker 2 0; new_worker 2 1] small_sched)
    as (ws & es & s' & ls' & Hcaps & Hrun & Hspec & _ & _ & Hpos).
  - exact Hs.
  - rewrite <- Hcl. unfold req_latencies. cbn. lia.
  - rewrite <- Hcl. reflexivity.
  - rewrite <- Hcl. discriminate.
  - rewrite <- Hcl. vm_compute. discriminate.
  - rewrite <- Hcl. discriminate.
  - rewrite <- Hcl. repeat constructor; discriminate.
  - intros type fh size Ht Hsize. split; [|done]. apply rep_new. lia.
  - by rewrite <- Hcl.
  - exists ws, s'. rewrite <- Hcl in Hspec. vm_compute in Hspec. injection Hspec as Hws Hes _. subst ws es. split; [exact Hrun|].
    rewrite <- Hcl in Hpos. apply Hpos. repeat constructor.
Defined.

Definition tiny_client (requests : list request) (seg : Z) : Client :=
  {| loader_1 := loaded requests; seg := seg; request_num := 4; work_thread := 2; is_fh_cache_type := false; disk_lat := 0; rebuild_freq := 0;
     Large_Granularity := 2000; Granularity := 2 |}.

Lemma unservable_requests_witness :
  match small_client with
  | Ok (Some (_, s)) =>
      worker_step demo_hash 0 1 (tiny_client [] 2) no_choice never (new_worker 2 0) s = Crash DivideByZero /\
      worker_step demo_hash 0 1 (tiny_client [new_request READ 7; new_request READ 0] 2) no_choice never (new_worker 2 1) s = Crash AssertFail
  | _ => False
  end.
Proof.
  assert (Hc : match small_client with Ok (Some _) => True | _ => False end) by (vm_compute; exact I).
  destruct small_client as [[[cl s]|]|]; [|destruct Hc..].
  destruct (unservable_requests (C := LRUCache (gmap Z) Z) demo_hash 0 1 (tiny_client [] 2) no_choice never (new_worker 2 0) s) as [H0 _]; [done..|].
  destruct (unservable_requests (C := LRUCache (gmap Z) Z) demo_hash 0 1 (tiny_client [new_request READ 7; new_request READ 0] 2) no_choice never (new_worker 2 1) s) as [_ H1]; [done..|].
  split; [by apply H0 | by apply (H1 (new_request READ 0))].
Defined.

Lemma shard_latency_overflow_witness : sinks demo_hash (tiny_client [new_request READ 21] 32) 8 21 false true = Crash OutOfRange.
Proof. apply shard_latency_overflow; [reflexivity|reflexivity|cbn; lia|reflexivity|vm_compute; discriminate]. Defined.
