(* ===== verification/Stats.v ===== *)
(** * Latency statistics ([ssdlogging/util.h], namespace [statistics])

    The rest of [MySet], whose samples are sorted for percentiles, [AvgStat],
    which spreads its sum over a hundred counters so that threads do not meet,
    and [MyMap].  [double] values are rationals; a mean of no samples, not a
    number in the source, is [None].  What is printed is returned; a file is the
    list of what [fprintf] is given. *)

From S2P Require Import Prelude Util.
From stdpp Require Import sorting.
From Stdlib Require Import QArith Qround.
Local Close Scope Q_scope.
Local Open Scope Z_scope.

(** ** [MySet]: percentiles *)
#[export] Instance Qle_decision a b : Decision (Qle a b).
Proof. destruct (Qle_bool a b) eqn:H; [left; by apply Qle_bool_iff | right; intros Hle%Qle_bool_iff; congruence]. Defined.

(** [std::sort] *)
Definition std_sort (l : list Q) : list Q := merge_sort Qle l.
Definition with_sorted (s : MySet) : MySet := {| data_ := std_sort (data_ s); cursor := cursor s; sorted := true |}.

(** [data_[index]]: zero behind the samples, no memory behind the mapping. *)
Definition data_at (index : Z) (s : MySet) : res Q :=
  match data_ s !! Z.to_nat index with
  | Some x => Ok x
  | None => if index <? max_size then Ok 0%Q else Crash BadPointer
  end.
Definition set_sum (s : MySet) : Q := sumQ (data_ s).

(** [(uint64_t)(size * f)] *)
Definition tail_index (size : Z) (f : Q) : Z := Qfloor (inject_Z size * f).
Definition get_tail (f : Q) (s : MySet) : res (Q * MySet) :=
  let s := if sorted s then s else with_sorted s in
  v ← data_at (tail_index (set_size s) f) s; Ok (v, s).

(** The line [print_tail] prints: the mean, the number, the percentiles. *)
Record tail_line := { tail_avg : Q; tail_size : Z; median : Q; p9999 : Q; p999 : Q; p99 : Q; p90 : Q }.
Definition tail_of (s : MySet) : res tail_line :=
  let size := set_size s in
  m ← data_at (tail_index size (1 # 2)%Q) s;
  a ← data_at (tail_index size (9999 # 10000)%Q) s;
  b ← data_at (tail_index size (999 # 1000)%Q) s;
  c ← data_at (tail_index size (99 # 100)%Q) s;
  d ← data_at (tail_index size (9 # 10)%Q) s;
  Ok {| tail_avg := (set_sum s / inject_Z size)%Q; tail_size := size; median := m; p9999 := a; p999 := b; p99 := c; p90 := d |}.

(** [print_tail()]; without samples it answers 100 and prints no line. *)
Definition print_tail (s : MySet) : res (Q * option tail_line * MySet) :=
  if set_size s =? 0 then Ok (100%Q, None, s)
  else let s := with_sorted s in line ← tail_of s; Ok (tail_avg line, Some line, s).
(** [print_tail(size)]: without samples [size] stays what it was. *)
Definition print_tail_size (size : Z) (s : MySet) : res (Q * Z * MySet) :=
  r ← print_tail s;
  let '(avg, line, s) := (r : Q * option tail_line * MySet) in
  Ok (avg, match line with Some l => tail_size l | None => size end, s).

(** [print_data(filename)]: the file, then the sorted samples. *)
Definition set_print_data (s : MySet) : res (option (list Q * tail_line) * MySet) :=
  if set_size s =? 0 then Ok (None, s)
  else let s' := with_sorted s in line ← tail_of s'; Ok (Some (data_ s, line), s').

(** ** [AvgStat] *)
Definition NUM : nat := 100.
Definition scale : Z := 10000.
Record AvgStat := { sums_ : list Z; sizes_ : list Z }.
Definition new_AvgStat : AvgStat := {| sums_ := replicate NUM 0; sizes_ := replicate NUM 0 |}.

(** [__sync_fetch_and_add(&l[i], n)] *)
Definition fetch_and_add (i : nat) (n : Z) (l : list Z) : list Z := alter (fun x => u64 (x + n)) i l.

(** [add(value)] on a thread whose generator has [seed_]; with its new seed. *)
Definition AvgStat_add (value : Q) (seed_ : Z) (s : AvgStat) : AvgStat * Z :=
  let seed_ := Next seed_ in
  let i := Z.to_nat (seed_ mod Z.of_nat NUM) in
  ({| sums_ := fetch_and_add i (Qfloor (value * inject_Z scale)) (sums_ s); sizes_ := fetch_and_add i 1 (sizes_ s) |}, seed_).

Definition AvgStat_sum (s : AvgStat) : Q := sumQ ((fun n => inject_Z n / inject_Z scale)%Q <$> sums_ s).
Definition AvgStat_size (s : AvgStat) : Z := foldl (fun total n => u64 (total + n)) 0 (sizes_ s).
Definition AvgStat_avg (s : AvgStat) : option Q :=
  if AvgStat_size s =? 0 then None else Some (AvgStat_sum s / inject_Z (AvgStat_size s))%Q.
Definition AvgStat_reset (s : AvgStat) : AvgStat := {| sums_ := (fun _ => 0) <$> sums_ s; sizes_ := (fun _ => 0) <$> sizes_ s |}.
Definition AvgStat_print (s : AvgStat) : Q * Z * option Q := (AvgStat_sum s, AvgStat_size s, AvgStat_avg s).

(** The additions of any threads, each with the seed of its thread then. *)
Definition AvgStat_adds (adds : list (Q * Z)) (s : AvgStat) : AvgStat := foldl (fun s a => (AvgStat_add a.1 a.2 s).1) s adds.

(** ** [MyMap]: a mapping of 8 GB for the keys and one for the values *)
Record MyMap := { entries_ : list (Q * Q) }.
Definition map_capacity : Z := 2 ^ 33.
Definition new_MyMap : MyMap := {| entries_ := [] |}.
Definition map_insert (key value : Q) (m : MyMap) : res MyMap :=
  if Z.of_nat (length (entries_ m)) <? map_capacity / 8 then Ok {| entries_ := entries_ m ++ [(key, value)] |} else Crash BadPointer.
Definition map_reset (m : MyMap) : MyMap := {| entries_ := [] |}.
Definition map_print_data (m : MyMap) : option (list (Q * Q)) := if bool_decide (entries_ m = []) then None else Some (entries_ m).

(** ** The invariant of [MySet] *)
#[local] Instance Qle_total : Total Qle.
Proof. intros a b. destruct (Qlt_le_dec a b) as [H|H]; [left; by apply Qlt_le_weak | by right]. Qed.

#[local] Instance Qle_transitive : Transitive Qle.
Proof. intros a b c. apply Qle_trans. Qed.

(** [sorted] is only set when the samples are. *)
Definition set_ok (s : MySet) : Prop := sorted s = true -> StronglySorted Qle (data_ s).

Lemma std_sort_sorted l : StronglySorted Qle (std_sort l).
Proof. apply (StronglySorted_merge_sort Qle l). Qed.
Lemma std_sort_perm l : std_sort l ≡ₚ l.
Proof. apply merge_sort_Permutation. Qed.

(** The operations on samples, in any order. *)
Inductive set_op := Insert (value : Q) | Reset | Tail (f : Q) | PrintTail | PrintStep | PrintData.
Definition set_step (o : set_op) (s : MySet) : res MySet :=
  match o with
  | Insert v => set_insert v s
  | Reset => Ok (set_reset s)
  | Tail f => r ← get_tail f s; Ok r.2
  | PrintTail => r ← print_tail s; Ok r.2
  | PrintStep => Ok (print_from_last_end s).2
  | PrintData => r ← set_print_data s; Ok r.2
  end.
(** The samples since the last reset. *)
Definition samples (o : set_op) (l : list Q) : list Q := match o with Insert v => l ++ [v] | Reset => [] | _ => l end.

Lemma set_ok_new b : set_ok (new_MySet b).
Proof. intros _. constructor. Qed.

Lemma set_ok_step o s s' l : set_step o s = Ok s' -> set_ok s -> data_ s ≡ₚ l -> set_ok s' /\ data_ s' ≡ₚ samples o l.
Proof.
  intros Hs Hok Hl. assert (Hw : set_ok (with_sorted s) /\ data_ (with_sorted s) ≡ₚ l).
  { split; [intros _; apply std_sort_sorted|]. cbn. by rewrite std_sort_perm. }
  destruct o; cbn in Hs |- *; cbn [samples].
  - unfold set_insert in Hs. destruct (_ <? _); [|done]. injection Hs as <-. by split; [|cbn; rewrite Hl].
  - by injection Hs as <-.
  - unfold get_tail in Hs. destruct (sorted s); cbn in Hs; destruct (data_at _ _); cbn in Hs; try done; by injection Hs as <-.
  - unfold print_tail in Hs. destruct (_ =? 0); cbn in Hs; [by injection Hs as <-|]. destruct (tail_of _); [|done]. by injection Hs as <-.
  - injection Hs as <-. unfold print_from_last_end. by destruct (_ || _).
  - unfold set_print_data in Hs. destruct (_ =? 0); cbn in Hs; [by injection Hs as <-|]. destruct (tail_of _); [|done]. by injection Hs as <-.
Qed.

Fixpoint set_run (ops : list set_op) (s : MySet) : res MySet :=
  match ops with [] => Ok s | o :: ops => s ← set_step o s; set_run ops s end.

Lemma set_ok_run ops s s' l : set_run ops s = Ok s' -> set_ok s -> data_ s ≡ₚ l -> set_ok s' /\ data_ s' ≡ₚ foldl (fun l o => samples o l) l ops.
Proof.
  revert s l. induction ops as [|o ops IH]; intros s l Hr Hok Hl; cbn in *; [by injection Hr as <-|].
  destruct (set_step o s) as [s1|] eqn:Hs; [|done]. cbn in Hr. destruct (set_ok_step _ _ _ _ Hs Hok Hl). by eapply IH.
Qed.

(** ** Order statistics *)
Definition below (v : Q) (l : list Q) : nat := length (filter (fun x => ~ Qle v x) l).
Definition upto (v : Q) (l : list Q) : nat := length (filter (fun x => Qle x v) l).

Lemma sorted_split l i v : StronglySorted Qle l -> l !! i = Some v -> Forall (fun x => Qle x v) (take (S i) l) /\ Forall (fun x => Qle v x) (drop i l).
Proof.
  intros Hs Hi. revert i Hi. induction Hs as [|a l Hs IH Ha]; intros i Hi; [done|]. destruct i as [|i]; cbn in *.
  - injection Hi as ->. split; [by repeat constructor; apply Qle_refl|]. constructor; [apply Qle_refl|done].
  - destruct (IH i Hi) as [H1 H2]. split; [|done]. constructor; [|done]. rewrite Forall_lookup in Ha. by eapply Ha.
Qed.

(** The element at [i] of the sorted samples: at most [i] are smaller, more than [i] not larger. *)
Lemma order_statistic l l' i v : StronglySorted Qle l -> l ≡ₚ l' -> l !! i = Some v -> (below v l' <= i < upto v l')%nat.
Proof.
  intros Hs Hp Hi. destruct (sorted_split l i v Hs Hi) as [H1 H2]. assert (Hlt := lookup_lt_Some _ _ _ Hi). unfold below, upto. rewrite <- !Hp.
  rewrite <- (take_drop i l) at 1. rewrite filter_app, length_app, (filter_none _ (drop i l)) by (eapply Forall_impl; [exact H2|]; auto).
  assert (Hb := length_filter (fun x => ~ Qle v x) (take i l)). rewrite length_take in Hb. split; [cbn; lia|].
  rewrite <- (take_drop (S i) l). rewrite filter_app, length_app, (filter_all _ (take (S i) l)), length_take by done. lia.
Qed.

Lemma tail_index_bound n f : 0 < n -> (0 <= f)%Q -> (f < 1)%Q -> 0 <= tail_index n f < n.
Proof.
  intros Hn H0 H1. unfold tail_index. split.
  - apply (Qfloor_resp_le 0). apply Qmult_le_0_compat; [|done]. unfold Qle. cbn. lia.
  - assert (H : (inject_Z n * f < inject_Z n)%Q).
    { rewrite <- (Qmult_1_r (inject_Z n)) at 2. apply Qmult_lt_l; [|done]. unfold Qlt. cbn. lia. }
    assert (Hf := Qfloor_le (inject_Z n * f)). rewrite Zlt_Qlt. by eapply Qle_lt_trans.
Qed.

(** [v] is the percentile [f] of [l], by counting. *)
Definition percentile (f v : Q) (l : list Q) : Prop :=
  v ∈ l /\ (below v l <= Z.to_nat (tail_index (Z.of_nat (length l)) f) < upto v l)%nat.

Lemma data_at_sorted l f s : StronglySorted Qle (data_ s) -> data_ s ≡ₚ l -> l <> [] -> (0 <= f)%Q -> (f < 1)%Q ->
  exists v, data_at (tail_index (set_size s) f) s = Ok v /\ percentile f v l.
Proof.
  intros Hs Hp Hne H0 H1. unfold set_size, percentile. rewrite (Permutation_length Hp). assert (Hb := tail_index_bound (Z.of_nat (length l)) f). unfold data_at.
  assert (0 < length l)%nat by (destruct l; [done|cbn; lia]). specialize (Hb ltac:(lia) H0 H1).
  assert (Hd := Permutation_length Hp). destruct (lookup_lt_is_Some_2 (data_ s) (Z.to_nat (tail_index (Z.of_nat (length l)) f)) ltac:(lia)) as [v Hv].
  exists v. rewrite Hv. split; [done|]. split; [rewrite <- Hp; by eapply list_elem_of_lookup_2 | by eapply order_statistic].
Qed.

Lemma sumQ_perm l l' : l ≡ₚ l' -> (sumQ l == sumQ l')%Q.
Proof. induction 1 as [|x l l' _ IH|x y l|l l' l'' _ IH1 _ IH2]; cbn; [done | by rewrite IH | ring | by rewrite IH1]. Qed.

(** ** Properties *)

(** C38: Whatever was done to the samples before, and whatever [sorted] was at
    the start, [get_tail] and [print_tail] answer the percentiles of the samples
    since the last reset and their mean: a percentile f of n samples is one of
    them, at most floor(n f) are smaller and more than floor(n f) are not larger. *)
Theorem tail_percentiles b ops s f : set_run ops (new_MySet b) = Ok s -> (0 <= f)%Q -> (f < 1)%Q ->
  let l := foldl (fun l o => samples o l) [] ops in l <> [] ->
  (exists v s', get_tail f s = Ok (v, s') /\ percentile f v l) /\
  (exists avg line s', print_tail s = Ok (avg, Some line, s') /\ (avg == sumQ l / inject_Z (Z.of_nat (length l)))%Q /\
     tail_size line = Z.of_nat (length l) /\ percentile (1 # 2)%Q (median line) l /\ percentile (9999 # 10000)%Q (p9999 line) l /\
     percentile (999 # 1000)%Q (p999 line) l /\ percentile (99 # 100)%Q (p99 line) l /\ percentile (9 # 10)%Q (p90 line) l).
Proof.
  intros Hr H0 H1 l Hne. destruct (set_ok_run ops _ s [] Hr (set_ok_new b) ltac:(done)) as [Hok Hp]. fold l in Hp.
  assert (Hw : StronglySorted Qle (data_ (with_sorted s)) /\ data_ (with_sorted s) ≡ₚ l) by (split; [apply std_sort_sorted | cbn; by rewrite std_sort_perm]).
  destruct Hw as [Hws Hwp]. split.
  - unfold get_tail. destruct (sorted s) eqn:Hb.
    + destruct (data_at_sorted l f s (Hok Hb) Hp Hne H0 H1) as (v & -> & Hv). by exists v, s.
    + destruct (data_at_sorted l f _ Hws Hwp Hne H0 H1) as (v & -> & Hv). by exists v, (with_sorted s).
  - unfold print_tail. rewrite (proj2 (Z.eqb_neq _ _)) by (unfold set_size; rewrite (Permutation_length Hp); destruct l; [done|cbn; lia]).
    assert (Hd := fun f H0 H1 => data_at_sorted l f _ Hws Hwp Hne H0 H1). unfold tail_of.
    destruct (Hd (1 # 2)%Q ltac:(done) ltac:(done)) as (v1 & -> & ?). destruct (Hd (9999 # 10000)%Q ltac:(done) ltac:(done)) as (v2 & -> & ?).
    destruct (Hd (999 # 1000)%Q ltac:(done) ltac:(done)) as (v3 & -> & ?). destruct (Hd (99 # 100)%Q ltac:(done) ltac:(done)) as (v4 & -> & ?).
    destruct (Hd (9 # 10)%Q ltac:(done) ltac:(done)) as (v5 & -> & ?). cbn [mbind res_bind].
    eexists _, _, _. split; [done|]. cbn [tail_avg tail_size median p9999 p999 p99 p90]. unfold set_sum, set_size. rewrite (sumQ_perm _ _ Hwp), (Permutation_length Hwp). done.
Qed.

Lemma tail_percentiles_witness :
  exists v s', get_tail (3 # 4)%Q {| data_ := [4; 1; 9; 2]%Q; cursor := 0; sorted := false |} = Ok (v, s') /\ v = 9%Q.
Proof.
  destruct (tail_percentiles true [Insert 4; Insert 1; PrintTail; Reset; Insert 4; Insert 1; Insert 9; Insert 2]%Q
    {| data_ := [4; 1; 9; 2]%Q; cursor := 0; sorted := false |} (3 # 4)%Q) as [(v & s' & Hv & _) _];
    [vm_compute; reflexivity | vm_compute; discriminate | reflexivity | discriminate |].
  exists v, s'. split; [exact Hv|]. vm_compute in Hv. by injection Hv.
Defined.

(** ** [AvgStat] *)
Lemma foldl_u64_sum l a : Forall (fun n => 0 <= n) l -> 0 <= a -> a + sumZ l < 2 ^ 64 -> foldl (fun total n => u64 (total + n)) a l = a + sumZ l.
Proof.
  intros Hl. revert a. induction Hl as [|n l Hn Hl IH]; intros a Ha Hs; cbn [foldl] in *; [cbn; lia|]. rewrite sumZ_cons in *.
  assert (H := sumZ_nonneg l Hl). rewrite u64_small, IH by lia. lia.
Qed.

Lemma sumZ_ge l i x : Forall (fun n => 0 <= n) l -> l !! i = Some x -> 0 <= x <= sumZ l.
Proof.
  intros Hl. revert i. induction Hl as [|n l Hn Hl IH]; intros [|i] Hi; [done..| |]; cbn in Hi; rewrite sumZ_cons; assert (H := sumZ_nonneg l Hl).
  - injection Hi as <-. lia.
  - specialize (IH i Hi). lia.
Qed.

Lemma fetch_and_add_ok i n l : (i < length l)%nat -> Forall (fun n => 0 <= n) l -> 0 <= n -> sumZ l + n < 2 ^ 64 ->
  sumZ (fetch_and_add i n l) = sumZ l + n /\ Forall (fun n => 0 <= n) (fetch_and_add i n l) /\ length (fetch_and_add i n l) = length l.
Proof.
  intros Hi Hl Hn Hs. destruct (lookup_lt_is_Some_2 l i Hi) as [x Hx]. assert (Hb := sumZ_ge l i x Hl Hx).
  assert (He : fetch_and_add i n l = alter (fun y => y + n) i l).
  { unfold fetch_and_add. apply list_eq. intros j. destruct (decide (j = i)) as [->|Hne].
    - rewrite !list_lookup_alter_eq, Hx. cbn. rewrite u64_small by lia. done.
    - by rewrite !list_lookup_alter_ne. }
  rewrite He. split; [by eapply sumZ_alter|]. split; [|apply length_alter].
  apply Forall_lookup. intros j y Hy. destruct (decide (j = i)) as [->|Hne].
  - rewrite list_lookup_alter_eq, Hx in Hy. cbn in Hy. injection Hy as <-. lia.
  - rewrite list_lookup_alter_ne in Hy by done. rewrite Forall_lookup in Hl. by eapply Hl.
Qed.

(** The sum and the number of the additions are spread over the counters. *)
Lemma AvgStat_adds_ok adds s : let xs := (fun a => Qfloor (a.1 * inject_Z scale)) <$> adds in
  Forall (fun x => 0 <= x) xs -> length (sums_ s) = NUM -> length (sizes_ s) = NUM ->
  Forall (fun x => 0 <= x) (sums_ s) -> Forall (fun x => 0 <= x) (sizes_ s) ->
  sumZ (sums_ s) + sumZ xs < 2 ^ 64 -> sumZ (sizes_ s) + Z.of_nat (length adds) < 2 ^ 64 ->
  sumZ (sums_ (AvgStat_adds adds s)) = sumZ (sums_ s) + sumZ xs /\
  sumZ (sizes_ (AvgStat_adds adds s)) = sumZ (sizes_ s) + Z.of_nat (length adds) /\ Forall (fun x => 0 <= x) (sizes_ (AvgStat_adds adds s)).
Proof.
  unfold AvgStat_adds. revert s. induction adds as [|[v seed_] adds IH]; intros s; cbn [fmap list_fmap foldl length]; intros Hx H1 H2 H3 H4 H5 H6.
  { cbn. split_and!; [lia|lia|done]. }
  apply Forall_cons_1 in Hx as [Hv Hx]. rewrite sumZ_cons in *. set (x := Qfloor _) in *.
  assert (Hi : (Z.to_nat (Next seed_ mod Z.of_nat NUM) < NUM)%nat) by (assert (H := Z.mod_pos_bound (Next seed_) (Z.of_nat NUM) ltac:(done)); lia).
  assert (Hs := sumZ_nonneg _ Hx).
  destruct (fetch_and_add_ok (Z.to_nat (Next seed_ mod Z.of_nat NUM)) x (sums_ s)) as (A1 & A2 & A3); [by rewrite H1|done|done|lia|].
  destruct (fetch_and_add_ok (Z.to_nat (Next seed_ mod Z.of_nat NUM)) 1 (sizes_ s)) as (B1 & B2 & B3); [by rewrite H2|done|lia|lia|].
  cbn [fst snd] in *. set (s' := (AvgStat_add v seed_ s).1).
  destruct (IH s') as (I1 & I2 & I3); [exact Hx|exact (eq_trans A3 H1)|exact (eq_trans B3 H2)|exact A2|exact B2| | |];
    [change (sumZ (sums_ s')) with (sumZ (fetch_and_add (Z.to_nat (Next seed_ mod Z.of_nat NUM)) x (sums_ s))); rewrite A1; lia
    |change (sumZ (sizes_ s')) with (sumZ (fetch_and_add (Z.to_nat (Next seed_ mod Z.of_nat NUM)) 1 (sizes_ s))); rewrite B1; lia|].
  change (sums_ s') with (fetch_and_add (Z.to_nat (Next seed_ mod Z.of_nat NUM)) x (sums_ s)) in I1.
  change (sizes_ s') with (fetch_and_add (Z.to_nat (Next seed_ mod Z.of_nat NUM)) 1 (sizes_ s)) in I2.
  rewrite I1, I2, A1, B1. split_and!; [lia|lia|exact I3].
Qed.

Lemma sumQ_scale l : (sumQ ((fun n => inject_Z n / inject_Z scale)%Q <$> l) == inject_Z (sumZ l) / inject_Z scale)%Q.
Proof. induction l as [|n l IH]; [done|]. cbn [fmap list_fmap sumQ foldr]. fold sumQ. rewrite sumZ_cons, inject_Z_plus. unfold sumQ in IH. rewrite IH. field. discriminate. Qed.

(** Rounding down to units of [1 / scale]. *)
Lemma floor_scale vs : let xs := (fun v => Qfloor (v * inject_Z scale)) <$> vs in
  (sumQ vs - inject_Z (Z.of_nat (length vs)) / inject_Z scale <= inject_Z (sumZ xs) / inject_Z scale <= sumQ vs)%Q.
Proof.
  induction vs as [|v vs [IH1 IH2]]; [done|]. cbn [fmap list_fmap length]. rewrite sumZ_cons. set (xs := sumZ _) in *. set (x := Qfloor _).
  change (sumQ (v :: vs)) with (v + sumQ vs)%Q. rewrite inject_Z_plus, Nat2Z.inj_succ. unfold Z.succ. rewrite inject_Z_plus.
  assert (Hlo := Qfloor_le (v * inject_Z scale)). assert (Hhi := Qlt_floor (v * inject_Z scale)). fold x in Hlo, Hhi. rewrite inject_Z_plus in Hhi.
  assert (H1 : (inject_Z x / inject_Z scale <= v)%Q) by (apply Qle_shift_div_r; [done|exact Hlo]).
  assert (H2 : (v - 1 / inject_Z scale <= inject_Z x / inject_Z scale)%Q).
  { apply Qle_shift_div_l; [done|]. assert (He : ((v - 1 / inject_Z scale) * inject_Z scale == v * inject_Z scale - 1)%Q) by (field; discriminate). rewrite He.
    apply Qlt_le_weak. apply (Qplus_lt_l _ _ 1). assert (He' : (v * inject_Z scale - 1 + 1 == v * inject_Z scale)%Q) by ring. rewrite He'. exact Hhi. }
  assert (Hd : ((inject_Z x + inject_Z xs) / inject_Z scale == inject_Z x / inject_Z scale + inject_Z xs / inject_Z scale)%Q) by (field; discriminate).
  rewrite Hd. split; [|by apply Qplus_le_compat].
  assert (Hd2 : (v + sumQ vs - (inject_Z (Z.of_nat (length vs)) + 1) / inject_Z scale ==
    (v - 1 / inject_Z scale) + (sumQ vs - inject_Z (Z.of_nat (length vs)) / inject_Z scale))%Q) by (field; discriminate).
  rewrite Hd2. by apply Qplus_le_compat.
Qed.

(** However the generators of the threads spread the additions over the
    hundred counters, and in whatever order they come, the size is their number and
    the sum is that of the values, rounded down by less than 1/10000 each. *)
Theorem avg_stat_total adds : Forall (fun a => (0 <= a.1)%Q) adds ->
  Z.of_nat (length adds) < 2 ^ 64 -> (sumQ adds.*1 < inject_Z (2 ^ 64) / inject_Z scale)%Q ->
  let s := AvgStat_adds adds new_AvgStat in
  AvgStat_size s = Z.of_nat (length adds) /\
  (sumQ adds.*1 - inject_Z (Z.of_nat (length adds)) / inject_Z scale <= AvgStat_sum s <= sumQ adds.*1)%Q.
Proof.
  intros Hv Hn Hs s. assert (Hf := floor_scale adds.*1). cbn zeta in Hf. rewrite length_fmap, <- list_fmap_compose in Hf. destruct Hf as [Hf1 Hf2].
  destruct (AvgStat_adds_ok adds new_AvgStat) as (H1 & H2 & H3); cbn [sums_ sizes_ new_AvgStat].
  - apply Forall_fmap, (Forall_impl _ _ _ Hv). intros [v seed_] Hq. change (0 <= Qfloor (v * inject_Z scale)). apply (Qfloor_resp_le 0). by apply Qmult_le_0_compat.
  - by rewrite length_replicate.
  - by rewrite length_replicate.
  - by apply Forall_replicate.
  - by apply Forall_replicate.
  - change (sumZ (replicate NUM 0)) with 0. rewrite Z.add_0_l. rewrite Zlt_Qlt.
    apply (Qle_lt_trans _ (sumQ adds.*1 * inject_Z scale)).
    + rewrite <- (Qmult_div_r (inject_Z (sumZ _)) (inject_Z scale)) by discriminate. rewrite Qmult_comm. by apply Qmult_le_compat_r.
    + assert (He : (inject_Z (2 ^ 64) == inject_Z (2 ^ 64) / inject_Z scale * inject_Z scale)%Q) by (field; discriminate).
      rewrite He. by apply Qmult_lt_compat_r.
  - change (sumZ (replicate NUM 0)) with 0. lia.
  - change (sumZ (replicate NUM 0)) with 0 in *. cbn [sums_ sizes_ new_AvgStat] in *. change (sumZ (replicate NUM 0)) with 0 in *.
    fold s in H1, H2, H3. split.
    + unfold AvgStat_size. rewrite foldl_u64_sum, H2 by (try done; try lia). lia.
    + unfold AvgStat_sum. rewrite sumQ_scale, H1, Z.add_0_l. by split.
Qed.

Lemma avg_stat_total_witness : AvgStat_size (AvgStat_adds [((3 # 2)%Q, 1); (5%Q, 7); ((1 # 3)%Q, 1)] new_AvgStat) = 3.
Proof. apply (avg_stat_total [((3 # 2)%Q, 1); (5%Q, 7); ((1 # 3)%Q, 1)]); [repeat constructor; discriminate | reflexivity | reflexivity]. Defined.
