(* ===== verification/ShardStats.v ===== *)
(** * The statistics of the sharded cache ([cache/hhvm-scalable-cache.h])

    What the sharded cache prints and what the controller decides with: the
    counters of the shards, added up ([PrintStat], [PrintMissRatio],
    [PrintFrozenStat]), and the latencies the clients record ([PrintStepLat],
    [PrintGlobalLat], [GetStepSize]).  The interface [ShardStat] has the methods
    of [CacheAPI] that report counters; [ShardStatLaws] states what a shard
    promises: its counters count the sampled lookups, a report hands them out and
    clears them.  [double] values are rationals, [None] is 0/0; the times that
    are printed are left out. *)

From stdpp Require Import strings.
From S2P Require Import Prelude Interfaces CacheSpec CacheAPI BaseCache LRUCache ScalableCache.
From S2P Require Import Util Stats.
From S2P Require FHCache FIFOFH LFUFH LFU RedisLRU.
From Stdlib Require Import QArith.
Local Close Scope Q_scope.
Local Open Scope Z_scope.

(** ** The interface: what a method leaves alone stays what the caller set, 0 *)
Class ShardStat (C : Type) := {
  shard_PrintStat : C -> (Z * Z) * C;
  shard_GetStat : C -> (Z * Z) * C;
  shard_GetStat3 : C -> (Z * Z * Z) * C
}.

Section base.
Context {C : Type} (get : C -> BaseStat) (set : BaseStat -> C -> C).
(** [BaseCacheAPI] overrides the first two. *)
Definition base_ShardStat : ShardStat C := {|
  shard_PrintStat c := let r := PrintStat (get c) in (r.1, set r.2 c);
  shard_GetStat c := let r := GetStat (get c) in (r.1, set r.2 c);
  shard_GetStat3 c := ((0, 0, 0), c)
|}.
End base.

Section fh.
Context {C : Type} (get : C -> FHCache.FHStat) (set : FHCache.FHStat -> C -> C) (sample_flag : bool).
(** [FHCacheAPI] overrides the last two. *)
Definition fh_ShardStat : ShardStat C := {|
  shard_PrintStat c := ((0, 0), c);
  shard_GetStat c := let r := FHCache.GetStat sample_flag (get c) in (r.1, set r.2 c);
  shard_GetStat3 c := let r := FHCache.GetStat3 (get c) in (r.1, set r.2 c)
|}.
End fh.

(** The classes of the program; FIFO and strict LRU shards have the state of an
    LRU shard, FrozenHot LRU ones that of a FrozenHot FIFO shard. *)
#[export] Instance LRUCache_stat {M V} `{CHM M} : ShardStat (LRUCache M V) :=
  base_ShardStat LRUCache.m_stat (fun b => LRUCache.with_stat (fun _ => b)).
#[export] Instance LFUCache_stat {M} `{CHM M} : ShardStat (LFU.LFUCache M) := base_ShardStat LFU.stat LFU.set_stat.
#[export] Instance RedisLRUCache_stat {M} `{CHM M} : ShardStat (RedisLRU.RedisLRUCache M) := base_ShardStat RedisLRU.stat RedisLRU.with_stat.
(** Outside of the learning pass [sample_flag] is set. *)
#[export] Instance FIFO_FHCache_stat {M T} `{CHM M} `{CLHTlib T} : ShardStat (FIFOFH.FIFO_FHCache M T) :=
  fh_ShardStat FIFOFH.m_stat (fun b => FIFOFH.with_stat (fun _ => b)) true.
#[export] Instance LFU_FHCache_stat {M T} `{CHM M} `{CLHTlib T} : ShardStat (LFUFH.LFU_FHCache M T) :=
  fh_ShardStat LFUFH.m_stat (fun b => LFUFH.with_stat (fun _ => b)) true.

(** ** The counters of all shards *)
Section counters.
Context {C : Type} `{ShardStat C}.
Abbreviation CSC := (ConcurrentScalableCache C).

(** A report of every shard. *)
Fixpoint gather {A} (report : C -> A * C) (idx : list Z) : SM CSC (list A) :=
  match idx with
  | [] => mret []
  | i :: idx => a ← at_shard i (fun c => Ok (report c)); rest ← gather report idx; mret (a :: rest)
  end.
Definition add_up (ns : list Z) : Z := foldl (fun total n => u64 (total + n)) 0 ns.

(** [PrintStat]: the line with the hit rate, if there is one. *)
Definition PrintStat : SM CSC (option Q * Z * Z) :=
  n ← gets m_numShards;
  rs ← gather shard_PrintStat (seqZ 0 n);
  let total_hit := add_up (fst <$> rs) in
  let total_miss := add_up (snd <$> rs) in
  let total := u64 (total_hit + total_miss) in
  mret (if total =? 0 then None else Some (inject_Z total_hit / inject_Z total)%Q, total_hit, total_miss).

Definition PrintMissRatio : SM CSC Q :=
  n ← gets m_numShards;
  rs ← gather shard_GetStat (seqZ 0 n);
  let total_hit := add_up (fst <$> rs) in
  let total_miss := add_up (snd <$> rs) in
  let total := u64 (total_hit + total_miss) in
  mret (if total =? 0 then 1%Q else (inject_Z total_miss / inject_Z total)%Q).

(** [PrintFrozenStat]: the miss ratios of the frozen table and of the cache. *)
Definition PrintFrozenStat : SM CSC (Q * Q) :=
  n ← gets m_numShards;
  rs ← gather shard_GetStat3 (seqZ 0 n);
  let total_FH_hit := add_up ((fun r => r.1.1) <$> rs) in
  let total_O_hit := add_up ((fun r => r.1.2) <$> rs) in
  let total_miss := add_up (snd <$> rs) in
  let total := u64 (u64 (total_FH_hit + total_O_hit) + total_miss) in
  mret (if total =? 0 then (1, 1)%Q else ((1 - inject_Z total_FH_hit / inject_Z total)%Q, (inject_Z total_miss / inject_Z total)%Q)).
End counters.

(** ** The latencies the clients record *)
Record latencies := { total_hit_latency_ : MySet; total_other_latency_ : MySet }.

(** The mean over hits and others from the means of both. *)
Definition total_avg (avg_hit : Q) (hit_num : Z) (avg_other : Q) (other_num : Z) : option Q :=
  let total_num := u64 (hit_num + other_num) in
  if total_num =? 0 then None
  else Some ((avg_hit * inject_Z hit_num + avg_other * inject_Z other_num) / inject_Z total_num)%Q.
Definition other_ratio (hit_num other_num : Z) : option Q :=
  let total_num := u64 (hit_num + other_num) in
  if total_num =? 0 then None else Some (inject_Z other_num / inject_Z total_num)%Q.

(** [PrintGlobalLat]: what it prints, and the statistics reset. *)
Definition PrintGlobalLat (l : latencies) : res ((option Q * Z * option Q) * latencies) :=
  h ← print_tail_size 0 (total_hit_latency_ l);
  o ← print_tail_size 0 (total_other_latency_ l);
  let '(avg_hit, hit_num, hits) := (h : Q * Z * MySet) in
  let '(avg_other, other_num, others) := (o : Q * Z * MySet) in
  Ok ((total_avg avg_hit hit_num avg_other other_num, u64 (hit_num + other_num), other_ratio hit_num other_num),
      {| total_hit_latency_ := set_reset hits; total_other_latency_ := set_reset others |}).

(** [print_from_last_end(step)] with its 100 for none and the number left at 0. *)
Definition step_of (s : MySet) : Q * Z * MySet :=
  match print_from_last_end s with
  | (Some (avg, step), s) => (avg, step, s)
  | (None, s) => (100%Q, 0, s)
  end.

(** [PrintStepLat], with the results of its three overloads: the mean, the
    number of samples, the means of hits and others. *)
Record step_lat := { lat_avg : option Q; lat_num : Z; lat_hit : Q; lat_other : Q }.
Definition PrintStepLat (l : latencies) : step_lat * latencies :=
  let '(avg_hit, hit_num, hits) := step_of (total_hit_latency_ l) in
  let '(avg_other, other_num, others) := step_of (total_other_latency_ l) in
  ({| lat_avg := total_avg avg_hit hit_num avg_other other_num; lat_num := u64 (hit_num + other_num); lat_hit := avg_hit; lat_other := avg_other |},
   {| total_hit_latency_ := hits; total_other_latency_ := others |}).
Definition GetStepSize (l : latencies) : Z :=
  u64 (size_from_last_end (total_hit_latency_ l) + size_from_last_end (total_other_latency_ l)).

(** ** What a method leaves alone *)
Definition keeps {S A X} (f : S -> X) (m : SM S A) : Prop := forall s a s', m s = Ok (a, s') -> f s' = f s.

Section keeps.
Context {S X : Type} (f : S -> X).

Lemma keeps_bind {A B} (m : SM S A) (k : A -> SM S B) : keeps f m -> (forall a, keeps f (k a)) -> keeps f (m ≫= k).
Proof.
  intros Hm Hk s b s'. unfold mbind, SM_bind. destruct (m s) as [[a s1]|] eqn:Hs; [|done]. intros H. by rewrite (Hk _ _ _ _ H), (Hm _ _ _ Hs).
Qed.
Lemma keeps_ret {A} (a : A) : keeps f (mret a).
Proof. by intros s a' s' [= _ <-]. Qed.
Lemma keeps_gets {A} (g : S -> A) : keeps f (gets g).
Proof. by intros s a' s' [= _ <-]. Qed.
Lemma keeps_modify g : (forall s, f (g s) = f s) -> keeps f (modify g).
Proof. intros Hg s a' s' [= _ <-]. apply Hg. Qed.
Lemma keeps_when b m : keeps f m -> keeps f (whenM b m).
Proof. destruct b; [done|]. intros _. apply keeps_ret. Qed.
Lemma keeps_zoom {T A} (get : S -> T) put (m : SM T A) : (forall t s, f (put t s) = f s) -> keeps f (zoom get put m).
Proof. intros Hp s a s'. unfold zoom. destruct (m (get s)) as [[b t]|]; [|done]. intros [= _ <-]. apply Hp. Qed.
Lemma keeps_crashes {A} e : keeps f (crashes (A := A) e).
Proof. by intros s a s'. Qed.
End keeps.

Ltac keeps_step :=
  cbv zeta beta;
  match goal with
  | |- keeps _ (_ ≫= _) => apply keeps_bind; [|intros ?]
  | |- keeps _ (mret _) => apply keeps_ret
  | |- keeps _ (gets _) => apply keeps_gets
  | |- keeps _ (modify _) => apply keeps_modify; intros ?; reflexivity
  | |- keeps _ (whenM _ _) => apply keeps_when
  | |- keeps _ (zoom _ _ _) => apply keeps_zoom; intros ? ?; reflexivity
  | |- keeps _ (crashes _) => apply keeps_crashes
  | |- keeps _ (let '(_, _) := ?x in _) => destruct x
  | |- keeps _ (if ?b then _ else _) => destruct b
  | |- keeps _ (match ?x with _ => _ end) => destruct x
  end.

(** ** What a shard promises *)
Definition counted {V} (o : op V) (a : answer V) (b : BaseStat) : BaseStat :=
  match o, a with CacheAPI.Find e _ _, Found hit _ => count_find (sample e) hit b | _, _ => b end.

Class ShardStatLaws (C V : Type) `{CacheAPI C V} `{ShardStat C} (counters : C -> BaseStat) : Prop := {
  law_counts : forall o c a c', CacheAPI.call o c = Ok (a, c') -> counters c' = counted o a (counters c);
  law_GetStat : forall c, (shard_GetStat c).1 = (hit_num (counters c), miss_num (counters c)) /\ counters (shard_GetStat c).2 = {| hit_num := 0; miss_num := 0 |}
}.

Section lru.
Context {M : Type -> Type} `{CHM M} {V : Type}.

Lemma lru_insert_keeps k v : keeps LRUCache.m_stat (LRUCache.insert (M := M) (V := V) k v).
Proof. unfold LRUCache.insert, LRUCache.evict, compare_exchange_size, on_list. repeat keeps_step. Qed.
Lemma lru_delete_keeps k : keeps LRUCache.m_stat (LRUCache.delete_key (M := M) (V := V) k).
Proof. unfold LRUCache.delete_key, on_list. repeat keeps_step. Qed.
Lemma lru_clear_keeps : keeps LRUCache.m_stat (LRUCache.clear (M := M) (V := V)).
Proof. unfold LRUCache.clear, on_list. repeat keeps_step. Qed.
Lemma lru_snapshot_keeps ks : keeps LRUCache.m_stat (LRUCache.snapshotKeys (M := M) (V := V) ks).
Proof. unfold LRUCache.snapshotKeys, on_list. repeat keeps_step. Qed.

Lemma lru_find_counts tl sm ac k (c : LRUCache M V) r c' : LRUCache.find tl sm ac k c = Ok (r, c') ->
  LRUCache.m_stat c' = count_find sm r.1 (LRUCache.m_stat c).
Proof.
  unfold LRUCache.find. intros Hf. unfold mbind at 1, SM_bind at 1, gets at 1 in Hf. destruct (chm_find _ k) as [h|].
  - unfold mbind at 1, SM_bind at 1 in Hf. set (m := whenM tl _) in Hf.
    assert (Hm : keeps LRUCache.m_stat m) by (unfold m, on_list; repeat keeps_step).
    destruct (m c) as [[u c1]|] eqn:Hc; [|done]. apply Hm in Hc. by destruct sm; injection Hf as <- <-; cbn; rewrite <- Hc.
  - by destruct sm; injection Hf as <- <-.
Qed.

#[export] Instance LRUCache_stat_laws : ShardStatLaws (LRUCache M V) V LRUCache.m_stat.
Proof.
  split; [|done]. intros o c a c'. destruct o; cbn [CacheAPI.call counted api_find api_insert api_delete_key api_clear api_snapshotKeys api_size LRUCache_api]; unfold mbind, SM_bind.
  - destruct (LRUCache.find _ _ _ _ c) as [[r c1]|] eqn:Hf; [|done]. intros [= <- <-]. by apply lru_find_counts in Hf.
  - destruct (LRUCache.insert _ _ c) as [[r c1]|] eqn:Hf; [|done]. intros [= <- <-]. by apply lru_insert_keeps in Hf.
  - destruct (LRUCache.delete_key _ c) as [[r c1]|] eqn:Hf; [|done]. intros [= <- <-]. by apply lru_delete_keeps in Hf.
  - destruct (LRUCache.clear c) as [[r c1]|] eqn:Hf; [|done]. intros [= <- <-]. by apply lru_clear_keeps in Hf.
  - destruct (LRUCache.snapshotKeys _ c) as [[r c1]|] eqn:Hf; [|done]. intros [= <- <-]. by apply lru_snapshot_keeps in Hf.
  - by intros [= <- <-].
Qed.
End lru.

(** ** The counters over a run of the sharded cache *)
Section sharded.
Context {C V : Type} `{ShardStatLaws C V counters} (hash : Z -> Z).
Abbreviation CSC := (ConcurrentScalableCache C).
Implicit Types (s : CSC).

(** The hits and misses among the sampled lookups. *)
Definition tally1 (o : op V) (a : answer V) : Z * Z :=
  match o, a with CacheAPI.Find e _ _, Found hit _ => if sample e then (if hit then (1, 0) else (0, 1)) else (0, 0) | _, _ => (0, 0) end.
Fixpoint tally (ops : list (op V)) (rs : list (answer V)) : Z * Z :=
  match ops, rs with
  | o :: ops, a :: rs => ((tally1 o a).1 + (tally ops rs).1, (tally1 o a).2 + (tally ops rs).2)
  | _, _ => (0, 0)
  end.

Definition all_counters s : list BaseStat * Z := (counters <$> m_shards s, m_numShards s).
Definition hits (bs : list BaseStat) : Z := sumZ (hit_num <$> bs).
Definition misses (bs : list BaseStat) : Z := sumZ (miss_num <$> bs).
Definition counts (bs : list BaseStat) : Prop := Forall (fun b => 0 <= hit_num b /\ 0 <= miss_num b) bs.

Lemma at_shard_Ok {A} i (m : SM C A) s a s' : at_shard i m s = Ok (a, s') ->
  exists c c', m_shards s !! Z.to_nat i = Some c /\ m c = Ok (a, c') /\ s' = with_shards (<[Z.to_nat i := c']> (m_shards s)) s.
Proof.
  unfold at_shard. destruct (m_shards s !! Z.to_nat i) as [c|] eqn:Hc; [|done]. destruct (m c) as [[b c']|] eqn:Hm; [|done]. intros [= <- <-]. by exists c, c'.
Qed.

Lemma keeps_at_shard {A} i (m : SM C A) : keeps counters m -> keeps all_counters (at_shard i m).
Proof.
  intros Hm s a s' (c & c' & Hc & Hmc & ->)%at_shard_Ok. unfold all_counters. cbn. f_equal. rewrite list_fmap_insert, (Hm _ _ _ Hmc).
  apply list_insert_id. by rewrite list_lookup_fmap, Hc.
Qed.

Lemma keeps_snapshot ks : keeps all_counters (snapshotKeys ks).
Proof.
  unfold snapshotKeys. keeps_step; [keeps_step|]. generalize (seqZ 0 a) as idx. intros idx. revert ks. induction idx as [|i idx IH]; intros ks; cbn [snapshot_from]; [keeps_step|].
  keeps_step; [|apply IH]. apply keeps_at_shard. intros c ks' c' Hc.
  assert (Hl := law_counts (SnapshotKeys ks) c (Keys ks') c'). cbn in Hl. unfold mbind, SM_bind in Hl. rewrite Hc in Hl. by apply Hl.
Qed.

Lemma keeps_Size : keeps all_counters Size.
Proof.
  unfold Size. keeps_step; [keeps_step|]. generalize (seqZ 0 a) as idx. intros idx. generalize 0 as n. induction idx as [|i idx IH]; intros n; cbn [size_from]; [keeps_step|].
  keeps_step; [|apply IH]. apply keeps_at_shard. intros c n' c' Hc.
  assert (Hl := law_counts CacheAPI.Size c (Count n') c'). cbn in Hl. unfold mbind, SM_bind in Hl. rewrite Hc in Hl. by apply Hl.
Qed.

(** A call counts at most one lookup, at one shard. *)
Lemma call_counters o s a s' : call hash o s = Ok (a, s') ->
  m_numShards s' = m_numShards s /\
  ((all_counters s').1 = (all_counters s).1 /\ tally1 o a = (0, 0) \/
   exists i b, (all_counters s).1 !! i = Some b /\ (all_counters s').1 = <[i := counted o a b]> (all_counters s).1).
Proof.
  assert (Hat : forall A (m : SM C A) k (r : A) (f : A -> answer V) s',
    (h ← getShard hash k; at_shard h m) s = Ok (r, s') -> (forall c c', m c = Ok (r, c') -> CacheAPI.call o c = Ok (f r, c')) ->
    m_numShards s' = m_numShards s /\ exists i b, (all_counters s).1 !! i = Some b /\ (all_counters s').1 = <[i := counted o (f r) b]> (all_counters s).1).
  { intros A m k r f s1. unfold getShard, gets, mbind, SM_bind. destruct (m_numShards s =? 0); [done|]. cbn [mret SM_ret].
    intros (c & c' & Hc & Hm & ->)%at_shard_Ok Hcall. split; [done|]. eexists _, (counters c).
    unfold all_counters. cbn. rewrite list_lookup_fmap, Hc, list_fmap_insert. split; [done|]. by rewrite (law_counts _ _ _ _ (Hcall _ _ Hm)). }
  destruct o as [e ac k|k v|k| |ks|]; cbn [call]; unfold mbind at 1, SM_bind at 1.
  - destruct (find hash e ac k s) as [[r s1]|] eqn:Hf; [|done]. intros [= <- <-].
    destruct (Hat _ _ _ _ (fun r => Found r.1 r.2) _ Hf) as [Hn Hx]; [|by split; [|right]].
    intros c c' Hc. cbn [CacheAPI.call]. unfold mbind, SM_bind. by rewrite Hc.
  - destruct (insert hash k v s) as [[r s1]|] eqn:Hf; [|done]. intros [= <- <-].
    destruct (Hat _ _ _ _ Inserted _ Hf) as [Hn Hx]; [|by split; [|right]]. intros c c' Hc. cbn [CacheAPI.call]. unfold mbind, SM_bind. by rewrite Hc.
  - destruct (delete_key hash k s) as [[r s1]|] eqn:Hf; [|done]. intros [= <- <-].
    destruct (Hat _ _ _ _ (fun _ => Done) _ Hf) as [Hn Hx]; [|by split; [|right]]. intros c c' Hc. cbn [CacheAPI.call]. unfold mbind, SM_bind. by rewrite Hc.
  - intros [= <- <-]. split; [done|]. by left.
  - destruct (snapshotKeys ks s) as [[r s1]|] eqn:Hf; [|done]. intros [= <- <-]. apply keeps_snapshot in Hf. unfold all_counters in *.
    injection Hf as Hc Hn. split; [done|]. by left.
  - destruct (Size s) as [[r s1]|] eqn:Hf; [|done]. intros [= <- <-]. apply keeps_Size in Hf. unfold all_counters in *. injection Hf as Hc Hn. split; [done|]. by left.
Qed.

Lemma sumZ_insert l i x y : l !! i = Some x -> sumZ (<[i := y]> l) = sumZ l + (y - x).
Proof.
  intros Hi. rewrite <- (sumZ_alter l i (y - x) x Hi). f_equal. apply list_eq. intros j. assert (Hlt := lookup_lt_Some _ _ _ Hi). destruct (decide (j = i)) as [->|Hne].
  - rewrite list_lookup_insert_eq, list_lookup_alter_eq, Hi by done. cbn. f_equal. lia.
  - by rewrite list_lookup_insert_ne, list_lookup_alter_ne by done.
Qed.

Lemma counts_le bs : counts bs -> 0 <= hits bs /\ 0 <= misses bs /\ forall i b, bs !! i = Some b -> 0 <= hit_num b <= hits bs /\ 0 <= miss_num b <= misses bs.
Proof.
  intros Hc. assert (Hp : 0 <= hits bs /\ 0 <= misses bs).
  { split; apply sumZ_nonneg, Forall_fmap; eapply Forall_impl; try exact Hc; by intros b [? ?]. }
  split; [apply Hp|]. split; [apply Hp|]. clear Hp. induction Hc as [|b bs Hb Hbs IH]; intros i x Hi; [done|].
  assert (Hn : 0 <= hits bs /\ 0 <= misses bs) by (split; apply sumZ_nonneg, Forall_fmap; eapply Forall_impl; try exact Hbs; by intros ? [? ?]).
  unfold hits, misses in *. rewrite !fmap_cons, !sumZ_cons. destruct i as [|i]; cbn in Hi; [injection Hi as <-; lia|]. specialize (IH i x Hi). lia.
Qed.

Lemma counted_counts o (a : answer V) bs i b : counts bs -> bs !! i = Some b -> hits bs + 1 < 2 ^ 64 -> misses bs + 1 < 2 ^ 64 ->
  counts (<[i := counted o a b]> bs) /\ hits (<[i := counted o a b]> bs) = hits bs + (tally1 o a).1 /\ misses (<[i := counted o a b]> bs) = misses bs + (tally1 o a).2.
Proof.
  intros Hc Hi Hh Hm. destruct (counts_le bs Hc) as (_ & _ & Hle). destruct (Hle i b Hi) as [Hb1 Hb2].
  assert (Hx : 0 <= hit_num (counted o a b) /\ 0 <= miss_num (counted o a b) /\
    hit_num (counted o a b) - hit_num b = (tally1 o a).1 /\ miss_num (counted o a b) - miss_num b = (tally1 o a).2).
  { unfold counted, tally1, count_find. destruct o as [e ac k|k v|k| |ks|], a as [hit ac'| | | |]; cbn; try lia.
    destruct (sample e), hit; cbn; try lia; rewrite u64_small by lia; lia. }
  destruct Hx as (H1' & H2' & H3' & H4'). split; [|split].
  - by apply Forall_insert.
  - unfold hits. rewrite list_fmap_insert, (sumZ_insert _ _ (hit_num b)); [lia|]. by rewrite list_lookup_fmap, Hi.
  - unfold misses. rewrite list_fmap_insert, (sumZ_insert _ _ (miss_num b)); [lia|]. by rewrite list_lookup_fmap, Hi.
Qed.

Lemma tally1_bound o (a : answer V) : 0 <= (tally1 o a).1 <= 1 /\ 0 <= (tally1 o a).2 <= 1.
Proof. destruct o as [e ? ?| | | | |], a as [hit ?| | | |]; cbn; try lia. destruct (sample e), hit; cbn; lia. Qed.

Lemma run_counters ops s rs s' : run hash ops s = Ok (rs, s') -> counts (all_counters s).1 ->
  hits (all_counters s).1 + Z.of_nat (length ops) < 2 ^ 64 -> misses (all_counters s).1 + Z.of_nat (length ops) < 2 ^ 64 ->
  m_numShards s' = m_numShards s /\ length (all_counters s').1 = length (all_counters s).1 /\ counts (all_counters s').1 /\
  hits (all_counters s').1 = hits (all_counters s).1 + (tally ops rs).1 /\ misses (all_counters s').1 = misses (all_counters s).1 + (tally ops rs).2 /\
  0 <= (tally ops rs).1 <= Z.of_nat (length ops) /\ 0 <= (tally ops rs).2 <= Z.of_nat (length ops) - (tally ops rs).1.
Proof.
  revert s rs. induction ops as [|o ops IH]; intros s rs Hr Hc Hh Hm; cbn [run] in Hr.
  { injection Hr as <- <-. cbn. split_and!; try done; lia. }
  unfold mbind at 1, SM_bind at 1 in Hr. destruct (call hash o s) as [[a s1]|] eqn:Hcall; [|done].
  unfold mbind at 1, SM_bind at 1 in Hr. destruct (run hash ops s1) as [[rest s2]|] eqn:Hrun; [|done]. injection Hr as <- <-.
  destruct (call_counters o s a s1 Hcall) as [Hn Hst]. cbn [length] in Hh, Hm. assert (Ht := tally1_bound o a).
  assert (Hsum : (tally1 o a).1 + (tally1 o a).2 <= 1) by (clear; destruct o as [e ? ?| | | | |], a as [hit ?| | | |]; cbn; try lia; destruct (sample e), hit; cbn; lia).
  assert (H1s : length (all_counters s1).1 = length (all_counters s).1 /\ counts (all_counters s1).1 /\
    hits (all_counters s1).1 = hits (all_counters s).1 + (tally1 o a).1 /\ misses (all_counters s1).1 = misses (all_counters s).1 + (tally1 o a).2).
  { destruct Hst as [[-> ->] | (i & b & Hi & ->)]; [cbn; split_and!; try done; lia|]. rewrite length_insert. split; [done|]. apply counted_counts; [done|done|lia|lia]. }
  destruct H1s as (Hl1 & Hc1 & Hh1 & Hm1). destruct (IH s1 rest Hrun Hc1) as (Hn2 & Hl2 & Hc2 & Hh2 & Hm2 & Hb1 & Hb2); [lia|lia|].
  cbn [tally fst snd length]. split_and!; [congruence|congruence|done|lia|lia|lia|lia|lia|lia].
Qed.

(** A report of every shard in order. *)
Lemma gather_shards {A} (report : C -> A * C) s k n : length (m_shards s) = (k + n)%nat ->
  gather report (Z.of_nat <$> seq k n) s =
    Ok ((fun c => (report c).1) <$> drop k (m_shards s), with_shards (take k (m_shards s) ++ ((fun c => (report c).2) <$> drop k (m_shards s))) s).
Proof.
  revert k s. induction n as [|n IH]; intros k s Hlen; cbn [seq fmap list_fmap gather].
  { rewrite drop_ge, take_ge, app_nil_r by lia. by destruct s. }
  destruct (lookup_lt_is_Some_2 (m_shards s) k ltac:(lia)) as [c Hc]. unfold mbind, SM_bind, at_shard at 1. rewrite Nat2Z.id, Hc.
  destruct (report c) as [a c'] eqn:Hr. rewrite IH by (cbn; rewrite length_insert; lia). cbn [m_shards with_shards mret SM_ret].
  assert (Hlt := lookup_lt_Some _ _ _ Hc). rewrite (drop_S _ _ _ Hc), drop_insert_lt by lia. cbn [fmap list_fmap]. rewrite Hr. cbn [fst snd]. f_equal. f_equal.
  unfold with_shards. cbn. f_equal. rewrite (take_S_r _ _ c') by (by rewrite list_lookup_insert_eq). rewrite take_insert_ge by lia. by rewrite <- app_assoc.
Qed.
End sharded.

(** ** Properties *)
Section properties.
Context {C V : Type} `{ShardStatLaws C V counters} (hash : Z -> Z) (make : Type_ -> Z -> C).
Context (hw maxSize numShards rebuild_freq : Z) (type : Type_).
Context (Hmake : forall size, counters (make type size) = {| hit_num := 0; miss_num := 0 |}).

Lemma add_up_small ns : Forall (fun n => 0 <= n) ns -> sumZ ns < 2 ^ 64 -> add_up ns = sumZ ns.
Proof. intros Hn Hs. unfold add_up. rewrite foldl_u64_sum by (try done; lia). lia. Qed.

(** What a report of all shards leaves and answers. *)
Lemma miss_ratio_counters s : length (m_shards s) = Z.to_nat (m_numShards s) -> 0 <= m_numShards s ->
  let cs := (all_counters (counters := counters) s).1 in counts cs -> hits cs + misses cs < 2 ^ 64 ->
  exists q s', PrintMissRatio s = Ok (q, s') /\ q = (if hits cs + misses cs =? 0 then 1%Q else (inject_Z (misses cs) / inject_Z (hits cs + misses cs))%Q) /\
    m_numShards s' = m_numShards s /\ (all_counters (counters := counters) s').1 = (fun _ => {| hit_num := 0; miss_num := 0 |}) <$> cs.
Proof.
  intros Hlen Hn cs Hc Hs. unfold PrintMissRatio, gets, mbind, SM_bind.
  replace (seqZ 0 (m_numShards s)) with (Z.of_nat <$> seq 0 (Z.to_nat (m_numShards s))) by (unfold seqZ; apply list_fmap_ext; intros; lia).
  rewrite (gather_shards shard_GetStat s 0) by done. rewrite drop_0, take_0. cbn [app mret SM_ret].
  assert (H1' : (fun c => (shard_GetStat c).1) <$> m_shards s = (fun b => (hit_num b, miss_num b)) <$> cs).
  { unfold cs, all_counters. cbn. rewrite <- list_fmap_compose. apply list_fmap_ext. intros i c _. apply law_GetStat. }
  rewrite H1', <- !list_fmap_compose. destruct (counts_le cs Hc) as (Hh0 & Hm0 & _).
  assert (Hh : add_up (fst ∘ (fun b => (hit_num b, miss_num b)) <$> cs) = hits cs).
  { apply add_up_small; [|change (hits cs < 2 ^ 64); lia]. apply Forall_fmap. eapply Forall_impl; [exact Hc|]. by intros b [? ?]. }
  assert (Hm : add_up (snd ∘ (fun b => (hit_num b, miss_num b)) <$> cs) = misses cs).
  { apply add_up_small; [|change (misses cs < 2 ^ 64); lia]. apply Forall_fmap. eapply Forall_impl; [exact Hc|]. by intros b [? ?]. }
  rewrite Hh, Hm, u64_small by lia. eexists _, _. split; [done|]. split; [done|]. split; [done|].
  unfold all_counters, cs. cbn. rewrite <- !list_fmap_compose. apply list_fmap_ext. intros i c _. apply law_GetStat.
Qed.

Definition zero : BaseStat := {| hit_num := 0; miss_num := 0 |}.
(** All counters are zero. *)
Definition cleared (s : ConcurrentScalableCache C) : Prop :=
  m_numShards s = numShards /\ (all_counters (counters := counters) s).1 = replicate (Z.to_nat numShards) zero.

Lemma cleared_counts n : hits (replicate n zero) = 0 /\ misses (replicate n zero) = 0 /\ counts (replicate n zero).
Proof.
  unfold hits, misses. rewrite !fmap_replicate. assert (Hsum : sumZ (replicate n 0) = 0) by (induction n as [|n IH]; [done|]; cbn [replicate]; by rewrite sumZ_cons, IH).
  cbn [hit_num miss_num zero]. rewrite Hsum. split_and!; [done|done|]. by apply Forall_replicate.
Qed.

Lemma new_cleared s : 0 < numShards -> new_ConcurrentScalableCache make hw maxSize numShards type rebuild_freq = Ok s -> cleared s.
Proof.
  intros Hn. unfold new_ConcurrentScalableCache. rewrite (proj2 (Z.eqb_neq _ _)) by lia. destruct (_ && _); [done|]. intros [= <-]. split; [done|].
  unfold all_counters. cbn. rewrite <- list_fmap_compose, (const_fmap _ _ zero), length_seqZ; [done|]. intros i x _. apply Hmake.
Qed.

(** The ratio of a tally. *)
Definition ratio_of (t : Z * Z) : Q := if t.1 + t.2 =? 0 then 1%Q else (inject_Z t.2 / inject_Z (t.1 + t.2))%Q.

Lemma report_of_run ops s rs s1 : 0 < numShards -> cleared s -> run hash ops s = Ok (rs, s1) -> Z.of_nat (length ops) < 2 ^ 64 ->
  exists s2, PrintMissRatio s1 = Ok (ratio_of (tally ops rs), s2) /\ cleared s2.
Proof.
  intros Hpos [Hn0 Hc0] Hr Hl. destruct (cleared_counts (Z.to_nat numShards)) as (Z1 & Z2 & Z3).
  destruct (run_counters hash ops s rs s1 Hr) as (Hn1 & Hlen & Hc & Hh & Hm & Hb1 & Hb2); [by rewrite Hc0|rewrite Hc0, Z1; lia|rewrite Hc0, Z2; lia|].
  rewrite Hc0, ?Z1, ?Z2 in *. rewrite length_replicate in Hlen. unfold all_counters in Hlen. cbn in Hlen. rewrite length_fmap in Hlen.
  destruct (miss_ratio_counters s1) as (q & s' & Hq & Hqe & Hn' & Hc'); [rewrite Hlen; congruence|lia|done|lia|].
  exists s'. unfold ratio_of. rewrite Hq, Hqe, Hh, Hm, !Z.add_0_l. split; [done|]. split; [congruence|]. rewrite Hc', (const_fmap _ _ zero) by done.
  f_equal. unfold all_counters. cbn. by rewrite length_fmap.
Qed.

(** C37: After any calls on a new sharded cache the miss ratio the controller sees
    is the share of misses among the sampled lookups of all shards, 1 if there
    were none; the report clears the counters, so that the next one is about the
    calls since. *)
Theorem miss_ratio_of_run ops more s0 rs rs' s1 s2 s3 : 0 < numShards ->
  new_ConcurrentScalableCache make hw maxSize numShards type rebuild_freq = Ok s0 ->
  Z.of_nat (length ops) < 2 ^ 64 -> Z.of_nat (length more) < 2 ^ 64 ->
  run hash ops s0 = Ok (rs, s1) -> forall q, PrintMissRatio s1 = Ok (q, s2) -> run hash more s2 = Ok (rs', s3) ->
  q = ratio_of (tally ops rs) /\ exists s4, PrintMissRatio s3 = Ok (ratio_of (tally more rs'), s4).
Proof.
  intros Hn Hs0 Hl Hl' Hr q Hq Hr'. destruct (report_of_run ops s0 rs s1 Hn (new_cleared s0 Hn Hs0) Hr Hl) as (s & Hq' & Hc).
  rewrite Hq in Hq'. injection Hq' as -> ->. split; [done|]. destruct (report_of_run more s rs' s3 Hn Hc Hr' Hl') as (s4 & Hq4 & _). by exists s4.
Qed.
End properties.

(** ** The latencies *)

(** The samples a report of the latest step is about. *)
Definition fresh (s : MySet) : list Q := drop (Z.to_nat (Util.cursor s)) (data_ s).

Lemma step_of_ok s : 0 <= Util.cursor s ->
  let '(avg, step, s') := step_of s in
  step = size_from_last_end s /\ step = Z.of_nat (length (fresh s)) /\ (avg * inject_Z step == sumQ (fresh s))%Q /\ size_from_last_end s' = 0.
Proof.
  intros Hc. unfold step_of, print_from_last_end, size_from_last_end, set_size, fresh. rewrite length_drop.
  destruct (Z.eqb_spec (Z.of_nat (length (data_ s))) 0) as [H0|H0]; cbn [orb].
  - rewrite drop_ge by lia. split_and!; [done|lia|reflexivity|by rewrite H0].
  - destruct (Z.leb_spec (Z.of_nat (length (data_ s))) (Util.cursor s)) as [Hle|Hgt].
    + rewrite drop_ge by lia. split_and!; [done|lia|reflexivity|]. rewrite (proj2 (Z.eqb_neq _ _)), (proj2 (Z.leb_le _ _)) by done. done.
    + cbn [data_ Util.cursor]. split_and!; [done|lia| |].
      * field. unfold inject_Z, Qeq. cbn. lia.
      * rewrite (proj2 (Z.eqb_neq _ _)), (proj2 (Z.leb_le _ _)) by lia. done.
Qed.

(** The step latency is the mean over the new samples of hits and others
    together, not a number if there are none; their number is what [GetStepSize]
    announced, and afterwards there is nothing new. *)
Theorem step_lat_mean l : 0 <= Util.cursor (total_hit_latency_ l) -> 0 <= Util.cursor (total_other_latency_ l) ->
  Z.of_nat (length (data_ (total_hit_latency_ l)) + length (data_ (total_other_latency_ l))) < 2 ^ 64 ->
  let '(r, l') := PrintStepLat l in
  let new := fresh (total_hit_latency_ l) ++ fresh (total_other_latency_ l) in
  lat_num r = GetStepSize l /\ lat_num r = Z.of_nat (length new) /\ GetStepSize l' = 0 /\
  match lat_avg r with Some avg => new <> [] /\ (avg == sumQ new / inject_Z (Z.of_nat (length new)))%Q | None => new = [] end.
Proof.
  intros Hh Ho Hb. unfold PrintStepLat. assert (H1 := step_of_ok _ Hh). assert (H2 := step_of_ok _ Ho).
  destruct (step_of (total_hit_latency_ l)) as [[a1 n1] s1], (step_of (total_other_latency_ l)) as [[a2 n2] s2].
  destruct H1 as (E1 & L1 & A1 & Z1), H2 as (E2 & L2 & A2 & Z2). cbn [lat_num lat_avg]. set (x := fresh (total_hit_latency_ l)) in *. set (y := fresh (total_other_latency_ l)) in *.
  assert (Hx : (length x <= length (data_ (total_hit_latency_ l)))%nat) by (unfold x, fresh; rewrite length_drop; lia).
  assert (Hy : (length y <= length (data_ (total_other_latency_ l)))%nat) by (unfold y, fresh; rewrite length_drop; lia).
  unfold GetStepSize, total_avg. cbn [total_hit_latency_ total_other_latency_]. rewrite <- E1, <- E2, Z1, Z2, length_app. rewrite (u64_small (n1 + n2)) by lia.
  split_and!; [done|lia|done|]. destruct (Z.eqb_spec (n1 + n2) 0) as [H0|H0].
  - assert (x = []) as -> by (apply nil_length_inv; lia). by assert (y = []) as -> by (apply nil_length_inv; lia).
  - split; [intros [-> ->]%app_nil; cbn in *; lia|]. rewrite A1, A2. replace (Z.of_nat (length x + length y)) with (n1 + n2) by lia.
    assert (Hs : (sumQ (x ++ y) == sumQ x + sumQ y)%Q); [|by rewrite Hs]. clear. induction x as [|q x IH]; [change (sumQ y == 0 + sumQ y)%Q; ring|]. change (q + sumQ (x ++ y) == q + sumQ x + sumQ y)%Q. rewrite IH. ring.
Qed.

Lemma step_lat_mean_witness :
  let l := {| total_hit_latency_ := {| data_ := [9; 1; 2]%Q; cursor := 1; sorted := false |}; total_other_latency_ := {| data_ := [6]%Q; cursor := 0; sorted := false |} |} in
  match lat_avg (PrintStepLat l).1 with Some avg => (avg == 9 / inject_Z 3)%Q | None => False end.
Proof.
  intros l. assert (H := step_lat_mean l ltac:(done) ltac:(done) ltac:(done)). destruct (PrintStepLat l) as [r l'] eqn:Hl. destruct H as (_ & _ & _ & H). cbn [fst].
  destruct (lat_avg r); [|discriminate H]. destruct H as [_ H]. etransitivity; [exact H|]. reflexivity.
Defined.

Definition demo_finds : list (op Z) :=
  let e := {| try_lock := true; sample := true |} in
  [CacheAPI.Insert 10 1; CacheAPI.Find e 0 10; CacheAPI.Find e 0 11; CacheAPI.Find {| try_lock := true; sample := false |} 0 12; CacheAPI.Find e 0 10].

(** Two hits and a miss are counted; nothing was looked up after the report. *)
Lemma miss_ratio_of_run_witness : exists s0 rs s1 q s2 rs' s3,
  new_ConcurrentScalableCache demo_make 8 3 2 LRU 0 = Ok s0 /\ run demo_hash demo_finds s0 = Ok (rs, s1) /\ PrintMissRatio s1 = Ok (q, s2) /\
  run demo_hash [CacheAPI.Insert 14 1] s2 = Ok (rs', s3) /\ q = (1 # 3)%Q /\ exists s4, PrintMissRatio s3 = Ok (1%Q, s4).
Proof.
  set (m := (rs ← run demo_hash demo_finds; q ← PrintMissRatio; rs' ← run demo_hash [CacheAPI.Insert 14 1]; mret (rs, q, rs')) : SM _ _).
  assert (Hm : match new_ConcurrentScalableCache demo_make 8 3 2 LRU 0 with Ok s0 => match m s0 with Ok (r, _) => Some r | _ => None end | _ => None end =
    Some ([Inserted true; Found true 1; Found false 0; Found false 0; Found true 1], (1 # 3)%Q, [Inserted true])) by (vm_compute; reflexivity).
  destruct (new_ConcurrentScalableCache _ _ _ _ _ _) as [s0|] eqn:H0; [|discriminate]. unfold m, mbind, SM_bind in Hm.
  destruct (run demo_hash demo_finds s0) as [[rs s1]|] eqn:H1; [|discriminate]. destruct (PrintMissRatio s1) as [[q s2]|] eqn:H2; [|discriminate].
  destruct (run demo_hash [CacheAPI.Insert 14 1] s2) as [[rs' s3]|] eqn:H3; [|discriminate]. cbn [mret SM_ret] in Hm. injection Hm as -> -> ->.
  eexists s0, _, s1, _, s2, _, s3. split; [reflexivity|]. split; [exact H1|]. split; [exact H2|]. split; [exact H3|].
  exact (miss_ratio_of_run (counters := LRUCache.m_stat) demo_hash demo_make 8 3 2 0 LRU (fun _ => eq_refl) demo_finds [CacheAPI.Insert 14 1] s0 _ _ s1 s2 s3
    eq_refl H0 eq_refl eq_refl H1 _ H2 H3).
Defined.
