(* ===== verification/BaseMonitor.v ===== *)
(** * The controller of the baseline caches ([cache/hhvm-scalable-cache.h], [BaseMonitor])

    It waits like the FrozenHot controller until the miss ratio is stable, then
    reports once a second until the clients have ended.  It calls no shard: the
    reports, what [Observations] answers, are all it does.  When the wait ends is
    stated over the passes of its loop, four observations each. *)

From S2P Require Import Prelude Monitor MonitorProps.
From Stdlib Require Import QArith.
Local Close Scope Q_scope.

Section base_monitor.
Context `{Observations}.

(** The valid run: a report a second. *)
Fixpoint valid_run (fuel : nat) : MM unit :=
  match fuel with
  | O => no_fuel
  | S fuel =>
      stop ← stopped;
      if (stop : bool) then mret tt else
      _ ← observe PrintMissRatio;
      _ ← observe step_mean;
      valid_run fuel
  end.

(** [PrintGlobalLat], between the loops, clears the latencies of the warm-up. *)
Definition BaseMonitor (fuel : nat) : MM unit :=
  wait_stable fuel (3 # 2) 0 0 0;;
  valid_run fuel.

(** ** When the wait ends *)

(** What the [k]th pass sees when the first one starts at observation [t0]. *)
Definition size_before (t0 k : nat) : Z := match k with O => 0%Z | S k => Size (t0 + 4 * k + 3) end.
Definition ratio_at (t0 k : nat) : Q := PrintMissRatio (t0 + 4 * k + 1).
Definition ratio_before (t0 k : nat) : Q := match k with O => (3 # 2)%Q | S k => ratio_at t0 k end.

(** The size did not grow in the pass before; nor did the miss ratio fall. *)
Definition full (t0 k : nat) : bool := (size_before t0 k <=? size_before t0 (k - 1))%Z.
Definition rises (t0 k : nat) : bool := full t0 k && Qle_bool (ratio_before t0 k) (ratio_at t0 k).
(** The number of such passes up to the [k]th. *)
Definition rises_to (t0 k : nat) : nat := length (filter (fun j => rises t0 j = true) (seq 0 (S k))).
Definition settled (t0 k : nat) : bool := full t0 k && (2 <=? rises_to t0 k)%nat.

Definition later (n : nat) (s : monitor) : monitor := at_time (now s + n) s.

Lemma rises_to_S t0 k : rises_to t0 (S k) = rises_to t0 k + (if rises t0 (S k) then 1 else 0).
Proof.
  unfold rises_to. rewrite (seq_S (S k)), filter_app, length_app. f_equal. rewrite filter_cons, filter_nil.
  change (0 + S k) with (S k). destruct (decide (rises t0 (S k) = true)) as [Hr|Hr]; [by rewrite Hr|]. by apply not_true_is_false in Hr as ->.
Qed.

(** A pass that starts with what the passes before left. *)
Lemma wait_pass fuel t0 k s n : now s = t0 + 4 * k -> should_stop (t0 + 4 * k) = false ->
  (Z.of_nat (rises_to t0 k) = n + (if rises t0 k then 1 else 0))%Z ->
  wait_stable (S fuel) (ratio_before t0 k) (size_before t0 (k - 1)) (size_before t0 k) n s =
    if settled t0 k then (later 3 s, Done tt)
    else wait_stable fuel (ratio_before t0 (S k)) (size_before t0 k) (size_before t0 (S k)) (Z.of_nat (rises_to t0 k)) (later 4 s).
Proof.
  intros Hn Hs Hr. cbn [wait_stable]. unfold stopped, observe, mbind, MM_bind. cbn [now at_time]. rewrite Hn, Hs.
  replace (PrintMissRatio (S (t0 + 4 * k))) with (ratio_at t0 k) by (unfold ratio_at; f_equal; lia).
  change (size_before t0 k <=? size_before t0 (k - 1))%Z with (full t0 k).
  replace (if full t0 k && Qle_bool (ratio_before t0 k) (ratio_at t0 k) then (n + 1)%Z else n) with (Z.of_nat (rises_to t0 k))
    by (rewrite Hr; unfold rises; destruct (full t0 k && _); lia).
  assert (Hle : (WAIT_STABLE_THRESHOLD <=? Z.of_nat (rises_to t0 k))%Z = (2 <=? rises_to t0 k)%nat).
  { unfold WAIT_STABLE_THRESHOLD. destruct (Nat.leb_spec 2 (rises_to t0 k)); [apply Z.leb_le; lia | apply Z.leb_gt; lia]. }
  rewrite Hle. change (full t0 k && (2 <=? rises_to t0 k)%nat) with (settled t0 k).
  destruct (settled t0 k).
  - unfold later, at_time, mret, MM_ret. cbn [now trace Monitor.SLEEP_THRESHOLD beginning_flag stop_sample_stat performance_depletion construct_container]. do 2 f_equal. lia.
  - cbn [ratio_before size_before]. replace (S (S (S (t0 + 4 * k)))) with (t0 + 4 * k + 3) by lia. unfold later, at_time. cbn. f_equal; [|f_equal; lia]. do 2 f_equal. lia.
Qed.

Lemma wait_passes t0 d k fuel s n : now s = t0 + 4 * k -> d < fuel -> (forall j, k <= j <= k + d -> should_stop (t0 + 4 * j) = false) ->
  (Z.of_nat (rises_to t0 k) = n + (if rises t0 k then 1 else 0))%Z ->
  (forall j, k <= j < k + d -> settled t0 j = false) -> settled t0 (k + d) = true ->
  wait_stable fuel (ratio_before t0 k) (size_before t0 (k - 1)) (size_before t0 k) n s = (later (4 * d + 3) s, Done tt).
Proof.
  revert k fuel s n. induction d as [|d IH]; intros k fuel s n Hn Hf Hs Hr Hno Hyes; (destruct fuel as [|fuel]; [lia|]).
  - rewrite Nat.add_0_r in Hyes. rewrite (wait_pass fuel t0 k) by (try done; apply Hs; lia). by rewrite Hyes.
  - rewrite (wait_pass fuel t0 k) by (try done; apply Hs; lia). rewrite Hno by lia.
    replace (size_before t0 k) with (size_before t0 (S k - 1)) by (f_equal; lia).
    rewrite (IH (S k)).
    + f_equal. unfold later, at_time. cbn. f_equal. lia.
    + cbn. lia.
    + lia.
    + intros j Hj. apply Hs. lia.
    + rewrite rises_to_S. destruct (rises t0 (S k)); lia.
    + intros j Hj. apply Hno. lia.
    + by rewrite Nat.add_succ_comm.
Qed.

(** A loop ends, late enough for [should_stop], and calls nothing. *)
Definition ends (T : nat) (m : nat -> MM unit) : Prop := forall fuel s, 0 < fuel -> T < fuel + now s ->
  exists s', m fuel s = (s', Done tt) /\ trace s' = trace s /\ now s < now s'.

Context (T : nat) (stop_stays : forall t t', t <= t' -> should_stop t = true -> should_stop t' = true) (stop_comes : should_stop T = true).

Lemma running t : should_stop t = false -> t < T.
Proof. intros Hs. destruct (decide (T <= t)) as [Hle|]; [|lia]. apply (stop_stays T t Hle) in stop_comes. congruence. Qed.

Lemma valid_run_ends : ends T valid_run.
Proof.
  intros fuel. induction fuel as [|fuel IH]; intros s H0 Hf; [lia|]. cbn [valid_run]. unfold stopped, observe, mbind, MM_bind.
  destruct (should_stop (now s)) eqn:Hs; [by eexists; split; [done|]; split; [done|cbn; lia]|]. apply running in Hs.
  edestruct IH as (s' & Hs' & Ht & Hn); [| |exists s'; split; [exact Hs'|]; split; [exact Ht|]]; cbn in *; lia.
Qed.

Lemma wait_stable_ends r ls sz n : ends T (fun fuel => wait_stable fuel r ls sz n).
Proof.
  intros fuel. revert r ls sz n. induction fuel as [|fuel IH]; intros r ls sz n s H0 Hf; [lia|]. cbn [wait_stable]. unfold stopped, observe, mbind, MM_bind.
  destruct (should_stop (now s)) eqn:Hs; [by eexists; split; [done|]; split; [done|cbn; lia]|]. apply running in Hs. cbv zeta.
  match goal with |- context [if ?b then mret tt else _] => destruct b end; [by eexists; split; [done|]; split; [done|cbn; lia]|].
  edestruct IH as (s' & Hs' & Ht & Hn); [| |exists s'; split; [exact Hs'|]; split; [exact Ht|]]; cbn in *; lia.
Qed.
End base_monitor.

(** ** Properties *)

(** C39: The wait for a stable cache, of both controllers, ends in the first pass
    in which the size has not grown since the pass before and the miss ratio has
    not fallen in two such passes, this one included: as long as the clients run, it
    ends there and not before. *)
Theorem wait_ends_when_settled `{Observations} k fuel s :
  (forall j, j <= k -> should_stop (now s + 4 * j) = false) -> (forall j, j < k -> settled (now s) j = false) ->
  settled (now s) k = true -> k < fuel -> wait_stable fuel (3 # 2) 0 0 0 s = (later (4 * k + 3) s, Done tt).
Proof.
  intros Hs Hno Hyes Hf. apply (wait_passes (now s) k 0); [lia|done|intros j Hj; apply Hs; lia| |intros j Hj; apply Hno; lia|done].
  unfold rises_to. cbn [seq]. rewrite filter_cons, filter_nil. destruct (decide _) as [->|Hr]; [done|]. by apply not_true_is_false in Hr as ->.
Qed.

(** When [should_stop] is set by the [T]-th observation the controller of the
    baseline caches ends, and has called no shard. *)
Theorem base_monitor_stops `{Observations} (T fuel : nat) s :
  (forall t t', t <= t' -> should_stop t = true -> should_stop t' = true) -> should_stop T = true -> T < fuel + now s -> 0 < fuel ->
  exists s', BaseMonitor fuel s = (s', Done tt) /\ trace s' = trace s /\ now s < now s'.
Proof.
  intros Hstays HT Hf Hf0. unfold BaseMonitor, mbind, MM_bind.
  destruct (wait_stable_ends T Hstays HT (3 # 2) 0 0 0 fuel s Hf0 Hf) as (s1 & -> & Ht1 & Hn1).
  destruct (valid_run_ends T Hstays HT fuel s1 Hf0) as (s2 & -> & Ht2 & Hn2); [lia|].
  exists s2. split; [done|]. split; [congruence|lia].
Qed.

(** A cache that fills up in two passes and then has a miss ratio of 1/4. *)
Definition filling : Observations := {|
  should_stop t := 40 <=? t;
  PrintMissRatio t := if t <? 8 then (1 # 2)%Q else (1 # 4)%Q;
  step_mean _ := 3%Q; step_num _ := 100%Z; step_hit _ := 1%Q; step_other _ := 6%Q;
  GetStepSize _ := 1000%Z; other_size_from_last_end _ := 10%Z; Size t := if t <? 4 then 500%Z else 1000%Z;
  req_tail _ _ := 5%Q; learned _ := []
|}.

Lemma wait_ends_when_settled_witness :
  wait_stable (H := filling) 10 (3 # 2) 0 0 0 new_monitor = (later 19 new_monitor, Done tt).
Proof.
  assert (Hs : forall j, j <= 4 -> should_stop (Observations := filling) (now new_monitor + 4 * j) = false)
    by (intros j Hj; do 5 (destruct j as [|j]; [reflexivity|]); lia).
  assert (Hno : forall j, j < 4 -> settled (H := filling) (now new_monitor) j = false)
    by (intros j Hj; do 4 (destruct j as [|j]; [vm_compute; reflexivity|]); lia).
  assert (Hyes : settled (H := filling) (now new_monitor) 4 = true) by (vm_compute; reflexivity).
  exact (wait_ends_when_settled (H := filling) 4 10 new_monitor Hs Hno Hyes ltac:(lia)).
Defined.

Lemma base_monitor_stops_witness : exists s', BaseMonitor (H := filling) 50 new_monitor = (s', Done tt) /\ trace s' = [].
Proof.
  destruct (base_monitor_stops (H := filling) 40 50 new_monitor) as (s' & Hs & Ht & _); [|exact eq_refl|cbn; lia|lia|exists s'; split; [exact Hs|exact Ht]].
  cbn [should_stop filling]. intros t t' Ht H%Nat.leb_le. apply Nat.leb_le. lia.
Defined.
