(* ===== verification/SPDKDevice.v ===== *)
(** * Opening the SPDK device ([ssdlogging/spdk_device.h], [ssdlogging/spdk_device.cc])

    [InitSPDK] finds the controllers behind an address, registers their active
    namespaces and gives every namespace its queue pairs; the logging servers
    use the first namespace of the list.  SPDK is a parameter: what its
    functions answer.  A controller is the number SPDK knows it by. *)

From stdpp Require Import strings.
From S2P Require Import Prelude.
Local Open Scope Z_scope.

Definition SPDK_MAX_IO_SIZE : Z := 2 ^ 32.

(** ** What SPDK answers *)
Record spdk_ns := { ns_is_active : bool; ns_sector_size : Z; ns_size : Z; ns_max_io_xfer_size : Z }.
(** A controller: its queues and its namespaces, the first with id 1; [None]: no such namespace. *)
Record spdk_ctrlr := { ctrlr_id : Z; opts_num_io_queues : Z; ctrlr_ns : list (option spdk_ns) }.

Class SPDK := {
  spdk_env_init : Z;
  spdk_nvme_transport_id_parse : string -> Z;
  (** Its result, and the controllers it attaches first. *)
  spdk_nvme_probe : string -> Z * list spdk_ctrlr;
  default_io_queue_requests : Z;
  (** A queue pair with this many requests, of a controller that has given out
      so many. *)
  alloc_io_qpair : nat -> spdk_ctrlr -> Z -> option Z
}.

(** A controller gives out the I/O queue pairs it has ([num_io_queues]), and no
    more. *)
Class AllocLaws `{SPDK} : Prop := {
  alloc_some k c r : Z.of_nat k < opts_num_io_queues c -> is_Some (alloc_io_qpair k c r);
  alloc_none k c r : opts_num_io_queues c <= Z.of_nat k -> alloc_io_qpair k c r = None
}.

(** ** The state *)
Record NSEntry := {
  ctrlr : spdk_ctrlr;
  ns : spdk_ns;
  qpair : option (list (option Z));   (* [None]: not set yet *)
  sector_size : Z;
  capacity : Z
}.
(** [namespaces]: the list from its first entry on. *)
Record SPDKInfo := { controller : option spdk_ctrlr; num_ns : Z; namespaces : list NSEntry; addr : string; num_io_queues : Z }.

(** A new object; [num_ns] and [num_io_queues] are set when a controller is. *)
Definition new_SPDKInfo (device_addr : string) : SPDKInfo :=
  {| controller := None; num_ns := 0; namespaces := []; addr := device_addr; num_io_queues := 0 |}.

(** What [cleanup] gives to [free]. *)
Inductive freed := Entry (e : NSEntry) | Controller (c : spdk_ctrlr).
Definition cleanup (spdk_info : SPDKInfo) : list freed :=
  (Entry <$> namespaces spdk_info) ++ match controller spdk_info with Some c => [Controller c] | None => [] end.

Definition register_ns (spdk_info : SPDKInfo) (c : spdk_ctrlr) (n : spdk_ns) : SPDKInfo :=
  if negb (ns_is_active n) then spdk_info
  else
    let entry := {| ctrlr := c; ns := n; qpair := None; sector_size := ns_sector_size n; capacity := ns_size n |} in
    {| controller := controller spdk_info; num_ns := num_ns spdk_info; namespaces := entry :: namespaces spdk_info;
       addr := addr spdk_info; num_io_queues := num_io_queues spdk_info |}.

(** The loop over the namespace ids of a controller. *)
Fixpoint register_all (spdk_info : SPDKInfo) (c : spdk_ctrlr) (l : list (option spdk_ns)) : SPDKInfo :=
  match l with
  | [] => spdk_info
  | None :: l => register_all spdk_info c l
  | Some n :: l => register_all (register_ns spdk_info c n) c l
  end.
Definition attach_cb (spdk_info : SPDKInfo) (c : spdk_ctrlr) : SPDKInfo :=
  register_all {| controller := Some c; num_ns := Z.of_nat (length (ctrlr_ns c)); namespaces := namespaces spdk_info;
                  addr := addr spdk_info; num_io_queues := opts_num_io_queues c |} c (ctrlr_ns c).

Section device.
Context `{SPDK}.

(** The queue pairs of an entry: [ok] is false when an allocation failed, the
    rest of the array is null then; [used] counts the queue pairs each controller
    has given out. *)
Fixpoint alloc_qpairs (used : gmap Z nat) (c : spdk_ctrlr) (requests : Z) (qpair_num : nat) : list (option Z) * gmap Z nat * bool :=
  match qpair_num with
  | O => ([], used, true)
  | S n =>
      let k := default 0%nat (used !! ctrlr_id c) in
      match alloc_io_qpair k c requests with
      | None => (replicate (S n) None, used, false)
      | Some q => let '(qs, used, ok) := alloc_qpairs (<[ctrlr_id c := S k]> used) c requests n in (Some q :: qs, used, ok)
      end
  end.
Definition with_qpair (qs : list (option Z)) (e : NSEntry) : NSEntry :=
  {| ctrlr := ctrlr e; ns := ns e; qpair := Some qs; sector_size := sector_size e; capacity := capacity e |}.

Fixpoint init_entries (used : gmap Z nat) (requests : Z) (qpair_num : nat) (entries : list NSEntry) : list NSEntry :=
  match entries with
  | [] => []
  | e :: entries =>
      let '(qs, used, ok) := alloc_qpairs used (ctrlr e) requests qpair_num in
      with_qpair qs e :: (if ok then init_entries used requests qpair_num entries else entries)
  end.

(** [opts.io_queue_requests] *)
Definition queue_requests (max_xfer_size : Z) : Z :=
  let size := u32 (u32 ((SPDK_MAX_IO_SIZE - 1) / max_xfer_size + 2) + 1) in
  if default_io_queue_requests <? size then size else default_io_queue_requests.

Definition init_qpair (spdk_info : SPDKInfo) : res SPDKInfo :=
  match namespaces spdk_info with
  | [] => Crash NullDeref
  | ns_entry :: _ =>
      let max_xfer_size := ns_max_io_xfer_size (ns ns_entry) in
      if max_xfer_size =? 0 then Crash DivideByZero else
      let requests := queue_requests max_xfer_size in
      Ok {| controller := controller spdk_info; num_ns := num_ns spdk_info;
            namespaces := init_entries ∅ requests (Z.to_nat (num_io_queues spdk_info)) (namespaces spdk_info);
            addr := addr spdk_info; num_io_queues := num_io_queues spdk_info |}
  end.

(** [InitSPDK] with the global [g_spdk_]: the result ([None]: null), the new
    global, what was freed. *)
Definition InitSPDK (g_spdk_ : option SPDKInfo) (device_addr : string) : res (option SPDKInfo * option SPDKInfo * list freed) :=
  match g_spdk_ with
  | Some g => Ok (Some g, g_spdk_, [])
  | None =>
      let spdk_info := new_SPDKInfo device_addr in
      if spdk_env_init <? 0 then Ok (None, None, [])
      else if negb (spdk_nvme_transport_id_parse device_addr =? 0) then Ok (None, None, cleanup spdk_info)
      else
        let '(rc, attached) := spdk_nvme_probe device_addr in
        let spdk_info := foldl attach_cb spdk_info attached in
        if negb (rc =? 0) then Ok (None, None, cleanup spdk_info)
        else match controller spdk_info with
             | None => Ok (None, None, cleanup spdk_info)
             | Some _ => spdk_info ← init_qpair spdk_info; Ok (Some spdk_info, Some spdk_info, [])
             end
  end.

(** ** What is registered *)

(** The active namespaces of a controller, in the order of their ids. *)
Definition active_of (c : spdk_ctrlr) : list (spdk_ctrlr * spdk_ns) :=
  pair c <$> filter (fun n => ns_is_active n = true) (omap id (ctrlr_ns c)).
Definition entry_of (x : spdk_ctrlr * spdk_ns) : NSEntry :=
  {| ctrlr := x.1; ns := x.2; qpair := None; sector_size := ns_sector_size x.2; capacity := ns_size x.2 |}.

Lemma register_all_ok c l i :
  namespaces (register_all i c l) = reverse (entry_of <$> (pair c <$> filter (fun n => ns_is_active n = true) (omap id l))) ++ namespaces i /\
  controller (register_all i c l) = controller i /\ num_io_queues (register_all i c l) = num_io_queues i.
Proof.
  revert i. induction l as [|[n|] l IH]; intros i; cbn [register_all]; [done| |].
  - destruct (IH (register_ns i c n)) as (-> & -> & ->). change (omap id (Some n :: l)) with (n :: omap id l). unfold register_ns. destruct (ns_is_active n) eqn:Ha; cbn [negb].
    + rewrite filter_cons_True by done. cbn [namespaces controller num_io_queues]. rewrite !fmap_cons, reverse_cons, <- app_assoc. done.
    + by rewrite filter_cons_False by congruence.
  - apply IH.
Qed.

Lemma attached_ok cs i : cs <> [] ->
  let i' := foldl attach_cb i cs in
  namespaces i' = reverse (entry_of <$> concat (active_of <$> cs)) ++ namespaces i /\
  (exists c, last cs = Some c /\ controller i' = Some c /\ num_io_queues i' = opts_num_io_queues c).
Proof.
  intros Hne. revert i. induction cs as [|c cs IH]; intros i; [done|]. cbn [foldl].
  destruct (register_all_ok c (ctrlr_ns c) {| controller := Some c; num_ns := Z.of_nat (length (ctrlr_ns c)); namespaces := namespaces i;
    addr := addr i; num_io_queues := opts_num_io_queues c |}) as (H1 & H2 & H3). cbn [namespaces controller num_io_queues] in H1, H2, H3.
  destruct cs as [|c' cs].
  - cbn [foldl last]. unfold attach_cb. rewrite H1, H2, H3. split; [|by exists c]. cbn. by rewrite app_nil_r.
  - destruct (IH ltac:(done) (attach_cb i c)) as (-> & Hlast). split; [|exact Hlast]. change (concat (active_of <$> c :: c' :: cs)) with (active_of c ++ concat (active_of <$> c' :: cs)). rewrite fmap_app, reverse_app, <- app_assoc.
    assert (Ha : namespaces (attach_cb i c) = reverse (entry_of <$> active_of c) ++ namespaces i) by exact H1. by rewrite Ha.
Qed.

Lemma alloc_all `{!AllocLaws} used c requests n k : default 0%nat (used !! ctrlr_id c) = k -> Z.of_nat (k + n) <= opts_num_io_queues c ->
  exists qs used', alloc_qpairs used c requests n = (Some <$> qs, used', true) /\ length qs = n /\
    default 0%nat (used' !! ctrlr_id c) = (k + n)%nat /\ forall j, j <> ctrlr_id c -> used' !! j = used !! j.
Proof.
  revert used k. induction n as [|n IH]; intros used k Hk Hn; cbn [alloc_qpairs]; [exists [], used; by rewrite Nat.add_0_r|].
  rewrite Hk. destruct (alloc_some k c requests ltac:(lia)) as [q ->].
  destruct (IH (<[ctrlr_id c := S k]> used) (S k)) as (qs & used' & -> & Hl & Hd & Ho); [by rewrite lookup_insert_eq | lia |].
  exists (q :: qs), used'. split_and!; [done | cbn; by rewrite Hl | rewrite Hd; lia |]. intros j Hj. rewrite Ho by done. by rewrite lookup_insert_ne.
Qed.

(** A controller that has given out all it has. *)
Lemma alloc_none_left `{!AllocLaws} used c requests n : opts_num_io_queues c <= Z.of_nat (default 0%nat (used !! ctrlr_id c)) -> (0 < n)%nat ->
  alloc_qpairs used c requests n = (replicate n None, used, false).
Proof. intros Hk Hn. destruct n as [|n]; [lia|]. cbn [alloc_qpairs]. by rewrite alloc_none. Qed.

(** An entry whose queue pairs are all there. *)
Definition opened (n : nat) (x : spdk_ctrlr * spdk_ns) (e : NSEntry) : Prop :=
  ctrlr e = x.1 /\ ns e = x.2 /\ sector_size e = ns_sector_size x.2 /\ capacity e = ns_size x.2 /\ exists qs, qpair e = Some (Some <$> qs) /\ length qs = n.

Lemma init_entries_ok `{!AllocLaws} used requests n l :
  NoDup ((fun x => ctrlr_id x.1) <$> l) -> (forall x, x ∈ l -> used !! ctrlr_id x.1 = None /\ Z.of_nat n <= opts_num_io_queues x.1) ->
  Forall2 (opened n) l (init_entries used requests n (entry_of <$> l)).
Proof.
  revert used. induction l as [|x l IH]; intros used HN Hl; cbn [fmap list_fmap init_entries]; [constructor|].
  rewrite fmap_cons in HN. apply NoDup_cons in HN as [Hx HN]. destruct (Hl x ltac:(left)) as [Hu Hn].
  destruct (alloc_all used (ctrlr (entry_of x)) requests n 0) as (qs & used' & -> & Hlen & _ & Ho); [cbn; by rewrite Hu | done |].
  constructor; [split_and!; try done; by exists qs|]. apply IH; [done|]. intros y Hy. destruct (Hl y ltac:(by right)) as [Huy Hny].
  split; [|done]. rewrite Ho; [done|]. intros He. apply Hx. cbn in He. rewrite <- He. apply list_elem_of_fmap. by exists y.
Qed.
End device.

(** ** Properties *)
Section properties.
Context `{SPDK} (device_addr : string) (cs : list spdk_ctrlr) (x : spdk_ctrlr * spdk_ns) (xs : list (spdk_ctrlr * spdk_ns)).
(** Controllers are found behind the address; [x] is the last active namespace. *)
Context (Henv : 0 <= spdk_env_init) (Hparse : spdk_nvme_transport_id_parse device_addr = 0).
Context (Hprobe : spdk_nvme_probe device_addr = (0, cs)) (Hcs : cs <> []).

(** The state behind the attached controllers. *)
Lemma init_ok g : g = None -> InitSPDK g device_addr =
  (spdk_info ← init_qpair (foldl attach_cb (new_SPDKInfo device_addr) cs); Ok (Some spdk_info, Some spdk_info, [])).
Proof.
  intros ->. unfold InitSPDK. rewrite (proj2 (Z.ltb_ge _ _)) by done. rewrite Hparse, Hprobe. cbn [Z.eqb negb].
  destruct (attached_ok cs (new_SPDKInfo device_addr) Hcs) as (_ & c & _ & -> & _). done.
Qed.

(** C40: Opening a device with an active namespace registers every active
    namespace of every controller, the last one first, each with all its queue
    pairs, as many as the last controller has queues, provided that no controller
    has two active namespaces or fewer queues than the last one: a controller has
    no more queue pairs than queues, and every one of its namespaces is given as
    many as there are.  Later calls answer the same device, whatever address they
    are given. *)
Theorem init_spdk_ready `{!AllocLaws} c other : last cs = Some c -> reverse (concat (active_of <$> cs)) = x :: xs ->
  ns_max_io_xfer_size x.2 <> 0 -> NoDup ((fun y => ctrlr_id y.1) <$> x :: xs) ->
  (forall y, y ∈ x :: xs -> opts_num_io_queues c <= opts_num_io_queues y.1) -> 0 <= opts_num_io_queues c ->
  exists g, InitSPDK None device_addr = Ok (Some g, Some g, []) /\ controller g = Some c /\
    Forall2 (opened (Z.to_nat (opts_num_io_queues c))) (x :: xs) (namespaces g) /\
    InitSPDK (Some g) other = Ok (Some g, Some g, []).
Proof.
  intros Hlast Hx Hmax HN Hle Hpos. rewrite init_ok by done. destruct (attached_ok cs (new_SPDKInfo device_addr) Hcs) as (Hns & c' & Hc' & Hctl & Hq).
  rewrite Hlast in Hc'. injection Hc' as <-. cbn [namespaces new_SPDKInfo] in Hns. rewrite app_nil_r, <- fmap_reverse, Hx in Hns.
  unfold init_qpair. rewrite Hns. cbn [fmap list_fmap]. cbn [ns entry_of]. rewrite (proj2 (Z.eqb_neq _ _)) by done. cbn [mbind res_bind].
  eexists. split; [done|]. cbn [controller namespaces]. split; [done|]. split; [|done]. rewrite Hq. apply (init_entries_ok ∅ _ _ (x :: xs)); [done|].
  intros y Hy. split; [done|]. rewrite Z2Nat.id by done. by apply Hle.
Qed.

(** A controller with two active namespaces: the second one to be opened
    gets no queue pair, what is behind it not even an array of them; the device is
    answered all the same. *)
Theorem init_spdk_second_namespace `{!AllocLaws} c y : cs = [c] -> reverse (active_of c) = x :: y :: xs -> ns_max_io_xfer_size x.2 <> 0 ->
  0 < opts_num_io_queues c ->
  exists g qs, InitSPDK None device_addr = Ok (Some g, Some g, []) /\
    qpair <$> namespaces g = Some (Some <$> qs) :: Some (replicate (Z.to_nat (opts_num_io_queues c)) None) :: ((fun _ => None) <$> xs).
Proof.
  intros Hc Hx Hmax Hn. rewrite init_ok by done. destruct (attached_ok cs (new_SPDKInfo device_addr) Hcs) as (Hns & c' & Hc' & Hctl & Hq).
  assert (Hxy : x.1 = c /\ y.1 = c).
  { assert (Hin : forall z, z ∈ x :: y :: xs -> z.1 = c); [|split; apply Hin; set_solver].
    intros z Hz. rewrite <- Hx in Hz. apply elem_of_reverse, list_elem_of_fmap in Hz as (m & -> & _). done. }
  destruct Hxy as [Hxc Hyc]. subst cs. injection Hc' as <-. cbn [namespaces new_SPDKInfo fmap list_fmap concat] in Hns.
  rewrite !app_nil_r, <- fmap_reverse, Hx in Hns. unfold init_qpair. rewrite Hns, Hq. cbn [fmap list_fmap]. cbn [ns entry_of].
  rewrite (proj2 (Z.eqb_neq _ _)) by done. cbn [mbind res_bind].
  set (n := Z.to_nat (opts_num_io_queues c)).
  destruct (alloc_all ∅ (ctrlr (entry_of x)) (queue_requests (ns_max_io_xfer_size x.2)) n 0) as (qs & used' & Ha & Hlen & Hd & _); [done | cbn; rewrite Hxc; unfold n; lia |].
  eexists _, qs. split; [done|]. cbn [namespaces init_entries]. rewrite Ha.
  rewrite alloc_none_left; [|cbn in Hd |- *; rewrite Hxc in Hd; rewrite Hyc, Hd; unfold n; lia | unfold n; lia].
  cbn [fmap list_fmap qpair with_qpair]. do 2 f_equal. change ((fun e => qpair e) <$> (entry_of <$> xs) = (fun _ => None) <$> xs). by rewrite <- list_fmap_compose.
Qed.

(** A device whose namespaces are all inactive is not reported: the null
    list is dereferenced. *)
Theorem init_spdk_no_namespace : concat (active_of <$> cs) = [] -> InitSPDK None device_addr = Crash NullDeref.
Proof.
  intros Hx. rewrite init_ok by done. destruct (attached_ok cs (new_SPDKInfo device_addr) Hcs) as (Hns & _).
  unfold init_qpair. rewrite Hns, Hx. done.
Qed.

(** When the first queue pair cannot be allocated the device is answered all
    the same, the first namespace with null queue pairs only, the others with none. *)
Theorem init_spdk_no_queues c : last cs = Some c -> reverse (concat (active_of <$> cs)) = x :: xs -> ns_max_io_xfer_size x.2 <> 0 ->
  0 < opts_num_io_queues c -> (forall c r, alloc_io_qpair 0 c r = None) ->
  exists g, InitSPDK None device_addr = Ok (Some g, Some g, []) /\
    qpair <$> namespaces g = Some (replicate (Z.to_nat (opts_num_io_queues c)) None) :: ((fun _ => None) <$> xs).
Proof.
  intros Hlast Hx Hmax Hn Ha. rewrite init_ok by done. destruct (attached_ok cs (new_SPDKInfo device_addr) Hcs) as (Hns & c' & Hc' & Hctl & Hq).
  rewrite Hlast in Hc'. injection Hc' as <-. cbn [namespaces new_SPDKInfo] in Hns. rewrite app_nil_r, <- fmap_reverse, Hx in Hns.
  unfold init_qpair. rewrite Hns, Hq. cbn [fmap list_fmap]. cbn [ns entry_of]. rewrite (proj2 (Z.eqb_neq _ _)) by done. cbn [mbind res_bind].
  eexists. split; [done|]. cbn [namespaces init_entries]. destruct (Z.to_nat (opts_num_io_queues c)) as [|n] eqn:Hm; [lia|]. cbn [alloc_qpairs]. rewrite Ha.
  cbn [fmap list_fmap]. f_equal. change ((fun e => qpair e) <$> (entry_of <$> xs) = (fun _ => None) <$> xs). by rewrite <- list_fmap_compose.
Qed.
End properties.

(** ** Two controllers, one namespace of each active *)
Definition demo_ns (active : bool) (size : Z) : spdk_ns := {| ns_is_active := active; ns_sector_size := 512; ns_size := size; ns_max_io_xfer_size := 131072 |}.
Definition demo_ctrlr (id queues : Z) (l : list (option spdk_ns)) : spdk_ctrlr := {| ctrlr_id := id; opts_num_io_queues := queues; ctrlr_ns := l |}.
Definition first_ctrlr : spdk_ctrlr := demo_ctrlr 1 4 [Some (demo_ns true 1000); None].
Definition second_ctrlr : spdk_ctrlr := demo_ctrlr 2 2 [Some (demo_ns false 7); Some (demo_ns true 2000)].
Definition demo_spdk (cs : list spdk_ctrlr) (queues : bool) : SPDK := {|
  spdk_env_init := 0; spdk_nvme_transport_id_parse _ := 0; spdk_nvme_probe _ := (0, cs); default_io_queue_requests := 512;
  alloc_io_qpair k c _ := if queues && (Z.of_nat k <? opts_num_io_queues c) then Some (Z.of_nat k) else None
|}.

Lemma demo_alloc cs : AllocLaws (H := demo_spdk cs true).
Proof.
  split; intros k c r Hk; cbn.
  - rewrite (proj2 (Z.ltb_lt _ _) Hk). by eexists.
  - by rewrite (proj2 (Z.ltb_ge _ _) Hk).
Qed.

Lemma init_spdk_ready_witness : exists g,
  InitSPDK (H := demo_spdk [first_ctrlr; second_ctrlr] true) None "pci" = Ok (Some g, Some g, []) /\ capacity <$> namespaces g = [2000; 1000] /\
  qpair <$> namespaces g = [Some [Some 0; Some 1]; Some [Some 0; Some 1]].
Proof.
  destruct (init_spdk_ready (H := demo_spdk [first_ctrlr; second_ctrlr] true) "pci" [first_ctrlr; second_ctrlr] (second_ctrlr, demo_ns true 2000) [(first_ctrlr, demo_ns true 1000)]
    ltac:(done) eq_refl eq_refl ltac:(done) (H0 := demo_alloc _) second_ctrlr "other") as (g & Hg & _);
    [reflexivity | reflexivity | discriminate | cbn; apply NoDup_cons; split; [set_solver | apply NoDup_singleton] | | done |].
  - intros y [->|[->|[]%not_elem_of_nil]%elem_of_cons]%elem_of_cons; cbn; lia.
  - exists g. split; [exact Hg|]. vm_compute in Hg. injection Hg as <-. split; reflexivity.
Defined.

Lemma init_spdk_no_namespace_witness :
  InitSPDK (H := demo_spdk [demo_ctrlr 1 4 [Some (demo_ns false 7)]] true) None "pci" = Crash NullDeref.
Proof. by apply (init_spdk_no_namespace (H := demo_spdk [demo_ctrlr 1 4 [Some (demo_ns false 7)]] true) "pci" [demo_ctrlr 1 4 [Some (demo_ns false 7)]]). Defined.

Lemma init_spdk_no_queues_witness : exists g,
  InitSPDK (H := demo_spdk [first_ctrlr; second_ctrlr] false) None "pci" = Ok (Some g, Some g, []) /\ qpair <$> namespaces g = [Some [None; None]; None].
Proof.
  exact (init_spdk_no_queues (H := demo_spdk [first_ctrlr; second_ctrlr] false) "pci" [first_ctrlr; second_ctrlr] (second_ctrlr, demo_ns true 2000) [(first_ctrlr, demo_ns true 1000)]
    ltac:(done) eq_refl eq_refl ltac:(done) second_ctrlr eq_refl eq_refl ltac:(discriminate) eq_refl (fun _ _ => eq_refl)).
Defined.

(** Three active namespaces of one controller. *)
Definition third_ctrlr : spdk_ctrlr := demo_ctrlr 3 2 [Some (demo_ns true 10); Some (demo_ns true 20); Some (demo_ns true 30)].

Lemma init_spdk_second_namespace_witness : exists g qs,
  InitSPDK (H := demo_spdk [third_ctrlr] true) None "pci" = Ok (Some g, Some g, []) /\ qpair <$> namespaces g = [Some (Some <$> qs); Some [None; None]; None].
Proof.
  exact (init_spdk_second_namespace (H := demo_spdk [third_ctrlr] true) "pci" [third_ctrlr] (third_ctrlr, demo_ns true 30) [(third_ctrlr, demo_ns true 10)]
    ltac:(done) eq_refl eq_refl ltac:(done) (H0 := demo_alloc _) third_ctrlr (third_ctrlr, demo_ns true 20) eq_refl eq_refl ltac:(discriminate) eq_refl).
Defined.
